(* ===== verification/_CoqProject ===== *)
-Q . S2P
Prelude.v
F64.v
Model.v
Source.v
Wire.v
Cache.v
CacheFifo.v
Archive.v
Batcher.v
BatcherProofs.v
Cidr.v
Catalogues.v
Environment.v
Secrets.v
Settings.v
Ui.v
SettingsProofs.v
CachePaths.v
UiDoc.v
UiEffect.v
Control.v
Report.v
Capture.v
Console.v
Gvret.v
Forward.v
ForwardProofs.v
Listener.v
Launch.v
Rows.v
Store.v
Keys.v
Gateway.v
Assignments.v
ServeLoop.v
Sql.v
Frames.v
Schema.v
Migrations.v
Startup.v
Events.v
Import.v
Wtar.v
Swap.v
Running.v
Http.v
System.v
