(* ===== verification/Prelude.v ===== *)
(** * WireTAP server: a verification library

    WireTAP Server is a capture daemon and the gateway it archives to. The daemon
    ([src/crates/wiretap-server]) takes frames off CAN interfaces and serial
    lines, offers the CAN buses to GVRET clients, takes frames from other devices
    over the ingest protocol, and forwards every frame to a gateway; while the
    gateway is away the frames wait on disk. The gateway
    ([src/crates/wiretap-backend]) writes them to PostgreSQL. Both share
    [src/crates/wiretap-model]. This library models the daemon from a read to the
    gateway's acknowledgement, what its listeners do for their clients, the
    catalogues a gateway assigns to serial lines, the settings all of it runs on
    and how they are changed, and the start that puts these together; and of the
    gateway its configuration, secrets and start, the path from a connection's
    record to a row, its sessions, keys and catalogues, its HTTP API and the
    queries behind it, its databases and their migrations, and the archives a
    database is exported to and replaced by.

    ** How the parts fit

    A reader makes a [Sample] of what it reads, hands it to [Archive::enqueue], a
    bounded queue with one consumer, and broadcasts CAN frames to the GVRET
    clients, whose own frames go back to the interface that is not passive. An
    ingest session puts a device's batches on the same queue. The consumer is the
    batcher: it takes batches off the queue and writes them to a [BatchSink];
    when that fails it puts them in a [FrameCache] and drains that first once the
    sink is back. [SqliteCache] is the cache, [ForwardSink] the sink; on
    connecting, [ForwardSink] also takes the gateway's catalogue assignments into
    [Catalogues]. There is one batcher, cache and sink per database, from
    [Settings::forwards]. A UI reads and changes settings over the control
    socket, which writes [ui.toml] and restarts the daemon. [pipeline::run] opens
    the devices, hands each reader the archive of its database, and on a stop ends
    the readers before the archives. The gateway waits for PostgreSQL, prepares
    its own database and only then listens; it makes a
    row of each record and copies a batch into [capture_frame], or, while the
    database's schema is behind or an archive is replacing it, into a buffer that
    is drained later. People read the rows over HTTP, with a key or through a
    console, and administer the databases, the keys and the catalogues there.

    ** Files

    - [Prelude]: [Result] and a state-and-error monad with their notations,
      machine integers, strings and paths as the standard library treats them,
      the tactics and hint databases.
    - [F64]: binary64 as the code uses it.
    - [Model]: [sample.rs] (Module [Sample]) and [config.rs] (Module [Config]).
    - [Source]: bus numbers, clocks and device status ([source/mod.rs],
      [status.rs]).
    - [Wire]: a sample as a protocol record and back ([wire.rs]).
    - [Cache]: [cache.rs]; [FrameCache] with its laws is the class the batcher is
      proved against, [sqlite_frame_cache_laws] discharges it.
    - [CacheFifo]: the cache refines a FIFO; adoption; the concrete disk ([Disk]).
    - [Archive]: the producer half of [archive.rs].
    - [Batcher], [BatcherProofs]: the worker of [archive.rs] and its invariant.
    - [Environment], [Secrets]: the gateway's [config.rs], and its [secrets.rs]
      with the rotation of the database password ([db.rs]).
    - [Cidr]: [cidr.rs] and the address syntax it reads.
    - [Catalogues]: [catalogues.rs] and [blob.rs].
    - [Settings], [Ui]: [settings.rs], [cli.rs], [ui.rs] and [pipeline.rs]'s
      [check]; [SettingsProofs] and [CachePaths] what resolving guarantees.
    - [UiDoc]: [ui.toml] as a document, and [ui.rs]'s [merge]; [UiEffect]: what a
      start makes of each key.
    - [Control], [Report]: [control.rs], and the rows and report of
      [settings.rs].
    - [Capture]: the readers ([pipeline.rs], [source/*], [testpattern.rs]).
    - [Console]: [console.rs] and [pipeline.rs]'s [echo_loop].
    - [Gvret]: [gvret.rs] and [pipeline.rs]'s transmit loop.
    - [Forward], [ForwardProofs]: [forward.rs].
    - [Listener]: [ingest.rs].
    - [Launch]: [pipeline.rs]'s [run], the pipelines of [archive.rs] and the
      daemon's [main.rs].
    - [Rows], [Store]: the gateway's [ingest/writer.rs], the write path of
      [db.rs] and [handle_batch].
    - [Keys], [Gateway]: its [keys.rs] and the sessions of [ingest/mod.rs].
    - [Assignments]: its [catalogs.rs].
    - [ServeLoop]: a connection of [ingest/mod.rs] over its protocol session.
    - [Sql], [Frames], [Events], [Running]: [sql.rs], the paging of its frames,
      [events.rs] and [running.rs].
    - [Schema]: [schema.rs], its statement splitter first.
    - [Migrations]: the sweep, runs, repairs, creation and deletion of databases
      ([db.rs]), as tasks that interleave.
    - [Startup]: the gateway's [main.rs] and what of [db.rs] a start does.
    - [Import], [Wtar], [Swap]: the capture import of [http/mod.rs], the archive
      format of [archive.rs], and the import and swap of [db.rs].
    - [Http]: [http/mod.rs] and [http/console.rs], every handler over a [World]
      of what the rest answers.
    - [System]: the worker run against a [BatchSink], a class that [ForwardSink]
      implements.

    ** State and operations

    A pure function of the source is a function here. A method is state passing:
    [io S E A] is [S -> result E A * S], its [?] the monad's bind. The worker is a
    step function: its program counter stands where the code awaits, and [step]
    is the whole transition of one event (a frame from a producer, the stop
    signal, the sink's answer, a timeout), [None] where the event cannot happen.
    Its [Ghost] lists are written by the operations and read by none. The GVRET
    bridge, the control socket and the gateway's store, keys, sessions,
    assignments and imports are too: a task stands between two reads, requests or SQL statements, and a run is any
    sequence of their events. SQLite and the file system are the class [Sqlite];
    a TCP stream is the list of the answers it will make, so that a theorem over
    all streams is one over all networks; a watch channel is the count of what it
    announced; what [Store], [Assignments] and [Frames] take of PostgreSQL is said
    at their heads, and elsewhere it is the function that answers a query's text
    and arguments. The queue an ingest session shares comes with what the readers,
    the other sessions and the worker do to it before each of the session's
    operations; a HELLO of the gateway is granted, opens its session and closes the
    one before in three steps, others' between them. An HTTP handler's state is the list of what it has done; so is that
    of both starts, over an operating system ([Platform]) or a cluster
    ([Process]) that answers as it likes.

    What the repository only calls is a class: [CanLib] and [ProtoLib] (frame and
    record types), [IngestLib] (the codec), [SessionLib] (the server half of the
    protocol), [CacheLib] (the epoch), [Sqlite], [CatalogueLib] (SHA-1 and the
    catalogue parser), [SettingsLib] (names a gateway accepts, serial line
    syntax), [TapLib] and [TestPatternLib] (framers and the responder),
    [GvretLib] (its codec), [UiLib] and [ReportLib] (TOML text and what a report
    prints), [RowLib] (flag bits and timestamps), [KeyLib] (SHA-256), [SqlLib]
    (base64 and PostgreSQL's reading of a time), [Scripts] (the SQL files),
    [ImportLib] (import bodies), [WtarLib] (gzip and the manifest's JSON),
    [AssignLib] (the validator and PostgreSQL's hash), [HttpLib] (the
    console's identity) and [GatewaySession] (the protocol machine the gateway
    drives, with [GatewayOps] the operations it drives it for). Their laws are what the code relies on and nothing more. Each class has a concrete instance
    ([Wire.Packed], [CacheFifo.Disk], [Catalogues.Bench], [ForwardProofs.Toy],
    [SettingsProofs.Site], [Listener.Door], [Capture.TapBench],
    [Gvret.GvretBench], [Control.Desk], [Report.Shown], [Rows.Stored],
    [Keys.KeyRing], [Assignments.Registry], [Frames.Archive3], [Import.Pieces],
    [Wtar.Tape], [Http.Counter], [ServeLoop.Counter], [Launch.Bench]) on which the witnesses run the definitions.

    ** What is shown

    - The start: every device is read into its own database's archive, and an
      archive outlives what feeds it ([start_feeds_archives]); an echoed line
      says what the frame was ([echo_line_determines]).
    - Capture: every read is offered to the archive and broadcast as it should
      be ([can_reads_published], [serial_reads_published]).
    - Frames: from any start and under any interleaving, every accepted frame is
      acknowledged or dead-lettered, counted dropped, or still held
      ([capture_to_gateway], [no_frame_unaccounted]), in order while the disk
      cache can be read and emptied ([frames_in_order]), and nothing is left in memory at the end
      ([nothing_left_in_memory], [shutdown_in_outage_ends]); the log lines say so
      truthfully ([Archive.producer_reports]) and the spill threshold is exact
      ([queue_filling_exact]).
    - Cache: it is a FIFO under faults ([sqlite_refines_fifo]), rows come back
      ([row_roundtrip]), adoption moves an older cache ([adopt_moves]); a [reset]
      that fails once the file is closed leaves it unusable
      ([failed_reset_unusable]).
    - Link: what it counts was answered ([write_batch_accounts],
      [chunk_counts_on_its_ack]), records decode to their samples
      ([decode_record]), a raw link stays on v3 ([raw_serial_stays_v3]).
    - Listeners: an acknowledged batch is on the queue whole
      ([acked_batches_are_queued]) exactly under a bound on its size and on what
      other producers enqueue meanwhile ([ack_margin_exact]); a GVRET client is given its frames in order and told
      what it lost ([drain_accounts]), and what the bridge writes an allowed
      client asked for ([bridge_writes_are_asked]).
    - Catalogues: while the state directory can be written a restart frames as
      before ([assignments_survive_restart]); a write that is not retried
      ([failed_write_not_retried]).
    - Settings: links ([one_link_per_database], [pipelines_own_their_files]); the bounds of a UI
      ([ui_cannot_transmit], [pinned_is_out_of_reach],
      [ui_never_costs_the_start]) and where its report is wrong
      ([secret_report_diverges]); the allow list ([contains_interval]).
    - Control: an accepted change is what the next start runs on, key by key
      ([change_takes_effect]); no warning, report or answer shows a secret
      ([answers_hide_secrets]), where the config file can be parsed.
    - Gateway: a row is the sample and passes the table's checks
      ([row_of_sample]), its COPY text determines it
      ([copy_text_determines_rows]), an acknowledged row is stored once
      ([acked_rows_are_kept]) and only a current database is read
      ([pool_only_current]); a drain can miss a write
      ([drain_misses_open_write]). A session is an authorised client's
      ([sessions_are_authorised]), a key is accepted as the table says
      ([validate_exact]) and the admin is never locked out
      ([bootstrap_never_locks_out]). Assignments are a register per interface
      ([assignments_linearise]).
    - Gateway, its connections and databases: a connection is a sequence of the
      operations of [Gateway], [Store] and [Assignments] and leaves no session
      behind ([connection_refines]). No two runs migrate a database at once and
      none applies a migration twice ([migrations_exclude]), but a database whose
      first run was cut short is never served ([half_made_never_served]). A
      rotation leaves a password that works at every crash
      ([rotation_never_locks_out]), unless a promotion fails
      ([failed_promotion_locks_out]). A configuration is refused or sound
      ([config_sound]), and nothing is served before the start is done
      ([start_order]).
    - HTTP: what a request does, its caller may do ([requests_are_authorised]), a
      pinned reader sees its own database but for what a cancel tells
      ([pinned_reader_sees_one]), pages cover the frames, each once where
      PostgreSQL orders equal timestamps alike in every query ([pages_cover],
      [ties_can_repeat]), a filter selects what it says
      ([where_clause_selects]), no text of a client's is SQL
      ([query_text_fixed]), and a search finds every match
      ([pattern_search_exact]); a distribution over short frames panics
      ([distribution_by_length]) and a cancel can reach another's query
      ([cancel_hits_another]).
    - Archives and imports: a body's cuts do not matter but to a copy that is
      refused ([import_any_chunking]),
      an archive reads back ([archive_reads_back]), a script splits into its
      statements ([split_statements_exact]), and ingest held across a replace is
      kept ([held_rows_kept]), but for a drain that should not run then
      ([sweep_loses_held_rows], [abandoned_drain_loses_held_rows]).

    ** Fuel

    [recv_any] is bounded by the reads left, [recv], [recv_catalog] and [fetch] by
    the bytes left, since every turn takes a message or a read; [write_batch] by
    the frames left, since every chunk carries one. [loops_complete] shows that
    each satisfies the equation of the unbounded loop. [adopt_loop]'s fuel is one
    more than the rows to move; [adopt_moves] shows that it ends. [poll_loop]'s is
    the actions the session machine has pending, [drain_loop]'s the frames a
    client has yet to receive; [acked_batches_are_queued] and [drain_accounts]
    show that neither runs out. The address parser's is the text. [pages]' is one
    more than the frames there are, and [pages_cover] shows that it ends;
    [wait_for_postgres]'s is the sixty-one attempts of the source, and
    [start_order] that it never runs out; [g_poll_loop]'s is
    the pending actions, as [poll_loop]'s; [upper_hex] prints at most the eight
    digits of a [u32];
    [import_rows_from]'s and the archive reader's are the bytes left, and
    [import_any_chunking] and [archive_reads_back] that they are enough.

    ** Not modelled

    Log lines that only report and the periodic statistics, the length of the
    backoff, signals, accept loops, which only start a session or a handler;
    device and socket reads; clap, serde and toml; the reading of the daemon's
    environment and host name. The worker's cache and the sink's dead-letter file
    are on disks of their own in [System]; [pipelines_own_their_files] is why that
    is sound. A string is its bytes, so [Debug] escapes ASCII only and [trim] takes
    off ASCII white space. A number of [F64] is finite: a [ui.toml] edited to hold an
    infinite or NaN interval is left out. Of the gateway:
    the plans and the meaning of the SQL but for a filter's, the texts of a
    migration's progress, the driving of an archive's tables through COPY (its
    format and what may be imported are modelled), the listing of keys as JSON,
    the static files of the console, the access log and the reading of a refused
    upload: each passes data between PostgreSQL and HTTP and decides nothing. *)

From stdpp Require Export base list gmap strings numbers pretty.
From Stdlib Require Export ZArith Lia.
From Stdlib Require Import Ascii.

(** ** Results

    Rust's [Result<A, E>], with the early return of [?] as a notation. *)

Inductive result (E A : Type) : Type :=
  | Ok (a : A)
  | Err (e : E).
Arguments Ok {E A} a.
Arguments Err {E A} e.

Declare Scope result_scope.
Delimit Scope result_scope with result.
Notation "x '<-?' c ';;' k" :=
  (match c with Ok x => k | Err e => Err e end)
  (at level 100, c at next level, right associativity) : result_scope.
Notation "'check' c ';;' k" :=
  (match c with Ok _ => k | Err e => Err e end)
  (at level 100, c at next level, right associativity) : result_scope.
Open Scope result_scope.

Definition is_ok {E A} (r : result E A) : bool :=
  match r with Ok _ => true | Err _ => false end.

(** [Result::map_err]. *)
Definition map_err {E F A} (f : E → F) (r : result E A) : result F A :=
  match r with Ok a => Ok a | Err e => Err (f e) end.

(** [Option::ok_or]. *)
Definition ok_or {E A} (o : option A) (e : E) : result E A :=
  match o with Some a => Ok a | None => Err e end.

(** [iter().map(f).collect::<Result<Vec<_>, _>>()]: the first error wins. *)
Fixpoint collect {E A B} (f : A → result E B) (l : list A) : result E (list B) :=
  match l with
  | [] => Ok []
  | x :: l' =>
      y <-? f x ;;
      ys <-? collect f l' ;;
      Ok (y :: ys)
  end.

#[global] Instance result_eq_dec {E A} `{EqDecision E, EqDecision A} :
  EqDecision (result E A).
Proof. solve_decision. Defined.

(** ** Effects

    A method that may fail and changes the state on the way: on an error the
    state is the one the failing call left behind, as [?] leaves [&mut self]. *)

Definition io (S E A : Type) : Type := S → result E A * S.

#[global] Instance io_ret {S E} : MRet (io S E) := λ A a s, (Ok a, s).
#[global] Instance io_bind {S E} : MBind (io S E) := λ A B k m s,
  match m s with (Ok a, s') => k a s' | (Err e, s') => (Err e, s') end.

Definition io_err {S E A} (e : E) : io S E A := λ s, (Err e, s).
Definition io_get {S E} : io S E S := λ s, (Ok s, s).
Definition io_modify {S E} (f : S → S) : io S E () := λ s, (Ok (), f s).
(** A pure result, with [?]. *)
Definition io_lift {S E A} (r : result E A) : io S E A := λ s, (r, s).

Lemma io_bind_inv {S E A B} (m : io S E A) (k : A → io S E B) s r s' :
  (m ≫= k) s = (r, s') →
  (∃ a s1, m s = (Ok a, s1) ∧ k a s1 = (r, s')) ∨ (∃ e, m s = (Err e, s') ∧ r = Err e).
Proof.
  unfold mbind, io_bind. destruct (m s) as [[a|e] s1]; [eauto|]. intros [= <- <-]. eauto.
Qed.

(** A computation whose state is the list of what it has done, each of which [P]
    holds of. *)
Definition emit {Ev E} (e : Ev) : io (list Ev) E () := io_modify (λ es, es ++ [e]).
Definition emits {Ev E A} (P : Ev → Prop) (m : io (list Ev) E A) : Prop :=
  ∀ es, ∃ new, (m es).2 = es ++ new ∧ Forall P new.

Section Emits.
Context {Ev E : Type} (P : Ev → Prop).
Lemma emits_pure {A} (r : result E A) : emits P (io_lift r).
Proof. intros es. exists []. by rewrite app_nil_r. Qed.
Lemma emits_ret {A} (a : A) : emits P (mret a : io (list Ev) E A).
Proof. intros es. exists []. by rewrite app_nil_r. Qed.
Lemma emits_err {A} (e : E) : emits P (io_err (A := A) e).
Proof. intros es. exists []. by rewrite app_nil_r. Qed.
Lemma emits_emit e : P e → emits P (emit (E := E) e).
Proof. intros He es. exists [e]. split; [done|]. by constructor. Qed.
(** What follows may use that the first part came to [a]. *)
Lemma emits_bind_run {A B} (m : io (list Ev) E A) (k : A → io (list Ev) E B) :
  emits P m → (∀ a, (∃ s s', m s = (Ok a, s')) → emits P (k a)) → emits P (m ≫= k).
Proof.
  intros Hm Hk es. unfold mbind, io_bind. destruct (Hm es) as (new & Hes & Hnew).
  destruct (m es) as [[a|e] es'] eqn:Hr; cbn in Hes; subst es'; [|by exists new].
  destruct (Hk a ltac:(eauto) (es ++ new)) as (new' & Hes' & Hnew'). exists (new ++ new').
  rewrite Hes', app_assoc. split; [done|]. by apply Forall_app.
Qed.
Lemma emits_bind {A B} (m : io (list Ev) E A) (k : A → io (list Ev) E B) :
  emits P m → (∀ a, emits P (k a)) → emits P (m ≫= k).
Proof. intros Hm Hk. by apply emits_bind_run. Qed.
Lemma emits_run {A} (m : io (list Ev) E A) es r es' : emits P m → m es = (r, es') → ∃ new, es' = es ++ new ∧ Forall P new.
Proof. intros Hm Hr. specialize (Hm es). by rewrite Hr in Hm. Qed.
Lemma emits_if {A} (b : bool) (m m' : io (list Ev) E A) :
  (b = true → emits P m) → (b = false → emits P m') → emits P (if b then m else m').
Proof. destruct b; auto. Qed.
Lemma io_lift_ok {A} (r : result E A) a : (∃ s s' : list Ev, io_lift r s = (Ok a, s')) → r = Ok a.
Proof. intros (s & s' & Hr). unfold io_lift in Hr. congruence. Qed.
End Emits.

(** [str::strip_prefix]. *)
Fixpoint strip_prefix (p s : string) : option string :=
  match p, s with
  | EmptyString, _ => Some s
  | String a p, String b s => if bool_decide (a = b) then strip_prefix p s else None
  | String _ _, EmptyString => None
  end.

(** ** Machine integers

    A [w]-bit unsigned integer is a [Z] in [[0, 2^w)]. *)

Definition u8_max : Z := 255.
Definition u32_modulus : Z := 2 ^ 32.
Definition u64_modulus : Z := 2 ^ 64.
Definition i64_max : Z := 2 ^ 63 - 1.
Definition i64_min : Z := - 2 ^ 63.

Definition is_u8 (z : Z) : Prop := (0 ≤ z ≤ 255)%Z.
Definition is_u32 (z : Z) : Prop := (0 ≤ z < u32_modulus)%Z.
Definition is_i64 (z : Z) : Prop := (i64_min ≤ z ≤ i64_max)%Z.

#[global] Instance is_u8_dec z : Decision (is_u8 z).
Proof. unfold is_u8. apply _. Defined.
#[global] Instance is_u32_dec z : Decision (is_u32 z).
Proof. unfold is_u32. apply _. Defined.
#[global] Instance is_i64_dec z : Decision (is_i64 z).
Proof. unfold is_i64. apply _. Defined.

Definition wrapping_add_u32 (a b : Z) : Z := ((a + b) mod u32_modulus)%Z.

(** [u8::checked_add] and [u8::checked_sub]. *)
Definition checked_add_u8 (a b : Z) : option Z :=
  if (a + b <=? u8_max)%Z then Some (a + b)%Z else None.
Definition checked_sub_u8 (a b : Z) : option Z :=
  if (b <=? a)%Z then Some (a - b)%Z else None.

(** [u8::try_from] of a [usize]. *)
Definition u8_try_from (n : nat) : option Z :=
  if (Z.of_nat n <=? u8_max)%Z then Some (Z.of_nat n) else None.

(** A [u64] read as the [i64] of the same bits ([as i64]). *)
Definition as_i64 (z : Z) : Z :=
  let m := (z mod u64_modulus)%Z in
  if (m <? 2 ^ 63)%Z then m else (m - u64_modulus)%Z.

(** ** Strings

    A string is a sequence of ASCII characters. *)

Definition ascii_is_upper (c : ascii) : bool :=
  let n := nat_of_ascii c in (65 <=? n)%nat && (n <=? 90)%nat.
Definition ascii_is_lower (c : ascii) : bool :=
  let n := nat_of_ascii c in (97 <=? n)%nat && (n <=? 122)%nat.
Definition ascii_is_digit (c : ascii) : bool :=
  let n := nat_of_ascii c in (48 <=? n)%nat && (n <=? 57)%nat.
Definition ascii_is_space (c : ascii) : bool :=
  let n := nat_of_ascii c in ((9 <=? n) && (n <=? 13))%nat || (n =? 32)%nat.

(** [char::to_ascii_lowercase] and [char::to_ascii_uppercase]. *)
Definition ascii_lower (c : ascii) : ascii :=
  if ascii_is_upper c then ascii_of_nat (nat_of_ascii c + 32) else c.
Definition ascii_upper (c : ascii) : ascii :=
  if ascii_is_lower c then ascii_of_nat (nat_of_ascii c - 32) else c.

Fixpoint str_map (f : ascii → ascii) (s : string) : string :=
  match s with
  | EmptyString => EmptyString
  | String c s' => String (f c) (str_map f s')
  end.
Definition to_ascii_lowercase : string → string := str_map ascii_lower.
Definition to_ascii_uppercase : string → string := str_map ascii_upper.

Definition str_eqb (a b : string) : bool := bool_decide (a = b).

(** [str::eq_ignore_ascii_case]. *)
Definition eq_ignore_ascii_case (a b : string) : bool :=
  str_eqb (to_ascii_lowercase a) (to_ascii_lowercase b).

Definition is_empty_str (s : string) : bool :=
  match s with EmptyString => true | _ => false end.

Fixpoint str_all (p : ascii → bool) (s : string) : bool :=
  match s with
  | EmptyString => true
  | String c s' => p c && str_all p s'
  end.
Definition str_any (p : ascii → bool) (s : string) : bool :=
  negb (str_all (λ c, negb (p c)) s).

(** [str::split(c)]: always at least one piece. *)
Fixpoint str_split (sep : ascii) (s : string) : list string :=
  match s with
  | EmptyString => [EmptyString]
  | String c s' =>
      if bool_decide (c = sep) then EmptyString :: str_split sep s'
      else match str_split sep s' with
           | [] => [String c EmptyString]
           | p :: ps => String c p :: ps
           end
  end.

(** [str::trim]. *)
Fixpoint trim_start (s : string) : string :=
  match s with
  | String c s' => if ascii_is_space c then trim_start s' else s
  | EmptyString => EmptyString
  end.
Fixpoint trim_end (s : string) : string :=
  match s with
  | EmptyString => EmptyString
  | String c s' =>
      match trim_end s' with
      | EmptyString => if ascii_is_space c then EmptyString else String c EmptyString
      | t => String c t
      end
  end.
Definition str_trim (s : string) : string := trim_end (trim_start s).

(** [[T]::join]. *)
Fixpoint str_join (sep : string) (l : list string) : string :=
  match l with
  | [] => EmptyString
  | [x] => x
  | x :: l' => x +:+ sep +:+ str_join sep l'
  end.

(** Between double quotes. *)
Definition quote : string := String (ascii_of_nat 34) EmptyString.
Definition quoted (s : string) : string := quote +:+ s +:+ quote.

Definition hex_digit (n : Z) : ascii :=
  if (n <? 10)%Z then ascii_of_nat (48 + Z.to_nat n) else ascii_of_nat (87 + Z.to_nat n).

(** [hex::encode]: two digits a byte. *)
Fixpoint hex_encode (l : list Z) : string :=
  match l with
  | [] => EmptyString
  | b :: l => String (hex_digit (b / 16)) (String (hex_digit (b mod 16)) (hex_encode l))
  end.

(** [format!("{:x}")] of a number below [16^fuel]. *)
Fixpoint hex_str_aux (fuel : nat) (n : Z) (acc : string) : string :=
  match fuel with
  | O => acc
  | S fuel =>
      let acc := String (hex_digit (n mod 16)) acc in
      if (n / 16 =? 0)%Z then acc else hex_str_aux fuel (n / 16)%Z acc
  end.
Definition hex_str (n : Z) : string := hex_str_aux 8 n EmptyString.

(** [str]'s [Debug]: quoted and escaped. *)
Definition debug_char (c : ascii) : string :=
  let n := nat_of_ascii c in
  let escaped (x : ascii) := String (ascii_of_nat 92) (String x EmptyString) in
  if (n =? 0)%nat then escaped "0"%char
  else if (n =? 9)%nat then escaped "t"%char
  else if (n =? 10)%nat then escaped "n"%char
  else if (n =? 13)%nat then escaped "r"%char
  else if (n =? 34)%nat || (n =? 92)%nat then escaped c
  else if (n <? 32)%nat || (n =? 127)%nat then escaped "u"%char +:+ "{" +:+ hex_str (Z.of_nat n) +:+ "}"
  else String c EmptyString.
Fixpoint debug_chars (s : string) : string :=
  match s with EmptyString => EmptyString | String c s => debug_char c +:+ debug_chars s end.
Definition debug_str (s : string) : string := quoted (debug_chars s).
(** A slice's [Debug], from its elements'. *)
Definition debug_list (l : list string) : string := "[" +:+ str_join ", " l +:+ "]".

Fixpoint str_starts_with (p s : string) : bool :=
  match p, s with
  | EmptyString, _ => true
  | String a p', String b s' => bool_decide (a = b) && str_starts_with p' s'
  | String _ _, EmptyString => false
  end.

(** [Path::join]: an absolute name replaces the directory. *)
Fixpoint ends_with_slash (s : string) : bool :=
  match s with
  | EmptyString => false
  | String c EmptyString => bool_decide (c = "/"%char)
  | String _ s' => ends_with_slash s'
  end.
Definition path_join (dir name : string) : string :=
  if str_starts_with "/" name then name
  else if is_empty_str dir || ends_with_slash dir then dir +:+ name else dir +:+ "/" +:+ name.

Fixpoint last_char (s : string) : option ascii :=
  match s with
  | EmptyString => None
  | String c EmptyString => Some c
  | String _ s' => last_char s'
  end.

(** ** Lists *)

(** [slice::chunks(n)], with [n] at least one, by recursion on the length. *)
Fixpoint chunks_aux {A} (fuel n : nat) (l : list A) : list (list A) :=
  match fuel, l with
  | _, [] => []
  | O, _ => [l]
  | S fuel', _ => take n l :: chunks_aux fuel' n (drop n l)
  end.
Definition chunks {A} (n : nat) (l : list A) : list (list A) :=
  chunks_aux (length l) n l.

(** [iter().enumerate()]. *)
Fixpoint enumerate_from {A} (i : nat) (l : list A) : list (nat * A) :=
  match l with
  | [] => []
  | x :: l' => (i, x) :: enumerate_from (S i) l'
  end.
Definition enumerate {A} (l : list A) : list (nat * A) := enumerate_from 0 l.

(** [iter().filter_map(f)]. *)
Definition filter_map {A B} (f : A → option B) (l : list A) : list B := omap f l.

(** [iter().find(p)]. *)
Definition find_first {A} (p : A → bool) (l : list A) : option A := List.find p l.

Lemma omap_fmap_some {A B C} (f : B → option C) (g : A → B) (h : A → C) (l : list A) :
  (∀ x, f (g x) = Some (h x)) → omap f (g <$> l) = h <$> l.
Proof. intros Hfg. induction l as [|x l IH]; [done|]. cbn. rewrite Hfg. cbn. by f_equal. Qed.
Lemma omap_fmap_none {A B C} (f : B → option C) (g : A → B) (l : list A) : (∀ x, f (g x) = None) → omap f (g <$> l) = [].
Proof. intros Hfg. induction l as [|x l IH]; [done|]. cbn. by rewrite Hfg. Qed.

Lemma chunks_aux_concat {A} fuel n (l : list A) :
  (0 < n)%nat → (length l ≤ fuel)%nat → concat (chunks_aux fuel n l) = l.
Proof.
  intros Hn; revert l; induction fuel as [|fuel IH]; intros l Hl.
  { destruct l; [done|simpl in Hl; lia]. }
  destruct l as [|x l]; [done|]. cbn [chunks_aux concat].
  rewrite IH; [apply take_drop|]. rewrite length_drop. simpl in *. lia.
Qed.

Lemma chunks_concat {A} n (l : list A) : (0 < n)%nat → concat (chunks n l) = l.
Proof. intros. by apply chunks_aux_concat. Qed.

Lemma chunks_aux_length {A} fuel n (l c : list A) :
  (0 < n)%nat → (length l ≤ fuel)%nat → c ∈ chunks_aux fuel n l →
  (0 < length c ≤ n)%nat.
Proof.
  intros Hn; revert l; induction fuel as [|fuel IH]; intros l Hl Hc.
  { destruct l; [by apply elem_of_nil in Hc|simpl in Hl; lia]. }
  destruct l as [|x l]; [by apply elem_of_nil in Hc|]. cbn [chunks_aux] in Hc.
  apply elem_of_cons in Hc as [->|Hc].
  - rewrite length_take. simpl. lia.
  - eapply IH; [|exact Hc]. rewrite length_drop. simpl in *. lia.
Qed.

Lemma chunks_length {A} n (l c : list A) :
  (0 < n)%nat → c ∈ chunks n l → (0 < length c ≤ n)%nat.
Proof. intros ? Hc. by eapply chunks_aux_length. Qed.

Lemma enumerate_from_app {A} i (l k : list A) :
  enumerate_from i (l ++ k) = enumerate_from i l ++ enumerate_from (i + length l) k.
Proof.
  revert i; induction l as [|x l IH]; intros i; simpl.
  - by rewrite Nat.add_0_r.
  - f_equal. rewrite IH. do 2 f_equal. lia.
Qed.

Lemma fmap_snd_enumerate_from {A} i (l : list A) : (enumerate_from i l).*2 = l.
Proof. revert i; induction l as [|x l IH]; intros i; simpl; [done|]. by rewrite IH. Qed.

Lemma elem_of_enumerate_from {A} i (l : list A) j x :
  (j, x) ∈ enumerate_from i l ↔ (i ≤ j)%nat ∧ l !! (j - i)%nat = Some x.
Proof.
  revert i; induction l as [|y l IH]; intros i; simpl.
  - split; [by intros H%elem_of_nil|]. rewrite lookup_nil. naive_solver.
  - rewrite elem_of_cons, IH. split.
    + intros [[= -> ->]|[Hle Hl]].
      * split; [done|]. by rewrite Nat.sub_diag.
      * split; [lia|]. by replace (j - i)%nat with (S (j - S i)) by lia.
    + intros [Hle Hl]. destruct (decide (i = j)) as [->|].
      * rewrite Nat.sub_diag in Hl. left. by simplify_eq/=.
      * right. split; [lia|]. by replace (j - i)%nat with (S (j - S i)) in Hl by lia.
Qed.

Lemma elem_of_enumerate {A} (l : list A) j x :
  (j, x) ∈ enumerate l ↔ l !! j = Some x.
Proof. unfold enumerate. rewrite elem_of_enumerate_from, Nat.sub_0_r. naive_solver lia. Qed.

Lemma find_first_Some {A} (p : A → bool) l x :
  find_first p l = Some x → x ∈ l ∧ p x = true.
Proof. intros [Hin Hp]%List.find_some. by rewrite list_elem_of_In. Qed.

Lemma find_first_None {A} (p : A → bool) l x :
  find_first p l = None → x ∈ l → p x = false.
Proof. intros Hf Hin. eapply List.find_none; [exact Hf|]. by rewrite <-list_elem_of_In. Qed.

Lemma existsb_elem {A} (p : A → bool) l :
  existsb p l = true ↔ ∃ x, x ∈ l ∧ p x = true.
Proof. rewrite existsb_exists. by setoid_rewrite list_elem_of_In. Qed.

Lemma forallb_elem {A} (p : A → bool) l :
  forallb p l = true ↔ ∀ x, x ∈ l → p x = true.
Proof. rewrite forallb_forall. by setoid_rewrite list_elem_of_In. Qed.

Lemma filter_all {A} (P : A → Prop) `{∀ x, Decision (P x)} (l : list A) : Forall P l → filter P l = l.
Proof. induction 1; [done|]. by rewrite filter_cons_True, IHForall. Qed.
Lemma filter_none {A} (P : A → Prop) `{∀ x, Decision (P x)} (l : list A) :
  Forall (λ x, ¬ P x) l → filter P l = [].
Proof. induction 1; [done|]. by rewrite filter_cons_False. Qed.
Lemma Forall_filter {A} (P Q : A → Prop) `{∀ x, Decision (P x)} (l : list A) :
  Forall Q l → Forall Q (filter P l).
Proof. rewrite !Forall_forall. intros HQ x [_ Hx]%list_elem_of_filter. auto. Qed.

Lemma list_filter_iff' {A} (P Q : A → Prop) `{∀ x, Decision (P x), ∀ x, Decision (Q x)} (l : list A) :
  (∀ x, x ∈ l → P x ↔ Q x) → filter P l = filter Q l.
Proof.
  induction l as [|x l IH]; intros HPQ; [done|]. rewrite !filter_cons.
  rewrite (decide_ext (P x) (Q x)) by (apply HPQ; left).
  rewrite IH; [done|]. intros y Hy. apply HPQ. by right.
Qed.

(** Removing a prefix by its keys is dropping it, when the keys are distinct. *)
Lemma filter_drop_keys {A} (key : A → Z) (l : list A) n :
  NoDup (key <$> l) → filter (λ x, key x ∉ (key <$> take n l)) l = drop n l.
Proof.
  revert n; induction l as [|x l IH]; intros n Hnd; [by rewrite drop_nil|].
  rewrite fmap_cons in Hnd. apply NoDup_cons in Hnd as [Hx Hnd].
  destruct n as [|n].
  { apply filter_all, Forall_forall. intros y _. apply not_elem_of_nil. }
  cbn [take drop]. rewrite fmap_cons, filter_cons_False by (intros Hn; apply Hn; left).
  rewrite <-IH by done. apply list_filter_iff'. intros y Hy.
  rewrite not_elem_of_cons. split; [by intros [_ ?]|]. intros Hn. split; [|done].
  intros Heq. apply Hx. rewrite <-Heq. by apply list_elem_of_fmap_2.
Qed.

Lemma sublist_same_length {A} (l k : list A) : sublist l k → length k ≤ length l → l = k.
Proof.
  induction 1 as [|x l k Hl IH|x l k Hl IH]; simpl; intros Hlen; [done|f_equal; apply IH; lia|].
  apply sublist_length in Hl. lia.
Qed.

(** ** Results: what [collect] says *)

Lemma collect_Ok {E A B} (f : A → result E B) l ys :
  collect f l = Ok ys ↔ Forall2 (λ x y, f x = Ok y) l ys.
Proof.
  revert ys; induction l as [|x l IH]; intros ys; simpl.
  - split; [intros [= <-]; constructor|by inversion 1].
  - destruct (f x) as [y|e] eqn:Hx; [|split; [done|inversion 1; congruence]].
    destruct (collect f l) as [zs|e] eqn:Hl.
    + split.
      * intros [= <-]. constructor; [done|]. by apply IH.
      * inversion 1 as [|? ? ? ? Hxy Hrest]; simplify_eq.
        apply IH in Hrest. congruence.
    + split; [done|]. inversion 1 as [|? ? ? ? Hxy Hrest]; simplify_eq.
      apply IH in Hrest. congruence.
Qed.

Lemma collect_length {E A B} (f : A → result E B) l ys :
  collect f l = Ok ys → length ys = length l.
Proof. intros H%collect_Ok. symmetry. by eapply Forall2_length. Qed.

(** ** Strings: facts *)

Lemma str_eqb_eq a b : str_eqb a b = true ↔ a = b.
Proof. unfold str_eqb. by rewrite bool_decide_eq_true. Qed.
Lemma str_eqb_neq a b : str_eqb a b = false ↔ a ≠ b.
Proof. unfold str_eqb. by rewrite bool_decide_eq_false. Qed.
Lemma str_eqb_refl a : str_eqb a a = true.
Proof. by apply str_eqb_eq. Qed.

(** [sep] does not occur in [s]. *)
Definition str_free (sep : ascii) (s : string) : bool :=
  str_all (λ c, bool_decide (c ≠ sep)) s.

Lemma str_split_free sep s : str_free sep s = true → str_split sep s = [s].
Proof.
  unfold str_free. induction s as [|c s IH]; simpl; [done|].
  intros [Hc Hs]%andb_true_iff. apply bool_decide_eq_true in Hc.
  rewrite bool_decide_eq_false_2 by done. by rewrite IH.
Qed.

Lemma str_split_app sep a b :
  str_free sep a = true →
  str_split sep (a +:+ String sep b) = a :: str_split sep b.
Proof.
  unfold str_free. induction a as [|c a IH]; simpl.
  - intros _. by rewrite bool_decide_eq_true_2.
  - intros [Hc Ha]%andb_true_iff. apply bool_decide_eq_true in Hc.
    rewrite bool_decide_eq_false_2 by done. by rewrite IH.
Qed.

Lemma str_split_join sep l :
  l ≠ [] → Forall (λ s, str_free sep s = true) l →
  str_split sep (str_join (String sep EmptyString) l) = l.
Proof.
  intros Hne Hl. induction Hl as [|x l Hx Hl IH]; [done|].
  destruct l as [|y l]; [by apply str_split_free|].
  change (str_split sep (x +:+ String sep (str_join (String sep EmptyString) (y :: l)))
    = x :: y :: l).
  rewrite str_split_app by done. by rewrite IH.
Qed.

Lemma str_split_pieces_free sep s :
  Forall (λ p, str_free sep p = true) (str_split sep s).
Proof.
  unfold str_free. induction s as [|c s IH]; simpl; [by repeat constructor|].
  case_bool_decide as Hc; [by constructor|].
  destruct (str_split sep s) as [|p ps]; [by repeat constructor; simpl; rewrite bool_decide_eq_true_2|].
  inversion_clear IH. constructor; [|done]. simpl. by rewrite bool_decide_eq_true_2.
Qed.

Lemma str_app_assoc (a b c : string) : a +:+ b +:+ c = (a +:+ b) +:+ c.
Proof.
  induction a as [|x a IH]; [done|].
  change (String x (a +:+ (b +:+ c)) = String x ((a +:+ b) +:+ c)). by rewrite IH.
Qed.
Lemma str_all_app p a b : str_all p (a +:+ b) = str_all p a && str_all p b.
Proof. induction a as [|c a IH]; [done|]. cbn [str_all]. by rewrite <-andb_assoc, <-IH. Qed.
Lemma str_all_impl (p q : ascii → bool) s :
  (∀ c, p c = true → q c = true) → str_all p s = true → str_all q s = true.
Proof.
  intros Hpq. induction s as [|c s IH]; [done|]. cbn [str_all]. rewrite !andb_true_iff. intros [Hc Hs]. auto.
Qed.

(** What [hex_encode] writes is read back from its digits. *)
Lemma hex_digit_inj (a b : Z) : (0 ≤ a < 16)%Z → (0 ≤ b < 16)%Z → hex_digit a = hex_digit b → a = b.
Proof.
  intros Ha Hb Heq. apply (f_equal nat_of_ascii) in Heq. unfold hex_digit in Heq.
  destruct (a <? 10)%Z eqn:Ea, (b <? 10)%Z eqn:Eb; rewrite !nat_ascii_embedding in Heq by lia; lia.
Qed.
Lemma nibbles (b : Z) : (0 ≤ b < 256)%Z → (0 ≤ b / 16 < 16 ∧ 0 ≤ b mod 16 < 16)%Z.
Proof.
  intros [? ?]. split; [|apply Z.mod_pos_bound; lia].
  split; [apply Z.div_pos; lia|apply Z.div_lt_upper_bound; lia].
Qed.
Lemma hex_encode_inj (x y : list Z) :
  Forall (λ b, 0 ≤ b < 256)%Z x → Forall (λ b, 0 ≤ b < 256)%Z y → hex_encode x = hex_encode y → x = y.
Proof.
  intros Hx. revert y. induction Hx as [|a x Ha Hx IH]; intros y Hy; destruct Hy as [|b y Hb Hy]; try done.
  cbn. intros He. injection He as E1 E2 E3. destruct (nibbles a Ha), (nibbles b Hb).
  apply hex_digit_inj in E1, E2; try done. f_equal; [|by apply IH].
  rewrite (Z.div_mod a 16), (Z.div_mod b 16) by done. congruence.
Qed.

(** What [Display] writes of an integer: digits, after a sign. *)
Definition number_char (c : ascii) : bool :=
  bool_decide (c = "-"%char) || ((48 <=? nat_of_ascii c)%nat && (nat_of_ascii c <=? 57)%nat).
Lemma pretty_N_go_number n s : str_all number_char s = true → str_all number_char (pretty_N_go n s) = true.
Proof.
  revert s. induction (N.lt_wf_0 n) as [n _ IH]; intros s Hs.
  destruct (decide (n = 0)%N) as [->|Hn]; [by rewrite pretty_N_go_0|].
  rewrite pretty_N_go_step by lia. apply IH; [apply N.div_lt; lia|]. cbn [str_all].
  rewrite Hs, andb_true_r. unfold pretty_N_char. repeat case_match; done.
Qed.
Lemma pretty_number (z : Z) : str_all number_char (pretty z) = true.
Proof.
  assert (∀ n : N, str_all number_char (pretty n) = true) as Hn.
  { intros n. unfold pretty, pretty_N. case_decide; [done|]. by apply pretty_N_go_number. }
  destruct z as [|q|q]; [done|apply (Hn (Npos q))|exact (Hn (Npos q))].
Qed.

Lemma str_all_trim_start p s : str_all p s = true → str_all p (trim_start s) = true.
Proof.
  induction s as [|c s IH]; simpl; [done|]. intros [Hc Hs]%andb_true_iff.
  destruct (ascii_is_space c); [auto|]. simpl. by rewrite Hc.
Qed.
Lemma str_all_trim_end p s : str_all p s = true → str_all p (trim_end s) = true.
Proof.
  induction s as [|c s IH]; simpl; [done|]. intros [Hc Hs]%andb_true_iff.
  specialize (IH Hs). destruct (trim_end s) as [|d t]; [destruct (ascii_is_space c)|]; simpl in *.
  - done.
  - by rewrite Hc.
  - by rewrite Hc, IH.
Qed.
Lemma str_free_trim sep s : str_free sep s = true → str_free sep (str_trim s) = true.
Proof. intros. by apply str_all_trim_end, str_all_trim_start. Qed.

Lemma trim_end_idemp s : trim_end (trim_end s) = trim_end s.
Proof.
  induction s as [|c s IH]; simpl; [done|].
  destruct (trim_end s) as [|d t] eqn:Ht; [destruct (ascii_is_space c) eqn:Hc|].
  - done.
  - simpl. by rewrite Hc.
  - cbn [trim_end] in *. by rewrite IH.
Qed.

(** A trimmed start stays trimmed when the end is trimmed. *)
Lemma trim_start_trim_end s : trim_start s = s → trim_start (trim_end s) = trim_end s.
Proof.
  destruct s as [|c s]; [done|]. simpl. destruct (ascii_is_space c) eqn:Hc.
  - intros Hs. exfalso. assert (Hlen : ∀ t, (String.length (trim_start t) ≤ String.length t)%nat).
    { induction t as [|x t IH]; simpl; [lia|]. destruct (ascii_is_space x); simpl; lia. }
    specialize (Hlen s). rewrite Hs in Hlen. simpl in Hlen. lia.
  - intros _. destruct (trim_end s); simpl; by rewrite Hc.
Qed.
Lemma trim_start_idemp s : trim_start (trim_start s) = trim_start s.
Proof.
  induction s as [|c s IH]; simpl; [done|].
  destruct (ascii_is_space c) eqn:Hc; [done|]. simpl. by rewrite Hc.
Qed.
Lemma str_trim_idemp s : str_trim (str_trim s) = str_trim s.
Proof.
  unfold str_trim. rewrite trim_start_trim_end by apply trim_start_idemp.
  apply trim_end_idemp.
Qed.

Lemma last_char_app s c t : last_char (s +:+ String c t) = last_char (String c t).
Proof.
  induction s as [|d s IH]; [done|]. change (String d s +:+ String c t) with (String d (s +:+ String c t)).
  rewrite <-IH. by destruct s.
Qed.
Lemma path_join_last d c n : last_char (path_join d (String c n)) = last_char (String c n).
Proof.
  unfold path_join. destruct (str_starts_with _ _); [done|].
  destruct (_ || _); [apply last_char_app|]. apply (last_char_app d "/" (String c n)).
Qed.
Lemma path_join_inj d n m :
  str_starts_with "/" n = false → str_starts_with "/" m = false →
  path_join d n = path_join d m → n = m.
Proof.
  unfold path_join. intros -> ->. destruct (_ || _); [apply (inj _)|].
  intros Heq%(inj (String.app d))%(inj (String.app "/")). done.
Qed.

Lemma str_app_nil_r (a : string) : a +:+ "" = a.
Proof. induction a as [|x a IH]; [done|]. change (String x (a +:+ "") = String x a). by rewrite IH. Qed.
Lemma str_length_app s t : String.length (s +:+ t) = (String.length s + String.length t)%nat.
Proof.
  induction s as [|c s IH]; [done|]. change (String c s +:+ t) with (String c (s +:+ t)).
  cbn [String.length]. by rewrite IH.
Qed.
Lemma str_app_inj_r u s : ∀ t, s +:+ u = t +:+ u → s = t.
Proof.
  induction s as [|a s IH]; intros [|b t] Heq; [done|..];
    [apply (f_equal String.length) in Heq; rewrite !str_length_app in Heq; cbn in Heq; lia..|].
  injection Heq as -> Heq. f_equal. by apply IH.
Qed.

Lemma str_app_neq s c t : s +:+ String c t ≠ s.
Proof. induction s as [|d s IH]; simpl; [done|]. intros [= Hs]. auto. Qed.

(** ** Automation *)

Create HintDb wiretap.
Create Rewrite HintDb wiretap_rw.
#[export] Hint Rewrite @length_app @length_take @length_drop @length_fmap : wiretap_rw.
#[export] Hint Rewrite str_eqb_refl : wiretap_rw.
#[export] Hint Resolve str_eqb_refl : wiretap.

(** Case analysis on every match in sight, with the trivial equations used up. *)
Ltac break_match :=
  match goal with
  | |- context [match ?x with _ => _ end] => destruct x eqn:?
  | H : context [match ?x with _ => _ end] |- _ => destruct x eqn:?
  end.
Ltac crush_match := repeat (simplify_eq/=; break_match); simplify_eq/=.

(** One step of a monadic run: the call succeeded and the rest ran, or it failed
    and the rest did not. *)
Tactic Notation "io_step" hyp(H) "as" ident(a) ident(s) ident(Hm) :=
  apply io_bind_inv in H as [(a & s & Hm & H)|(a & Hm & ->)].

Ltac io_simpl :=
  simplify_eq/=; repeat match goal with
  | H : mret _ _ = (_, _) |- _ => unfold mret, io_ret in H
  | H : io_lift _ _ = (_, _) |- _ => unfold io_lift in H
  | H : io_get _ = (_, _) |- _ => unfold io_get in H
  | H : io_err _ _ = (_, _) |- _ => unfold io_err in H
  | H : io_modify _ _ = (_, _) |- _ => unfold io_modify in H
  end; simplify_eq/=; try done.

(** Booleans in hypotheses and goal turned into propositions. *)
Ltac bool_prop :=
  repeat match goal with
  | H : (_ && _)%bool = true |- _ => apply andb_true_iff in H as [? ?]
  | H : (_ || _)%bool = true |- _ => apply orb_true_iff in H
  | H : (_ || _)%bool = false |- _ => apply orb_false_iff in H as [? ?]
  | H : negb _ = true |- _ => apply negb_true_iff in H
  | H : negb _ = false |- _ => apply negb_false_iff in H
  | H : str_eqb _ _ = true |- _ => apply str_eqb_eq in H
  | H : str_eqb _ _ = false |- _ => apply str_eqb_neq in H
  | H : bool_decide _ = true |- _ => apply bool_decide_eq_true in H
  | H : bool_decide _ = false |- _ => apply bool_decide_eq_false in H
  | H : (_ <=? _)%Z = true |- _ => apply Z.leb_le in H
  | H : (_ <=? _)%Z = false |- _ => apply Z.leb_gt in H
  | H : (_ <? _)%Z = true |- _ => apply Z.ltb_lt in H
  | H : (_ <? _)%Z = false |- _ => apply Z.ltb_ge in H
  | H : (_ =? _)%Z = true |- _ => apply Z.eqb_eq in H
  | H : (_ =? _)%Z = false |- _ => apply Z.eqb_neq in H
  | H : (_ <=? _)%nat = true |- _ => apply Nat.leb_le in H
  | H : (_ <=? _)%nat = false |- _ => apply Nat.leb_gt in H
  | H : (_ <? _)%nat = true |- _ => apply Nat.ltb_lt in H
  | H : (_ <? _)%nat = false |- _ => apply Nat.ltb_ge in H
  | H : (_ =? _)%nat = true |- _ => apply Nat.eqb_eq in H
  | H : (_ =? _)%nat = false |- _ => apply Nat.eqb_neq in H
  end.
