(* ===== verification/F64.v ===== *)
(** * Binary64 arithmetic

    The three places where the capture daemon computes in [f64]: a cached
    frame's timestamp in seconds, the queue's fill ratio, and the batching
    intervals. A value is [mant * 2^expo]; an operation is the exact rational
    result rounded to 53 significant bits, ties to even, which is what IEEE 754
    prescribes away from overflow and underflow. Neither is reachable from a
    64-bit integer divided or multiplied by the constants the code uses. *)

From S2P Require Import Prelude.
Local Open Scope Z_scope.

Record f64 := F64 { mant : Z; expo : Z }.

(** The two halves of a scaling by [2^e] that keep everything an integer. *)
Definition up (e : Z) : Z := 2 ^ Z.max 0 (- e).
Definition dn (e : Z) : Z := 2 ^ Z.max 0 e.

(** The nearest integer to [n / d], ties to even. *)
Definition rne (n d : Z) : Z :=
  let q := n / d in
  let r := n mod d in
  if 2 * r <? d then q
  else if d <? 2 * r then q + 1
  else if Z.even q then q else q + 1.

(** The exponent that leaves 53 bits before the point. *)
Definition exponent (n d : Z) : Z :=
  let e := Z.log2 n - Z.log2 d - 52 in
  if 2 ^ 52 * d * dn e <=? n * up e then e else e - 1.

(** [n / d], positive, rounded. *)
Definition round_pos (n d : Z) : f64 :=
  let e := exponent n d in F64 (rne (n * up e) (d * dn e)) e.

Definition of_ratio (n d : Z) : f64 :=
  if n =? 0 then F64 0 0
  else let r := round_pos (Z.abs n) d in F64 (Z.sgn n * mant r) (expo r).

(** [z as f64]. *)
Definition of_Z (z : Z) : f64 := of_ratio z 1.

Definition f64_div (a b : f64) : f64 :=
  let e := expo a - expo b in
  of_ratio (Z.sgn (mant b) * mant a * dn e) (Z.abs (mant b) * up e).

Definition f64_mul (a b : f64) : f64 :=
  let e := expo a + expo b in
  of_ratio (mant a * mant b * dn e) (up e).

(** [f64::round], half away from zero. *)
Definition f64_round (a : f64) : Z :=
  Z.sgn (mant a) *
  ((2 * (Z.abs (mant a) * dn (expo a)) + up (expo a)) / (2 * up (expo a))).

(** [x as i64] saturates. *)
Definition to_i64 (z : Z) : Z := Z.max i64_min (Z.min i64_max z).

(** [a >= b]. *)
Definition f64_ge (a b : f64) : bool :=
  let e := expo a - expo b in mant b * up e <=? mant a * dn e.

(** ** Rounding to an integer *)

Lemma up_pos e : 0 < up e.
Proof. unfold up. apply Z.pow_pos_nonneg; lia. Qed.
Lemma dn_pos e : 0 < dn e.
Proof. unfold dn. apply Z.pow_pos_nonneg; lia. Qed.
#[export] Hint Resolve up_pos dn_pos : wiretap.

Lemma up_neg k : 0 <= k -> up (- k) = 2 ^ k.
Proof. intros. unfold up. by replace (Z.max 0 (- - k)) with k by lia. Qed.
Lemma dn_neg k : 0 <= k -> dn (- k) = 1.
Proof. intros. unfold dn. by replace (Z.max 0 (- k)) with 0 by lia. Qed.
Lemma up_nonneg k : 0 <= k -> up k = 1.
Proof. intros. unfold up. by replace (Z.max 0 (- k)) with 0 by lia. Qed.
Lemma dn_nonneg k : 0 <= k -> dn k = 2 ^ k.
Proof. intros. unfold dn. by replace (Z.max 0 k) with k by lia. Qed.

Lemma rne_error n d : 0 < d -> 2 * Z.abs (rne n d * d - n) <= d.
Proof.
  intros Hd. unfold rne.
  pose proof (Z.div_mod n d ltac:(lia)) as Hn. pose proof (Z.mod_pos_bound n d Hd) as Hr.
  set (q := n / d) in *. set (r := n mod d) in *.
  destruct (Z.ltb_spec (2 * r) d); [nia|].
  destruct (Z.ltb_spec d (2 * r)); [nia|].
  destruct (Z.even q); nia.
Qed.

Lemma rne_exact m d : 0 < d -> rne (m * d) d = m.
Proof.
  intros Hd. unfold rne. rewrite Z.mod_mul, Z.div_mul by lia.
  by destruct (Z.ltb_spec (2 * 0) d); [|lia].
Qed.

(** Only the ratio matters. *)
Lemma rne_scale n d c : 0 < d -> 0 < c -> rne (n * c) (d * c) = rne n d.
Proof.
  intros Hd Hc. unfold rne.
  rewrite Z.div_mul_cancel_r, Z.mul_mod_distr_r by lia.
  set (r := n mod d).
  replace (2 * (r * c) <? d * c) with (2 * r <? d)
    by (destruct (Z.ltb_spec (2 * r) d), (Z.ltb_spec (2 * (r * c)) (d * c)); nia).
  by replace (d * c <? 2 * (r * c)) with (d <? 2 * r)
    by (destruct (Z.ltb_spec d (2 * r)), (Z.ltb_spec (d * c) (2 * (r * c))); nia).
Qed.

Lemma rne_ratio n d n' d' :
  0 < d -> 0 < d' -> n * d' = n' * d -> rne n d = rne n' d'.
Proof.
  intros Hd Hd' Heq.
  rewrite <-(rne_scale n d d'), <-(rne_scale n' d' d) by done.
  by rewrite Heq, (Z.mul_comm d d').
Qed.

(** ** The exponent *)

(** A change of exponent moves the same power of two on either side. *)
Lemma scale_shift e k : 0 <= k -> up e * dn (e + k) * 1 = up (e + k) * dn e * 2 ^ k.
Proof.
  intros Hk. unfold up, dn. rewrite <-!Z.pow_add_r by lia. rewrite Z.mul_1_r.
  f_equal. lia.
Qed.

Lemma log2_ratio n d e :
  0 < n -> 0 < d -> e = Z.log2 n - Z.log2 d - 52 ->
  2 ^ 51 * d * dn e < n * up e /\ n * up e < 2 ^ 53 * d * dn e.
Proof.
  intros Hn Hd ->.
  pose proof (Z.log2_spec n Hn) as [Hn1 Hn2]. pose proof (Z.log2_spec d Hd) as [Hd1 Hd2].
  pose proof (Z.log2_nonneg n). pose proof (Z.log2_nonneg d).
  set (a := Z.log2 n) in *. set (b := Z.log2 d) in *.
  assert (H2 : 2 ^ (a + Z.max 0 (- (a - b - 52))) = 2 ^ (52 + b + Z.max 0 (a - b - 52)))
    by (f_equal; lia).
  unfold up, dn. rewrite !Z.pow_add_r in H2 by lia.
  rewrite !Z.pow_succ_r in * by lia.
  set (u := 2 ^ Z.max 0 (- (a - b - 52))) in *. set (w := 2 ^ Z.max 0 (a - b - 52)) in *.
  assert (0 < u) by (apply Z.pow_pos_nonneg; lia).
  assert (0 < w) by (apply Z.pow_pos_nonneg; lia).
  change (2 ^ 53) with (2 * 2 ^ 52) in *. change (2 ^ 52) with (2 * 2 ^ 51) in *.
  set (c := 2 ^ 51) in *. assert (0 < c) by (subst c; lia).
  set (A := 2 ^ a) in *. set (B := 2 ^ b) in *.
  assert (d * w < 2 * B * w) by (apply Z.mul_lt_mono_pos_r; lia).
  assert (B * w <= d * w) by (apply Z.mul_le_mono_nonneg_r; lia).
  assert (A * u <= n * u) by (apply Z.mul_le_mono_nonneg_r; lia).
  assert (n * u < 2 * A * u) by (apply Z.mul_lt_mono_pos_r; lia).
  assert (c * (d * w) < c * (2 * B * w)) by (apply Z.mul_lt_mono_pos_l; lia).
  assert (c * (B * w) <= c * (d * w)) by (apply Z.mul_le_mono_nonneg_l; lia).
  clearbody c. lia.
Qed.

Lemma exponent_spec n d :
  0 < n -> 0 < d ->
  2 ^ 52 * d * dn (exponent n d) <= n * up (exponent n d) < 2 ^ 53 * d * dn (exponent n d).
Proof.
  intros Hn Hd. unfold exponent.
  set (e := Z.log2 n - Z.log2 d - 52).
  pose proof (log2_ratio n d e Hn Hd eq_refl) as [H1 H2].
  destruct (Z.leb_spec (2 ^ 52 * d * dn e) (n * up e)) as [H|H]; [lia|].
  pose proof (scale_shift (e - 1) 1 ltac:(lia)) as Hs.
  replace (e - 1 + 1) with e in Hs by lia. rewrite Z.mul_1_r in Hs. change (2 ^ 1) with 2 in Hs.
  pose proof (up_pos e). pose proof (dn_pos e). pose proof (up_pos (e - 1)). pose proof (dn_pos (e - 1)).
  set (u := up e) in *. set (w := dn e) in *. set (u' := up (e - 1)) in *. set (w' := dn (e - 1)) in *.
  change (2 ^ 53) with (2 * 2 ^ 52) in *. change (2 ^ 52) with (2 * 2 ^ 51) in *.
  set (c := 2 ^ 51) in *. assert (0 < c) by (subst c; lia).
  (* multiply the bounds for [e] by [w'] and the goal by [w] *)
  assert (n * u * (2 * w') = n * u' * w) by (rewrite <-!Z.mul_assoc; f_equal; lia).
  split; apply (Z.mul_le_mono_pos_r _ _ w) || apply (Z.mul_lt_mono_pos_r w); try done; nia.
Qed.

(** The exponent is the only one with that property. *)
Lemma exponent_unique n d e :
  0 < n -> 0 < d ->
  2 ^ 52 * d * dn e <= n * up e < 2 ^ 53 * d * dn e -> exponent n d = e.
Proof.
  intros Hn Hd He. pose proof (exponent_spec n d Hn Hd) as He'.
  set (e' := exponent n d) in *. clearbody e'.
  assert (Hgen : forall a b, a < b ->
    2 ^ 52 * d * dn a <= n * up a < 2 ^ 53 * d * dn a ->
    2 ^ 52 * d * dn b <= n * up b < 2 ^ 53 * d * dn b -> False).
  { intros a b Hab Ha Hb.
    pose proof (scale_shift a (b - a) ltac:(lia)) as Hs. replace (a + (b - a)) with b in Hs by lia.
    assert (Hp : 2 <= 2 ^ (b - a)).
    { change 2 with (2 ^ 1) at 1. apply Z.pow_le_mono_r; lia. }
    set (p := 2 ^ (b - a)) in *. clearbody p. rewrite Z.mul_1_r in Hs.
    pose proof (up_pos a). pose proof (dn_pos a). pose proof (up_pos b). pose proof (dn_pos b).
    set (u := up a) in *. set (w := dn a) in *. set (u' := up b) in *. set (w' := dn b) in *.
    clearbody u w u' w'.
    change (2 ^ 53) with (2 * 2 ^ 52) in *. set (c := 2 ^ 52) in *.
    assert (0 < c) by (subst c; lia). clearbody c.
    destruct Ha as [_ Ha]. destruct Hb as [Hb _].
    assert (n * u * w' < 2 * c * d * w * w') by (apply Z.mul_lt_mono_pos_r; lia).
    assert (c * d * w' * w <= n * u' * w) by (apply Z.mul_le_mono_nonneg_r; lia).
    assert (n * u * w' = n * u' * w * p) by (rewrite <-!Z.mul_assoc; f_equal; lia).
    assert (n * u' * w * 2 <= n * u' * w * p).
    { apply Z.mul_le_mono_nonneg_l; [|lia]. repeat apply Z.mul_nonneg_nonneg; lia. }
    lia. }
  destruct (Z.lt_trichotomy e' e) as [H|[H|H]]; [|done|]; exfalso; eauto.
Qed.

(** ** What rounding keeps *)

Lemma round_pos_spec n d :
  0 < n -> 0 < d ->
  let r := round_pos n d in
  2 * Z.abs (mant r * (d * dn (expo r)) - n * up (expo r)) <= d * dn (expo r) /\
  2 ^ 52 * d * dn (expo r) <= n * up (expo r) < 2 ^ 53 * d * dn (expo r).
Proof.
  intros Hn Hd; simpl. split; [|by apply exponent_spec].
  apply rne_error. pose proof (dn_pos (exponent n d)). nia.
Qed.

(** Only the rational matters, not the fraction it is written as. *)
Lemma round_pos_ratio n d n' d' :
  0 < n -> 0 < d -> 0 < n' -> 0 < d' -> n * d' = n' * d ->
  round_pos n d = round_pos n' d'.
Proof.
  intros Hn Hd Hn' Hd' Heq. unfold round_pos.
  assert (exponent n d = exponent n' d') as <-.
  { apply exponent_unique; try done.
    pose proof (exponent_spec n' d' Hn' Hd') as [H1 H2].
    set (e := exponent n' d') in *. pose proof (up_pos e). pose proof (dn_pos e).
    set (u := up e) in *. set (w := dn e) in *. clearbody u w e.
    change (2 ^ 53) with (2 * 2 ^ 52) in *. set (c := 2 ^ 52) in *.
    assert (0 < c) by (subst c; lia). clearbody c.
    assert (Hx : n * u * d' = n' * u * d) by nia.
    split.
    - apply (Z.mul_le_mono_pos_r _ _ d'); [done|]. rewrite Hx.
      assert (c * d' * w * d <= n' * u * d) by (apply Z.mul_le_mono_nonneg_r; lia). lia.
    - apply (Z.mul_lt_mono_pos_r d'); [done|]. rewrite Hx.
      assert (n' * u * d < 2 * c * d' * w * d) by (apply Z.mul_lt_mono_pos_r; lia). lia. }
  f_equal. set (e := exponent n d). pose proof (dn_pos e).
  apply rne_ratio; [by apply Z.mul_pos_pos..|].
  transitivity (n * d' * (up e * dn e)); [ring|]. rewrite Heq. ring.
Qed.

Lemma of_ratio_pos n d : 0 < n -> of_ratio n d = round_pos n d.
Proof.
  intros Hn. unfold of_ratio. destruct (Z.eqb_spec n 0); [lia|].
  rewrite Z.abs_eq, Z.sgn_pos, Z.mul_1_l by lia. by destruct (round_pos n d).
Qed.

Lemma of_ratio_mant_nonneg n d : 0 <= n -> 0 < d -> 0 <= mant (of_ratio n d).
Proof.
  intros Hn Hd. destruct (decide (n = 0)) as [->|]; [done|].
  rewrite of_ratio_pos by lia.
  pose proof (round_pos_spec n d ltac:(lia) Hd) as [He [Hl _]]. simpl in *.
  pose proof (dn_pos (exponent n d)). pose proof (up_pos (exponent n d)).
  set (w := dn _) in *. set (u := up _) in *. set (m := rne _ _) in *. nia.
Qed.

(** ** Constants and integers *)

Lemma million_f64 : of_Z 1000000 = F64 (1000000 * 2 ^ 33) (-33).
Proof. reflexivity. Qed.

(** An integer below 2^53 is exact. *)
Lemma of_Z_exact z : 0 < z < 2 ^ 53 ->
  exists k, 0 <= k /\ of_Z z = F64 (z * 2 ^ k) (- k).
Proof.
  intros Hz. unfold of_Z. rewrite of_ratio_pos by lia.
  pose proof (round_pos_spec z 1 ltac:(lia) ltac:(lia)) as [_ [Hlo Hhi]]. simpl in *.
  assert (He : exponent z 1 <= 0).
  { destruct (Z.le_gt_cases (exponent z 1) 0) as [|Hgt]; [done|exfalso].
    rewrite (up_nonneg (exponent z 1)) in * by lia.
    rewrite (dn_nonneg (exponent z 1)) in * by lia.
    assert (2 <= 2 ^ exponent z 1)
      by (change 2 with (2 ^ 1) at 1; apply Z.pow_le_mono_r; lia). nia. }
  exists (- exponent z 1). split; [lia|]. rewrite Z.opp_involutive.
  unfold round_pos. set (k := - exponent z 1).
  replace (exponent z 1) with (- k) by lia. rewrite up_neg, dn_neg by lia.
  f_equal. rewrite <-(rne_exact (z * 2 ^ k) 1) at 2 by lia. f_equal; lia.
Qed.

(** ** Seconds and back

    A microsecond timestamp divided by a million and multiplied back: two
    roundings, each within half a unit of the last of 53 bits. *)

(** One rounding, with the exponent made explicit. *)
Lemma of_ratio_neg_expo n d :
  0 < n -> 0 < d -> n < 2 ^ 52 * d ->
  exists m k, of_ratio n d = F64 m (- k) /\ 1 <= k /\ 0 <= m /\
    2 * Z.abs (m * d - n * 2 ^ k) <= d /\ 2 ^ 52 * d <= n * 2 ^ k < 2 ^ 53 * d.
Proof.
  intros Hn Hd Hlt.
  pose proof (of_ratio_mant_nonneg n d ltac:(lia) Hd) as Hm.
  rewrite of_ratio_pos in * by done.
  pose proof (round_pos_spec n d Hn Hd) as [He Hb]. set (r := round_pos n d) in *.
  assert (Hx : expo r < 0).
  { destruct (Z.lt_ge_cases (expo r) 0) as [|Hge]; [done|exfalso].
    rewrite (up_nonneg (expo r)) in Hb by lia. rewrite (dn_nonneg (expo r)) in Hb by lia.
    assert (0 < 2 ^ expo r) by (apply Z.pow_pos_nonneg; lia). nia. }
  replace (expo r) with (- (- expo r)) in He, Hb by lia.
  rewrite up_neg, dn_neg, Z.mul_1_r in He, Hb by lia.
  exists (mant r), (- expo r). rewrite Z.opp_involutive.
  clearbody r. split; [by destruct r|]. lia.
Qed.

Lemma f64_round_neg_expo m k z :
  0 <= m -> 0 <= k -> 2 * Z.abs (m - z * 2 ^ k) < 2 ^ k -> f64_round (F64 m (- k)) = z.
Proof.
  intros Hm Hk Hz. unfold f64_round; simpl. rewrite up_neg, dn_neg, Z.abs_eq by lia.
  assert (0 < 2 ^ k) by (apply Z.pow_pos_nonneg; lia).
  assert (Hq : (2 * (m * 1) + 2 ^ k) / (2 * 2 ^ k) = z).
  { symmetry. apply (Z.div_unique _ _ _ (2 * m + 2 ^ k - z * (2 * 2 ^ k))); [left|]; nia. }
  rewrite Hq. destruct (decide (m = 0)) as [->|].
  - simpl. nia.
  - rewrite Z.sgn_pos by lia. lia.
Qed.

(** The quotient of two exact integers is the rounding of their ratio. *)
Lemma div_of_Z a b : 0 < a < 2 ^ 53 -> 0 < b < 2 ^ 53 -> f64_div (of_Z a) (of_Z b) = of_ratio a b.
Proof.
  intros Ha Hb. destruct (of_Z_exact a Ha) as (j & Hj & ->).
  destruct (of_Z_exact b Hb) as (k & Hk & ->). unfold f64_div; cbn [mant expo].
  pose proof (Z.pow_pos_nonneg 2 j ltac:(lia) Hj) as HJ.
  pose proof (Z.pow_pos_nonneg 2 k ltac:(lia) Hk) as HK.
  assert (Hp : 2 ^ j * dn (- j - - k) = 2 ^ k * up (- j - - k)).
  { unfold up, dn. rewrite <-!Z.pow_add_r by lia. f_equal. lia. }
  pose proof (up_pos (- j - - k)). pose proof (dn_pos (- j - - k)).
  set (u := up (- j - - k)) in *. set (w := dn (- j - - k)) in *.
  set (J := 2 ^ j) in *. set (K := 2 ^ k) in *. clearbody J K u w.
  assert (0 < b * K) by (apply Z.mul_pos_pos; lia).
  assert (0 < a * J) by (apply Z.mul_pos_pos; lia).
  rewrite (Z.sgn_pos (b * K)), (Z.abs_eq (b * K)), Z.mul_1_l by lia.
  rewrite !of_ratio_pos by (try apply Z.mul_pos_pos; lia).
  apply round_pos_ratio; try lia; try (apply Z.mul_pos_pos; lia).
  transitivity (a * b * (J * w)); [ring|]. rewrite Hp. ring.
Qed.

(** The round trip of a timestamp in microseconds through seconds. *)
Lemma secs_roundtrip ts :
  0 <= ts < 2 ^ 32 * 1000000 ->
  f64_round (f64_mul (f64_div (of_Z ts) (of_Z 1000000)) (of_Z 1000000)) = ts.
Proof.
  intros Hts. destruct (decide (ts = 0)) as [->|Hnz]; [reflexivity|].
  rewrite div_of_Z by lia.
  destruct (of_ratio_neg_expo ts 1000000 ltac:(lia) ltac:(lia) ltac:(lia))
    as (m & k & -> & Hk & Hm & He & Hlo & Hhi).
  assert (Hk21 : 21 <= k).
  { destruct (Z.le_gt_cases 21 k) as [|Hlt]; [done|exfalso].
    assert (2 ^ k <= 2 ^ 20) by (apply Z.pow_le_mono_r; lia). nia. }
  assert (Hpk : 2 ^ 21 <= 2 ^ k) by (apply Z.pow_le_mono_r; lia).
  assert (Hm0 : 0 < m) by nia.
  unfold f64_mul. rewrite million_f64; cbn [mant expo].
  replace (- k + -33) with (- (k + 33)) by lia. rewrite up_neg, dn_neg by lia.
  rewrite Z.pow_add_r by lia.
  set (P := 2 ^ k) in *.
  assert (Hprod : of_ratio (m * (1000000 * 2 ^ 33) * 1) (P * 2 ^ 33) = of_ratio (m * 1000000) P).
  { rewrite !of_ratio_pos by nia. apply round_pos_ratio; try nia. }
  rewrite Hprod. clear Hprod.
  destruct (of_ratio_neg_expo (m * 1000000) P ltac:(lia) ltac:(lia) ltac:(nia))
    as (m2 & j & -> & Hj & Hm2 & He2 & _).
  apply f64_round_neg_expo; [done|lia|].
  assert (HJ : 2 ^ 1 <= 2 ^ j) by (apply Z.pow_le_mono_r; lia).
  set (J := 2 ^ j) in *. clearbody J P.
  (* scale the goal by P: 2|m2 P - ts P J| <= P + 10^6 J, and 10^6 < 2^20 <= P/2 *)
  apply (Z.mul_lt_mono_pos_r P); [lia|].
  replace (2 * Z.abs (m2 - ts * J) * P) with (2 * Z.abs (m2 * P - ts * P * J)).
  2:{ replace (m2 * P - ts * P * J) with ((m2 - ts * J) * P) by ring.
      rewrite Z.abs_mul, (Z.abs_eq P) by lia. ring. }
  assert (2 * Z.abs (m * 1000000 * J - ts * P * J) <= 1000000 * J).
  { replace (m * 1000000 * J - ts * P * J) with ((m * 1000000 - ts * P) * J) by ring.
    rewrite Z.abs_mul, (Z.abs_eq J) by lia. nia. }
  assert (P * 2 <= P * J) by (apply Z.mul_le_mono_nonneg_l; lia).
  assert (2 ^ 21 * J <= P * J) by (apply Z.mul_le_mono_nonneg_r; lia).
  lia.
Qed.

(** ** Comparing two ratios *)

Lemma f64_ge_cross a b :
  f64_ge a b = true <-> mant b * dn (expo b) * up (expo a) <= mant a * dn (expo a) * up (expo b).
Proof.
  unfold f64_ge. rewrite Z.leb_le.
  assert (Hs : dn (expo b) * up (expo a) * dn (expo a - expo b)
             = dn (expo a) * up (expo b) * up (expo a - expo b)).
  { unfold up, dn. rewrite <-!Z.pow_add_r by lia. f_equal. lia. }
  pose proof (up_pos (expo a - expo b)). pose proof (dn_pos (expo a - expo b)).
  pose proof (up_pos (expo a)). pose proof (dn_pos (expo b)).
  pose proof (up_pos (expo b)). pose proof (dn_pos (expo a)).
  set (w := dn (expo a - expo b)) in *. set (u := up (expo a - expo b)) in *.
  set (x := dn (expo b) * up (expo a)) in *. set (y := dn (expo a) * up (expo b)) in *.
  rewrite <-(Z.mul_assoc (mant b)), <-(Z.mul_assoc (mant a)). fold x y.
  assert (0 < y) by (subst y; by apply Z.mul_pos_pos). clearbody w u x y.
  assert (Hb : mant b * u * y = mant b * x * w) by (rewrite <-(Z.mul_assoc (mant b) x), Hs; ring).
  assert (Ha : mant a * w * y = mant a * y * w) by ring.
  rewrite (Z.mul_le_mono_pos_r (mant b * u) (mant a * w) y) by done.
  rewrite (Z.mul_le_mono_pos_r (mant b * x) (mant a * y) w) by done. by rewrite Hb, Ha.
Qed.

(** A rounded positive ratio is within a part in 2^53 of it. *)
Lemma round_pos_relative n d :
  0 < n -> 0 < d ->
  let r := round_pos n d in
  n * up (expo r) * (2 ^ 53 - 1) <= mant r * dn (expo r) * d * 2 ^ 53 <= n * up (expo r) * (2 ^ 53 + 1).
Proof.
  intros Hn Hd r. destruct (round_pos_spec n d Hn Hd) as [He [Hlo _]]. fold r in He, Hlo.
  replace (mant r * (d * dn (expo r))) with (mant r * dn (expo r) * d) in He by ring.
  replace (2 ^ 52 * d * dn (expo r)) with (2 ^ 52 * (d * dn (expo r))) in Hlo by ring.
  set (x := mant r * dn (expo r) * d) in *. set (y := n * up (expo r)) in *.
  set (z := d * dn (expo r)) in *. clearbody x y z. lia.
Qed.

(** Ratios of small integers are far enough apart for rounding to keep their
    order. *)
Lemma round_pos_lt n d p q :
  0 < n -> 0 < d -> 0 < p -> 0 < q -> n * q < 2 ^ 51 -> n * q < p * d ->
  f64_ge (round_pos n d) (round_pos p q) = false.
Proof.
  intros Hn Hd Hp Hq Hsmall Hlt.
  destruct (f64_ge (round_pos n d) (round_pos p q)) eqn:Hge; [exfalso|done].
  apply f64_ge_cross in Hge.
  pose proof (round_pos_relative n d Hn Hd) as [_ Hx].
  pose proof (round_pos_relative p q Hp Hq) as [Hy _]. cbv zeta in Hx, Hy.
  pose proof (up_pos (expo (round_pos n d))). pose proof (up_pos (expo (round_pos p q))).
  set (X := mant (round_pos n d) * dn (expo (round_pos n d))) in *.
  set (Y := mant (round_pos p q) * dn (expo (round_pos p q))) in *.
  set (u := up (expo (round_pos n d))) in *. set (v := up (expo (round_pos p q))) in *.
  clearbody X Y u v. change (2 ^ 53) with 9007199254740992 in *. change (2 ^ 51) with 2251799813685248 in *.
  set (M := 9007199254740992) in *.
  assert (H1 : X * d * M * (v * q) <= n * u * (M + 1) * (v * q))
    by (apply Z.mul_le_mono_nonneg_r; [nia|done]).
  assert (H2 : p * v * (M - 1) * (u * d) <= Y * q * M * (u * d))
    by (apply Z.mul_le_mono_nonneg_r; [nia|done]).
  assert (H3 : Y * u * (d * q * M) <= X * v * (d * q * M)).
  { apply Z.mul_le_mono_nonneg_r; [|done]. subst M. nia. }
  assert (H4 : (p * d) * (M - 1) * (u * v) <= (n * q) * (M + 1) * (u * v)) by lia.
  apply Z.mul_le_mono_pos_r in H4; [|by apply Z.mul_pos_pos].
  set (a := n * q) in *. set (b := p * d) in *. clearbody a b. subst M. lia.
Qed.

Lemma f64_ge_refl a : f64_ge a a = true.
Proof. apply f64_ge_cross. lia. Qed.

(** So comparing them in floating point is comparing them exactly. *)
Lemma of_ratio_ge n d p q :
  0 <= n -> 0 < d -> 0 < p -> 0 < q -> n * q < 2 ^ 51 -> p * d < 2 ^ 51 ->
  f64_ge (of_ratio n d) (of_ratio p q) = (p * d <=? n * q).
Proof.
  intros Hn Hd Hp Hq Hs1 Hs2. rewrite (of_ratio_pos p q) by done.
  destruct (decide (n = 0)) as [->|].
  - destruct (Z.leb_spec (p * d) (0 * q)); [nia|].
    destruct (f64_ge _ _) eqn:Hge; [exfalso|done]. apply f64_ge_cross in Hge.
    pose proof (round_pos_relative p q Hp Hq) as [Hy _]. cbv zeta in Hy.
    pose proof (up_pos (expo (round_pos p q))).
    change (of_ratio 0 d) with (F64 0 0) in Hge. cbn [mant expo] in Hge.
    change (up 0) with 1 in Hge. change (dn 0) with 1 in Hge. rewrite Z.mul_1_r in Hge.
    set (Y := mant _ * dn _) in *. set (v := up _) in *. clearbody Y v.
    change (2 ^ 53) with 9007199254740992 in *. nia.
  - rewrite (of_ratio_pos n d) by lia.
    destruct (Z.leb_spec (p * d) (n * q)) as [Hle|Hgt]; [|apply round_pos_lt; lia].
    destruct (decide (p * d = n * q)) as [Heq|].
    + rewrite (round_pos_ratio n d p q) by lia. apply f64_ge_refl.
    + pose proof (round_pos_lt p q n d Hp Hq ltac:(lia) Hd Hs2 ltac:(lia)) as Hf.
      destruct (f64_ge (round_pos n d) (round_pos p q)) eqn:Hge; [done|].
      destruct (Z.le_gt_cases (mant (round_pos p q) * dn (expo (round_pos p q)) * up (expo (round_pos n d)))
        (mant (round_pos n d) * dn (expo (round_pos n d)) * up (expo (round_pos p q)))) as [Hc|Hc].
      * by rewrite (proj2 (f64_ge_cross _ _) Hc) in Hge.
      * by rewrite (proj2 (f64_ge_cross (round_pos p q) (round_pos n d)) ltac:(lia)) in Hf.
Qed.
