(* ===== verification/Model.v ===== *)
(** * The shared data model ([crates/wiretap-model])

    What a capture source produces ([sample.rs]) and the schema of
    [wiretap-server.toml] ([config.rs]). A field of a Rust struct keeps its
    name behind a prefix for its struct, since Rocq's projections share one
    name space. An integer is a [Z]; a payload is the list of its bytes. A TOML
    table of unknown keys is the list of those keys, sorted as [toml::Table]
    iterates them; its values are never read. *)

From S2P Require Import Prelude F64.
From stdpp Require Import sorting.
From Stdlib Require Import Ascii.

(** ** [sample.rs] *)

Module Sample.

Definition SourceId : Type := Z.

Inductive Direction := Rx | Tx.

Definition as_str (d : Direction) : string :=
  match d with Rx => "rx" | Tx => "tx" end.

Definition from_str (s : string) : result unit Direction :=
  if eq_ignore_ascii_case s "rx" then Ok Rx
  else if eq_ignore_ascii_case s "tx" then Ok Tx
  else Err ().

#[global] Instance Direction_eq_dec : EqDecision Direction.
Proof. solve_decision. Defined.

(** [wslib_wiretap_protocol::Protocol], as far as this repository names it. *)
Inductive Protocol := ProtoCan | ProtoModbusRtu | ProtoSerial.

#[global] Instance Protocol_eq_dec : EqDecision Protocol.
Proof. solve_decision. Defined.

Record CanSample := MkCan {
  can_ts_us : Z;
  can_arb_id : Z;
  can_extended : bool;
  can_is_fd : bool;
  can_rtr : option Z;
  can_brs : bool;
  can_esi : bool;
  can_data : list Z;
  can_bus : SourceId;
  can_dir : Direction
}.

Record ModbusSample := MkModbus {
  mb_ts_us : Z;
  mb_bus : SourceId;
  mb_unit : Z;
  mb_func : Z;
  mb_crc_valid : bool;
  mb_raw : list Z
}.

Record SerialSample := MkSerial {
  ser_ts_us : Z;
  ser_bus : SourceId;
  ser_seq : Z;
  ser_data : list Z
}.

Inductive Sample :=
  | Can (c : CanSample)
  | Modbus (m : ModbusSample)
  | Serial (r : SerialSample).

#[global] Instance CanSample_eq_dec : EqDecision CanSample.
Proof. solve_decision. Defined.
#[global] Instance ModbusSample_eq_dec : EqDecision ModbusSample.
Proof. solve_decision. Defined.
#[global] Instance SerialSample_eq_dec : EqDecision SerialSample.
Proof. solve_decision. Defined.
#[global] Instance Sample_eq_dec : EqDecision Sample.
Proof. solve_decision. Defined.

Definition ts_us (s : Sample) : Z :=
  match s with Can c => can_ts_us c | Modbus m => mb_ts_us m | Serial r => ser_ts_us r end.

Definition bus (s : Sample) : SourceId :=
  match s with Can c => can_bus c | Modbus m => mb_bus m | Serial r => ser_bus r end.

Definition protocol (s : Sample) : Protocol :=
  match s with Can _ => ProtoCan | Modbus _ => ProtoModbusRtu | Serial _ => ProtoSerial end.

(** The widths of the fields, which Rust's types guarantee. *)
Definition bytes_ok (l : list Z) : Prop := Forall is_u8 l.

Definition can_ok (c : CanSample) : Prop :=
  is_i64 (can_ts_us c) ∧ is_u32 (can_arb_id c) ∧ bytes_ok (can_data c) ∧
  is_u8 (can_bus c) ∧ match can_rtr c with Some d => is_u8 d | None => True end.
Definition modbus_ok (m : ModbusSample) : Prop :=
  is_i64 (mb_ts_us m) ∧ is_u8 (mb_bus m) ∧ is_u8 (mb_unit m) ∧ is_u8 (mb_func m) ∧
  bytes_ok (mb_raw m).
Definition serial_ok (r : SerialSample) : Prop :=
  is_i64 (ser_ts_us r) ∧ is_u8 (ser_bus r) ∧ is_u32 (ser_seq r) ∧ bytes_ok (ser_data r).
Definition sample_ok (s : Sample) : Prop :=
  match s with Can c => can_ok c | Modbus m => modbus_ok m | Serial r => serial_ok r end.

#[global] Instance sample_ok_dec s : Decision (sample_ok s).
Proof.
  destruct s as [[? ? ? ? [] ? ? ? ? ?]| |]; simpl;
    unfold can_ok, modbus_ok, serial_ok, bytes_ok; simpl; apply _.
Defined.

(** *** A direction's tag reads back, in any case *)

Lemma from_str_as_str d : from_str (as_str d) = Ok d.
Proof. by destruct d. Qed.

Lemma from_str_Ok s d :
  from_str s = Ok d ↔ to_ascii_lowercase s = as_str d.
Proof.
  unfold from_str, eq_ignore_ascii_case, str_eqb.
  change (to_ascii_lowercase "rx") with "rx". change (to_ascii_lowercase "tx") with "tx".
  destruct (bool_decide_reflect (to_ascii_lowercase s = "rx")) as [->|Hrx];
    [|destruct (bool_decide_reflect (to_ascii_lowercase s = "tx")) as [->|Htx]];
    destruct d; simpl; split; congruence.
Qed.
End Sample.

(** ** [config.rs] *)

Module Config.

(** The keys of a [toml::Table], ascending. *)
Definition Table : Type := list string.

Record ServerSection := MkServer {
  srv_iface : option string;
  srv_host : option string;
  srv_port : option Z;
  srv_allowed_clients : option (list string);
  srv_bus_offset : option Z;
  srv_echo_console : option bool;
  srv_colour : option bool;
  srv_default_dir : option string;
  srv_can_fd : option bool;
  srv_unknown : Table
}.

Record PostgresSection := MkPostgres {
  pg_enable : option bool;
  pg_unknown : Table
}.

Record IngestSection := MkIngest {
  ing_enable : option bool;
  ing_host : option string;
  ing_port : option Z;
  ing_token : option string;
  ing_keepalive_secs : option f64;
  ing_max_batch_frames : option nat;
  ing_unknown : Table
}.

Record TestPatternSection := MkTestPattern {
  tp_enable : option bool;
  tp_ifaces : option string;
  tp_unknown : Table
}.

Record ForwardSection := MkForward {
  fw_enable : option bool;
  fw_host : option string;
  fw_port : option Z;
  fw_api_key : option string;
  fw_database : option string;
  fw_daemon_id : option string;
  fw_batch_size : option nat;
  fw_flush_interval : option f64;
  fw_queue_size : option nat;
  fw_cache_path : option string;
  fw_cache_max_mb : option Z;
  fw_queue_flush_pct : option Z;
  fw_unknown : Table
}.

Record DeviceSection := MkDevice {
  dev_kind : option string;
  dev_interface : option string;
  dev_mode : option string;
  dev_database : option string;
  dev_fd : option bool;
  dev_baud : option Z;
  dev_data_bits : option Z;
  dev_parity : option string;
  dev_stop_bits : option Z;
  dev_framing : option string;
  dev_catalog : option string;
  dev_capture : option string;
  dev_raw_database : option string;
  dev_unknown : Table
}.

Record LoggingSection := MkLogging {
  log_level : option string;
  log_stats_interval : option f64;
  log_unknown : Table
}.

Record FileConfig := MkFile {
  server : ServerSection;
  postgres : PostgresSection;
  ingest : IngestSection;
  test_pattern : TestPatternSection;
  forward : ForwardSection;
  logging : LoggingSection;
  device : list DeviceSection;
  unknown : Table
}.

(** [#[derive(Default)]]. *)
Definition server_default := MkServer None None None None None None None None None [].
Definition postgres_default := MkPostgres None [].
Definition ingest_default := MkIngest None None None None None None [].
Definition test_pattern_default := MkTestPattern None None [].
Definition forward_default :=
  MkForward None None None None None None None None None None None None [].
Definition device_default :=
  MkDevice None None None None None None None None None None None None None [].
Definition logging_default := MkLogging None None [].
Definition file_default : FileConfig :=
  MkFile server_default postgres_default ingest_default test_pattern_default
    forward_default logging_default [] [].

(** Keys the schema does not define, as [section.key]; [[postgres]] is
    retired wholesale and skipped. *)
Definition unknown_keys (f : FileConfig) : list string :=
  let sections :=
    [("server", srv_unknown (server f)); ("ingest", ing_unknown (ingest f));
     ("test_pattern", tp_unknown (test_pattern f)); ("forward", fw_unknown (forward f));
     ("logging", log_unknown (logging f))] in
  let out := unknown f ++
    ('(name, keys) ← sections; (λ k, name +:+ "." +:+ k) <$> keys) ++
    ('(i, d) ← enumerate (device f);
     (λ k, "device[" +:+ pretty i +:+ "]." +:+ k) <$> dev_unknown d) in
  merge_sort String.le out.

Definition retired_postgres_sink (f : FileConfig) : bool :=
  bool_decide (pg_enable (postgres f) = Some true).

Definition parse_ifaces (spec : string) : list string :=
  filter (λ s, is_empty_str s = false) (str_trim <$> str_split "," spec).
(** A name the list can hold: not blank, no comma, no space around it. *)
Definition iface_name (s : string) : bool :=
  negb (is_empty_str s) && str_free "," s && str_eqb (str_trim s) s.

Lemma parse_ifaces_names spec : Forall (λ s, iface_name s = true) (parse_ifaces spec).
Proof.
  unfold parse_ifaces. apply Forall_forall. intros s [Hne Hin]%list_elem_of_filter.
  apply list_elem_of_fmap in Hin as (p & -> & Hp).
  pose proof (str_split_pieces_free "," spec) as Hfree.
  rewrite Forall_forall in Hfree. specialize (Hfree p Hp). simpl in Hfree.
  unfold iface_name. rewrite Hne, str_trim_idemp, str_eqb_refl.
  by rewrite str_free_trim.
Qed.

(** A list of names, written with commas, is read back exactly. *)
Lemma parse_ifaces_join l :
  Forall (λ s, iface_name s = true) l → parse_ifaces (str_join "," l) = l.
Proof.
  intros Hl. unfold parse_ifaces. destruct (decide (l = [])) as [->|Hne]; [done|].
  rewrite str_split_join; [|done|].
  2:{ eapply Forall_impl; [exact Hl|]. unfold iface_name. intros s Hs. by bool_prop. }
  clear Hne. induction Hl as [|s l Hs Hl IH]; [done|].
  unfold iface_name in Hs. bool_prop. rewrite fmap_cons, H0, filter_cons_True by done.
  by rewrite IH.
Qed.
End Config.
