(* ===== verification/Source.v ===== *)
(** * Bus numbers, clocks and device status ([source/mod.rs], [status.rs])

    The arithmetic between a GVRET client's bus byte and the index of a
    configured interface, the kernel's clock as the archive stamps it, and the
    status words the control socket reports. *)

From S2P Require Import Prelude Model.
Import Sample.
Local Open Scope Z_scope.

(** ** Bitrates *)

Record Bitrates := MkBitrates { br_nominal : Z; br_data : Z }.

Definition FALLBACK : Bitrates := MkBitrates 500000 0.

Definition reported (nom dat : option Z) : Bitrates :=
  MkBitrates (default (br_nominal FALLBACK) nom) (default 0 dat).

(** ** Buses *)

Record Transmit := MkTransmit {
  t_bus : SourceId;
  t_arb_id : Z;
  t_extended : bool;
  t_data : list Z
}.

Definition bus_for_index (index : nat) (bus_offset : Z) : option SourceId :=
  match u8_try_from index with
  | None => None
  | Some i => checked_add_u8 i bus_offset
  end.

Definition bus_count (iface_count : nat) (bus_offset : Z) : Z :=
  match bus_for_index iface_count bus_offset with None => u8_max | Some b => b end.

Definition index_for_bus (bus : SourceId) (bus_offset : Z) (iface_count : nat) : option nat :=
  match checked_sub_u8 bus bus_offset with
  | None => None
  | Some d => let index := Z.to_nat d in
      if (index <? iface_count)%nat then Some index else None
  end.

(** A [SystemTime] is microseconds from the Unix epoch, negative before it;
    [duration_since] fails there. *)
Definition SystemTime : Type := Z.

Definition system_time_to_us (t : SystemTime) : Z :=
  if 0 <=? t then (if t <=? i64_max then t else i64_max) else 0.

(** ** Status *)

Module Status.

Record DeviceStatus := MkStatus { state : Z; frames : Z }.
Definition STARTING : Z := 0.
Definition UP : Z := 1.
Definition WAITING : Z := 2.
Definition ERROR : Z := 3.

Definition status_default : DeviceStatus := MkStatus STARTING 0.
Definition up (s : DeviceStatus) : DeviceStatus := MkStatus UP (frames s).
Definition lost (s : DeviceStatus) (opened : bool) : DeviceStatus :=
  MkStatus (if opened then ERROR else WAITING) (frames s).
Definition read (s : DeviceStatus) (n : Z) : DeviceStatus :=
  MkStatus (state s) ((frames s + n) mod u64_modulus).
Definition state_str (s : DeviceStatus) : string :=
  if state s =? STARTING then "starting"
  else if state s =? UP then "up"
  else if state s =? WAITING then "waiting"
  else "error".

End Status.

(** A client count that each connection holds one of: [Connected::new], and its
    [Drop]. *)
Definition connected_new (clients : Z) : Z := (clients + 1) mod u64_modulus.
Definition connected_drop (clients : Z) : Z := (clients - 1) mod u64_modulus.

(** ** Facts *)

Lemma bus_for_index_Some i off b :
  bus_for_index i off = Some b ↔ b = Z.of_nat i + off ∧ Z.of_nat i ≤ 255 ∧ b ≤ 255.
Proof.
  unfold bus_for_index, u8_try_from, checked_add_u8, u8_max.
  destruct (Z.leb_spec (Z.of_nat i) 255); [destruct (Z.leb_spec (Z.of_nat i + off) 255)|];
    naive_solver lia.
Qed.

Lemma index_for_bus_Some b off n i :
  index_for_bus b off n = Some i ↔ off ≤ b ∧ i = Z.to_nat (b - off) ∧ (i < n)%nat.
Proof.
  unfold index_for_bus, checked_sub_u8.
  destruct (Z.leb_spec off b); [|naive_solver lia].
  destruct (Nat.ltb_spec (Z.to_nat (b - off)) n); naive_solver lia.
Qed.

(** Among [n] interfaces the bus number and the interface index are exact
    inverses: a bus byte a client names resolves to an index precisely when that
    index is the one numbered with it. *)
Theorem bus_index_inverse (off b : Z) (n i : nat) :
  is_u8 off → is_u8 b →
  index_for_bus b off n = Some i ↔ (i < n)%nat ∧ bus_for_index i off = Some b.
Proof.
  unfold is_u8. intros. rewrite index_for_bus_Some, bus_for_index_Some. lia.
Qed.

Lemma bus_index_inverse_witness :
  index_for_bus 3 2 4 = Some 1%nat ∧ bus_for_index 1 2 = Some 3.
Proof.
  assert (H : index_for_bus 3 2 4 = Some 1%nat) by reflexivity.
  split; [exact H|].
  exact (proj2 (proj1 (bus_index_inverse 2 3 4 1 ltac:(unfold is_u8; lia) ltac:(unfold is_u8; lia)) H)).
Defined.

Lemma bus_for_index_inj i j off b :
  bus_for_index i off = Some b → bus_for_index j off = Some b → i = j.
Proof. rewrite !bus_for_index_Some. lia. Qed.

(** Every bus a client is told of is numbered below the count advertised. *)
Lemma bus_count_bound n i off b :
  is_u8 off → (i < n)%nat → bus_for_index i off = Some b → b < bus_count n off ∨ bus_count n off = 255.
Proof.
  unfold bus_count. intros Ho Hi Hb. destruct (bus_for_index n off) as [c|] eqn:Hn; [left|by right].
  apply bus_for_index_Some in Hb, Hn. lia.
Qed.

Lemma system_time_to_us_bounds t : 0 ≤ system_time_to_us t ≤ i64_max.
Proof.
  unfold system_time_to_us, i64_max.
  destruct (Z.leb_spec 0 t); [destruct (Z.leb_spec t (2 ^ 63 - 1))|]; lia.
Qed.
