(* ===== verification/Wire.v ===== *)
(** * Samples on the ingest protocol ([wire.rs], [source/socketcan.rs])

    A CAN frame, its flag byte and the protocol's record are types of the
    [wslib] crates. What this repository uses of them is the interface below,
    with the laws it relies on; the mapping between a sample and a record is
    the repository's own and is defined over any instance. *)

From S2P Require Import Prelude Model Source.
Import Sample.
Local Open Scope Z_scope.

(** ** [wslib_can] and [wslib_wiretap_protocol::ingest] *)

(** A CAN frame is a struct of public fields, built by two constructors; [dlc]
    is the length code, which for a remote frame is the one it was built with.
    [CanFlags::of] packs the flags into a byte. *)
Class CanLib := {
  CanFrame : Type;
  cf_remote : Z → Z → bool → Z → CanFrame;
  cf_data_frame : Z → Z → bool → bool → bool → list Z → CanFrame;
  cf_set_esi : bool → CanFrame → CanFrame;
  cf_arb_id : CanFrame → Z;
  cf_extended : CanFrame → bool;
  cf_fd : CanFrame → bool;
  cf_rtr : CanFrame → bool;
  cf_brs : CanFrame → bool;
  cf_esi : CanFrame → bool;
  cf_data : CanFrame → list Z;
  cf_dlc : CanFrame → Z;
  flags_of : CanFrame → bool → Z;
  FLAG_RTR : Z; FLAG_BRS : Z; FLAG_ESI : Z;
  flags_contains : Z → Z → bool
}.

(** [RecordFields]: the [Can] variant has fields this repository never names. *)
Inductive RecordFields (CanFields : Type) :=
  | RfCan (transmitted : bool) (rest : CanFields)
  | RfModbus (unit func : Z) (crc_valid transmitted : bool)
  | RfRawSerial (seq : Z) (transmitted : bool).
Arguments RfCan {_} transmitted rest.
Arguments RfModbus {_} unit func crc_valid transmitted.
Arguments RfRawSerial {_} seq transmitted.

(** A record as it is sent, and as it is read off the wire. *)
Record BatchRecord (F : Type) := MkBatchRecord {
  br_ts_us : Z;
  br_fields : RecordFields F;
  br_bus : Z;
  br_payload : list Z
}.
Arguments MkBatchRecord {F}.
Arguments br_ts_us {F}. Arguments br_fields {F}. Arguments br_bus {F}. Arguments br_payload {F}.
Record WireRecord := MkWireRecord {
  wr_kind : Z;
  wr_id_flags : Z;
  wr_flags : Z;
  wr_bus : Z;
  wr_payload : list Z
}.

Class ProtoLib `{CanLib} := {
  CanFields : Type;
  from_can : CanFrame → bool → RecordFields CanFields;
  to_can : RecordFields CanFields → Z → list Z → option CanFrame;
  (** What the library's encoder writes of a record's fields. *)
  to_wire : RecordFields CanFields → Z * Z * Z;
  from_wire : Z → Z → Z → RecordFields CanFields;
  from_can_variant : ∀ f tx, ∃ rest, from_can f tx = RfCan tx rest;
  to_can_of_variant : ∀ tx rest b p, is_Some (to_can (RfCan tx rest) b p)
}.

(** ** The mapping *)

Section Mapping.
Context `{ProtoLib}.

Definition wire_ts_us (s : Sample) : Z := Z.max (ts_us s) 0.

(** The frame [c] holds. *)
Definition can_frame (c : CanSample) : CanFrame :=
  let frame :=
    match can_rtr c with
    | Some dlc => cf_remote (can_bus c) (can_arb_id c) (can_extended c) dlc
    | None => cf_data_frame (can_bus c) (can_arb_id c) (can_extended c) (can_is_fd c)
                (can_brs c) (can_data c)
    end in
  cf_set_esi (can_esi c) frame.

(** The sample [frame] is, captured at [ts] on [bus]. *)
Definition can_sample (frame : CanFrame) (ts : Z) (bus : SourceId) (dir : Direction) : CanSample :=
  MkCan ts (cf_arb_id frame) (cf_extended frame) (cf_fd frame)
    (if cf_rtr frame then Some (cf_dlc frame) else None)
    (cf_brs frame) (cf_esi frame) (cf_data frame) bus dir.

Definition parts (s : Sample) : RecordFields CanFields * list Z :=
  match s with
  | Can c => (from_can (can_frame c) (bool_decide (can_dir c = Tx)), can_data c)
  | Modbus m => (RfModbus (mb_unit m) (mb_func m) (mb_crc_valid m) false, mb_raw m)
  | Serial r => (RfRawSerial (ser_seq r) false, ser_data r)
  end.

Definition record (s : Sample) : BatchRecord CanFields :=
  let '(fields, payload) := parts s in
  MkBatchRecord (wire_ts_us s) fields (bus s) payload.

(** The sample a record describes, stamped at [ts]. [None] is the [expect] on a
    CAN record, which the library never makes fail. *)
Definition decode (ts : Z) (r : WireRecord) : option Sample :=
  let b := wr_bus r in
  let fields := from_wire (wr_kind r) (wr_id_flags r) (wr_flags r) in
  match fields with
  | RfCan transmitted _ =>
      match to_can fields b (wr_payload r) with
      | None => None
      | Some frame =>
          let dir := if transmitted then Tx else Rx in
          Some (Can (can_sample frame ts b dir))
      end
  | RfModbus unit func crc_valid _ =>
      Some (Modbus (MkModbus ts b unit func crc_valid (wr_payload r)))
  | RfRawSerial seq _ => Some (Serial (MkSerial ts b seq (wr_payload r)))
  end.

(** The library's framing of one record. *)
Definition on_the_wire (r : BatchRecord CanFields) : WireRecord :=
  let '(kind, id_flags, flags) := to_wire (br_fields r) in
  MkWireRecord kind id_flags flags (br_bus r) (br_payload r).

(** [source/socketcan.rs] [sample]: what the bus carried is tagged with the
    configured direction, what this socket sent is [tx]. *)
Definition socketcan_sample (frame : CanFrame) (sent : bool) (at_ : SystemTime)
    (bus : SourceId) (dir : Direction) : CanSample :=
  let dir := if sent then Tx else dir in
  can_sample frame (system_time_to_us at_) bus dir.
End Mapping.

(** ** What the libraries promise *)

(** A frame the libraries can carry: the arbitration id fits its width, a
    remote frame is classic, carries no data and asks for a code of at most
    eight, and the two FD flags appear on FD frames only. *)
Definition frame_ok (c : CanSample) : bool :=
  (0 <=? can_arb_id c) && (can_arb_id c <? (if can_extended c then 2 ^ 29 else 2 ^ 11)) &&
  match can_rtr c with
  | Some d => (0 <=? d) && (d <=? 8) && bool_decide (can_data c = []) &&
              negb (can_is_fd c) && negb (can_brs c) && negb (can_esi c)
  | None => (can_is_fd c || negb (can_brs c || can_esi c)) &&
            (length (can_data c) <=? (if can_is_fd c then 64 else 8))%nat
  end.

Definition sample_carried (s : Sample) : bool :=
  match s with
  | Can c => frame_ok c
  | Modbus m => true
  | Serial r => ser_seq r <? 2 ^ 31
  end.

(** The constructors set the fields they are given, and the flag byte holds
    them apart. *)
Class CanLaws `{CanLib} : Prop := {
  remote_fields : ∀ b a x d, 0 ≤ d ≤ 8 →
    let f := cf_set_esi false (cf_remote b a x d) in
    cf_arb_id f = a ∧ cf_extended f = x ∧ cf_fd f = false ∧ cf_rtr f = true ∧
    cf_brs f = false ∧ cf_esi f = false ∧ cf_data f = [] ∧ cf_dlc f = d;
  data_fields : ∀ b a x fd brs esi p,
    let f := cf_set_esi esi (cf_data_frame b a x fd brs p) in
    cf_arb_id f = a ∧ cf_extended f = x ∧ cf_fd f = fd ∧ cf_rtr f = false ∧
    cf_brs f = brs ∧ cf_esi f = esi ∧ cf_data f = p;
  flags_rtr : ∀ f tx, flags_contains (flags_of f tx) FLAG_RTR = cf_rtr f;
  flags_brs : ∀ f tx, flags_contains (flags_of f tx) FLAG_BRS = cf_brs f;
  flags_esi : ∀ f tx, flags_contains (flags_of f tx) FLAG_ESI = cf_esi f;
  flags_u8 : ∀ f tx, is_u8 (flags_of f tx);
  no_flags : ∀ b, b = FLAG_RTR ∨ b = FLAG_BRS ∨ b = FLAG_ESI → flags_contains 0 b = false
}.

(** What the encoder writes of a record reads back, and a CAN frame is the
    frame its record's fields and payload describe. *)
Class ProtoLaws `{ProtoLib} : Prop := {
  wire_modbus : ∀ u f crc tx, is_u8 u → is_u8 f →
    let '(k, i, fl) := to_wire (RfModbus u f crc tx) in from_wire k i fl = RfModbus u f crc tx;
  wire_serial : ∀ seq tx, 0 ≤ seq < 2 ^ 31 →
    let '(k, i, fl) := to_wire (RfRawSerial seq tx) in from_wire k i fl = RfRawSerial seq tx;
  wire_can : ∀ c tx, frame_ok c = true →
    let r := from_can (can_frame c) tx in
    let '(k, i, fl) := to_wire r in
    from_wire k i fl = r ∧ to_can r (can_bus c) (can_data c) = Some (can_frame c)
}.

(** ** A sample survives the protocol *)

Section RoundTrip.
Context `{ProtoLaws} `{!CanLaws}.

Lemma can_sample_frame c :
  frame_ok c = true → can_sample (can_frame c) (can_ts_us c) (can_bus c) (can_dir c) = c.
Proof.
  destruct c as [ts a x fd rtr brs esi p b dir]. unfold frame_ok, can_frame, can_sample; simpl.
  intros Hok. apply andb_true_iff in Hok as [_ Hok].
  destruct rtr as [d|].
  - bool_prop. simplify_eq.
    destruct (remote_fields b a x d ltac:(lia)) as (-> & -> & -> & -> & -> & -> & -> & ->).
    done.
  - by destruct (data_fields b a x fd brs esi p) as (-> & -> & -> & -> & -> & -> & ->).
Qed.

(** A record encodes a sample without loss: what the receiving end decodes
    from the record, stamped with the time the record carries, is the sample that
    was sent, for every sample no older than the epoch. *)
Theorem decode_record (s : Sample) :
  sample_ok s → sample_carried s = true → 0 ≤ ts_us s →
  decode (br_ts_us (record s)) (on_the_wire (record s)) = Some s.
Proof.
  intros Hok Hc Hts. destruct s as [c|m|r]; simpl in *.
  - unfold record, on_the_wire; simpl.
    pose proof (wire_can c (bool_decide (can_dir c = Tx)) Hc) as Hw. simpl in Hw.
    destruct (to_wire _) as [[k i] fl]. destruct Hw as [Hf Ht].
    unfold decode; simpl. rewrite Hf.
    destruct (from_can_variant (can_frame c) (bool_decide (can_dir c = Tx))) as [rest Hr].
    rewrite Hr in *. rewrite Ht. unfold wire_ts_us; simpl. rewrite Z.max_l by done.
    assert ((if bool_decide (can_dir c = Tx) then Tx else Rx) = can_dir c) as ->
      by by destruct (can_dir c).
    by rewrite can_sample_frame.
  - destruct Hok as (_ & _ & Hu & Hf & _). unfold record, on_the_wire; simpl.
    pose proof (wire_modbus (mb_unit m) (mb_func m) (mb_crc_valid m) false Hu Hf) as Hw.
    destruct (to_wire _) as [[k i] fl]. unfold decode; simpl. rewrite Hw.
    unfold wire_ts_us; simpl. rewrite Z.max_l by done. by destruct m.
  - destruct Hok as (_ & _ & Hs & _). unfold record, on_the_wire; simpl. bool_prop.
    pose proof (wire_serial (ser_seq r) false ltac:(unfold is_u32 in Hs; lia)) as Hw.
    destruct (to_wire _) as [[k i] fl]. unfold decode; simpl. rewrite Hw.
    unfold wire_ts_us; simpl. rewrite Z.max_l by done. by destruct r.
Qed.
End RoundTrip.

(** CAN's length codes: the smallest whose length holds the payload. *)
Definition length_code_of (n : nat) : Z :=
  let n := Z.of_nat n in
  if n <=? 8 then n else if n <=? 12 then 9 else if n <=? 16 then 10
  else if n <=? 20 then 11 else if n <=? 24 then 12 else if n <=? 32 then 13
  else if n <=? 48 then 14 else 15.

(** ** An instance

    A frame as its fields, and a record packed into three integers: enough to
    run the mapping on concrete samples. *)

Module Packed.

Record Frame := MkFrame {
  f_arb_id : Z; f_extended : bool; f_fd : bool; f_rtr : option Z;
  f_brs : bool; f_esi : bool; f_data : list Z
}.

(** The bits of the byte, from the lowest: remote, FD, bit rate switch, extended,
    error state, transmitted. *)
Definition flags_byte (f : Frame) (tx : bool) : Z :=
  Z.b2z (bool_decide (is_Some (f_rtr f))) + 2 * Z.b2z (f_fd f) + 4 * Z.b2z (f_brs f) + 8 * Z.b2z (f_extended f) +
  16 * Z.b2z (f_esi f) + 32 * Z.b2z tx.

#[export] Instance can_lib : CanLib := {
  CanFrame := Frame;
  cf_remote _ a x d := MkFrame a x false (Some d) false false [];
  cf_data_frame _ a x fd brs p := MkFrame a x fd None brs false p;
  cf_set_esi e f := MkFrame (f_arb_id f) (f_extended f) (f_fd f) (f_rtr f) (f_brs f) e (f_data f);
  cf_arb_id := f_arb_id; cf_extended := f_extended; cf_fd := f_fd;
  cf_rtr f := bool_decide (is_Some (f_rtr f)); cf_brs := f_brs; cf_esi := f_esi; cf_data := f_data;
  cf_dlc f := match f_rtr f with Some d => d | None => length_code_of (length (f_data f)) end;
  flags_of := flags_byte;
  FLAG_BRS := 4; FLAG_ESI := 16; FLAG_RTR := 1;
  flags_contains v b := negb (Z.land v b =? 0)
}.

#[export] Instance can_laws : CanLaws.
Proof.
  split; try done.
  all: intros [? [] [] [] [] [] ?] []; first [reflexivity | vm_compute; split; discriminate].
Qed.

(** The fields of a record, its flags as a byte and a remote frame's code. *)
Definition fields : Type := Z * bool * bool * bool * bool * option Z.

Definition rest_of (f : Frame) : fields :=
  (f_arb_id f, f_extended f, f_fd f, f_brs f, f_esi f, f_rtr f).

Definition pack_can (tx : bool) (r : fields) : Z * Z * Z :=
  let '(a, x, fd, brs, esi, rtr) := r in
  (0, 2 * a + Z.b2z x,
   Z.b2z fd + 2 * (Z.b2z brs + 2 * (Z.b2z esi + 2 * (Z.b2z tx +
     2 * match rtr with Some d => d + 1 | None => 0 end)))).

Definition unpack (k i fl : Z) : RecordFields fields :=
  if k =? 0 then
    let code := fl / 16 in
    RfCan (Z.odd (fl / 8))
      (i / 2, Z.odd i, Z.odd fl, Z.odd (fl / 2), Z.odd (fl / 4),
       if code =? 0 then None else Some (code - 1))
  else if k =? 1 then RfModbus (i / 256) (i mod 256) (Z.odd fl) (Z.odd (fl / 2))
  else RfRawSerial i (Z.odd fl).

Lemma odd_b2z b n : Z.odd (Z.b2z b + 2 * n) = b.
Proof. rewrite Z.odd_add_mul_2. by destruct b. Qed.
Lemma half_b2z b n : (Z.b2z b + 2 * n) / 2 = n.
Proof. symmetry. apply (Z.div_unique _ _ _ (Z.b2z b)); destruct b; simpl Z.b2z; lia. Qed.

Definition packed_from_can (f : Frame) (tx : bool) : RecordFields fields := RfCan tx (rest_of f).
Definition packed_to_can (r : RecordFields fields) (_ : Z) (p : list Z) : option Frame :=
  match r with
  | RfCan _ (a, x, fd, brs, esi, rtr) => Some (MkFrame a x fd rtr brs esi p)
  | _ => None
  end.
Definition packed_to_wire (r : RecordFields fields) : Z * Z * Z :=
  match r with
  | RfCan tx rest => pack_can tx rest
  | RfModbus u f crc tx => (1, u * 256 + f, Z.b2z crc + 2 * Z.b2z tx)
  | RfRawSerial seq tx => (2, seq, Z.b2z tx)
  end.

Lemma packed_variant (f : Frame) tx : ∃ rest, packed_from_can f tx = RfCan tx rest.
Proof. by exists (rest_of f). Qed.
Lemma packed_to_can_some tx rest b p : is_Some (packed_to_can (RfCan tx rest) b p).
Proof. destruct rest as [[[[[a x] fd] brs] esi] rtr]. by eexists. Qed.

#[export] Instance proto_lib : ProtoLib := {
  CanFields := fields;
  from_can := packed_from_can;
  to_can := packed_to_can;
  to_wire := packed_to_wire;
  from_wire := unpack;
  from_can_variant := packed_variant;
  to_can_of_variant := packed_to_can_some
}.

Lemma unpack_can tx a x fd brs esi rtr :
  match rtr with Some d => 0 <= d | None => True end →
  let '(k, i, fl) := pack_can tx (a, x, fd, brs, esi, rtr) in
  unpack k i fl = RfCan tx (a, x, fd, brs, esi, rtr).
Proof.
  intros Hr. unfold pack_can, unpack. cbn [Z.eqb].
  set (code := match rtr with Some d => d + 1 | None => 0 end).
  change 16 with (2 * (2 * (2 * 2))). change 8 with (2 * (2 * 2)). change 4 with (2 * 2).
  rewrite <-!Z.div_div, !half_b2z, !odd_b2z by lia.
  rewrite (Z.add_comm (2 * a)), half_b2z, odd_b2z. do 2 f_equal.
  subst code. destruct rtr as [d|]; [|done].
  destruct (Z.eqb_spec (d + 1) 0); [lia|]. f_equal. lia.
Qed.

#[export] Instance proto_laws : ProtoLaws.
Proof.
  split.
  - intros u f crc tx Hu Hf. simpl. unfold unpack; cbn [Z.eqb]. unfold is_u8 in *.
    rewrite odd_b2z, half_b2z.
    assert ((u * 256 + f) / 256 = u) as -> by (symmetry; apply (Z.div_unique _ _ _ f); lia).
    assert ((u * 256 + f) mod 256 = f) as -> by (symmetry; apply (Z.mod_unique _ _ u); lia).
    by destruct tx.
  - intros seq tx Hs. simpl. unfold unpack; cbn [Z.eqb]. by destruct tx.
  - intros c tx Hc. cbn [from_can proto_lib to_wire from_wire to_can].
    unfold packed_from_can, packed_to_wire, packed_to_can.
    assert (Hrest : rest_of (can_frame c) = (can_arb_id c, can_extended c, can_is_fd c,
      can_brs c, can_esi c, can_rtr c) ∧ f_data (can_frame c) = can_data c).
    { unfold frame_ok in Hc. apply andb_true_iff in Hc as [_ Hc].
      destruct c as [ts a x fd [d|] brs esi p b dir]; simpl in *; [|done].
      bool_prop. by simplify_eq. }
    destruct Hrest as [Hrest Hdata]. rewrite Hrest.
    pose proof (unpack_can tx (can_arb_id c) (can_extended c) (can_is_fd c) (can_brs c)
      (can_esi c) (can_rtr c)) as Hu.
    destruct (pack_can _ _) as [[k i] fl]. split.
    + apply Hu. unfold frame_ok in Hc. destruct (can_rtr c); [|done]. bool_prop. lia.
    + revert Hrest Hdata. unfold rest_of. destruct (can_frame c); simpl.
      intros; by simplify_eq.
Qed.
End Packed.

(** A sample to run the theorems on. *)
Definition sample_frame : Sample :=
  Can (MkCan 1700000000000001 0x18FF50E5 true true None true false [1; 2; 3] 2 Rx).

Import (hints) Packed.
Lemma decode_record_witness :
  decode (br_ts_us (record sample_frame)) (on_the_wire (record sample_frame)) = Some sample_frame.
Proof.
  apply (decode_record sample_frame); [|reflexivity|done].
  by apply (bool_decide_unpack _); vm_compute.
Defined.
