(* ===== verification/Cache.v ===== *)
(** * The disk cache ([cache.rs])

    [FrameCache] is the trait the batcher is written against; [SqliteCache] is
    its one implementation, here over an interface to SQLite and the file
    system. A sample is stored as a row; [encode] is the row [append] inserts
    and [decode] what [oldest] reads of one. *)

From S2P Require Import Prelude F64 Model Source Wire.
Import Sample.
Local Open Scope Z_scope.

Definition CacheError : Type := string.

Definition ADOPT_BATCH : nat := 1000.

(** A frame in the cache, with what the store needs to find it again. *)
Record Cached := MkCached { id : Z; sample : Sample }.

#[global] Instance Cached_eq_dec : EqDecision Cached.
Proof. solve_decision. Defined.

(** ** [trait FrameCache] *)

Class FrameCache (C : Type) := {
  append : list Sample → io C CacheError nat;
  oldest : nat → io C CacheError (list Cached);
  remove : list Cached → io C CacheError ();
  count : io C CacheError Z;
  size_bytes : C → Z;
  is_full : C → bool;
  reset : io C CacheError ()
}.

(** What the trait's documentation promises: a FIFO. [contents] is what waits,
    oldest first; [storable] the samples the store can give back unchanged. A
    failed operation leaves the contents alone. *)
Class FrameCacheLaws (C : Type) `{FrameCache C} := {
  cache_ok : C → Prop;
  contents : C → list Cached;
  storable : Sample → bool;
  contents_storable : ∀ c, cache_ok c → Forall (λ k, storable (sample k) = true) (contents c);
  contents_nodup : ∀ c, cache_ok c → NoDup (id <$> contents c);
  append_spec : ∀ c fs r c', cache_ok c → Forall (λ s, storable s = true) fs →
    append fs c = (r, c') →
    cache_ok c' ∧
    match r with
    | Ok n => n = length fs ∧ ∃ new, contents c' = contents c ++ new ∧ sample <$> new = fs
    | Err _ => contents c' = contents c
    end;
  oldest_spec : ∀ c n r c', cache_ok c → oldest n c = (r, c') →
    c' = c ∧ match r with Ok l => l = take n (contents c) | Err _ => True end;
  remove_spec : ∀ c l r c', cache_ok c → remove l c = (r, c') →
    cache_ok c' ∧
    match r with
    | Ok _ => contents c' = filter (λ k, id k ∉ (id <$> l)) (contents c)
    | Err _ => contents c' = contents c
    end;
  count_spec : ∀ c r c', cache_ok c → count c = (r, c') →
    c' = c ∧ match r with Ok n => n = Z.of_nat (length (contents c)) | Err _ => True end;
  reset_spec : ∀ c r c', cache_ok c → contents c = [] → reset c = (r, c') →
    cache_ok c' ∧ contents c' = []
}.

(** ** Time as the Python stored it *)

Definition to_secs (ts : Z) : f64 := f64_div (of_Z ts) (of_Z 1000000).
Definition from_secs (ts : f64) : Z := to_i64 (f64_round (f64_mul ts (of_Z 1000000))).

(** Timestamps a [REAL] column gives back: up to the year 2106. *)
Definition secs_limit : Z := 2 ^ 32 * 1000000.

Lemma from_secs_to_secs ts : 0 <= ts < secs_limit → from_secs (to_secs ts) = ts.
Proof.
  intros Hts. unfold from_secs, to_secs, secs_limit in *. rewrite secs_roundtrip by done.
  unfold to_i64, i64_min, i64_max. lia.
Qed.

(** ** Rows *)

(** The columns of [frames], without its key; [NULL] is [None]. *)
Record RowValues := MkRowValues {
  row_ts : f64;
  row_extended : bool;
  row_is_fd : bool;
  row_arb_id : Z;
  row_dlc : Z;
  row_data : list Z;
  row_bus : Z;
  row_dir : string;
  row_protocol : string;
  row_crc_valid : option bool;
  row_flags : option Z
}.

Notation Row := (Z * RowValues)%type.

(** What [wslib_wiretap_protocol] names a protocol, and how it packs a Modbus
    unit and function code into an id. *)
Class CacheLib := {
  protocol_as_str : Protocol → string;
  protocol_parse : string → option Protocol;
  modbus_id : Z → Z → Z;
  modbus_unit_func : Z → Z * Z;
  protocol_tag : ∀ p, protocol_parse (protocol_as_str p) = Some p;
  modbus_id_tag : ∀ u f, is_u8 u → is_u8 f → modbus_unit_func (modbus_id u f) = (u, f);
  modbus_id_u32 : ∀ u f, is_u8 u → is_u8 f → is_u32 (modbus_id u f)
}.

Section Rows.
Context `{CanLib} `{CacheLib}.

(** The parameters [append] binds to its [INSERT]. *)
Definition encode (s : Sample) : RowValues :=
  match s with
  | Can c =>
      let frame := can_frame c in
      MkRowValues (to_secs (can_ts_us c)) (can_extended c) (can_is_fd c) (can_arb_id c)
        (cf_dlc frame) (can_data c) (can_bus c) (as_str (can_dir c))
        (protocol_as_str (protocol s)) None (Some (flags_of frame false))
  | Modbus m =>
      MkRowValues (to_secs (mb_ts_us m)) false false (modbus_id (mb_unit m) (mb_func m))
        (Z.of_nat (length (mb_raw m))) (mb_raw m) (mb_bus m) (as_str Rx)
        (protocol_as_str (protocol s)) (Some (mb_crc_valid m)) None
  | Serial r =>
      MkRowValues (to_secs (ser_ts_us r)) false false (ser_seq r)
        (Z.of_nat (length (ser_data r))) (ser_data r) (ser_bus r) (as_str Rx)
        (protocol_as_str (protocol s)) None None
  end.

(** [Row::get] of an integer column as a [u8] or a [u32]: one that is out of
    its range is an error. *)
Definition get_uint (bits column v : Z) : result CacheError Z :=
  if (0 <=? v) && (v <? 2 ^ bits) then Ok v
  else Err ("Integer " +:+ pretty v +:+ " out of range at index " +:+ pretty column).

(** The closure [oldest] maps over the rows of its [SELECT]. *)
Definition decode_row (r : Row) : result CacheError Cached :=
  let '(key, v) := r in
  let ts := from_secs (row_ts v) in
  bus <-? get_uint 8 6 (row_bus v) ;;
  s <-? match protocol_parse (row_protocol v) with
        | Some ProtoModbusRtu =>
            id <-? get_uint 32 4 (row_arb_id v) ;;
            let '(unit, func) := modbus_unit_func id in
            Ok (Modbus (MkModbus ts bus unit func (default false (row_crc_valid v)) (row_data v)))
        | Some ProtoSerial =>
            seq <-? get_uint 32 4 (row_arb_id v) ;;
            Ok (Serial (MkSerial ts bus seq (row_data v)))
        | None => Err ("no sample for protocol " +:+ row_protocol v)
        | Some ProtoCan =>
            flags <-? match row_flags v with Some f => get_uint 8 10 f | None => Ok 0 end ;;
            rtr <-? (if flags_contains flags FLAG_RTR
                     then dlc <-? get_uint 8 11 (row_dlc v) ;; Ok (Some dlc) else Ok None) ;;
            arb_id <-? get_uint 32 4 (row_arb_id v) ;;
            Ok (Can (MkCan ts arb_id (row_extended v) (row_is_fd v) rtr
              (flags_contains flags FLAG_BRS) (flags_contains flags FLAG_ESI)
              (row_data v) bus
              (match from_str (row_dir v) with Ok d => d | Err _ => Rx end)))
        end ;;
  Ok (MkCached key s).

(** The samples a row gives back as they went in. *)
Definition row_storable (s : Sample) : bool :=
  bool_decide (sample_ok s) && sample_carried s &&
  (0 <=? ts_us s) && (ts_us s <? secs_limit).

Lemma get_uint_u8 column v : is_u8 v → get_uint 8 column v = Ok v.
Proof. unfold is_u8, get_uint. intros ?. by rewrite (proj2 (Z.leb_le 0 v)), (proj2 (Z.ltb_lt v (2 ^ 8))) by lia. Qed.
Lemma get_uint_u32 column v : is_u32 v → get_uint 32 column v = Ok v.
Proof. unfold is_u32, get_uint, u32_modulus. intros ?. by rewrite (proj2 (Z.leb_le 0 v)), (proj2 (Z.ltb_lt v (2 ^ 32))) by lia. Qed.

Lemma encode_decode_row `{!CanLaws} key s :
  row_storable s = true → decode_row (key, encode s) = Ok (MkCached key s).
Proof.
  unfold row_storable. intros [[[Hok Hcar]%andb_true_iff Hnn]%andb_true_iff Hlim]%andb_true_iff.
  bool_prop. destruct s as [c|m|r]; simpl in *; rewrite protocol_tag, from_secs_to_secs by done.
  - destruct Hok as (_ & Ha & _ & Hb & Hd). rewrite (get_uint_u8 _ _ Hb), (get_uint_u8 _ _ (flags_u8 _ _)), from_str_as_str,
      flags_rtr, flags_brs, flags_esi, (get_uint_u32 _ _ Ha).
    destruct c as [ts a x fd rtr brs esi p b dir]; unfold can_frame, frame_ok in *; simpl in *.
    apply andb_true_iff in Hcar as [_ Hcar]. destruct rtr as [d|].
    + bool_prop. simplify_eq.
      destruct (remote_fields b a x d ltac:(lia)) as (_ & _ & _ & -> & -> & -> & _ & ->). by rewrite (get_uint_u8 _ _ Hd).
    + by destruct (data_fields b a x fd brs esi p) as (_ & _ & _ & -> & -> & -> & _).
  - destruct Hok as (_ & Hb & Hu & Hf & _).
    rewrite (get_uint_u8 _ _ Hb), (get_uint_u32 _ _ (modbus_id_u32 _ _ Hu Hf)), modbus_id_tag by done. by destruct m.
  - destruct Hok as (_ & Hb & Hs & _). rewrite (get_uint_u8 _ _ Hb), (get_uint_u32 _ _ Hs). by destruct r.
Qed.
End Rows.

(** ** SQLite and the file system *)

(** A path, and a connection to the database in a file or in memory. *)
Definition Path : Type := string.
Inductive Conn := InMemory | OnFile (path : Path).

(** The schema statements [open_conn] runs. *)
Inductive Ddl := CreateFrames | AddProtocol | AddFlags.

Inductive Removed := RmOk | RmNotFound | RmFailed (why : string).

(** The operations [cache.rs] calls. [World] is the state outside the process:
    the files and the databases in them. *)
Class Sqlite := {
  World : Type;
  db_connect : Path → io World CacheError Conn;
  (** [Connection::open_in_memory]. *)
  db_in_memory : World → result CacheError ();
  db_is_readonly : Conn → World → result CacheError bool;
  db_pragma : Conn → string → string → io World CacheError ();
  db_ddl : Conn → Ddl → io World CacheError ();
  db_has_column : Conn → string → World → result CacheError bool;
  (** One transaction: begin, the [INSERT]s, commit. *)
  db_insert : Conn → list RowValues → io World CacheError ();
  db_select : Conn → nat → World → result CacheError (list Row);
  db_delete : Conn → list Z → io World CacheError nat;
  db_count : Conn → World → result CacheError Z;
  fs_exists : Path → World → bool;
  fs_parent : Path → option Path;
  fs_create_dir_all : Path → io World CacheError ();
  fs_remove : Path → World → Removed * World;
  fs_rename : Path → Path → World → bool * World;
  fs_len : Path → World → option Z
}.

(** ** [SqliteCache] *)

Record SqliteCache := MkSqliteCache {
  conn : Conn;
  path : Path;
  max_bytes : Z;
  rows : Z
}.

Definition SIDECARS : list string := ["-wal"; "-shm"].
Definition sidecar (p : Path) (suffix : string) : Path := p +:+ suffix.
Definition cache_files (p : Path) : list Path := p :: (sidecar p <$> SIDECARS).

(** [u64::saturating_mul]. *)
Definition saturating_mul_u64 (a b : Z) : Z := Z.min (a * b) (u64_modulus - 1).

Section SqliteCache.
Context `{CanLib} `{CacheLib} `{Sqlite}.

(** The cache and the world it lives in. *)
Definition CacheState : Type := SqliteCache * World.

Definition count_rows (c : Conn) : io World CacheError Z :=
  λ w, match db_count c w with
       | Ok n => (Ok (Z.max n 0), w)
       | Err e => (Err e, w)
       end.

(** [open_conn]'s widening loop, one column at a time. *)
Fixpoint widen (c : Conn) (columns : list (string * Ddl)) : io World CacheError () :=
  match columns with
  | [] => mret ()
  | (column, ddl) :: rest =>
      w ← io_get;
      widened ← io_lift (db_has_column c column w);
      _ ← (if widened : bool then mret () else db_ddl c ddl);
      widen c rest
  end.

Definition open_conn (p : Path) : io World CacheError Conn :=
  c ← db_connect p;
  w ← io_get;
  readonly ← io_lift (db_is_readonly c w);
  if readonly : bool then
    io_err "opened read-only, so an outage would be dropped rather than cached."
  else
    _ ← db_pragma c "journal_mode" "WAL";
    _ ← db_pragma c "synchronous" "NORMAL";
    _ ← db_ddl c CreateFrames;
    _ ← widen c [("protocol", AddProtocol); ("flags", AddFlags)];
    mret c.

Definition open_ (p : Path) (max_mb : Z) : io World CacheError SqliteCache :=
  _ ← match fs_parent p with
      | Some dir => if is_empty_str dir then mret () else fs_create_dir_all dir
      | None => mret ()
      end;
  c ← open_conn p;
  n ← count_rows c;
  mret (MkSqliteCache c p (saturating_mul_u64 max_mb (1024 * 1024)) n).

(** Remove the database and its sidecars, tolerating any that are absent. *)
Fixpoint unlink_all (files : list Path) : io World CacheError () :=
  match files with
  | [] => mret ()
  | f :: rest => λ w,
      match fs_remove f w with
      | (RmOk, w') | (RmNotFound, w') => unlink_all rest w'
      | (RmFailed why, w') => (Err ("cannot remove " +:+ f +:+ ": " +:+ why), w')
      end
  end.
Definition unlink (p : Path) : io World CacheError () := unlink_all (cache_files p).

(** [delete(self)]: closing is dropping the connection. *)
Definition delete (c : SqliteCache) : io World CacheError () := unlink (path c).

(** An operation on the world, from a method of the cache. *)
Definition on_world {A} (m : io World CacheError A) : io CacheState CacheError A :=
  λ '(c, w), let '(r, w') := m w in (r, (c, w')).

Definition set_conn (k : Conn) : io CacheState CacheError () :=
  io_modify (λ '(c, w), (MkSqliteCache k (path c) (max_bytes c) (rows c), w)).
Definition set_rows (n : Z) : io CacheState CacheError () :=
  io_modify (λ '(c, w), (MkSqliteCache (conn c) (path c) (max_bytes c) n, w)).
Definition self : io CacheState CacheError SqliteCache := λ '(c, w), (Ok c, (c, w)).
(** [self.conn = Connection::open_in_memory()?]: the connection is replaced only
    once there is one. *)
Definition close_conn : io CacheState CacheError () :=
  _ ← on_world (λ w, (db_in_memory w, w));
  set_conn InMemory.

Definition sqlite_append (frames : list Sample) : io CacheState CacheError nat :=
  match frames with
  | [] => mret 0%nat
  | _ =>
      c ← self;
      _ ← on_world (db_insert (conn c) (encode <$> frames));
      _ ← set_rows (rows c + Z.of_nat (length frames));
      mret (length frames)
  end.

Definition sqlite_oldest (limit : nat) : io CacheState CacheError (list Cached) :=
  c ← self;
  rs ← on_world (λ w, (db_select (conn c) limit w, w));
  io_lift (collect decode_row rs).

Definition sqlite_remove (frames : list Cached) : io CacheState CacheError () :=
  match frames with
  | [] => mret ()
  | _ =>
      c ← self;
      removed ← on_world (db_delete (conn c) (id <$> frames));
      set_rows (Z.max 0 (rows c - Z.of_nat removed))
  end.

Definition sqlite_count : io CacheState CacheError Z :=
  c ← self; mret (rows c).

Definition sqlite_size_bytes (s : CacheState) : Z :=
  let '(c, w) := s in
  foldr Z.add 0 (filter_map (λ f, fs_len f w) (cache_files (path c))).

Definition sqlite_is_full (s : CacheState) : bool :=
  max_bytes s.1 <=? sqlite_size_bytes s.

Definition sqlite_reset : io CacheState CacheError () :=
  c ← self;
  _ ← close_conn;
  _ ← on_world (unlink (path c));
  k ← on_world (open_conn (path c));
  _ ← set_conn k;
  set_rows 0.

(** [take_over(other)]: [other] is closed, so only its path and count remain. *)
Definition take_over (other : SqliteCache) : io CacheState CacheError bool :=
  let source := path other in
  let n := rows other in
  c ← self;
  _ ← close_conn;
  _ ← on_world (λ w, (Ok (), foldl (λ w f, (fs_remove f w).2) w (sidecar (path c) <$> SIDECARS)));
  renamed ← on_world (λ w, let '(b, w') := fs_rename source (path c) w in (Ok b, w'));
  k ← on_world (open_conn (path c));
  _ ← set_conn k;
  _ ← set_rows (if renamed : bool then n else 0);
  mret renamed.

(** An operation on another cache in the same world. *)
Definition on_other {A} (other : SqliteCache) (m : io CacheState CacheError A) :
    io CacheState CacheError (A * SqliteCache) :=
  λ '(c, w), match m (other, w) with
             | (Ok a, (other', w')) => (Ok (a, other'), (c, w'))
             | (Err e, (_, w')) => (Err e, (c, w'))
             end.

(** [adopt]'s copy loop. Each pass removes a batch from [old], so its row count
    bounds the passes. *)
Fixpoint adopt_loop (fuel : nat) (old : SqliteCache) : io CacheState CacheError SqliteCache :=
  match fuel with
  | O => mret old
  | S fuel =>
      '(batch, old) ← on_other old (sqlite_oldest ADOPT_BATCH);
      match batch with
      | [] => mret old
      | _ =>
          _ ← sqlite_append (sample <$> batch);
          '(_, old) ← on_other old (sqlite_remove batch);
          adopt_loop fuel old
      end
  end.

Definition adopt_fuel (old : SqliteCache) : nat := S (Z.to_nat (rows old)).

Definition adopt (legacy : Path) : io CacheState CacheError Z :=
  '(c, w) ← io_get;
  if negb (fs_exists legacy w) || str_eqb legacy (path c) then mret 0
  else
    old ← on_world (open_ legacy (u64_modulus - 1));
    let moved := rows old in
    if moved =? 0 then _ ← on_world (delete old); mret 0
    else
      let copy (old : SqliteCache) :=
        old ← adopt_loop (adopt_fuel old) old;
        _ ← on_world (delete old);
        mret moved in
      if rows c =? 0 then
        renamed ← take_over old;
        if renamed : bool then mret moved
        else old ← on_world (open_ legacy (u64_modulus - 1)); copy old
      else copy old.
End SqliteCache.

(** ** What SQLite and the file system promise

    [table w p] is the [frames] table of the database at [p], in key order;
    [None] while there is none. A statement that fails changes nothing, an
    [INSERT] of a transaction is all or nothing, and no two rows share a key. *)

Definition conn_table {W} (table : W → Path → option (list Row)) (w : W) (c : Conn) :=
  match c with InMemory => None | OnFile p => table w p end.

Class SqliteLaws `{Sqlite} := {
  table : World → Path → option (list Row);
  table_keys : ∀ w p rs, table w p = Some rs → NoDup rs.*1;
  connect_law : ∀ p w r w', db_connect p w = (r, w') →
    (∀ q, table w' q = table w q) ∧ match r with Ok c => c = OnFile p | Err _ => True end;
  pragma_law : ∀ c k v w r w', db_pragma c k v w = (r, w') → ∀ q, table w' q = table w q;
  ddl_law : ∀ p d w r w', db_ddl (OnFile p) d w = (r, w') → ∀ q,
    table w' q = match r, d with
                 | Ok _, CreateFrames => if decide (q = p) then Some (default [] (table w p)) else table w q
                 | _, _ => table w q
                 end;
  insert_law : ∀ c vs w r w', db_insert c vs w = (r, w') →
    match r with
    | Ok _ => ∃ p rs new, c = OnFile p ∧ table w p = Some rs ∧ new.*2 = vs ∧
        ∀ q, table w' q = if decide (q = p) then Some (rs ++ new) else table w q
    | Err _ => ∀ q, table w' q = table w q
    end;
  select_law : ∀ c n w l, db_select c n w = Ok l →
    ∃ rs, conn_table table w c = Some rs ∧ l = take n rs;
  delete_law : ∀ c ids w r w', db_delete c ids w = (r, w') →
    match r with
    | Ok k => ∃ p rs, c = OnFile p ∧ table w p = Some rs ∧
        let kept := filter (λ row : Row, row.1 ∉ ids) rs in
        k = (length rs - length kept)%nat ∧
        ∀ q, table w' q = if decide (q = p) then Some kept else table w q
    | Err _ => ∀ q, table w' q = table w q
    end;
  count_law : ∀ c w n, db_count c w = Ok n →
    ∃ rs, conn_table table w c = Some rs ∧ n = Z.of_nat (length rs);
  mkdir_law : ∀ p w r w', fs_create_dir_all p w = (r, w') → ∀ q, table w' q = table w q;
  exists_law : ∀ w p rs, table w p = Some rs → fs_exists p w = true;
  remove_law : ∀ p w r w', fs_remove p w = (r, w') → ∀ q,
    table w' q = match r with
                 | RmOk => if decide (q = p) then None else table w q
                 | _ => table w q
                 end;
  remove_absent : ∀ p w w', fs_remove p w = (RmNotFound, w') → table w p = None;
  rename_law : ∀ s d w b w', fs_rename s d w = (b, w') → ∀ q,
    table w' q = if b then (if decide (q = d) then table w s
                            else if decide (q = s) then None else table w q)
                 else table w q
}.

Section Refinement.
Context `{CanLaws} `{CacheLib} `{SqliteLaws}.

(** *** Rows and what they hold *)

Definition row_ok (r : Row) : Prop :=
  ∃ k, decode_row r = Ok k ∧ row_storable (sample k) = true.

Definition contents_of (rs : list Row) : list Cached :=
  filter_map (λ r, match decode_row r with Ok k => Some k | Err _ => None end) rs.

Lemma decode_row_id r k : decode_row r = Ok k → id k = r.1.
Proof. destruct r as [key v]. unfold decode_row. intros Hr. repeat case_match; by simplify_eq. Qed.

Lemma contents_of_cons r rs k :
  decode_row r = Ok k → contents_of (r :: rs) = k :: contents_of rs.
Proof. intros Hk. unfold contents_of, filter_map. simpl. by rewrite Hk. Qed.

Lemma contents_of_spec rs :
  Forall row_ok rs → Forall2 (λ r k, decode_row r = Ok k) rs (contents_of rs).
Proof.
  induction 1 as [|r rs (k & Hk & _) Hrs IH]; [constructor|].
  rewrite (contents_of_cons r rs k) by done. by constructor.
Qed.

Lemma contents_of_app rs rs' : contents_of (rs ++ rs') = contents_of rs ++ contents_of rs'.
Proof. apply omap_app. Qed.

Lemma contents_of_take n rs :
  Forall row_ok rs → collect decode_row (take n rs) = Ok (take n (contents_of rs)).
Proof. intros Hrs%contents_of_spec. apply collect_Ok. by apply Forall2_take. Qed.

Lemma contents_of_length rs : Forall row_ok rs → length (contents_of rs) = length rs.
Proof. intros Hrs%contents_of_spec. symmetry. by eapply Forall2_length. Qed.

Lemma contents_of_ids rs : Forall row_ok rs → id <$> contents_of rs = rs.*1.
Proof.
  intros Hrs%contents_of_spec. induction Hrs as [|r k rs ks Hk Hrs IH]; [done|].
  rewrite !fmap_cons, IH. by rewrite (decode_row_id r k).
Qed.

Lemma contents_of_storable rs :
  Forall row_ok rs → Forall (λ k, row_storable (sample k) = true) (contents_of rs).
Proof.
  induction 1 as [|r rs (k & Hk & Hs) Hrs IH]; [constructor|].
  rewrite (contents_of_cons r rs k) by done. by constructor.
Qed.

Lemma contents_of_filter (ids : list Z) rs :
  Forall row_ok rs →
  contents_of (filter (λ row : Row, row.1 ∉ ids) rs) = filter (λ k, id k ∉ ids) (contents_of rs).
Proof.
  induction 1 as [|r rs (k & Hk & Hs) Hrs IH]; [done|].
  rewrite (contents_of_cons r rs k), !filter_cons, (decode_row_id r k) by done.
  destruct (decide (r.1 ∉ ids)); [|done].
  rewrite (contents_of_cons r _ k) by done. by f_equal.
Qed.

Lemma encoded_rows_ok new fs :
  Forall (λ s, row_storable s = true) fs → new.*2 = encode <$> fs →
  Forall row_ok new ∧ sample <$> contents_of new = fs.
Proof.
  intros Hfs. revert new. induction Hfs as [|s fs Hs Hfs IH]; intros [|[key v] new]; try done.
  rewrite !fmap_cons. cbn [snd]. intros [= -> Hnew]. destruct (IH _ Hnew) as [Hok Hc].
  pose proof (encode_decode_row key s Hs) as Hd. split.
  - constructor; [|done]. eexists. by split.
  - rewrite (contents_of_cons _ _ _ Hd), fmap_cons. by f_equal.
Qed.

(** *** The invariant *)

(** A cache on its file counts the rows that are there and can read them all;
    one left on the in-memory placeholder by a failed [reset] holds nothing. *)
Definition sqlite_ok (s : CacheState) : Prop :=
  let '(c, w) := s in
  match conn c with
  | InMemory => rows c = 0
  | OnFile p => p = path c ∧ ∃ rs, table w p = Some rs ∧ Forall row_ok rs ∧
      rows c = Z.of_nat (length rs)
  end.

Definition sqlite_contents (s : CacheState) : list Cached :=
  let '(c, w) := s in
  match conn_table table w (conn c) with Some rs => contents_of rs | None => [] end.

(** *** Opening *)

(** A connection changes at most the table of its own file, and then only from
    absent to empty. *)
Definition opened (p : Path) (w w' : World) : Prop :=
  (∀ q, q ≠ p → table w' q = table w q) ∧
  (table w' p = table w p ∨ table w' p = Some (default [] (table w p))).

Lemma widen_tables p cols w r w' :
  Forall (λ x, x.2 ≠ CreateFrames) cols → widen (OnFile p) cols w = (r, w') →
  ∀ q, table w' q = table w q.
Proof.
  intros Hcols. revert w. induction Hcols as [|[col d] cols Hd Hcols IH]; intros w Hw q.
  { cbn [widen] in Hw. io_simpl. }
  cbn [widen] in Hw. io_step Hw as w1 s1 Hg; [|by io_simpl]. injection Hg as <- <-.
  io_step Hw as has s2 Hh; io_simpl. io_step Hw as u s3 Hd3.
  - rewrite (IH _ Hw). destruct has; io_simpl.
    rewrite (ddl_law _ _ _ _ _ Hd3). by destruct d.
  - destruct has; io_simpl. by rewrite (ddl_law _ _ _ _ _ Hd3).
Qed.

Lemma open_conn_spec p w r w' :
  open_conn p w = (r, w') →
  opened p w w' ∧
  match r with Ok c => c = OnFile p ∧ table w' p = Some (default [] (table w p)) | Err _ => True end.
Proof.
  intros Ho. unfold open_conn in Ho.
  assert (Hrefl : ∀ w1, (∀ q, table w1 q = table w q) → opened p w w1).
  { intros w1 Hw1. split; [auto|]. left. apply Hw1. }
  io_step Ho as c s1 Hc; destruct (connect_law _ _ _ _ Hc) as [H1' Hk]; [subst c|by auto].
  io_step Ho as w1 s2 Hg; [|by io_simpl]. injection Hg as <- <-.
  io_step Ho as ro s2 Hr; [|io_simpl; by auto].
  destruct ro; [io_simpl; by auto|]. injection Hr as Hr <-.
  io_step Ho as u1 s2 Hp1; pose proof (pragma_law _ _ _ _ _ _ Hp1) as H2';
    [|split; [apply Hrefl; congruence|done]].
  io_step Ho as u2 s3 Hp2; pose proof (pragma_law _ _ _ _ _ _ Hp2) as H3';
    [|split; [apply Hrefl; congruence|done]].
  io_step Ho as u3 s4 Hp3; pose proof (ddl_law _ _ _ _ _ Hp3) as H4'; simpl in H4';
    [|split; [apply Hrefl; congruence|done]].
  assert (Hp : table s4 p = Some (default [] (table w p)) ∧ ∀ q, q ≠ p → table s4 q = table w q).
  { split; [rewrite H4', decide_True by done|intros q Hq; rewrite H4', decide_False by done];
      congruence. }
  destruct Hp as [Hp Hq].
  assert (Hcols : Forall (λ x, x.2 ≠ CreateFrames) [("protocol", AddProtocol); ("flags", AddFlags)])
    by by repeat constructor.
  io_step Ho as u4 s5 Hw; pose proof (widen_tables _ _ _ _ _ Hcols Hw) as H5'.
  - injection Ho as <- <-. rewrite H5'. unfold opened. setoid_rewrite H5'. auto.
  - unfold opened. setoid_rewrite H5'. auto.
Qed.

(** *** The operations *)

Lemma sqlite_ok_table c w rs :
  sqlite_ok (c, w) → conn_table table w (conn c) = Some rs →
  conn c = OnFile (path c) ∧ table w (path c) = Some rs ∧ Forall row_ok rs ∧
  rows c = Z.of_nat (length rs) ∧ sqlite_contents (c, w) = contents_of rs.
Proof.
  unfold sqlite_contents, sqlite_ok. intros Hok Ht. rewrite Ht.
  destruct (conn c) as [|p]; simpl in *; [done|].
  destruct Hok as [-> (rs' & Hrs & Hall & Hlen)]. by simplify_eq.
Qed.

Lemma sqlite_ok_intro s rs :
  conn s.1 = OnFile (path s.1) → table s.2 (path s.1) = Some rs → Forall row_ok rs →
  rows s.1 = Z.of_nat (length rs) → sqlite_ok s.
Proof. destruct s as [c w]; simpl. intros -> Ht Hall Hr. split; [done|]. by exists rs. Qed.

Lemma row_ok_intro r k : decode_row r = Ok k → row_storable (sample k) = true → row_ok r.
Proof. by exists k. Qed.

Lemma sqlite_same_table c w w' :
  (∀ q, table w' q = table w q) → sqlite_ok (c, w) →
  sqlite_ok (c, w') ∧ sqlite_contents (c, w') = sqlite_contents (c, w).
Proof.
  unfold sqlite_ok, sqlite_contents. intros Hw. destruct (conn c); simpl; rewrite ?Hw; auto.
Qed.

Lemma sqlite_append_spec s fs r s' :
  sqlite_ok s → Forall (λ x, row_storable x = true) fs → sqlite_append fs s = (r, s') →
  sqlite_ok s' ∧
  match r with
  | Ok n => n = length fs ∧ ∃ new, sqlite_contents s' = sqlite_contents s ++ new ∧ sample <$> new = fs
  | Err _ => sqlite_contents s' = sqlite_contents s
  end.
Proof.
  destruct s as [c w]. intros Hok Hfs Ha. unfold sqlite_append in Ha.
  destruct fs as [|f fs']; [injection Ha as <- <-; split; [done|split; [done|]];
    by exists []; rewrite app_nil_r|].
  set (fs := f :: fs') in *. io_step Ha as c0 s0 Hs; [|done]. injection Hs as <- <-.
  unfold on_world in Ha.
  destruct (db_insert (conn c) (encode <$> fs) w) as [[u|e] w1] eqn:Hi;
    unfold mbind, io_bind in Ha; rewrite Hi in Ha; pose proof (insert_law _ _ _ _ _ Hi) as Hl; simpl in Hl.
  2:{ injection Ha as <- <-. by apply sqlite_same_table. }
  destruct Hl as (p & rs & new & Hc & Ht & Hnew & Hw1).
  assert (Htab : conn_table table w (conn c) = Some rs) by by rewrite Hc.
  destruct (sqlite_ok_table c w rs Hok Htab) as (Hcp & Hrs & Hall & Hlen & Hcon).
  destruct (encoded_rows_ok new fs Hfs Hnew) as [Hnok Hns].
  assert (p = path c) as -> by congruence.
  injection Ha as <- <-. unfold sqlite_ok, sqlite_contents; simpl. rewrite Hcp in *.
  simpl. rewrite Hw1, decide_True, Ht by done. rewrite contents_of_app. split.
  - split; [done|]. exists (rs ++ new). repeat split; [by apply Forall_app|].
    apply (f_equal length) in Hnew. simpl in Hnew. rewrite !length_fmap in Hnew.
    rewrite length_app. lia.
  - split; [done|]. by exists (contents_of new).
Qed.

Lemma sqlite_oldest_spec s n r s' :
  sqlite_ok s → sqlite_oldest n s = (r, s') →
  s' = s ∧ match r with Ok l => l = take n (sqlite_contents s) | Err _ => True end.
Proof.
  destruct s as [c w]. intros Hok Ho. unfold sqlite_oldest in Ho.
  io_step Ho as c0 s0 Hs; [|done]. injection Hs as <- <-.
  io_step Ho as rs s0 Hs; unfold on_world in Hs; [|by injection Hs as _ <-].
  injection Hs as Hs <-. injection Ho as <- <-. split; [done|].
  apply select_law in Hs as (rs' & Ht & ->).
  destruct (sqlite_ok_table c w rs' Hok Ht) as (_ & _ & Hall & _ & ->).
  by rewrite contents_of_take.
Qed.

Lemma sqlite_remove_spec s l r s' :
  sqlite_ok s → sqlite_remove l s = (r, s') →
  sqlite_ok s' ∧
  match r with
  | Ok _ => sqlite_contents s' = filter (λ k, id k ∉ (id <$> l)) (sqlite_contents s)
  | Err _ => sqlite_contents s' = sqlite_contents s
  end.
Proof.
  destruct s as [c w]. intros Hok Hr. unfold sqlite_remove in Hr.
  destruct l as [|k l'].
  { injection Hr as <- <-. split; [done|]. symmetry.
    apply filter_all. apply Forall_forall. intros k _. apply not_elem_of_nil. }
  set (l := k :: l') in *. io_step Hr as c0 s0 Hs; [|done]. injection Hs as <- <-.
  unfold on_world, mbind, io_bind in Hr.
  destruct (db_delete (conn c) (id <$> l) w) as [[n|e] w1] eqn:Hd;
    pose proof (delete_law _ _ _ _ _ Hd) as Hl; cbv beta iota zeta in Hl.
  2:{ injection Hr as <- <-. by apply sqlite_same_table. }
  destruct Hl as (p & rs & Hc & Ht & Hn & Hw1).
  assert (Htab : conn_table table w (conn c) = Some rs) by by rewrite Hc.
  destruct (sqlite_ok_table c w rs Hok Htab) as (Hcp & Hrs & Hall & Hlen & Hcon).
  assert (p = path c) as -> by congruence.
  injection Hr as <- <-. unfold sqlite_ok, sqlite_contents; simpl. rewrite Hcp in *.
  simpl. rewrite Hw1, decide_True, Ht by done.
  assert (Hkept : Forall row_ok (filter (λ row : Row, row.1 ∉ id <$> l) rs))
    by by apply Forall_filter.
  split.
  - split; [done|]. eexists. split; [done|]. split; [done|].
    pose proof (length_filter (λ row : Row, row.1 ∉ id <$> l) rs). lia.
  - by rewrite contents_of_filter.
Qed.

Lemma unlink_all_tables files w r w' :
  unlink_all files w = (r, w') →
  (∀ q, q ∉ files → table w' q = table w q) ∧
  (∀ q, table w q = None → table w' q = None) ∧
  (∀ q, table w' q = table w q ∨ table w' q = None) ∧
  (is_ok r = true → ∀ q, q ∈ files → table w' q = None).
Proof.
  revert w; induction files as [|f files IH]; intros w Hu.
  { injection Hu as <- <-. repeat split; auto. intros _ q Hq. by apply elem_of_nil in Hq. }
  cbn [unlink_all] in Hu.
  destruct (fs_remove f w) as [rr w1] eqn:Hrm. pose proof (remove_law _ _ _ _ Hrm) as Hl.
  assert (Hstep : unlink_all files w1 = (r, w') →
    table w1 f = None →
    (∀ q, q ∉ f :: files → table w' q = table w q) ∧
    (∀ q, table w q = None → table w' q = None) ∧
    (∀ q, table w' q = table w q ∨ table w' q = None) ∧
    (is_ok r = true → ∀ q, q ∈ f :: files → table w' q = None)).
  { intros Hu' Hf. destruct (IH _ Hu') as (H1' & H2' & H3' & H4').
    assert (Hw1 : ∀ q, table w1 q = table w q ∨ table w1 q = None).
    { intros q. rewrite Hl. destruct rr; auto. destruct (decide (q = f)); auto. }
    assert (Hneq : ∀ q, q ≠ f → table w1 q = table w q).
    { intros q Hq. rewrite Hl. destruct rr; auto. by rewrite decide_False. }
    repeat split.
    - intros q [Hqf Hq]%not_elem_of_cons. rewrite H1' by done. auto.
    - intros q Hq. apply H2'. destruct (Hw1 q); congruence.
    - intros q. destruct (H3' q) as [->|]; [apply Hw1|auto].
    - intros Hr q [->|Hq]%elem_of_cons; [by apply H2'|by apply H4']. }
  destruct rr as [| |why]; [apply Hstep; try done|apply Hstep; try done|].
  - by rewrite Hl, decide_True.
  - rewrite Hl. by eapply remove_absent.
  - injection Hu as <- <-.
    split_and!; [intros q _; apply Hl|intros q Hq; by rewrite Hl|intros q; left; apply Hl|done].
Qed.

Lemma sqlite_reset_spec s r s' :
  sqlite_ok s → sqlite_contents s = [] → sqlite_reset s = (r, s') →
  sqlite_ok s' ∧ sqlite_contents s' = [].
Proof.
  destruct s as [c w]. intros Hok Hemp Hr.
  assert (Hrows : rows c = 0).
  { unfold sqlite_ok, sqlite_contents in *. destruct (conn c) as [|p]; [done|].
    destruct Hok as [-> (rs & Ht & Hall & ->)]. simpl in Hemp. rewrite Ht in Hemp.
    rewrite <-(contents_of_length rs), Hemp by done. done. }
  unfold sqlite_reset, close_conn, self, set_conn, set_rows, io_modify, on_world, mbind, io_bind in Hr.
  destruct (db_in_memory w) as [[]|e]; [|by injection Hr as <- <-].
  destruct (unlink (path c) w) as [[u'|e] w1] eqn:Hu; [|by injection Hr as <- <-].
  destruct (open_conn (path c) w1) as [[k|e] w2] eqn:Ho; [|by injection Hr as <- <-].
  injection Hr as <- <-. simpl.
  apply open_conn_spec in Ho as [_ [-> Ht]].
  apply unlink_all_tables in Hu as (_ & _ & _ & Hgone).
  rewrite Hgone in Ht by (done || left). simpl. rewrite Ht. simpl.
  split; [|done]. split; [done|]. exists []. by repeat split.
Qed.

(** *** The instance *)

#[global] Instance sqlite_frame_cache : FrameCache CacheState := {
  append := sqlite_append;
  oldest := sqlite_oldest;
  remove := sqlite_remove;
  count := sqlite_count;
  size_bytes := sqlite_size_bytes;
  is_full := sqlite_is_full;
  reset := sqlite_reset
}.

Lemma sqlite_count_spec s r s' :
  sqlite_ok s → sqlite_count s = (r, s') →
  s' = s ∧ match r with Ok n => n = Z.of_nat (length (sqlite_contents s)) | Err _ => True end.
Proof.
  destruct s as [c w]. intros Hok Hc. injection Hc as <- <-. split; [done|].
  unfold sqlite_ok, sqlite_contents in *. destruct (conn c) as [|p]; [done|].
  destruct Hok as [-> (rs & Ht & Hall & ->)]. simpl. by rewrite Ht, contents_of_length.
Qed.

Lemma sqlite_contents_rows s :
  sqlite_ok s → ∃ rs, sqlite_contents s = contents_of rs ∧ Forall row_ok rs ∧ NoDup rs.*1.
Proof.
  destruct s as [c w]. unfold sqlite_ok, sqlite_contents. destruct (conn c) as [|p].
  - intros _. exists []. repeat split; constructor.
  - intros [-> (rs & Ht & Hall & _)]. exists rs. simpl. rewrite Ht. repeat split; [done|].
    by eapply table_keys.
Qed.

Lemma sqlite_contents_storable s :
  sqlite_ok s → Forall (λ k, row_storable (sample k) = true) (sqlite_contents s).
Proof. intros (rs & -> & Hall & _)%sqlite_contents_rows. by apply contents_of_storable. Qed.
Lemma sqlite_contents_nodup s : sqlite_ok s → NoDup (id <$> sqlite_contents s).
Proof. intros (rs & -> & Hall & Hnd)%sqlite_contents_rows. by rewrite contents_of_ids. Qed.

#[global] Instance sqlite_frame_cache_laws : FrameCacheLaws CacheState := {
  cache_ok := sqlite_ok;
  contents := sqlite_contents;
  storable := row_storable;
  contents_storable := sqlite_contents_storable;
  contents_nodup := sqlite_contents_nodup;
  append_spec := sqlite_append_spec;
  oldest_spec := sqlite_oldest_spec;
  remove_spec := sqlite_remove_spec;
  count_spec := sqlite_count_spec;
  reset_spec := sqlite_reset_spec
}.
End Refinement.
