(* ===== verification/CacheFifo.v ===== *)
(** * The cache as a queue, and its adoption of an older one

    A run of cache operations is a run of an abstract FIFO ([sqlite_refines_fifo]),
    a cache an older install left behind is moved over in order and without loss
    ([adopt_moves]), and an in-memory disk on which both can be run. *)

From S2P Require Import Prelude F64 Model Source Wire Cache.
Import Sample.
Local Open Scope Z_scope.

(** ** The abstract queue *)

(** What the batcher does with a cache: append, read the front, forget a prefix
    of what it read, count. *)
Inductive op :=
  | OpAppend (fs : list Sample)
  | OpOldest (n : nat)
  | OpDrain (n k : nat)
  | OpCount.

Inductive answer :=
  | AStored (n : nat)
  | AFrames (l : list Sample)
  | ACount (n : Z)
  | AFailed.

(** The queue of samples, oldest first. A failed operation does nothing. *)
Inductive fifo_step : op → list Sample → answer → list Sample → Prop :=
  | fifo_append fs q : fifo_step (OpAppend fs) q (AStored (length fs)) (q ++ fs)
  | fifo_oldest n q : fifo_step (OpOldest n) q (AFrames (take n q)) q
  | fifo_drain n k q :
      fifo_step (OpDrain n k) q (AFrames (take (k `min` n) q)) (drop (k `min` n) q)
  | fifo_count q : fifo_step OpCount q (ACount (Z.of_nat (length q))) q
  | fifo_failed o q : fifo_step o q AFailed q.

Inductive fifo_run : list op → list Sample → list answer → list Sample → Prop :=
  | fifo_nil q : fifo_run [] q [] q
  | fifo_cons o os q a q1 as_ q' :
      fifo_step o q a q1 → fifo_run os q1 as_ q' → fifo_run (o :: os) q (a :: as_) q'.

Section Fifo.
Context {C : Type} `{FrameCacheLaws C}.

Definition exec (o : op) (c : C) : answer * C :=
  match o with
  | OpAppend fs =>
      match append fs c with (Ok n, c') => (AStored n, c') | (Err _, c') => (AFailed, c') end
  | OpOldest n =>
      match oldest n c with
      | (Ok l, c') => (AFrames (sample <$> l), c')
      | (Err _, c') => (AFailed, c')
      end
  | OpDrain n k =>
      match oldest n c with
      | (Ok l, c1) =>
          match remove (take k l) c1 with
          | (Ok _, c') => (AFrames (sample <$> take k l), c')
          | (Err _, c') => (AFailed, c')
          end
      | (Err _, c') => (AFailed, c')
      end
  | OpCount =>
      match count c with (Ok n, c') => (ACount n, c') | (Err _, c') => (AFailed, c') end
  end.

Fixpoint exec_all (os : list op) (c : C) : list answer * C :=
  match os with
  | [] => ([], c)
  | o :: os => let '(a, c1) := exec o c in let '(l, c') := exec_all os c1 in (a :: l, c')
  end.

Definition op_storable (o : op) : bool :=
  match o with OpAppend fs => forallb storable fs | _ => true end.

Definition samples (c : C) : list Sample := sample <$> contents c.

(** Forgetting the first [k] of what [oldest] returned drops them. *)
Lemma remove_front c n k l r c' :
  cache_ok c → l = take n (contents c) → remove (take k l) c = (r, c') →
  cache_ok c' ∧
  match r with
  | Ok _ => contents c' = drop (k `min` n) (contents c)
  | Err _ => contents c' = contents c
  end.
Proof.
  intros Hok -> Hr. destruct (remove_spec _ _ _ _ Hok Hr) as [Hok' Hc]. split; [done|].
  destruct r; [|done]. rewrite Hc, take_take. apply filter_drop_keys. by apply contents_nodup.
Qed.

Lemma exec_refines o c a c' :
  cache_ok c → op_storable o = true → exec o c = (a, c') →
  cache_ok c' ∧ fifo_step o (samples c) a (samples c').
Proof.
  intros Hok Hs He. unfold samples. destruct o as [fs|n|n k|]; simpl in *.
  - destruct (append fs c) as [r c1] eqn:Ha.
    assert (Hfs : Forall (λ s, storable s = true) fs)
      by (apply Forall_forall; intros s; by apply forallb_elem).
    destruct (append_spec _ _ _ _ Hok Hfs Ha) as [Hok' Hr].
    destruct r; simplify_eq; split; try done.
    + destruct Hr as [-> (new & -> & Hnew)]. rewrite fmap_app, Hnew. constructor.
    + rewrite Hr. constructor.
  - destruct (oldest n c) as [r c1] eqn:Ho.
    destruct (oldest_spec _ _ _ _ Hok Ho) as [-> Hr].
    destruct r; simplify_eq; split; try done; [|constructor].
    rewrite fmap_take. constructor.
  - destruct (oldest n c) as [r c1] eqn:Ho.
    destruct (oldest_spec _ _ _ _ Hok Ho) as [-> Hr].
    destruct r as [l|]; [|simplify_eq; split; [done|constructor]].
    destruct (remove (take k l) c) as [r2 c2] eqn:Hrm.
    destruct (remove_front _ _ _ _ _ _ Hok Hr Hrm) as [Hok' Hc].
    destruct r2; simplify_eq; split; try done; rewrite Hc.
    + rewrite take_take, fmap_take, fmap_drop. constructor.
    + constructor.
  - destruct (count c) as [r c1] eqn:Hco.
    destruct (count_spec _ _ _ Hok Hco) as [-> Hr].
    destruct r; simplify_eq; split; try done; [|constructor].
    rewrite <-(length_fmap sample). constructor.
Qed.

Lemma exec_all_refines os c as_ c' :
  cache_ok c → forallb op_storable os = true → exec_all os c = (as_, c') →
  cache_ok c' ∧ fifo_run os (samples c) as_ (samples c').
Proof.
  revert c as_; induction os as [|o os IH]; intros c as_ Hok Hs He.
  { simplify_eq/=. split; [done|constructor]. }
  cbn [exec_all forallb] in *. apply andb_true_iff in Hs as [Ho Hos].
  destruct (exec o c) as [a c1] eqn:Hex. destruct (exec_all os c1) as [l c2] eqn:Hall.
  simplify_eq. destruct (exec_refines _ _ _ _ Hok Ho Hex) as [Hok1 Hstep].
  destruct (IH _ _ Hok1 Hos Hall) as [Hok2 Hrun]. split; [done|]. by econstructor.
Qed.
End Fifo.

(** C4: any sequence of operations on a [SqliteCache], failures included, is a
    run of the abstract queue: frames come back unchanged and in the order they
    were appended, what was forgotten was the front, and the count is what waits. *)
Theorem sqlite_refines_fifo `{CanLaws} `{CacheLib} `{SqliteLaws}
    (os : list op) (s : CacheState) (as_ : list answer) (s' : CacheState) :
  sqlite_ok s → forallb op_storable os = true → exec_all os s = (as_, s') →
  sqlite_ok s' ∧ fifo_run os (samples s) as_ (samples s').
Proof. exact (exec_all_refines (C := CacheState) os s as_ s'). Qed.

(** ** Adopting an older cache *)

Section Adopt.
Context `{CanLaws} `{CacheLib} `{SqliteLaws}.

(** The frames on disk at a path, whoever has it open. *)
Definition samples_at (w : World) (p : Path) : list Sample :=
  match table w p with Some rs => sample <$> contents_of rs | None => [] end.

(** A cache on its own file. *)
Definition on_file (c : SqliteCache) (w : World) : Prop :=
  conn c = OnFile (path c) ∧ sqlite_ok (c, w).

Lemma on_file_samples c w :
  on_file c w → sample <$> sqlite_contents (c, w) = samples_at w (path c).
Proof.
  intros [Hc _]. unfold samples_at, sqlite_contents. rewrite Hc; simpl.
  by destruct (table w (path c)).
Qed.

(** An append or a removal touches its own file only, and the cache stays on it. *)
Lemma append_frame c w fs r c' w' :
  sqlite_append fs (c, w) = (r, (c', w')) → conn c = OnFile (path c) →
  conn c' = conn c ∧ path c' = path c ∧ ∀ q, q ≠ path c → table w' q = table w q.
Proof.
  intros Ha Hc. unfold sqlite_append in Ha. destruct fs as [|f fs]; [by injection Ha as <- <- <-|].
  unfold mbind, io_bind, self, on_world in Ha.
  destruct (db_insert _ _ w) as [[u|e] w1] eqn:Hi; pose proof (insert_law _ _ _ _ _ Hi) as Hl;
    injection Ha as <- <- <-; split_and!; try done; intros q Hq; try apply Hl.
  destruct Hl as (p & rs & new & Hp & _ & _ & ->). rewrite decide_False; congruence.
Qed.

Lemma remove_frame c w l r c' w' :
  sqlite_remove l (c, w) = (r, (c', w')) → conn c = OnFile (path c) →
  conn c' = conn c ∧ path c' = path c ∧ ∀ q, q ≠ path c → table w' q = table w q.
Proof.
  intros Ha Hc. unfold sqlite_remove in Ha. destruct l as [|f l]; [by injection Ha as <- <- <-|].
  unfold mbind, io_bind, self, on_world in Ha.
  destruct (db_delete _ _ w) as [[u|e] w1] eqn:Hi; pose proof (delete_law _ _ _ _ _ Hi) as Hl;
    injection Ha as <- <- <-; split_and!; try done; intros q Hq; try apply Hl.
  destruct Hl as (p & rs & Hp & _ & _ & ->). rewrite decide_False; congruence.
Qed.

Lemma on_file_other c w w' :
  on_file c w → table w' (path c) = table w (path c) → on_file c w'.
Proof. intros [Hc Hok] Ht. split; [done|]. unfold sqlite_ok in *. rewrite Hc in *. by rewrite Ht. Qed.

Lemma sqlite_remove_front s n k r s' :
  sqlite_ok s → sqlite_remove (take k (take n (sqlite_contents s))) s = (r, s') →
  sqlite_ok s' ∧
  match r with
  | Ok _ => sqlite_contents s' = drop (k `min` n) (sqlite_contents s)
  | Err _ => sqlite_contents s' = sqlite_contents s
  end.
Proof.
  intros Hok Hr.
  exact (remove_front (H0 := sqlite_frame_cache_laws) s n k _ r s' Hok eq_refl Hr).
Qed.

(** What the copy has done so far: [m] frames arrived, [k] of them have left,
    nothing else on disk changed. *)
Definition moved_so_far (to_ from : Path) (w w' : World) (m k : nat) : Prop :=
  (k ≤ m ≤ length (samples_at w from))%nat ∧
  samples_at w' to_ = samples_at w to_ ++ take m (samples_at w from) ∧
  samples_at w' from = drop k (samples_at w from).

Lemma on_other_inv {A} old (m : io CacheState CacheError A) c w r s' :
  on_other old m (c, w) = (r, s') →
  ∃ r1 old' w', m (old, w) = (r1, (old', w')) ∧ s' = (c, w') ∧
    r = match r1 with Ok a => Ok (a, old') | Err e => Err e end.
Proof.
  unfold on_other. destruct (m (old, w)) as [[a|e] [old' w']]; intros [= <- <-]; by eexists _, _, _.
Qed.

Lemma moved_none p q w : moved_so_far p q w w 0 0.
Proof. unfold moved_so_far. rewrite take_0, drop_0, app_nil_r. split_and!; done || lia. Qed.

(** A batch of [n] that arrived and left, then the rest of the loop. *)
Lemma moved_trans p q w w1 w2 n m k :
  (n ≤ length (samples_at w q))%nat →
  moved_so_far p q w w1 n n → moved_so_far p q w1 w2 m k →
  moved_so_far p q w w2 (n + m) (n + k).
Proof.
  intros Hn (_ & Hc1 & Ho1) ([Hkm Hm] & Hc2 & Ho2). rewrite Ho1, length_drop in Hm.
  split; [lia|]. split.
  - rewrite Hc2, Hc1, Ho1, <-app_assoc. f_equal. by rewrite take_take_drop.
  - by rewrite Ho2, Ho1, drop_drop.
Qed.

(** One pass of the loop: a batch read from [old], appended, and removed. *)
Lemma adopt_pass c old w batch r1 c1 w1 :
  on_file c w → on_file old w → path c ≠ path old →
  batch = take ADOPT_BATCH (sqlite_contents (old, w)) →
  sqlite_append (sample <$> batch) (c, w) = (r1, (c1, w1)) →
  on_file c1 w1 ∧ path c1 = path c ∧ on_file old w1 ∧
  (is_ok r1 = false → moved_so_far (path c) (path old) w w1 0 0) ∧
  (is_ok r1 = true → moved_so_far (path c) (path old) w w1 (length batch) 0 ∧
    ∀ r2 old2 w2, sqlite_remove batch (old, w1) = (r2, (old2, w2)) →
      on_file c1 w2 ∧ on_file old2 w2 ∧ path old2 = path old ∧
      (is_ok r2 = false → moved_so_far (path c) (path old) w w2 (length batch) 0) ∧
      (is_ok r2 = true → moved_so_far (path c) (path old) w w2 (length batch) (length batch))).
Proof.
  intros Hc Ho Hne Hbatch Ha.
  pose proof (on_file_samples _ _ Hc) as Hsc. pose proof (on_file_samples _ _ Ho) as Hso.
  assert (Hst : Forall (λ s, row_storable s = true) (sample <$> batch)).
  { rewrite Hbatch. apply Forall_fmap, Forall_take. apply (sqlite_contents_storable _ (proj2 Ho)). }
  destruct (append_frame _ _ _ _ _ _ Ha (proj1 Hc)) as (Hconn & Hpath & Hfr).
  destruct (sqlite_append_spec _ _ _ _ (proj2 Hc) Hst Ha) as [Hok1 Hr1].
  assert (Hc1 : on_file c1 w1) by (split; [rewrite Hconn, Hpath; apply Hc|done]).
  assert (Ho1 : on_file old w1) by (apply (on_file_other old w); [done|by apply Hfr]).
  pose proof (on_file_samples _ _ Hc1) as Hsc1.
  assert (Holdw1 : samples_at w1 (path old) = samples_at w (path old))
    by (unfold samples_at; by rewrite Hfr).
  assert (Hlen : (length batch ≤ length (samples_at w (path old)))%nat)
    by (rewrite Hbatch, <-Hso, length_fmap, length_take; lia).
  assert (Hfront : sample <$> batch = take (length batch) (samples_at w (path old))).
  { rewrite <-Hso, <-fmap_take, Hbatch, length_take. f_equal.
    rewrite <-take_take. f_equal. symmetry. by apply take_ge. }
  split_and!; try done.
  - destruct r1; [done|]. intros _. unfold moved_so_far.
    rewrite take_0, drop_0, app_nil_r, Holdw1, <-Hpath, <-Hsc1, Hr1, Hpath. split_and!; done || lia.
  - destruct r1 as [n|]; [|done]. intros _. destruct Hr1 as [_ (new & Hnew & Hsn)].
    assert (Harr : samples_at w1 (path c) =
      samples_at w (path c) ++ take (length batch) (samples_at w (path old))).
    { rewrite <-Hpath, <-Hsc1, Hnew, fmap_app, Hsn, Hpath, Hsc. by f_equal. }
    split; [unfold moved_so_far; rewrite drop_0; split_and!; done || lia|].
    intros r2 old2 w2 Hrm.
    destruct (remove_frame _ _ _ _ _ _ Hrm (proj1 Ho1)) as (Hconn2 & Hpath2 & Hfr2).
    assert (Hold : sqlite_contents (old, w1) = sqlite_contents (old, w)).
    { unfold sqlite_contents. rewrite (proj1 Ho); simpl. by rewrite Hfr. }
    rewrite Hbatch, <-(take_ge (take _ _) (length batch)) in Hrm by by rewrite Hbatch.
    rewrite <-Hold in Hrm. destruct (sqlite_remove_front _ _ _ _ _ (proj2 Ho1) Hrm) as [Hok2 Hr2].
    assert (Hc2 : on_file c1 w2) by (apply (on_file_other c1 w1); [done|rewrite Hpath; auto]).
    assert (Ho2 : on_file old2 w2) by (split; [rewrite Hconn2, Hpath2; apply Ho|done]).
    pose proof (on_file_samples _ _ Ho2) as Hso2.
    assert (Harr2 : samples_at w2 (path c) = samples_at w1 (path c))
      by (unfold samples_at; by rewrite Hfr2).
    split_and!; try done; intros Hr; destruct r2; try done;
      unfold moved_so_far; rewrite Harr2, Harr, <-Hpath2, <-Hso2, Hr2, Hold, Hpath2.
    + rewrite drop_0, Hso. split_and!; done || lia.
    + rewrite fmap_drop, Hso. split_and!; try done. f_equal. rewrite Hbatch, length_take. lia.
Qed.

Lemma adopt_loop_spec fuel c old w r s' :
  on_file c w → on_file old w → path c ≠ path old →
  adopt_loop fuel old (c, w) = (r, s') →
  ∃ c' w' m k, s' = (c', w') ∧ path c' = path c ∧ on_file c' w' ∧
    moved_so_far (path c) (path old) w w' m k ∧
    match r with
    | Ok old' => path old' = path old ∧
        ((length (samples_at w (path old)) < fuel)%nat →
         m = length (samples_at w (path old)) ∧ k = m)
    | Err _ => True
    end.
Proof.
  revert c old w. induction fuel as [|fuel IH]; intros c old w Hc Ho Hne Hl.
  { injection Hl as <- <-. exists c, w, 0%nat, 0%nat. split_and!; try done; [apply moved_none|lia]. }
  cbn [adopt_loop] in Hl. io_step Hl as x s1 Hx;
    apply on_other_inv in Hx as (r1 & old1 & w1 & Hx & -> & Hr1);
    destruct (sqlite_oldest_spec _ _ _ _ (proj2 Ho) Hx) as [[= -> ->] Hb].
  2:{ exists c, w, 0%nat, 0%nat. split_and!; try done. apply moved_none. }
  destruct r1 as [batch|]; [|done]. injection Hr1 as ->.
  pose proof (on_file_samples _ _ Ho) as Hso.
  destruct (decide (batch = [])) as [->|Hbne].
  { injection Hl as <- <-. exists c, w, 0%nat, 0%nat. split_and!; try done; [apply moved_none|].
    intros _. split; [|done]. rewrite <-Hso, length_fmap. symmetry in Hb.
    destruct (sqlite_contents (old, w)); done. }
  assert (Hl' : (_ ← sqlite_append (sample <$> batch);
    '(_, old) ← on_other old (sqlite_remove batch); adopt_loop fuel old) (c, w) = (r, s'))
    by (destruct batch; done).
  clear Hl. rename Hl' into Hl.
  assert (Hlen : (0 < length batch ≤ length (samples_at w (path old)))%nat).
  { split; [destruct batch; simpl; [done|lia]|].
    rewrite <-Hso, length_fmap, Hb, length_take. lia. }
  io_step Hl as n s1 Ha; [destruct s1 as [c1 w1]|destruct s' as [c1 w1]];
    destruct (adopt_pass _ _ _ _ _ _ _ Hc Ho Hne Hb Ha) as (Hc1 & Hp1 & Ho1 & Hbad & Hgood).
  2:{ exists c1, w1, 0%nat, 0%nat. split_and!; try done. by apply Hbad. }
  destruct (Hgood eq_refl) as [Harr Hrm]. clear Hbad Hgood.
  io_step Hl as x s2 Hx2; apply on_other_inv in Hx2 as (r2 & old2 & w2 & Hx2 & -> & Hr2);
    destruct (Hrm _ _ _ Hx2) as (Hc2 & Ho2 & Hp2 & Hbad & Hgood);
    destruct r2 as [u|]; try discriminate Hr2.
  2:{ exists c1, w2, (length batch), 0%nat. split_and!; try done. by apply Hbad. }
  injection Hr2 as ->. destruct (IH c1 old2 w2 Hc2 Ho2 ltac:(congruence) Hl)
    as (c' & w' & m & k & -> & Hp' & Hc' & Hm & Hr).
  specialize (Hgood eq_refl). destruct Hgood as (Hgl & Hgc & Hgo).
  exists c', w', (length batch + m)%nat, (length batch + k)%nat.
  split_and!; try done; [congruence| |].
  - apply (moved_trans (path c) (path old) w w2 w'); [lia|exact (conj Hgl (conj Hgc Hgo))|].
    unfold moved_so_far in *. by rewrite Hp1, Hp2 in Hm.
  - destruct r as [old'|]; [|done]. destruct Hr as [Hpo Hr]. split; [congruence|].
    intros Hf. rewrite Hp2, Hgo, length_drop in Hr. lia.
Qed.

(** *** Opening and taking over *)

Lemma samples_at_same w w' p : table w' p = table w p → samples_at w' p = samples_at w p.
Proof. unfold samples_at. by intros ->. Qed.

Lemma samples_at_opened p w w' q : opened p w w' → samples_at w' q = samples_at w q.
Proof.
  intros [Hq Hp]. unfold samples_at. destruct (decide (q = p)) as [->|]; [|by rewrite Hq].
  destruct Hp as [->| ->]; [done|]. by destruct (table w p).
Qed.

Lemma moved_opened p to_ from w w1 w2 m k :
  moved_so_far to_ from w w1 m k → opened p w1 w2 → moved_so_far to_ from w w2 m k.
Proof. intros Hm Ho. unfold moved_so_far. by rewrite !(samples_at_opened p w1 w2). Qed.

Lemma open_spec p mb w r w' :
  open_ p mb w = (r, w') →
  opened p w w' ∧
  match r with
  | Ok c => path c = p ∧ rows c = Z.of_nat (length (default [] (table w p))) ∧
      (Forall row_ok (default [] (table w p)) → on_file c w')
  | Err _ => True
  end.
Proof.
  intros Ho. unfold open_ in Ho.
  assert (Hdir : ∀ r0 w0, (match fs_parent p with
     | Some dir => if is_empty_str dir then mret () else fs_create_dir_all dir
     | None => mret () end) w = (r0, w0) → ∀ q, table w0 q = table w q).
  { intros r0 w0 Hd q. destruct (fs_parent p) as [dir|]; [destruct (is_empty_str dir)|]; io_simpl.
    exact (mkdir_law _ _ _ _ Hd q). }
  assert (Hrefl : ∀ w0 w1, (∀ q, table w0 q = table w q) → opened p w0 w1 → opened p w w1).
  { intros w0 w1 Hw [Hq Hp]. split; [intros q ?; rewrite Hq, Hw by done; done|]. by rewrite <-!Hw. }
  io_step Ho as u w1 Hd0; pose proof (Hdir _ _ Hd0) as Hd.
  2:{ split; [|done]. split; [auto|by left]. }
  io_step Ho as k w2 Hk; apply open_conn_spec in Hk as [Hop Hk]; [|by eauto].
  destruct Hk as [-> Ht].
  io_step Ho as n w3 Hn; unfold count_rows in Hn; destruct (db_count _ w2) as [z|] eqn:Hc;
    simplify_eq; [|by eauto].
  injection Ho as <- <-. split; [by eauto|]. simpl. split; [done|].
  apply count_law in Hc as (rs & Hrs & ->). simpl in Hrs. rewrite Hrs in Ht. rewrite <-Hd.
  injection Ht as <-. split; [lia|]. intros Hall. split; [done|]. simpl. split; [done|].
  exists rs. split_and!; [done..|lia].
Qed.

Lemma fold_remove_tables files w q :
  q ∉ files → table (foldl (λ w f, (fs_remove f w).2) w files) q = table w q.
Proof.
  revert w; induction files as [|f files IH]; intros w Hq; [done|].
  apply not_elem_of_cons in Hq as [Hqf Hq]. simpl. rewrite IH by done.
  destruct (fs_remove f w) as [r w1] eqn:Hr. simpl. rewrite (remove_law _ _ _ _ Hr).
  destruct r; try done. by rewrite decide_False.
Qed.

Lemma take_over_spec c other w r s' :
  on_file c w → rows c = 0 → on_file other w → path c ≠ path other →
  path other ∉ cache_files (path c) →
  take_over other (c, w) = (r, s') →
  ∃ c' w' m, s' = (c', w') ∧ path c' = path c ∧
    moved_so_far (path c) (path other) w w' m m ∧
    match r with
    | Ok true => on_file c' w' ∧ m = length (samples_at w (path other))
    | Ok false => on_file c' w' ∧ m = 0%nat ∧ rows c' = 0 ∧
        table w' (path other) = table w (path other)
    | Err _ => True
    end.
Proof.
  intros [Hcc Hck] Hrows [Hoc Hok] Hne Hsc Ht.
  unfold sqlite_ok in Hck, Hok. rewrite Hcc, Hoc in *.
  destruct Hck as [_ (rs & Htc & Hall & Hlen)]. destruct Hok as [_ (ro & Hto & Hallo & Hleno)].
  assert (rs = []) as -> by (destruct rs; [done|simpl in *; lia]).
  unfold take_over, close_conn in Ht. unfold mbind, io_bind, self, set_conn, io_modify, on_world in Ht.
  destruct (db_in_memory w) as [[]|e].
  2:{ injection Ht as <- <-. exists c, w, 0%nat. split_and!; try done. apply moved_none. }
  set (w1 := foldl _ w _) in Ht.
  assert (Hs : ∀ q, q ∉ sidecar (path c) <$> SIDECARS → table w1 q = table w q)
    by (intros; by apply fold_remove_tables).
  apply not_elem_of_cons in Hsc as [_ Hsc].
  assert (Hself : path c ∉ sidecar (path c) <$> SIDECARS).
  { intros (x & Hx & Hin)%list_elem_of_fmap. unfold SIDECARS in Hin.
    repeat (apply elem_of_cons in Hin as [->|Hin]; [by apply eq_sym, str_app_neq in Hx|]).
    by apply elem_of_nil in Hin. }
  destruct (fs_rename (path other) (path c) w1) as [b w2] eqn:Hren.
  pose proof (rename_law _ _ _ _ _ Hren) as Hl.
  set (m := if b then length (samples_at w (path other)) else 0%nat).
  assert (Hm : moved_so_far (path c) (path other) w w2 m m).
  { assert (samples_at w (path c) = []) as Hemp by (unfold samples_at; by rewrite Htc).
    unfold moved_so_far, m. rewrite Hemp. split; [destruct b; lia|]. destruct b.
    - rewrite take_ge, drop_ge by done. unfold samples_at. rewrite !Hl, decide_True by done.
      rewrite decide_False, decide_True, Hs by (done || congruence). done.
    - rewrite take_0, drop_0. split; [transitivity (samples_at w (path c)); [|by rewrite Hemp]|];
        apply samples_at_same; by rewrite Hl, Hs. }
  destruct (open_conn (path c) w2) as [[k|e] w3] eqn:Hop;
    pose proof (open_conn_spec _ _ _ _ Hop) as [Hopn Hk]; injection Ht as <- <-;
    eexists _, w3, m; (split; [done|]); simpl; (split; [done|]);
    (split; [by eapply moved_opened|]); [|done].
  destruct Hk as [-> Htab]. rewrite Hl in Htab.
  unfold on_file, sqlite_ok; simpl. destruct b.
  - rewrite decide_True, Hs, Hto in Htab by done. rewrite Htab. split; [|done]. split; [done|].
    split; [done|]. exists ro. by split_and!.
  - rewrite Hs, Htc in Htab by done. rewrite Htab. split; [split; [done|]; split; [done|]; by exists []|].
    split_and!; try done. rewrite (proj1 Hopn), Hl, Hs by done. done.
Qed.

(** *** [adopt] *)

(** Deleting a cache that holds nothing loses nothing. *)
Lemma delete_empty old c w r w' :
  delete old w = (r, w') → samples_at w (path old) = [] → on_file c w →
  path c ∉ cache_files (path old) →
  on_file c w' ∧ samples_at w' (path old) = [] ∧ samples_at w' (path c) = samples_at w (path c).
Proof.
  intros (Hsame & _ & Hor & _)%unlink_all_tables Hemp Hc Hn. split_and!.
  - apply (on_file_other c w); [done|]. by apply Hsame.
  - unfold samples_at in *. by destruct (Hor (path old)) as [->| ->].
  - apply samples_at_same. by apply Hsame.
Qed.

Lemma on_file_fuel old w :
  on_file old w → (length (samples_at w (path old)) < adopt_fuel old)%nat.
Proof.
  intros Ho. rewrite <-(on_file_samples old w), length_fmap by done. destruct Ho as [Hc Hok].
  unfold sqlite_ok, sqlite_contents in *. rewrite Hc in *. destruct Hok as [_ (rs & Ht & Hall & Hr)].
  simpl. rewrite Ht, contents_of_length by done. unfold adopt_fuel. lia.
Qed.

Lemma moved_opened_l p to_ from w w1 w2 m k :
  opened p w w1 → moved_so_far to_ from w1 w2 m k → moved_so_far to_ from w w2 m k.
Proof. intros Ho Hm. unfold moved_so_far in *. by rewrite !(samples_at_opened p w w1) in Hm. Qed.

Lemma on_file_opened c p w w' : on_file c w → opened p w w' → on_file c w'.
Proof.
  intros [Hc Hok] [Hq Hp]. apply (on_file_other c w); [done|].
  destruct (decide (path c = p)) as [<-|]; [|by apply Hq].
  unfold sqlite_ok in Hok. rewrite Hc in Hok. destruct Hok as [_ (rs & Ht & _)].
  rewrite Ht in *. simpl in Hp. by destruct Hp.
Qed.

(** The copy, when a rename will not do. *)
Lemma copy_spec (n : Z) c old w r s' :
  on_file c w → on_file old w → path c ∉ cache_files (path old) →
  (old ← adopt_loop (adopt_fuel old) old; _ ← on_world (delete old); mret n) (c, w) = (r, s') →
  ∃ c' w' m k, s' = (c', w') ∧ moved_so_far (path c) (path old) w w' m k ∧
    match r with
    | Ok n' => n' = n ∧ on_file c' w' ∧ path c' = path c ∧
        m = length (samples_at w (path old)) ∧ k = m
    | Err _ => True
    end.
Proof.
  intros Hc Ho Hn Hr.
  assert (Hne : path c ≠ path old) by (apply not_elem_of_cons in Hn; tauto).
  io_step Hr as old' s1 Hl;
    destruct (adopt_loop_spec _ _ _ _ _ _ Hc Ho Hne Hl) as (c1 & w1 & m & k & -> & Hp & Hc1 & Hm & Hex).
  2:{ by exists c1, w1, m, k. }
  destruct Hex as [Hpo Hex]. destruct (Hex (on_file_fuel _ _ Ho)) as [Hmk ->]. clear Hex.
  destruct Hm as (Hle & Hto & Hfrom).
  assert (Hemp : samples_at w1 (path old') = []) by (rewrite Hpo, Hfrom, drop_ge; [done|lia]).
  unfold on_world, mbind, io_bind in Hr. destruct (delete old' w1) as [rd w2] eqn:Hd.
  destruct (delete_empty _ c1 _ _ _ Hd Hemp Hc1 ltac:(by rewrite Hp, Hpo)) as (Hc2 & Hold & Hcc).
  rewrite Hp in Hcc. rewrite Hpo in Hold.
  assert (Hm2 : moved_so_far (path c) (path old) w w2 m m).
  { split; [done|]. rewrite Hcc, Hold, drop_ge by lia. by rewrite Hto. }
  destruct rd; injection Hr as <- <-; exists c1, w2, m, m; by split_and!.
Qed.

(** What adopting [legacy] may come to. *)
Definition adopted (c : SqliteCache) (legacy : Path) (w : World) (r : result CacheError Z) (s' : CacheState) : Prop :=
  ∃ c' w' m k, s' = (c', w') ∧ moved_so_far (path c) legacy w w' m k ∧
    match r with
    | Ok n => on_file c' w' ∧ path c' = path c ∧
        m = length (samples_at w legacy) ∧ k = m ∧ n = Z.of_nat m
    | Err _ => True
    end.

(** The copy, once [legacy] is open and nothing has moved. *)
Lemma copy_adopts c legacy w w0 n c1 old1 w2 r1 s2 :
  path c ∉ cache_files legacy → on_file c1 w2 → on_file old1 w2 → path c1 = path c →
  path old1 = legacy → moved_so_far (path c) legacy w w0 0 0 → opened legacy w0 w2 →
  n = Z.of_nat (length (samples_at w legacy)) →
  (old ← adopt_loop (adopt_fuel old1) old1; _ ← on_world (delete old); mret n) (c1, w2) = (r1, s2) →
  adopted c legacy w r1 s2.
Proof.
  intros Hl Hc2 Ho2 Hpc Hpo2 Hm0 Hop2 Hn Hr.
  destruct (copy_spec n c1 old1 w2 r1 s2 Hc2 Ho2 ltac:(by rewrite Hpc, Hpo2) Hr)
    as (c' & w' & m & k & -> & Hm & Hres).
  rewrite Hpc, Hpo2 in *. apply (moved_opened_l _ _ _ _ _ _ _ _ Hop2) in Hm.
  exists c', w', m, k. split; [done|]. split.
  - by apply (moved_trans (path c) legacy w w0 w' 0 m k); [lia|..].
  - destruct r1; [|done]. destruct Hres as (-> & ? & ? & Hm1 & ->).
    rewrite (samples_at_opened _ _ _ legacy Hop2), (proj2 (proj2 Hm0)), drop_0 in Hm1. by subst.
Qed.

(** A [legacy] with no rows is deleted. *)
Lemma empty_adopts c old w w1 r s' :
  on_file c w1 → opened (path old) w w1 → path c ∉ cache_files (path old) → samples_at w (path old) = [] →
  (_ ← on_world (delete old); mret 0) (c, w1) = (r, s') → adopted c (path old) w r s'.
Proof.
  intros Hc1 Hopn Hl Hw Ha. assert (Hemp : samples_at w1 (path old) = []) by by rewrite (samples_at_opened _ _ _ _ Hopn).
  unfold mbind, io_bind, on_world in Ha. destruct (delete old w1) as [rd w2] eqn:Hd.
  destruct (delete_empty _ c _ _ _ Hd Hemp Hc1 Hl) as (Hc2 & Hold & Hcc).
  assert (Hm : moved_so_far (path c) (path old) w w2 0 0).
  { apply (moved_opened_l (path old) _ _ w w1); [done|]. unfold moved_so_far.
    rewrite Hold, Hcc, Hemp, app_nil_r. split_and!; done || lia. }
  destruct rd; injection Ha as <- <-; exists c, w2, 0%nat, 0%nat; split_and!; try done. by rewrite Hw.
Qed.
End Adopt.

(** C18: whatever happens while an older install's cache is adopted, no frame is
    lost: the frames that left it are among those that arrived, after everything
    this cache held and in their order. When adoption succeeds all of them have
    moved, none is left behind, and the number returned is how many. *)
Theorem adopt_moves `{CanLaws} `{CacheLib} `{SqliteLaws}
    (c : SqliteCache) (w : World) (legacy : Path) r s' :
  on_file c w → Forall row_ok (default [] (table w legacy)) →
  legacy ∉ cache_files (path c) → path c ∉ cache_files legacy →
  adopt legacy (c, w) = (r, s') →
  ∃ c' w' m k, s' = (c', w') ∧ moved_so_far (path c) legacy w w' m k ∧
    match r with
    | Ok n => on_file c' w' ∧ path c' = path c ∧
        m = length (samples_at w legacy) ∧ k = m ∧ n = Z.of_nat m
    | Err _ => True
    end.
Proof.
  intros Hc Hlg Hl1 Hl2 Ha. change (adopted c legacy w r s'). unfold adopt in Ha.
  io_step Ha as x s1 Hx; [|done]. injection Hx as <- <-.
  assert (Hne : path c ≠ legacy) by (apply not_elem_of_cons in Hl2; tauto).
  destruct (fs_exists legacy w) eqn:Hex; simpl in Ha.
  2:{ injection Ha as <- <-. exists c, w, 0%nat, 0%nat. split; [done|]. split; [apply moved_none|].
      unfold samples_at. destruct (table w legacy) eqn:Ht; [|by split_and!].
      by rewrite (exists_law _ _ _ Ht) in Hex. }
  rewrite (proj2 (str_eqb_neq legacy (path c))) in Ha by done.
  io_step Ha as old s1 Ho; unfold on_world in Ho;
    destruct (open_ legacy (u64_modulus - 1) w) as [ro w1] eqn:Hop; injection Ho as -> <-;
    apply open_spec in Hop as [Hopn Hold].
  2:{ exists c, w1, 0%nat, 0%nat. split_and!; try done.
      apply (moved_opened legacy _ _ w w); [apply moved_none|done]. }
  destruct Hold as (Hpo & Hro & Hof). specialize (Hof Hlg).
  pose proof (on_file_opened _ _ _ _ Hc Hopn) as Hc1.
  pose proof (samples_at_opened _ _ _ legacy Hopn) as HL.
  assert (Hlen : rows old = Z.of_nat (length (samples_at w legacy))).
  { rewrite Hro. unfold samples_at. destruct (table w legacy); [|done]. simpl in *.
    by rewrite length_fmap, contents_of_length. }
  destruct (Z.eqb_spec (rows old) 0) as [Hz|Hnz].
  { rewrite <-Hpo in *. eapply empty_adopts; [done..| |exact Ha]. apply length_zero_iff_nil. lia. }
  destruct (Z.eqb_spec (rows c) 0) as [Hc0|Hc0].
  2:{ eapply (copy_adopts c legacy w w (rows old) c old w1); try done. apply moved_none. }
  io_step Ha as b s1 Htk;
    destruct (take_over_spec c old w1 _ _ Hc1 Hc0 Hof ltac:(congruence) ltac:(by rewrite Hpo) Htk)
      as (c' & w2 & m & -> & Hp' & Hm & Hb); rewrite Hpo in *;
    apply (moved_opened_l _ _ _ _ _ _ _ _ Hopn) in Hm.
  2:{ by exists c', w2, m, m. }
  destruct b.
  { injection Ha as <- <-. exists c', w2, m, m. destruct Hb as [Hc' Hb]. rewrite HL in Hb. subst m. by split_and!. }
  destruct Hb as (Hc' & -> & _ & Htab).
  io_step Ha as old2 s1 Ho; unfold on_world in Ho;
    destruct (open_ legacy (u64_modulus - 1) w2) as [ro w3] eqn:Hop2; injection Ho as -> <-;
    apply open_spec in Hop2 as [Hopn2 Hold2].
  2:{ exists c', w3, 0%nat, 0%nat. split_and!; try done. by eapply moved_opened. }
  destruct Hold2 as (Hpo2 & _ & Hof2). eapply (copy_adopts c legacy w w2 (rows old) c' old2 w3); try done.
  - by eapply on_file_opened.
  - apply Hof2. rewrite Htab. destruct Hof as [Hk Hok]. unfold sqlite_ok in Hok.
    rewrite Hk in Hok. destruct Hok as [_ (rs & Hrs & Hall & _)]. rewrite Hpo in Hrs. by rewrite Hrs.
Qed.

(** ** Rows, and what a failed reset leaves *)

(** A row gives back the sample it was written from: every field, the
    direction tag, the flags a CAN frame carries, the Modbus ids and the
    timestamp, which survives the conversion to seconds and back for every date
    up to the year 2106. *)
Theorem row_roundtrip `{CanLaws} `{CacheLib} (key : Z) (s : Sample) :
  row_storable s = true → decode_row (key, encode s) = Ok (MkCached key s).
Proof. apply encode_decode_row. Qed.

(** Past it the conversion is off by one: a frame stamped in March 2107 comes
    back a microsecond late. *)
Lemma timestamp_past_2106 :
  from_secs (to_secs 4331140653213474) = 4331140653213475.
Proof. vm_compute. reflexivity. Qed.

(** A [reset] that fails once it has closed the file leaves the cache on its
    in-memory placeholder, on which every later append fails: the frames of the
    next outage are dropped. *)
Theorem failed_reset_unusable `{CanLib} `{CacheLib} `{SqliteLaws}
    (s : CacheState) (e : CacheError) (s' : CacheState) (fs : list Sample) :
  db_in_memory s.2 = Ok () → sqlite_reset s = (Err e, s') → fs ≠ [] → is_ok (sqlite_append fs s').1 = false.
Proof.
  destruct s as [c w]. cbn. intros Hmemory Hr Hfs.
  assert (Hmem : conn s'.1 = InMemory).
  { unfold sqlite_reset, close_conn, self, set_conn, set_rows, io_modify, on_world, mbind, io_bind in Hr.
    rewrite Hmemory in Hr.
    destruct (unlink (path c) w) as [[u'|e'] w1]; [|by simplify_eq].
    destruct (open_conn (path c) w1) as [[k|e'] w2]; [done|by simplify_eq]. }
  destruct s' as [c' w']. simpl in Hmem. destruct fs as [|f fs]; [done|].
  unfold sqlite_append, mbind, io_bind, self, on_world. rewrite Hmem.
  destruct (db_insert InMemory _ w') as [[]] eqn:Hi; [|done].
  by apply insert_law in Hi as (p & rs & new & Hp & _).
Qed.

(** ** A disk to run on *)

Module Disk.

#[export] Instance cache_lib : CacheLib.
Proof.
  refine {|
    protocol_as_str p :=
      match p with ProtoCan => "can" | ProtoModbusRtu => "modbus-rtu" | ProtoSerial => "serial" end;
    protocol_parse s :=
      if str_eqb s "can" then Some ProtoCan
      else if str_eqb s "modbus-rtu" then Some ProtoModbusRtu
      else if str_eqb s "serial" then Some ProtoSerial else None;
    modbus_id u f := u * 256 + f;
    modbus_unit_func i := (i / 256, i mod 256)
  |}.
  - by intros [].
  - unfold is_u8. intros u f Hu Hf. f_equal.
    + symmetry. apply (Z.div_unique _ _ _ f); lia.
    + symmetry. apply (Z.mod_unique _ _ u); lia.
  - unfold is_u8, is_u32, u32_modulus. intros u f Hu Hf. lia.
Defined.

(** The files, each with the rows of its table, and those that cannot be removed. *)
Record disk := MkDisk { files : gmap string (list Row); stuck : gset string }.

Definition rows_at (w : disk) (p : Path) : option (list Row) :=
  match files w !! p with
  | Some rs => if bool_decide (NoDup rs.*1) then Some rs else None
  | None => None
  end.
Definition put (p : Path) (rs : list Row) (w : disk) : disk := MkDisk (<[p := rs]> (files w)) (stuck w).

Fixpoint number (k : Z) (vs : list RowValues) : list Row :=
  match vs with [] => [] | v :: vs => (k, v) :: number (k + 1) vs end.
Definition next_key (rs : list Row) : Z := 1 + foldr Z.max 0 rs.*1.

Definition with_table {A} (c : Conn) (k : Path → list Row → disk → result CacheError A * disk)
    (w : disk) : result CacheError A * disk :=
  match c with
  | InMemory => (Err "no such table: frames", w)
  | OnFile p => match rows_at w p with Some rs => k p rs w | None => (Err "no such table: frames", w) end
  end.

#[export] Instance sqlite : Sqlite := {
  World := disk;
  db_connect p w := (Ok (OnFile p), w);
  db_in_memory w := Ok ();
  db_is_readonly c w := Ok false;
  db_pragma c k v w := (Ok (), w);
  db_ddl c d w := match c, d with
    | OnFile p, CreateFrames => (Ok (), put p (default [] (rows_at w p)) w)
    | _, _ => (Ok (), w)
    end;
  db_has_column c col w := Ok true;
  db_insert c vs := with_table c (λ p rs w, (Ok (), put p (rs ++ number (next_key rs) vs) w));
  db_select c n w := (with_table c (λ p rs w, (Ok (take n rs), w)) w).1;
  db_delete c ids := with_table c (λ p rs w,
    let kept := filter (λ row : Row, row.1 ∉ ids) rs in
    (Ok (length rs - length kept)%nat, put p kept w));
  db_count c w := (with_table c (λ p rs w, (Ok (Z.of_nat (length rs)), w)) w).1;
  fs_exists p w := bool_decide (is_Some (files w !! p));
  fs_parent p := None;
  fs_create_dir_all p w := (Ok (), w);
  fs_remove p w :=
    if bool_decide (p ∈ stuck w) then (RmFailed "busy", w)
    else match files w !! p with
         | None => (RmNotFound, w)
         | Some _ => (RmOk, MkDisk (base.delete p (files w)) (stuck w))
         end;
  fs_rename s d w :=
    match files w !! s with
    | None => (false, w)
    | Some rs => (true, MkDisk (<[d := rs]> (base.delete s (files w))) (stuck w))
    end;
  fs_len p w := match files w !! p with Some rs => Some (100 * Z.of_nat (length rs)) | None => None end
}.

Lemma rows_at_put w p rs q :
  NoDup rs.*1 → rows_at (put p rs w) q = if decide (q = p) then Some rs else rows_at w q.
Proof.
  intros Hnd. unfold rows_at, put; simpl. destruct (decide (q = p)) as [->|].
  - by rewrite lookup_insert_eq, bool_decide_eq_true_2.
  - by rewrite lookup_insert_ne.
Qed.

Lemma rows_at_nodup w p rs : rows_at w p = Some rs → NoDup rs.*1.
Proof. unfold rows_at. destruct (files w !! p); [|done]. case_bool_decide; naive_solver. Qed.

Lemma number_keys k vs : Forall (λ r : Row, k ≤ r.1) (number k vs).
Proof.
  revert k; induction vs as [|v vs IH]; intros k; simpl; constructor; simpl; [lia|].
  eapply Forall_impl; [apply IH|]. simpl. lia.
Qed.
Lemma number_nodup k vs : NoDup (number k vs).*1.
Proof.
  revert k; induction vs as [|v vs IH]; intros k; simpl; constructor; [|apply IH].
  intros ((k' & v') & Hk & Hin)%list_elem_of_fmap. simpl in Hk.
  pose proof (number_keys (k + 1) vs) as Hall. rewrite Forall_forall in Hall.
  specialize (Hall _ Hin). simpl in Hall. lia.
Qed.
Lemma number_values k vs : (number k vs).*2 = vs.
Proof. revert k; induction vs as [|v vs IH]; intros k; simpl; [done|]. by rewrite IH. Qed.

Lemma next_key_fresh rs : Forall (λ r : Row, r.1 < next_key rs) rs.
Proof.
  unfold next_key. induction rs as [|r rs IH]; [constructor|]. rewrite fmap_cons. cbn [foldr].
  set (m := foldr Z.max 0 rs.*1) in *. constructor; [lia|].
  eapply Forall_impl; [exact IH|]. intros x Hx; simpl in Hx. lia.
Qed.

Lemma append_nodup rs vs : NoDup rs.*1 → NoDup (rs ++ number (next_key rs) vs).*1.
Proof.
  intros Hnd. rewrite fmap_app. apply NoDup_app. split_and!; [done| |apply number_nodup].
  intros k (r & -> & Hr)%list_elem_of_fmap (r' & Heq & Hr')%list_elem_of_fmap.
  pose proof (next_key_fresh rs) as H1. pose proof (number_keys (next_key rs) vs) as H2.
  rewrite Forall_forall in H1, H2. specialize (H1 _ Hr). specialize (H2 _ Hr'). lia.
Qed.

Lemma filter_nodup (ids : list Z) (rs : list Row) :
  NoDup rs.*1 → NoDup (filter (λ row : Row, row.1 ∉ ids) rs).*1.
Proof.
  intros Hnd. induction rs as [|r rs IH]; [done|]. rewrite fmap_cons in Hnd.
  apply NoDup_cons in Hnd as [Hr Hnd]. rewrite filter_cons. destruct (decide _); [|auto].
  rewrite fmap_cons. constructor; [|auto].
  intros (r' & Heq & [_ Hin]%list_elem_of_filter)%list_elem_of_fmap.
  apply Hr. rewrite Heq. by apply list_elem_of_fmap_2.
Qed.

Lemma with_table_inv {A} c (k : Path → list Row → disk → result CacheError A * disk) w r w' :
  with_table c k w = (r, w') →
  (∃ p rs, c = OnFile p ∧ rows_at w p = Some rs ∧ k p rs w = (r, w')) ∨ (∃ e, r = Err e ∧ w' = w).
Proof.
  unfold with_table. destruct c as [|p]; [naive_solver|].
  destruct (rows_at w p) eqn:Ht; naive_solver.
Qed.

#[export] Instance sqlite_laws : SqliteLaws.
Proof.
  refine {| table := rows_at : @World sqlite → Path → option (list Row) |}; simpl.
  - intros w p rs. apply rows_at_nodup.
  - intros p w r w' [= <- <-]. done.
  - by intros c k v w r w' [= <- <-].
  - intros p d w r w' Hd q. destruct d; simplify_eq/=; try done.
    rewrite rows_at_put; [done|]. destruct (rows_at w p) eqn:Ht; [by eapply rows_at_nodup|constructor].
  - intros c vs w r w' Hi. apply with_table_inv in Hi as [(p & rs & -> & Ht & [= <- <-])|(e & -> & ->)]; [|done].
    exists p, rs, (number (next_key rs) vs). split_and!; [done|done|apply number_values|].
    intros q. apply rows_at_put, append_nodup. by eapply rows_at_nodup.
  - intros c n w l Hs. unfold with_table, conn_table in *. destruct c as [|p]; [done|].
    destruct (rows_at w p); naive_solver.
  - intros c ids w r w' Hi. apply with_table_inv in Hi as [(p & rs & -> & Ht & [= <- <-])|(e & -> & ->)]; [|done].
    exists p, rs. split_and!; [done..|]. intros q. apply rows_at_put, filter_nodup. by eapply rows_at_nodup.
  - intros c w n Hs. unfold with_table, conn_table in *. destruct c as [|p]; [done|].
    destruct (rows_at w p); naive_solver.
  - by intros p w r w' [= <- <-].
  - unfold rows_at. intros w p rs. destruct (files w !! p); [|done]. intros _. by apply bool_decide_eq_true_2.
  - intros p w r w' Hr q. case_bool_decide; [by simplify_eq|]. unfold rows_at.
    destruct (files w !! p) eqn:Hp; simplify_eq; simpl; [|done].
    destruct (decide (q = p)) as [->|]; [by rewrite lookup_delete_eq|by rewrite lookup_delete_ne].
  - intros p w w' Hr. case_bool_decide; [done|]. unfold rows_at. by destruct (files w !! p).
  - intros s d w b w' Hr q. unfold rows_at. destruct (files w !! s) as [rs|] eqn:Hs; simplify_eq; simpl; [|done].
    destruct (decide (q = d)) as [->|]; [by rewrite lookup_insert_eq|].
    rewrite lookup_insert_ne by done.
    destruct (decide (q = s)) as [->|]; [by rewrite lookup_delete_eq|by rewrite lookup_delete_ne].
Defined.
End Disk.

(** *** The theorems, run *)

Import (hints) Wire.Packed Disk.

Definition modbus_frame : Sample := Modbus (MkModbus 1700000000000123 4 1 3 true [1; 3; 0; 0]).
Definition empty_disk : Disk.disk := Disk.MkDisk ∅ ∅.

(** A fresh cache at [cache.db], opened on an empty disk. *)
Definition fresh : CacheState :=
  match open_ "cache.db" 1000 empty_disk with
  | (Ok c, w) => (c, w)
  | (Err _, w) => (MkSqliteCache InMemory "" 0 0, w)
  end.

Lemma sqlite_refines_fifo_witness :
  ∃ s', exec_all [OpAppend [sample_frame; modbus_frame]; OpDrain 5 1; OpOldest 5] fresh
    = ([AStored 2; AFrames [sample_frame]; AFrames [modbus_frame]], s') ∧
  fifo_run [OpAppend [sample_frame; modbus_frame]; OpDrain 5 1; OpOldest 5] (samples fresh)
    [AStored 2; AFrames [sample_frame]; AFrames [modbus_frame]] (samples s').
Proof.
  eexists. split; [vm_compute; reflexivity|].
  apply (sqlite_refines_fifo _ fresh).
  - apply (sqlite_ok_intro fresh []); [vm_compute; reflexivity..|constructor|vm_compute; reflexivity].
  - vm_compute. reflexivity.
  - vm_compute. reflexivity.
Defined.

(** The same cache holding one frame, beside an older one with another. *)
Definition with_legacy : CacheState :=
  let '(_, (c, w)) := sqlite_append [sample_frame] fresh in
  (c, Disk.put "old.db" [(7, encode modbus_frame)] w).

Lemma adopt_moves_witness :
  ∃ s', adopt "old.db" with_legacy = (Ok 1, s') ∧
  ∃ c' w' m k, s' = (c', w') ∧ moved_so_far "cache.db" "old.db" with_legacy.2 w' m k ∧ m = 1%nat.
Proof.
  eexists. split; [vm_compute; reflexivity|].
  edestruct (adopt_moves with_legacy.1 with_legacy.2 "old.db") as (c' & w' & m & k & Hs & Hm & Hr).
  - split; [vm_compute; reflexivity|].
    apply (sqlite_ok_intro with_legacy [(1, encode sample_frame)]);
      [vm_compute; reflexivity..| |].
    + constructor; [|constructor]. by apply (row_ok_intro _ (MkCached 1 sample_frame)); vm_compute.
    + vm_compute. reflexivity.
  - constructor; [|constructor].
    by apply (row_ok_intro _ (MkCached 7 modbus_frame)); vm_compute.
  - apply (bool_decide_unpack _). vm_compute. exact I.
  - apply (bool_decide_unpack _). vm_compute. exact I.
  - vm_compute. reflexivity.
  - exists c', w', m, k. split; [exact Hs|]. split; [exact Hm|].
    destruct Hr as (_ & _ & -> & _). reflexivity.
Defined.

Lemma row_roundtrip_witness :
  row_storable sample_frame = true ∧
  decode_row (1, encode sample_frame) = Ok (MkCached 1 sample_frame).
Proof.
  assert (Hs : row_storable sample_frame = true) by (vm_compute; reflexivity).
  split; [exact Hs|]. exact (row_roundtrip 1 sample_frame Hs).
Defined.

(** A database file that cannot be removed. *)
Definition stuck_cache : CacheState :=
  (fresh.1, Disk.MkDisk (Disk.files fresh.2) {["cache.db"]}).

Lemma failed_reset_witness :
  is_ok (sqlite_append [sample_frame] (sqlite_reset stuck_cache).2).1 = false.
Proof.
  eapply (failed_reset_unusable stuck_cache _ _ [sample_frame]); [done| |done].
  vm_compute. reflexivity.
Defined.
