(* ===== verification/Archive.v ===== *)
(** * The archive queue and its batcher ([archive.rs])

    One bounded queue, one worker. A capture hands frames over through
    [enqueue]; the worker is a state machine whose program counter stands at the
    points where the code awaits, so that producers, the stop signal and the
    sink's answers interleave with it as they do at run time. Everything between
    two awaits is one step, except that frames are taken off the queue one
    [try_recv] at a time, since a producer may run between two of them. The cache
    is any instance of [FrameCache]; the sink is its answers. Log lines that only
    report are left out. *)

From S2P Require Import Prelude F64 Model Source Wire Cache.
Import Sample.
Local Open Scope Z_scope.

(** ** Constants and small types *)

(** Milliseconds. *)
Definition FULL_LOG_INTERVAL : Z := 5000.
Definition DROPS_PER_CLOCK_CHECK : Z := 1024.

Inductive SinkError := Failed (why : string) | Closed (why : string).
Definition SinkResult : Type := result SinkError ().

Record WriteError := MkWriteError { delivered : nat; cause : SinkError }.

Record Counters := MkCounters {
  enqueued : Z;
  written : Z;
  dropped : Z;
  cached : Z;
  cache_recovered : Z;
  c_connected : bool;
  last_ack_ms : Z;
  cache_pending : Z
}.
Definition counters_default : Counters := MkCounters 0 0 0 0 0 false 0 0.

(** [fetch_add] on an [AtomicU64] wraps. *)
Definition add (field n : Z) : Z := (field + n) mod u64_modulus.

Definition add_enqueued (c : Counters) (n : Z) : Counters :=
  MkCounters (add (enqueued c) n) (written c) (dropped c) (cached c) (cache_recovered c)
    (c_connected c) (last_ack_ms c) (cache_pending c).
Definition add_written (c : Counters) (n : Z) : Counters :=
  MkCounters (enqueued c) (add (written c) n) (dropped c) (cached c) (cache_recovered c)
    (c_connected c) (last_ack_ms c) (cache_pending c).
Definition add_dropped (c : Counters) (n : Z) : Counters :=
  MkCounters (enqueued c) (written c) (add (dropped c) n) (cached c) (cache_recovered c)
    (c_connected c) (last_ack_ms c) (cache_pending c).
Definition add_cached (c : Counters) (n : Z) : Counters :=
  MkCounters (enqueued c) (written c) (dropped c) (add (cached c) n) (cache_recovered c)
    (c_connected c) (last_ack_ms c) (cache_pending c).
Definition add_recovered (c : Counters) (n : Z) : Counters :=
  MkCounters (enqueued c) (written c) (dropped c) (cached c) (add (cache_recovered c) n)
    (c_connected c) (last_ack_ms c) (cache_pending c).
Definition set_reported (c : Counters) (conn : bool) (pending : Z) : Counters :=
  MkCounters (enqueued c) (written c) (dropped c) (cached c) (cache_recovered c)
    conn (last_ack_ms c) pending.
Definition set_last_ack (c : Counters) (now : Z) : Counters :=
  MkCounters (enqueued c) (written c) (dropped c) (cached c) (cache_recovered c)
    (c_connected c) now (cache_pending c).

(** ** The queue: tokio's bounded channel *)

Record Queue := MkQueue { items : list Sample; max_capacity : nat; q_closed : bool }.

Inductive TrySend := Sent (q : Queue) | Full | SendClosed.

Definition try_send (s : Sample) (q : Queue) : TrySend :=
  if q_closed q then SendClosed
  else if (length (items q) <? max_capacity q)%nat
  then Sent (MkQueue (items q ++ [s]) (max_capacity q) false)
  else Full.

Definition try_recv (q : Queue) : option (Sample * Queue) :=
  match items q with
  | [] => None
  | s :: rest => Some (s, MkQueue rest (max_capacity q) (q_closed q))
  end.

Definition close_queue (q : Queue) : Queue := MkQueue (items q) (max_capacity q) true.

(** ** The producer end *)

Inductive Log :=
  | LHighWater (bucket : Z) (size cap : nat)
  | LRecovered (size cap : nat)
  | LFull (size cap : nat) (dropped_total : Z)
  | LAfterShutdown.

(** What an [Archive] shares between its clones, and the lines it logged, newest
    first, each with the time it was logged. *)
Record Producer := MkProducer {
  queue : Queue;
  counters : Counters;
  last_bucket : Z;
  last_full_log : option Z;
  closed_reported : bool;
  log : list (Z * Log)
}.

Definition depth (q : Queue) : nat * nat := (length (items q), max_capacity q).

Definition occupancy_pct (q : Queue) : Z :=
  let '(size, cap) := depth q in
  match u8_try_from (size * 100 / cap) with Some p => p | None => 100 end.

Definition bucket_of (size cap : nat) : Z :=
  if (cap <=? size)%nat then 100
  else if (cap * 95 <=? size * 100)%nat then 95
  else if (cap * 80 <=? size * 100)%nat then 80
  else -1.

Definition warn_thresholds (now : Z) (p : Producer) : Producer :=
  let '(size, cap) := depth (queue p) in
  let bucket := bucket_of size cap in
  if last_bucket p =? bucket then p
  else
    let line := if bucket =? -1 then LRecovered size cap else LHighWater bucket size cap in
    MkProducer (queue p) (counters p) bucket (last_full_log p) (closed_reported p)
      ((now, line) :: log p).

(** [now] is in milliseconds of the monotonic clock. *)
Definition log_queue_full (now prior : Z) (p : Producer) : Producer :=
  if negb (prior mod DROPS_PER_CLOCK_CHECK =? 0) then p
  else if match last_full_log p with
          | Some t => now - t <? FULL_LOG_INTERVAL
          | None => false
          end then p
  else
    let '(size, cap) := depth (queue p) in
    MkProducer (queue p) (counters p) (last_bucket p) (Some now) (closed_reported p)
      ((now, LFull size cap (dropped (counters p))) :: log p).

Definition report_closed (now : Z) (p : Producer) : Producer :=
  MkProducer (queue p) (counters p) (last_bucket p) (last_full_log p) true
    (if closed_reported p then log p else (now, LAfterShutdown) :: log p).

Definition enqueue (now : Z) (s : Sample) (p : Producer) : Producer :=
  match try_send s (queue p) with
  | Sent q =>
      warn_thresholds now
        (MkProducer q (add_enqueued (counters p) 1) (last_bucket p) (last_full_log p)
           (closed_reported p) (log p))
  | Full =>
      let prior := dropped (counters p) in
      log_queue_full now prior
        (MkProducer (queue p) (add_dropped (counters p) 1) (last_bucket p) (last_full_log p)
           (closed_reported p) (log p))
  | SendClosed => report_closed now p
  end.

(** *** What the producer reports *)

(** The last watermark logged, or [-1] when the last was a recovery or none. *)
Fixpoint logged_bucket (l : list (Z * Log)) : Z :=
  match l with
  | [] => -1
  | (_, LHighWater b _ _) :: _ => b
  | (_, LRecovered _ _) :: _ => -1
  | _ :: l => logged_bucket l
  end.

Fixpoint last_full (l : list (Z * Log)) : option Z :=
  match l with
  | [] => None
  | (t, LFull _ _ _) :: _ => Some t
  | _ :: l => last_full l
  end.

Definition line_ok (rest : list (Z * Log)) (entry : Z * Log) : Prop :=
  match entry with
  | (_, LHighWater b _ _) => b ≠ -1 ∧ b ≠ logged_bucket rest
  | (_, LRecovered _ _) => logged_bucket rest ≠ -1
  | (t, LFull _ _ _) => ∀ t', last_full rest = Some t' → FULL_LOG_INTERVAL ≤ t - t'
  | (_, LAfterShutdown) => Forall (λ e, e.2 ≠ LAfterShutdown) rest
  end.

Fixpoint log_ok (l : list (Z * Log)) : Prop :=
  match l with [] => True | e :: rest => line_ok rest e ∧ log_ok rest end.

Definition producer_ok (p : Producer) : Prop :=
  (length (items (queue p)) ≤ max_capacity (queue p))%nat ∧
  last_bucket p = logged_bucket (log p) ∧
  last_full_log p = last_full (log p) ∧
  (closed_reported p = false → Forall (λ e, e.2 ≠ LAfterShutdown) (log p)) ∧
  log_ok (log p).

(** The worker's steps between two frames: some taken off the front, and maybe
    the queue closed. *)
Definition worker_took (k : nat) (closes : bool) (p : Producer) : Producer :=
  MkProducer (MkQueue (drop k (items (queue p))) (max_capacity (queue p))
                (q_closed (queue p) || closes))
    (counters p) (last_bucket p) (last_full_log p) (closed_reported p) (log p).

Lemma worker_took_ok k b p : producer_ok p → producer_ok (worker_took k b p).
Proof. intros (? & ? & ? & ? & ?). unfold producer_ok; simpl. rewrite length_drop. split_and!; auto; lia. Qed.

Lemma warn_thresholds_ok now p : producer_ok p → producer_ok (warn_thresholds now p).
Proof.
  intros (Hc & Hb & Hf & Hs & Hl). unfold warn_thresholds, depth.
  set (b := bucket_of _ _). destruct (Z.eqb_spec (last_bucket p) b) as [|Hne]; [done|].
  unfold producer_ok; simpl. destruct (Z.eqb_spec b (-1)) as [Hb1|Hb1]; simpl;
    split_and!; try done; try (by rewrite Hb1); try congruence;
    intros Hr; constructor; auto.
Qed.

Lemma enqueue_ok now s p : producer_ok p → producer_ok (enqueue now s p).
Proof.
  intros Hp. pose proof Hp as (Hc & Hb & Hf & Hs & Hl). unfold enqueue, try_send.
  destruct (q_closed (queue p)).
  { unfold report_closed, producer_ok; simpl.
    destruct (closed_reported p) eqn:Hr; simpl; by auto 10. }
  destruct (Nat.ltb_spec (length (items (queue p))) (max_capacity (queue p))).
  { apply warn_thresholds_ok. unfold producer_ok; simpl. rewrite length_app; simpl.
    split_and!; auto; lia. }
  unfold log_queue_full; simpl. destruct (negb _); [done|].
  rewrite Hf. destruct (last_full (log p)) as [t|] eqn:Ht;
    [destruct (Z.ltb_spec (now - t) FULL_LOG_INTERVAL)|]; unfold producer_ok; simpl;
    rewrite ?Ht; split_and!; auto; try (by intros Hr; constructor; auto).
  all: by intros t' [= <-].
Qed.

(** However producers and the worker interleave, the queue never exceeds its
    capacity, each watermark line differs from the one before it, a recovery
    follows a watermark, "queue FULL" lines are at least five seconds apart, and
    a frame after shutdown is reported once. *)
Theorem producer_reports (steps : list (Z * Sample + nat * bool)) (p : Producer) :
  producer_ok p →
  producer_ok (foldl (λ p e, match e with
    | inl (now, s) => enqueue now s p
    | inr (k, closes) => worker_took k closes p
    end) p steps).
Proof.
  revert p; induction steps as [|[[now s]|[k b]] steps IH]; intros p Hp; [done|..]; apply IH.
  - by apply enqueue_ok.
  - by apply worker_took_ok.
Qed.

Definition producer_start (cap : nat) : Producer :=
  MkProducer (MkQueue [] cap false) counters_default (-1) None false [].

Lemma producer_reports_witness :
  producer_ok (foldl (λ p e, match e with
    | inl (now, s) => enqueue now s p
    | inr (k, closes) => worker_took k closes p
    end) (producer_start 1)
    [inl (0, sample_frame); inl (1, sample_frame); inr (1%nat, true); inl (2, sample_frame)]).
Proof. apply producer_reports. unfold producer_ok; simpl. split_and!; try done; lia. Defined.
