(* ===== verification/Batcher.v ===== *)
(** * The worker ([archive.rs], [Batcher])

    [step] is one event of the system: a producer's frame, the stop signal, an
    answer the worker was awaiting, or the worker running to its next await. A
    state carries ghost lists of what was accepted, delivered, lost and sent
    twice, which no step reads. *)

From S2P Require Import Prelude F64 Model Source Wire Cache Archive.
Import Sample.
Local Open Scope Z_scope.

(** ** State *)

(** The watch channel the stop signal comes through: nothing sent; sent and not
    yet seen; seen; or its sender gone, which [changed] reports every time. *)
Inductive Stop := StopIdle | StopSent | StopSeen | StopGone.

Definition stop_ready (s : Stop) : bool :=
  match s with StopSent | StopGone => true | _ => false end.
Definition stop_changed (s : Stop) : Stop :=
  match s with StopSent => StopSeen | s => s end.

(** What the frames being taken off the queue are for. *)
Inductive Purpose :=
  | Spill            (** [drain_queue_to_cache] from [spill_if_queue_filling] *)
  | AfterFailure     (** the same, from [fail] *)
  | LastFlush.       (** [shutdown_flush] *)

Inductive Pc :=
  | Top
  | Connecting
  | Draining
  | DrainWriting (frames : list Cached)
  | Receiving
  | Filling (batch : list Sample)
  | KeepingAlive
  | Writing (batch : list Sample)
  | Closing (e : SinkError) (batch : list Sample)
  | Taking (taken : list Sample) (why : Purpose)
  | Waiting
  | FlushWriting (remaining : list Sample)
  | FlushClosing
  | Done.

(** The settings a batcher is built from. *)
Record Conf := MkConf { batch_size : nat; flush_threshold : f64 }.

(** Bookkeeping for the theorems: frames the queue took, frames the sink stored,
    frames [cache_batch] counted as dropped, frames delivered but left in the
    cache by a failed removal, and whether the cache ever failed to be read. *)
Record Ghost := MkGhost {
  accepted : list Sample;
  stored : list Sample;
  lost : list Sample;
  resent : list Sample;
  unread : bool
}.

Section Batcher.
Context {C : Type} `{FrameCache C}.

Record State := MkState {
  prod : Producer;
  stop : Stop;
  cache : C;
  connected : bool;
  sink_down : bool;
  draining_cache : bool;
  pc : Pc;
  ghost : Ghost
}.

Definition set_pc (p : Pc) (s : State) : State :=
  MkState (prod s) (stop s) (cache s) (connected s) (sink_down s) (draining_cache s) p (ghost s).
Definition set_cache (c : C) (s : State) : State :=
  MkState (prod s) (stop s) c (connected s) (sink_down s) (draining_cache s) (pc s) (ghost s).
Definition set_draining (b : bool) (s : State) : State :=
  MkState (prod s) (stop s) (cache s) (connected s) (sink_down s) b (pc s) (ghost s).
Definition set_link (c d : bool) (s : State) : State :=
  MkState (prod s) (stop s) (cache s) c d (draining_cache s) (pc s) (ghost s).
Definition set_stop (v : Stop) (s : State) : State :=
  MkState (prod s) v (cache s) (connected s) (sink_down s) (draining_cache s) (pc s) (ghost s).
Definition set_prod (p : Producer) (s : State) : State :=
  MkState p (stop s) (cache s) (connected s) (sink_down s) (draining_cache s) (pc s) (ghost s).
Definition set_ghost (g : Ghost) (s : State) : State :=
  MkState (prod s) (stop s) (cache s) (connected s) (sink_down s) (draining_cache s) (pc s) g.

Definition set_queue (q : Queue) (s : State) : State :=
  let p := prod s in
  set_prod (MkProducer q (counters p) (last_bucket p) (last_full_log p) (closed_reported p) (log p)) s.
Definition set_counters (c : Counters) (s : State) : State :=
  let p := prod s in
  set_prod (MkProducer (queue p) c (last_bucket p) (last_full_log p) (closed_reported p) (log p)) s.

Definition ghost_stored (l : list Sample) (s : State) : State :=
  let g := ghost s in set_ghost (MkGhost (accepted g) (stored g ++ l) (lost g) (resent g) (unread g)) s.
Definition ghost_lost (l : list Sample) (s : State) : State :=
  let g := ghost s in set_ghost (MkGhost (accepted g) (stored g) (lost g ++ l) (resent g) (unread g)) s.
Definition ghost_resent (l : list Sample) (s : State) : State :=
  let g := ghost s in set_ghost (MkGhost (accepted g) (stored g) (lost g) (resent g ++ l) (unread g)) s.
Definition ghost_unread (s : State) : State :=
  let g := ghost s in set_ghost (MkGhost (accepted g) (stored g) (lost g) (resent g) true) s.
Definition ghost_accepted (l : list Sample) (s : State) : State :=
  let g := ghost s in set_ghost (MkGhost (accepted g ++ l) (stored g) (lost g) (resent g) (unread g)) s.

(** ** The operations *)

(** [report]. *)
Definition report (s : State) : State :=
  let '(r, c) := count (cache s) in
  set_counters (set_reported (counters (prod s)) (connected s)
    (match r with Ok n => n | Err _ => 0 end)) (set_cache c s).

(** [written(n)], at [now] in Unix milliseconds. *)
Definition written_frames (now : Z) (n : nat) (s : State) : State :=
  let c := add_written (counters (prod s)) (Z.of_nat n) in
  set_counters (if (0 <? n)%nat then set_last_ack c now else c) s.

Definition queue_finished (s : State) : bool :=
  let q := queue (prod s) in
  q_closed q && match items q with [] => true | _ => false end.

(** Store a batch on disk, or count it dropped. *)
Definition cache_batch (batch : list Sample) (s : State) : State :=
  if is_full (cache s) then
    ghost_lost batch (set_counters (add_dropped (counters (prod s)) (Z.of_nat (length batch))) s)
  else
    match append batch (cache s) with
    | (Ok n, c) => set_counters (add_cached (counters (prod s)) (Z.of_nat n)) (set_cache c s)
    | (Err _, c) =>
        ghost_lost batch
          (set_counters (add_dropped (counters (prod s)) (Z.of_nat (length batch))) (set_cache c s))
    end.

(** [drain_queue_to_cache], once the frames are off the queue. *)
Definition cache_chunks (cf : Conf) (taken : list Sample) (s : State) : State :=
  foldl (λ s chunk, cache_batch chunk s) s (chunks (batch_size cf) taken).

(** [spill_if_queue_filling]'s test. *)
Definition queue_filling (cf : Conf) (q : Queue) : bool :=
  if f64_ge (F64 0 0) (flush_threshold cf) then false
  else
    let '(size, cap) := depth q in
    f64_ge (f64_div (of_Z (Z.of_nat size)) (of_Z (Z.of_nat cap))) (flush_threshold cf).

(** After the spill: connect first, or drain. *)
Definition after_spill (s : State) : State :=
  set_pc (if connected s then Draining else Connecting) s.

(** [fail], up to its [close]. *)
Definition fail (e : SinkError) (batch : list Sample) (s : State) : State :=
  set_pc (Closing e batch) s.

(** [fail] after the sink closed, up to taking the queue. *)
Definition failed (e : SinkError) (batch : list Sample) (s : State) : State :=
  let is_closed := match e with Closed _ => true | Failed _ => false end in
  let s := set_link false (sink_down s || negb is_closed) s in
  let s := match batch with [] => s | _ => cache_batch batch s end in
  set_pc (if is_closed then Top else Taking [] AfterFailure) s.

(** [drain_cache] up to its write, or to the [Ok(false)] that goes on to the
    queue. *)
Definition drain_cache (cf : Conf) (s : State) : State :=
  let '(r, c0) := count (cache s) in
  let pending := match r with Ok n => n | Err _ => 1 end in
  let s := set_cache c0 s in
  if negb (draining_cache s) && (pending =? 0) then set_pc Receiving s
  else
    match oldest (batch_size cf) (cache s) with
    | (Err _, c) => set_pc Receiving (ghost_unread (set_cache c s))
    | (Ok [], c) =>
        let s := set_cache c s in
        set_pc Receiving
          (if draining_cache s
           then set_cache (reset (cache s)).2 (set_draining false s)
           else s)
    | (Ok frames, c) => set_pc (DrainWriting frames) (set_draining true (set_cache c s))
    end.

(** How much of a batch the sink stored. *)
Definition delivered_of (len : nat) (r : result WriteError ()) : nat :=
  match r with Ok _ => len | Err e => delivered e end.

(** [drain_cache] after its write. *)
Definition drained (now : Z) (frames : list Cached) (r : result WriteError ()) (s : State) : State :=
  let n := delivered_of (length frames) r in
  let sent := take n frames in
  let '(rm, c) := remove sent (cache s) in
  let s := set_cache c (ghost_stored (sample <$> sent) s) in
  let s := match rm with Ok _ => s | Err _ => ghost_resent (sample <$> sent) s end in
  let s := written_frames now n s in
  let s := set_counters (add_recovered (counters (prod s)) (Z.of_nat n)) s in
  match r with Ok _ => set_pc Top s | Err e => fail (cause e) [] s end.

(** [run] once [next_batch] returned. *)
Definition batch_ready (batch : list Sample) (s : State) : State :=
  match batch with
  | [] => set_pc (if queue_finished s then Taking [] LastFlush else KeepingAlive) s
  | _ => set_pc (Writing batch) s
  end.

(** [run] after writing a batch. *)
Definition wrote (now : Z) (batch : list Sample) (r : result WriteError ()) (s : State) : State :=
  let n := delivered_of (length batch) r in
  let s := written_frames now n (ghost_stored (take n batch) s) in
  match r with Ok _ => set_pc Top s | Err e => fail (cause e) (drop n batch) s end.

(** [next_batch]'s [select!], its stop branch first. *)
Definition receive (s : State) : option State :=
  let q := queue (prod s) in
  if stop_ready (stop s) then
    let s := set_stop (stop_changed (stop s)) s in
    let q := close_queue q in
    match try_recv q with
    | Some (x, q) => Some (set_pc (Filling [x]) (set_queue q s))
    | None => Some (batch_ready [] (set_queue q s))
    end
  else
    match try_recv q with
    | Some (x, q) => Some (set_pc (Filling [x]) (set_queue q s))
    | None => if q_closed q then Some (batch_ready [] s) else None
    end.

(** [next_batch]'s [try_recv] loop, one turn. *)
Definition fill (cf : Conf) (batch : list Sample) (s : State) : State :=
  if (length batch <? batch_size cf)%nat then
    match try_recv (queue (prod s)) with
    | Some (x, q) => set_pc (Filling (batch ++ [x])) (set_queue q s)
    | None => batch_ready batch s
    end
  else batch_ready batch s.

(** [wait_to_retry]'s [select!], its stop branch. *)
Definition wait_stopped (s : State) : option State :=
  if stop_ready (stop s) then
    let s := set_stop (stop_changed (stop s)) s in
    Some (set_pc (Taking [] LastFlush) (set_queue (close_queue (queue (prod s))) s))
  else None.

(** [shutdown_flush] once the queue is taken. *)
Definition flush_unsent (unflushed : list Sample) (s : State) : State :=
  set_pc FlushClosing (match unflushed with [] => s | _ => cache_batch unflushed s end).

Definition shutdown_flush (remaining : list Sample) (s : State) : State :=
  match remaining with
  | [] => set_pc FlushClosing s
  | _ => if connected s then set_pc (FlushWriting remaining) s else flush_unsent remaining s
  end.

Definition flushed (remaining : list Sample) (r : result WriteError ()) (s : State) : State :=
  let n := delivered_of (length remaining) r in
  let s := ghost_stored (take n remaining) s in
  let s := if (0 <? n)%nat then set_counters (add_written (counters (prod s)) (Z.of_nat n)) s else s in
  flush_unsent (drop n remaining) s.

(** [take_queued], one [try_recv], and what follows when the queue is empty. *)
Definition take_queued (cf : Conf) (taken : list Sample) (why : Purpose) (s : State) : State :=
  match try_recv (queue (prod s)) with
  | Some (x, q) => set_pc (Taking (taken ++ [x]) why) (set_queue q s)
  | None =>
      match why with
      | Spill => after_spill (cache_chunks cf taken s)
      | AfterFailure =>
          let s := cache_chunks cf taken s in
          set_pc (if queue_finished s then Taking [] LastFlush else Waiting) s
      | LastFlush => shutdown_flush taken s
      end
  end.

(** ** Events *)

Inductive event :=
  | Frame (now : Z) (x : Sample)      (** a producer calls [enqueue] *)
  | StopSignal                        (** [Running::shutdown] *)
  | StopDropped                       (** the handle was abandoned *)
  | Work                              (** the worker runs to its next await *)
  | Connected (r : SinkResult)
  | Wrote (now : Z) (r : result WriteError ())
  | KeptAlive (r : SinkResult)
  | SinkClosed
  | Timeout                           (** the flush interval passed *)
  | Backoff.                          (** the backoff passed *)

(** A write error names a prefix of the batch. *)
Definition write_fits (len : nat) (r : result WriteError ()) : bool :=
  (delivered_of len r <=? len)%nat.

(** [None] when the event cannot happen in the state. *)
Definition step (cf : Conf) (ev : event) (s : State) : option State :=
  match ev, pc s with
  | Frame now x, _ =>
      let s' := set_prod (enqueue now x (prod s)) s in
      Some (match try_send x (queue (prod s)) with Sent _ => ghost_accepted [x] s' | _ => s' end)
  | StopSignal, _ =>
      match stop s with StopIdle => Some (set_stop StopSent s) | _ => None end
  | StopDropped, _ => Some (set_stop StopGone s)
  | Work, Top =>
      let s := report s in
      Some (if queue_filling cf (queue (prod s)) then set_pc (Taking [] Spill) s else after_spill s)
  | Work, Draining => Some (drain_cache cf s)
  | Work, Receiving => receive s
  | Work, Filling batch => Some (fill cf batch s)
  | Work, Taking taken why => Some (take_queued cf taken why s)
  | Work, Waiting => wait_stopped s
  | Connected (Ok _), Connecting => Some (set_pc Draining (set_link true false s))
  | Connected (Err e), Connecting => Some (fail e [] s)
  | Wrote now r, DrainWriting frames =>
      if write_fits (length frames) r then Some (drained now frames r s) else None
  | Wrote now r, Writing batch =>
      if write_fits (length batch) r then Some (wrote now batch r s) else None
  | Wrote now r, FlushWriting remaining =>
      if write_fits (length remaining) r then Some (flushed remaining r s) else None
  | Timeout, Receiving =>
      if stop_ready (stop s) || q_closed (queue (prod s)) then None
      else match items (queue (prod s)) with [] => Some (batch_ready [] s) | _ => None end
  | KeptAlive (Ok _), KeepingAlive => Some (set_pc Top s)
  | KeptAlive (Err e), KeepingAlive => Some (fail e [] s)
  | SinkClosed, Closing e batch => Some (failed e batch s)
  | SinkClosed, FlushClosing => Some (set_pc Done s)
  | Backoff, Waiting => if stop_ready (stop s) then None else Some (set_pc Top s)
  | _, _ => None
  end.

Fixpoint steps (cf : Conf) (evs : list event) (s : State) : option State :=
  match evs with
  | [] => Some s
  | ev :: evs => match step cf ev s with Some s' => steps cf evs s' | None => None end
  end.

(** ** [channel] *)

Definition conf_of (size : nat) (queue_flush_pct : Z) : Conf :=
  MkConf (size `max` 1) (f64_div (of_Z queue_flush_pct) (of_Z 100)).

Definition channel (c : C) (queue_size : nat) : State :=
  MkState (producer_start (queue_size `max` 1)) StopIdle c false false false Top
    (MkGhost [] [] [] [] false).
End Batcher.
Arguments State C : clear implicits.
