(* ===== verification/BatcherProofs.v ===== *)
(** * What the batcher keeps

    One invariant, kept by every event, from which follow: no frame is lost
    unaccounted for, frames come out in the order they went in, and after
    shutdown nothing is left in memory. *)

From S2P Require Import Prelude F64 Model Source Wire Cache CacheFifo Archive Batcher.
Import Sample.
Local Open Scope Z_scope.

#[global] Instance SinkError_eq_dec : EqDecision SinkError.
Proof. solve_decision. Defined.
#[global] Instance Purpose_eq_dec : EqDecision Purpose.
Proof. solve_decision. Defined.
#[global] Instance Pc_eq_dec : EqDecision Pc.
Proof. solve_decision. Defined.

Section Invariant.
Context {C : Type} `{FrameCacheLaws C}.
Implicit Types s : State C.

Definition samples_of (c : C) : list Sample := sample <$> contents c.

(** The frames the worker holds in hand. *)
Definition in_hand (p : Pc) : list Sample :=
  match p with
  | Filling b | Writing b | Closing _ b | Taking b _ | FlushWriting b => b
  | _ => []
  end.

Definition waiting (s : State C) : list Sample := items (queue (prod s)).

(** Everything not yet delivered, oldest first. *)
Definition held (s : State C) : list Sample := samples_of (cache s) ++ in_hand (pc s) ++ waiting s.

(** The cache has nothing older than the frames in hand, as far as it could be
    read. *)
Definition cache_drained (s : State C) : Prop := unread (ghost s) = true ∨ contents (cache s) = [].

Definition finishing (s : State C) : Prop := q_closed (queue (prod s)) = true.

Definition pc_ok (cf : Conf) (s : State C) : Prop :=
  match pc s with
  | Top | Connecting => True
  | Draining => connected s = true
  | DrainWriting frames =>
      connected s = true ∧ frames = take (batch_size cf) (contents (cache s)) ∧ frames ≠ []
  | Receiving | KeepingAlive => connected s = true ∧ cache_drained s
  | Filling b | Writing b => connected s = true ∧ cache_drained s ∧ b ≠ []
  | Closing _ b => b ≠ [] → cache_drained s
  | Taking _ Spill => True
  | Taking _ AfterFailure => connected s = false
  | Waiting => connected s = false ∧ q_closed (queue (prod s)) = false
  | Taking b LastFlush => finishing s ∧ (connected s = true → b = [] ∧ waiting s = [])
  | FlushWriting _ => False
  | FlushClosing | Done => finishing s ∧ waiting s = []
  end.

Record inv (cf : Conf) (start : list Sample) (s : State C) : Prop := {
  inv_cache : cache_ok (cache s);
  inv_storable : Forall (λ x, storable x = true) (in_hand (pc s) ++ waiting s);
  inv_balance : stored (ghost s) ++ lost (ghost s) ++ held s ≡ₚ
                start ++ accepted (ghost s) ++ resent (ghost s);
  inv_order : unread (ghost s) = false → resent (ghost s) = [] →
              sublist (stored (ghost s) ++ held s) (start ++ accepted (ghost s));
  inv_pc : pc_ok cf s;
  inv_stop : stop s = StopSeen → finishing s
}.

(** ** Caching a batch *)

(** The frames [b] were put in the cache or counted lost, and nothing else the
    invariant speaks of changed. *)
Definition cached_as (b : list Sample) (s s' : State C) : Prop :=
  queue (prod s') = queue (prod s) ∧ stop s' = stop s ∧ connected s' = connected s ∧
  pc s' = pc s ∧ cache_ok (cache s') ∧
  accepted (ghost s') = accepted (ghost s) ∧ stored (ghost s') = stored (ghost s) ∧
  resent (ghost s') = resent (ghost s) ∧ unread (ghost s') = unread (ghost s) ∧
  ∃ kept gone, samples_of (cache s') = samples_of (cache s) ++ kept ∧
    lost (ghost s') = lost (ghost s) ++ gone ∧ kept ++ gone ≡ₚ b ∧ sublist kept b.

Lemma cached_as_nil s : cache_ok (cache s) → cached_as [] s s.
Proof. intros Hc. repeat (split; [done|]). exists [], []. rewrite !app_nil_r. split_and!; reflexivity. Qed.

Lemma cached_as_trans a b s1 s2 s3 :
  cached_as a s1 s2 → cached_as b s2 s3 → cached_as (a ++ b) s1 s3.
Proof.
  intros (? & ? & ? & ? & ? & ? & ? & ? & ? & k1 & g1 & Hc1 & Hl1 & Hp1 & Hs1)
         (? & ? & ? & ? & ? & ? & ? & ? & ? & k2 & g2 & Hc2 & Hl2 & Hp2 & Hs2).
  repeat (split; [congruence|]). exists (k1 ++ k2), (g1 ++ g2).
  rewrite Hc2, Hc1, Hl2, Hl1, !app_assoc. split_and!; try done.
  - rewrite <-Hp1, <-Hp2. solve_Permutation.
  - by apply sublist_app.
Qed.

Lemma cache_batch_spec b s :
  cache_ok (cache s) → Forall (λ x, storable x = true) b → cached_as b s (cache_batch b s).
Proof.
  intros Hc Hb. unfold cache_batch. destruct (is_full (cache s)).
  { repeat (split; [done|]). exists [], b. rewrite app_nil_r. split_and!; reflexivity || apply sublist_nil_l. }
  destruct (append b (cache s)) as [r c] eqn:Ha.
  destruct (append_spec _ _ _ _ Hc Hb Ha) as [Hc' Hr]. destruct r as [n|e]; simpl.
  - destruct Hr as [_ (new & Hnew & Hs)]. repeat (split; [done|]). exists b, [].
    rewrite !app_nil_r. split_and!; try reflexivity.
    unfold samples_of; simpl. by rewrite Hnew, fmap_app, Hs.
  - repeat (split; [done|]). exists [], b. unfold samples_of; simpl. rewrite Hr, app_nil_r.
    split_and!; reflexivity || apply sublist_nil_l.
Qed.

Lemma cache_chunks_spec cf b s :
  (0 < batch_size cf)%nat → cache_ok (cache s) → Forall (λ x, storable x = true) b →
  cached_as b s (cache_chunks cf b s).
Proof.
  intros Hn Hc Hb. unfold cache_chunks.
  rewrite <-(chunks_concat (batch_size cf) b) in Hb |- * at 1 by done.
  revert s Hc. induction (chunks (batch_size cf) b) as [|k ks IH]; intros s Hc; [by apply cached_as_nil|].
  cbn [concat foldl]. simpl in Hb. apply Forall_app in Hb as [Hk Hks].
  pose proof (cache_batch_spec k s Hc Hk) as H1. eapply cached_as_trans; [exact H1|].
  apply IH; [done|]. apply H1.
Qed.

(** ** Ways a step can keep the balance *)

(** Nothing changed hands: the same frames are held in the same order. *)
Lemma inv_same cf start s s' :
  inv cf start s → cache_ok (cache s') → held s' = held s →
  Forall (λ x, storable x = true) (in_hand (pc s') ++ waiting s') →
  accepted (ghost s') = accepted (ghost s) → stored (ghost s') = stored (ghost s) →
  lost (ghost s') = lost (ghost s) → resent (ghost s') = resent (ghost s) →
  (unread (ghost s') = false → unread (ghost s) = false) →
  pc_ok cf s' → (stop s' = StopSeen → finishing s') → inv cf start s'.
Proof.
  intros [H1' H2' H3' H4' H5' H6'] Hc Hh Hs Ha Hst Hl Hr Hu Hp Hf. split; try done.
  - by rewrite Hst, Hl, Hh, Ha, Hr.
  - rewrite Hst, Hh, Ha, Hr. auto.
Qed.

(** The frames in hand went to the cache, or were counted lost. *)
Lemma inv_cached cf start s s0 s1 s' :
  inv cf start s → cached_as (in_hand (pc s)) s0 s1 → cache s0 = cache s → ghost s0 = ghost s →
  cache s' = cache s1 → ghost s' = ghost s1 → waiting s' = waiting s → in_hand (pc s') = [] →
  pc_ok cf s' → (stop s' = StopSeen → finishing s') → inv cf start s'.
Proof.
  intros [_ H2' H3' H4' _ _] (_ & _ & _ & _ & Hok & Ha & Hst & Hr & Hu & k & g & Hc & Hl & Hp & Hs)
    Hc0 Hg0 Hc' Hg' Hw Hin Hpc Hf. rewrite Hc0, Hg0 in *.
  assert (Hheld : held s' = samples_of (cache s) ++ k ++ waiting s)
    by (unfold held; by rewrite Hc', Hc, Hin, Hw, <-app_assoc).
  split; rewrite ?Hg'; try done.
  - by rewrite Hc'.
  - rewrite Hin, Hw. by apply Forall_app in H2' as [_ ?].
  - rewrite Hheld, Hst, Hl, Ha, Hr, <-H3'. unfold held. rewrite <-Hp. solve_Permutation.
  - rewrite Hheld, Hst, Ha, Hr, Hu. intros Hun Hre. etransitivity; [|by apply H4'].
    unfold held. by repeat apply sublist_app.
Qed.

(** ** Producers *)

Lemma enqueue_queue now x p :
  queue (enqueue now x p) = match try_send x (queue p) with Sent q => q | _ => queue p end.
Proof.
  unfold enqueue. destruct (try_send x (queue p)) as [q| |]; [| |done].
  - unfold warn_thresholds; simpl. by destruct (_ =? _).
  - unfold log_queue_full; simpl. destruct (negb _); [done|].
    destruct (last_full_log p); [destruct (_ <? _)|]; done.
Qed.

Lemma frame_inv cf start s now x :
  inv cf start s → storable x = true →
  ∃ s', step cf (Frame now x) s = Some s' ∧ inv cf start s'.
Proof.
  intros Hi Hx. eexists. split; [done|].
  pose proof (enqueue_queue now x (prod s)) as Hq. unfold try_send in *.
  destruct (q_closed (queue (prod s))) eqn:Hcl;
    [|destruct (Nat.ltb_spec (length (items (queue (prod s)))) (max_capacity (queue (prod s))))].
  2:{ set (s' := ghost_accepted _ _).
    assert (Hw : waiting s' = waiting s ++ [x]) by (unfold waiting; simpl; by rewrite Hq).
    destruct Hi as [H1' H2' H3' H4' H5' H6']. split; simpl; try done.
    - rewrite Hw, app_assoc. apply Forall_app. split; [done|]. by repeat constructor.
    - unfold held in *; simpl. rewrite Hw.
      transitivity ((stored (ghost s) ++ lost (ghost s) ++ samples_of (cache s) ++ in_hand (pc s) ++
        waiting s) ++ [x]); [solve_Permutation|]. rewrite H3'. solve_Permutation.
    - intros Hu Hr. unfold held in *; simpl. rewrite Hw, !app_assoc. apply sublist_app; [|done].
      rewrite <-!app_assoc. auto.
    - unfold pc_ok, finishing in *; simpl. rewrite Hw, Hq; simpl. rewrite Hcl in H5'.
      destruct (pc s); try done; [|by destruct H5'..]. destruct why; try done. by destruct H5'.
    - intros Hs. specialize (H6' Hs). unfold finishing in H6'. congruence. }
  all: apply (inv_same _ _ s); destruct Hi as [H1' H2' H3' H4' H5' H6'];
    unfold held, pc_ok, finishing, waiting in *; simpl; by rewrite ?Hq.
Qed.

(** ** The worker *)

Lemma report_fields s :
  cache_ok (cache s) →
  cache (report s) = cache s ∧ queue (prod (report s)) = queue (prod s) ∧
  stop (report s) = stop s ∧ connected (report s) = connected s ∧ ghost (report s) = ghost s.
Proof.
  intros Hc. unfold report. destruct (count (cache s)) as [r c] eqn:Hn.
  by destruct (count_spec _ _ _ Hc Hn) as [-> _].
Qed.

Lemma top_inv cf start s s' :
  inv cf start s → pc s = Top → step cf Work s = Some s' → inv cf start s'.
Proof.
  intros Hi Hpc Hs. unfold step in Hs. rewrite Hpc in Hs. simplify_eq.
  destruct (report_fields s (inv_cache _ _ _ Hi)) as (Hc & Hq & Hst & Hco & Hg).
  apply (inv_same _ _ s _ Hi); destruct Hi as [H1' H2' H3' H4' H5' H6'];
    destruct (queue_filling _ _); unfold after_spill, held, pc_ok, finishing, waiting in *;
    simpl; rewrite ?Hc, ?Hq, ?Hst, ?Hg, ?Hco, ?Hpc in *; try done; by destruct (connected s).
Qed.

Lemma connected_inv cf start s r s' :
  inv cf start s → step cf (Connected r) s = Some s' → inv cf start s'.
Proof.
  intros Hi Hs. unfold step in Hs. destruct (pc s) eqn:Hpc; try (by destruct r).
  destruct r; simplify_eq; apply (inv_same _ _ s _ Hi); destruct Hi as [H1' H2' H3' H4' H5' H6'];
    unfold held, pc_ok, finishing, waiting in *; simpl; by rewrite ?Hpc in *.
Qed.

Lemma drain_inv cf start s s' :
  (0 < batch_size cf)%nat → inv cf start s → pc s = Draining →
  step cf Work s = Some s' → inv cf start s'.
Proof.
  intros Hn Hi Hpc Hs. unfold step in Hs. rewrite Hpc in Hs. injection Hs as <-.
  unfold drain_cache. destruct (count (cache s)) as [r c0] eqn:Hcnt.
  destruct (count_spec _ _ _ (inv_cache _ _ _ Hi) Hcnt) as [-> Hr]. simpl.
  destruct Hi as [H1' H2' H3' H4' H5' H6'] eqn:HI. clear HI.
  unfold pc_ok in H5'. rewrite Hpc in H5'.
  destruct (negb (draining_cache s) && _) eqn:Hidle.
  { apply andb_true_iff in Hidle as [_ Hz]. apply (inv_same _ _ s _ Hi); try done.
    - unfold held; simpl. by rewrite Hpc.
    - by rewrite Hpc in H2'.
    - split; [done|]. right. simpl. destruct r; apply Z.eqb_eq in Hz; [|done].
      apply length_zero_iff_nil. lia. }
  destruct (oldest (batch_size cf) (cache s)) as [ro c1] eqn:Hold.
  destruct (oldest_spec _ _ _ _ H1' Hold) as [-> Hro].
  destruct ro as [frames|e].
  2:{ apply (inv_same _ _ s _ Hi); try done; [unfold held; simpl; by rewrite Hpc|by rewrite Hpc in H2'|].
      split; [done|]. by left. }
  destruct frames as [|f fs].
  - assert (Hemp : contents (cache s) = []).
    { destruct (contents (cache s)); [done|]. destruct (batch_size cf); [lia|done]. }
    destruct (draining_cache s); simpl.
    + destruct (reset (cache s)) as [rr c2] eqn:Hres. simpl.
      destruct (reset_spec _ _ _ H1' Hemp Hres) as [Hok2 Hemp2].
      apply (inv_same _ _ s _ Hi); try done; [|by rewrite Hpc in H2'|split; [done|by right]].
      unfold held, samples_of; simpl. by rewrite Hpc, Hemp, Hemp2.
    + apply (inv_same _ _ s _ Hi); try done;
        [unfold held; simpl; by rewrite Hpc|by rewrite Hpc in H2'|split; [done|by right]].
  - apply (inv_same _ _ s _ Hi); try done; [unfold held; simpl; by rewrite Hpc|by rewrite Hpc in H2'].
Qed.

(** What [drained] leaves, whatever the sink and the removal answered. *)
Lemma drained_fields now frames r s :
  let n := delivered_of (length frames) r in
  let rm := remove (take n frames) (cache s) in
  let s' := drained now frames r s in
  cache s' = rm.2 ∧ queue (prod s') = queue (prod s) ∧ stop s' = stop s ∧
  in_hand (pc s') = [] ∧ pc s' = match r with Ok _ => Top | Err e => Closing (cause e) [] end ∧
  ghost s' = MkGhost (accepted (ghost s)) (stored (ghost s) ++ (sample <$> take n frames))
    (lost (ghost s))
    (match rm.1 with Ok _ => resent (ghost s) | Err _ => resent (ghost s) ++ (sample <$> take n frames) end)
    (unread (ghost s)).
Proof.
  intros n rm s'. unfold s', drained. fold n. fold rm. destruct rm as [[u|e] c], r; done.
Qed.

Lemma drain_write_inv cf start s frames now r s' :
  inv cf start s → pc s = DrainWriting frames →
  step cf (Wrote now r) s = Some s' → inv cf start s'.
Proof.
  intros Hi Hpc Hs. unfold step in Hs. rewrite Hpc in Hs.
  destruct (write_fits (length frames) r) eqn:Hfit; [|done]. injection Hs as <-.
  apply Nat.leb_le in Hfit.
  destruct (drained_fields now frames r s) as (Hc & Hq & Hst & Hin & Hp & Hg).
  set (n := delivered_of (length frames) r) in *. set (s' := drained now frames r s) in *.
  destruct Hi as [H1' H2' H3' H4' H5' H6']. unfold pc_ok in H5'. rewrite Hpc in H5', H2'.
  destruct H5' as (Hco & Hfr & Hne).
  destruct (remove (take n frames) (cache s)) as [rm c] eqn:Hrm. simpl in Hc, Hg.
  destruct (remove_front _ (batch_size cf) n frames rm c H1' Hfr Hrm) as [Hok Hcc].
  assert (Hn : (n ≤ batch_size cf)%nat) by (rewrite Hfr, length_take in Hfit; lia).
  rewrite Nat.min_l in Hcc by done.
  assert (Hsent : sample <$> take n frames = take n (samples_of (cache s))).
  { unfold samples_of. rewrite <-fmap_take, Hfr, take_take. by rewrite Nat.min_l. }
  rewrite Hsent in Hg.
  assert (Hsc : samples_of c = match rm with Ok _ => drop n (samples_of (cache s))
                               | Err _ => samples_of (cache s) end)
    by (unfold samples_of; destruct rm; rewrite Hcc; [by rewrite fmap_drop|done]).
  assert (Hw : waiting s' = waiting s) by (unfold waiting; by rewrite Hq).
  unfold held in *. rewrite Hpc in *. simpl in *. split.
  - by rewrite Hc.
  - by rewrite Hin, Hw.
  - unfold held. rewrite Hg, Hc, Hsc, Hin, Hw; simpl. destruct rm.
    + rewrite <-H3'. transitivity (stored (ghost s) ++ lost (ghost s) ++
        (take n (samples_of (cache s)) ++ drop n (samples_of (cache s))) ++ waiting s);
        [solve_Permutation|by rewrite take_drop].
    + transitivity (take n (samples_of (cache s)) ++ stored (ghost s) ++ lost (ghost s) ++
        samples_of (cache s) ++ waiting s); [solve_Permutation|]. rewrite H3'. solve_Permutation.
  - unfold held. rewrite Hg, Hc, Hsc, Hin, Hw; simpl. intros Hu Hr. destruct rm.
    + rewrite <-app_assoc, (app_assoc (take _ _)), take_drop. auto.
    + apply app_eq_nil in Hr as [Hr Hz]. rewrite Hz, app_nil_r. auto.
  - unfold pc_ok. rewrite Hp. by destruct r.
  - intros Hss. unfold finishing. rewrite Hq. apply H6'. congruence.
Qed.

(** [next_batch]'s first frame. *)
Lemma received cf start s s' y rest :
  inv cf start s → pc s = Receiving → waiting s = y :: rest → waiting s' = rest →
  cache s' = cache s → ghost s' = ghost s → connected s' = connected s →
  pc s' = Filling [y] → (stop s' = StopSeen → finishing s') → inv cf start s'.
Proof.
  intros Hi Hpc Hy Hr Hc Hg Hco Hp Hst. apply (inv_same _ _ s _ Hi); try (by rewrite ?Hg, ?Hc);
    destruct Hi as [H1' H2' H3' H4' H5' H6']; unfold held, pc_ok in *; rewrite Hpc, Hy in *.
  - by rewrite Hc.
  - by rewrite Hc, Hp, Hr.
  - by rewrite Hp, Hr.
  - rewrite Hp, Hco. unfold cache_drained in *. rewrite Hg, Hc. by destruct H5'.
Qed.

(** No frame: nothing is queued, and the worker keeps the link alive or stops. *)
Lemma received_none cf start s s' :
  inv cf start s → pc s = Receiving → waiting s = [] → waiting s' = [] →
  cache s' = cache s → ghost s' = ghost s → connected s' = connected s →
  pc s' = (if q_closed (queue (prod s')) then Taking [] LastFlush else KeepingAlive) →
  (stop s' = StopSeen → finishing s') → inv cf start s'.
Proof.
  intros Hi Hpc Hy Hr Hc Hg Hco Hp Hst.
  assert (Hin : in_hand (pc s') = []) by (rewrite Hp; by destruct (q_closed _)).
  apply (inv_same _ _ s _ Hi); try (by rewrite ?Hg, ?Hc);
    destruct Hi as [H1' H2' H3' H4' H5' H6']; unfold held, pc_ok in *; rewrite Hpc, Hy in *.
  - by rewrite Hc.
  - by rewrite Hc, Hin, Hr.
  - by rewrite Hin, Hr.
  - rewrite Hp. unfold finishing. destruct (q_closed (queue (prod s'))); [done|].
    unfold cache_drained in *. by rewrite Hco, Hg, Hc.
Qed.

Lemma receive_inv cf start s s' :
  inv cf start s → pc s = Receiving → receive s = Some s' → inv cf start s'.
Proof.
  intros Hi Hpc Hs. unfold receive, try_recv in Hs. simpl in Hs.
  pose proof (inv_stop _ _ _ Hi) as Hseen. unfold finishing in Hseen.
  destruct (stop_ready (stop s)) eqn:Hready; destruct (items (queue (prod s))) as [|y rest] eqn:Hit.
  - injection Hs as <-. apply (received_none cf start s); try done.
    unfold batch_ready, queue_finished; simpl. by rewrite Hit.
  - injection Hs as <-. by apply (received cf start s _ y rest).
  - destruct (q_closed (queue (prod s))) eqn:Hcl; [|done]. injection Hs as <-.
    apply (received_none cf start s); try done. unfold batch_ready, queue_finished; simpl.
    by rewrite Hit, Hcl.
  - injection Hs as <-. by apply (received cf start s _ y rest).
Qed.

Lemma timeout_inv cf start s s' :
  inv cf start s → step cf Timeout s = Some s' → inv cf start s'.
Proof.
  intros Hi Hs. unfold step in Hs. destruct (pc s) eqn:Hpc; try done.
  destruct (stop_ready (stop s) || q_closed (queue (prod s))) eqn:Hr; [done|].
  apply orb_false_iff in Hr as [Hr Hcl].
  destruct (items (queue (prod s))) as [|y rest] eqn:Hit; [|done]. injection Hs as <-.
  apply (received_none cf start s); try done; [|apply (inv_stop _ _ _ Hi)].
  unfold batch_ready, queue_finished; simpl. by rewrite Hit, Hcl.
Qed.

Lemma fill_inv cf start s b :
  inv cf start s → pc s = Filling b → inv cf start (fill cf b s).
Proof.
  intros Hi Hpc. unfold fill.
  assert (Hready : inv cf start (batch_ready b s)).
  { pose proof (inv_pc _ _ _ Hi) as Hp. unfold pc_ok in Hp. rewrite Hpc in Hp.
    destruct b as [|y b]; [by destruct Hp as (_ & _ & ?)|].
    apply (inv_same _ _ s _ Hi); try done; [apply Hi|unfold held; simpl; by rewrite Hpc| |apply Hi].
    pose proof (inv_storable _ _ _ Hi) as Hs. by rewrite Hpc in Hs. }
  destruct (length b <? batch_size cf)%nat; [|done]. unfold try_recv.
  destruct (items (queue (prod s))) as [|y rest] eqn:Hit; [done|].
  apply (inv_same _ _ s _ Hi); try done; destruct Hi as [H1' H2' H3' H4' H5' H6'];
    unfold held, pc_ok, waiting in *; cbn [in_hand set_pc set_queue set_prod pc prod queue items cache];
    rewrite Hpc, ?Hit in *; cbn [in_hand] in *; try done.
  - by rewrite <-app_assoc.
  - by rewrite <-app_assoc.
  - destruct H5' as (? & ? & ?). split_and!; try done. by destruct b.
Qed.

Lemma write_inv cf start s b now r s' :
  inv cf start s → pc s = Writing b → step cf (Wrote now r) s = Some s' → inv cf start s'.
Proof.
  intros [H1' H2' H3' H4' H5' H6'] Hpc Hs. unfold step in Hs. rewrite Hpc in Hs.
  destruct (write_fits (length b) r) eqn:Hfit; [|done]. injection Hs as <-.
  apply Nat.leb_le in Hfit. set (n := delivered_of (length b) r) in *.
  unfold pc_ok, held in *. rewrite Hpc in *. destruct H5' as (Hco & Hdr & Hne). simpl in *.
  assert (Hf : let s' := wrote now b r s in
    cache s' = cache s ∧ queue (prod s') = queue (prod s) ∧ stop s' = stop s ∧
    in_hand (pc s') = drop n b ∧ (pc s' = Top ∨ ∃ e, pc s' = Closing e (drop n b)) ∧
    ghost s' = MkGhost (accepted (ghost s)) (stored (ghost s) ++ take n b) (lost (ghost s))
      (resent (ghost s)) (unread (ghost s))).
  { unfold wrote. destruct r as [u|e]; simpl; split_and!; try done; [|by left|by right; eexists].
    unfold n; simpl. by rewrite drop_ge. }
  destruct Hf as (Hc & Hq & Hst & Hin & Hp & Hg). set (s' := wrote now b r s) in *.
  assert (Hw : waiting s' = waiting s) by (unfold waiting; by rewrite Hq).
  split.
  - by rewrite Hc.
  - rewrite Hin, Hw. apply Forall_app in H2' as [Hb Hwt]. apply Forall_app. split; [|done].
    by apply Forall_drop.
  - unfold held. rewrite Hg, Hc, Hin, Hw; simpl. rewrite <-H3'.
    transitivity (stored (ghost s) ++ lost (ghost s) ++ samples_of (cache s) ++
      (take n b ++ drop n b) ++ waiting s); [solve_Permutation|by rewrite take_drop].
  - unfold held. rewrite Hg, Hc, Hin, Hw; simpl. intros Hu Hr.
    destruct Hdr as [Hdr|Hdr]; [congruence|]. unfold samples_of in *. rewrite Hdr in *. simpl in *.
    rewrite <-app_assoc, (app_assoc (take n b)), take_drop. auto.
  - unfold pc_ok. destruct Hp as [->|[e ->]]; [done|]. intros _. unfold cache_drained in *.
    by rewrite Hg, Hc.
  - intros Hss. unfold finishing. rewrite Hq. apply H6'. congruence.
Qed.

Lemma keep_alive_inv cf start s r s' :
  inv cf start s → step cf (KeptAlive r) s = Some s' → inv cf start s'.
Proof.
  intros Hi Hs. unfold step in Hs. destruct (pc s) eqn:Hpc; try (by destruct r).
  destruct r; simplify_eq; apply (inv_same _ _ s _ Hi); destruct Hi as [H1' H2' H3' H4' H5' H6'];
    unfold held, pc_ok, finishing, waiting in *; simpl; by rewrite ?Hpc in *.
Qed.

(** [cached_as] says the rest of the state stood still. *)
Lemma cached_as_stop b s s' :
  cached_as b s s' → (stop s = StopSeen → finishing s) → (stop s' = StopSeen → finishing s').
Proof. intros (Hq & Hst & _) Hs. unfold finishing in *. by rewrite Hq, Hst. Qed.

Lemma failed_inv cf start s e b :
  inv cf start s → pc s = Closing e b → inv cf start (failed e b s).
Proof.
  intros Hi Hpc. pose proof (inv_storable _ _ _ Hi) as Hsto. rewrite Hpc in Hsto.
  apply Forall_app in Hsto as [Hb _].
  unfold failed. set (isc := match e with Closed _ => true | Failed _ => false end).
  set (s0 := set_link false (sink_down s || negb isc) s).
  set (s1 := match b with [] => s0 | _ => cache_batch b s0 end).
  assert (Hc : cached_as b s0 s1).
  { unfold s1. destruct b; [apply cached_as_nil, Hi|]. apply cache_batch_spec; [apply Hi|done]. }
  assert (Hc' : cached_as (in_hand (pc s)) s0 s1) by (rewrite Hpc; exact Hc).
  apply (inv_cached cf start s s0 s1 _ Hi Hc'); try done.
  - unfold waiting; simpl. by rewrite (proj1 Hc).
  - by destruct isc.
  - unfold pc_ok; simpl. destruct isc; [done|]. apply Hc.
  - intros Hss. apply (cached_as_stop b s0 s1 Hc); [apply Hi|done].
Qed.

Lemma take_queued_inv cf start s t why :
  (0 < batch_size cf)%nat → inv cf start s → pc s = Taking t why →
  inv cf start (take_queued cf t why s).
Proof.
  intros Hn Hi Hpc. pose proof (inv_storable _ _ _ Hi) as Hsto. rewrite Hpc in Hsto.
  apply Forall_app in Hsto as [Ht Hwt]. pose proof (inv_pc _ _ _ Hi) as Hp. unfold pc_ok in Hp.
  rewrite Hpc in Hp. unfold take_queued, try_recv.
  destruct (items (queue (prod s))) as [|y rest] eqn:Hit.
  2:{ assert (Hpk : pc_ok cf (set_pc (Taking (t ++ [y]) why) (set_queue
        (MkQueue rest (max_capacity (queue (prod s))) (q_closed (queue (prod s)))) s))).
    { unfold pc_ok, finishing, waiting in *; simpl. destruct why; try done.
      destruct Hp as [? Hp]. split; [done|]. intros Hco. destruct (Hp Hco). by rewrite Hit in *. }
    apply (inv_same _ _ s _ Hi); try done; try apply Hi.
    - unfold held, waiting; simpl. rewrite Hpc, Hit; simpl. by rewrite <-app_assoc.
    - unfold waiting in *; simpl. rewrite Hit in Hwt. rewrite <-app_assoc. by apply Forall_app. }
  assert (Hw : waiting s = []) by done.
  assert (Hchunks : cached_as (in_hand (pc s)) s (cache_chunks cf t s))
    by (rewrite Hpc; apply cache_chunks_spec; [done|apply Hi|done]).
  pose proof (cached_as_stop _ _ _ Hchunks (inv_stop _ _ _ Hi)) as Hcs.
  pose proof (proj1 Hchunks) as Hq.
  destruct why.
  - unfold after_spill. apply (inv_cached cf start s s _ _ Hi Hchunks); try done.
    + unfold waiting; simpl. by rewrite Hq.
    + simpl. by destruct (connected _).
    + unfold pc_ok; simpl. by destruct (connected (cache_chunks cf t s)) eqn:?.
  - apply (inv_cached cf start s s _ _ Hi Hchunks); try done.
    + unfold waiting; simpl. by rewrite Hq.
    + simpl. by destruct (queue_finished _).
    + unfold pc_ok, queue_finished, finishing, waiting; simpl. rewrite Hq, Hit.
      destruct Hchunks as (_ & _ & Hco & _). rewrite Hco.
      destruct (q_closed (queue (prod s))) eqn:Hcl; simpl; [|done]. by rewrite ?Hq, ?Hcl.
  - destruct Hp as [Hfin Hp]. unfold shutdown_flush. destruct t as [|x t].
    + apply (inv_same _ _ s _ Hi); try done; try apply Hi. unfold held; simpl. by rewrite Hpc.
    + destruct (connected s) eqn:Hco; [by destruct Hp|].
      unfold flush_unsent. set (s1 := cache_batch (x :: t) s).
      assert (Hcb : cached_as (in_hand (pc s)) s s1)
        by (rewrite Hpc; apply cache_batch_spec; [apply Hi|done]).
      pose proof (proj1 Hcb) as Hqb.
      apply (inv_cached cf start s s s1 _ Hi Hcb); try done.
      * unfold waiting; simpl. by rewrite Hqb.
      * unfold pc_ok, finishing, waiting in *; simpl. by rewrite Hqb.
      * apply (cached_as_stop _ _ _ Hcb), Hi.
Qed.

Lemma wait_inv cf start s s' :
  inv cf start s → pc s = Waiting → wait_stopped s = Some s' → inv cf start s'.
Proof.
  intros Hi Hpc Hs. unfold wait_stopped in Hs. destruct (stop_ready (stop s)); [|done].
  injection Hs as <-. pose proof (inv_pc _ _ _ Hi) as Hp. unfold pc_ok in Hp. rewrite Hpc in Hp.
  pose proof (inv_storable _ _ _ Hi) as Hsto. rewrite Hpc in Hsto.
  apply (inv_same _ _ s _ Hi); try done; try apply Hi.
  - unfold held, waiting; simpl. by rewrite Hpc.
  - unfold pc_ok, finishing; simpl. rewrite (proj1 Hp). by split.
Qed.

Lemma move_inv cf start s s' :
  inv cf start s → held s' = held s → in_hand (pc s') = in_hand (pc s) →
  waiting s' = waiting s → cache s' = cache s → ghost s' = ghost s → pc_ok cf s' →
  (stop s' = StopSeen → finishing s') → inv cf start s'.
Proof.
  intros Hi Hh Hin Hw Hc Hg Hp Hf. apply (inv_same _ _ s _ Hi); rewrite ?Hg, ?Hc, ?Hin, ?Hw; auto; apply Hi.
Qed.

(** Every event keeps the invariant. *)
Lemma step_inv cf start ev s s' :
  (0 < batch_size cf)%nat → match ev with Frame _ x => storable x = true | _ => True end →
  inv cf start s → step cf ev s = Some s' → inv cf start s'.
Proof.
  intros Hn Hx Hi Hs. destruct ev as [now x| | | |r|now r|r| | |].
  - destruct (frame_inv cf start s now x Hi Hx) as (s1 & Hs1 & Hi1). congruence.
  - unfold step in Hs. destruct (stop s); [|done..]. injection Hs as <-.
    apply (move_inv cf start s); try done. apply Hi.
  - injection Hs as <-. apply (move_inv cf start s); try done. apply Hi.
  - destruct (pc s) eqn:Hpc; try (unfold step in Hs; rewrite Hpc in Hs; done).
    + by eapply top_inv.
    + by eapply drain_inv.
    + unfold step in Hs. rewrite Hpc in Hs. by eapply receive_inv.
    + unfold step in Hs. rewrite Hpc in Hs. injection Hs as <-. by apply fill_inv.
    + unfold step in Hs. rewrite Hpc in Hs. injection Hs as <-. by apply take_queued_inv.
    + unfold step in Hs. rewrite Hpc in Hs. by eapply wait_inv.
  - by eapply connected_inv.
  - destruct (pc s) eqn:Hpc; try (unfold step in Hs; rewrite Hpc in Hs; done).
    + by eapply drain_write_inv.
    + by eapply write_inv.
    + pose proof (inv_pc _ _ _ Hi) as Hp. unfold pc_ok in Hp. by rewrite Hpc in Hp.
  - by eapply keep_alive_inv.
  - unfold step in Hs. destruct (pc s) eqn:Hpc; try done; injection Hs as <-.
    + by apply failed_inv.
    + pose proof (inv_pc _ _ _ Hi) as Hp. unfold pc_ok in Hp. rewrite Hpc in Hp.
      apply (move_inv cf start s); try done; [unfold held; simpl|simpl|apply Hi]; by rewrite Hpc.
  - by eapply timeout_inv.
  - unfold step in Hs. destruct (pc s) eqn:Hpc; try done. destruct (stop_ready (stop s)); [done|].
    injection Hs as <-.
    apply (move_inv cf start s); try done; [unfold held; simpl|simpl|apply Hi]; by rewrite Hpc.
Qed.

(** Frames a producer may hand over. *)
Definition event_ok (ev : event) : bool :=
  match ev with Frame _ x => storable x | _ => true end.

Lemma steps_inv cf start evs s s' :
  (0 < batch_size cf)%nat → forallb event_ok evs = true →
  inv cf start s → steps cf evs s = Some s' → inv cf start s'.
Proof.
  intros Hn. revert s. induction evs as [|ev evs IH]; intros s He Hi Hs; [by simplify_eq/=|].
  cbn [steps forallb] in *. apply andb_true_iff in He as [Hev He].
  destruct (step cf ev s) as [s1|] eqn:Hst; [|done]. apply (IH s1); [done| |done].
  eapply step_inv; [done| |done|done]. by destruct ev.
Qed.

Lemma channel_inv cf c queue_size :
  cache_ok c → inv cf (samples_of c) (channel c queue_size).
Proof.
  intros Hc. split; try done; unfold held, waiting; simpl; by rewrite ?app_nil_r.
Qed.

Lemma reachable_inv size pct qsize evs c s :
  cache_ok c → forallb event_ok evs = true →
  steps (conf_of size pct) evs (channel c qsize) = Some s →
  inv (conf_of size pct) (samples_of c) s.
Proof.
  intros Hc He Hs. eapply steps_inv; [|exact He|by apply channel_inv|exact Hs]. simpl. lia.
Qed.

(** C2: no frame is lost unaccounted for. At every moment of every run, the
    frames that were on disk at the start and those the queue accepted since are
    exactly those the sink stored, those counted dropped because the disk cache
    refused them, and those still on disk, in the worker's hands or queued; a
    frame is stored twice only when removing it from the cache failed. *)
Theorem no_frame_unaccounted size pct qsize evs (c : C) s :
  cache_ok c → forallb event_ok evs = true →
  steps (conf_of size pct) evs (channel c qsize) = Some s →
  stored (ghost s) ++ lost (ghost s) ++ samples_of (cache s) ++ in_hand (pc s) ++ waiting s
    ≡ₚ samples_of c ++ accepted (ghost s) ++ resent (ghost s).
Proof. intros Hc He Hs. apply (inv_balance _ _ _ (reachable_inv _ _ _ _ _ _ Hc He Hs)). Qed.

(** C3: order survives an outage. As long as the cache can be read and emptied,
    what the sink has stored, followed by what is on disk, in hand and queued, is
    a subsequence of what was accepted, in that order; and when nothing was
    dropped it is all of it. *)
Theorem frames_in_order size pct qsize evs (c : C) s :
  cache_ok c → forallb event_ok evs = true →
  steps (conf_of size pct) evs (channel c qsize) = Some s →
  unread (ghost s) = false → resent (ghost s) = [] →
  sublist (stored (ghost s) ++ samples_of (cache s) ++ in_hand (pc s) ++ waiting s)
    (samples_of c ++ accepted (ghost s)) ∧
  (lost (ghost s) = [] →
   stored (ghost s) ++ samples_of (cache s) ++ in_hand (pc s) ++ waiting s
     = samples_of c ++ accepted (ghost s)).
Proof.
  intros Hc He Hs Hu Hr. pose proof (reachable_inv _ _ _ _ _ _ Hc He Hs) as Hi.
  pose proof (inv_order _ _ _ Hi Hu Hr) as Hsub. unfold held in Hsub. split; [done|].
  intros Hl. pose proof (inv_balance _ _ _ Hi) as Hb. rewrite Hl, Hr, app_nil_r in Hb.
  simpl in Hb. apply sublist_same_length; [done|]. by rewrite <-Hb.
Qed.

(** The worker never stops with frames in memory: once it is done the queue
    is closed and empty, and every frame is stored, on disk, or counted dropped.
    The sink is not written to on the way out. *)
Theorem nothing_left_in_memory size pct qsize evs (c : C) s :
  cache_ok c → forallb event_ok evs = true →
  steps (conf_of size pct) evs (channel c qsize) = Some s →
  (∀ remaining, pc s ≠ FlushWriting remaining) ∧
  (pc s = Done →
   finishing s ∧ waiting s = [] ∧
   stored (ghost s) ++ lost (ghost s) ++ samples_of (cache s)
     ≡ₚ samples_of c ++ accepted (ghost s) ++ resent (ghost s)).
Proof.
  intros Hc He Hs. pose proof (reachable_inv _ _ _ _ _ _ Hc He Hs) as Hi.
  pose proof (inv_pc _ _ _ Hi) as Hp. pose proof (inv_balance _ _ _ Hi) as Hb.
  unfold pc_ok, held in *. split.
  - intros rem Hpc. by rewrite Hpc in Hp.
  - intros Hpc. rewrite Hpc in *. destruct Hp as [Hf Hw]. rewrite Hw in Hb.
    by rewrite !app_nil_r in Hb.
Qed.

(** ** Stopping during an outage *)

(** What a gateway that is not there answers, and the worker's own steps. *)
Definition outage_event (p : Pc) : event :=
  match p with
  | Connecting => Connected (Err (Failed "refused"))
  | DrainWriting _ | Writing _ | FlushWriting _ => Wrote 0 (Err (MkWriteError 0 (Failed "reset")))
  | KeepingAlive => KeptAlive (Err (Failed "reset"))
  | Closing _ _ | FlushClosing => SinkClosed
  | _ => Work
  end.

(** Run on those answers for [n] steps, or until done. *)
Fixpoint run_outage (cf : Conf) (n : nat) (s : State C) : option (State C) :=
  match pc s, n with
  | Done, _ => Some s
  | _, O => None
  | p, S n => match step cf (outage_event p) s with Some s' => run_outage cf n s' | None => None end
  end.

(** The steps still ahead, at most, besides one for each queued frame. *)
Definition pc_rank (p : Pc) : nat :=
  match p with
  | Closing (Closed _) _ => 13
  | Top => 12
  | Taking _ Spill => 11
  | Draining => 10
  | DrainWriting _ => 9
  | Receiving => 9
  | Filling _ => 8
  | Writing _ | KeepingAlive | Connecting => 7
  | Closing (Failed _) _ => 6
  | Taking _ AfterFailure => 5
  | Waiting => 4
  | Taking _ LastFlush => 3
  | FlushWriting _ => 2
  | FlushClosing => 1
  | Done => 0
  end.

Definition outage_measure (s : State C) : nat := pc_rank (pc s) + length (waiting s).

Lemma cache_batch_rest b s :
  let s' := cache_batch b s in
  queue (prod s') = queue (prod s) ∧ stop s' = stop s ∧ connected s' = connected s.
Proof.
  unfold cache_batch. destruct (is_full (cache s)); [done|].
  by destruct (append b (cache s)) as [[] c].
Qed.

Lemma cache_chunks_rest cf b s :
  let s' := cache_chunks cf b s in
  queue (prod s') = queue (prod s) ∧ stop s' = stop s ∧ connected s' = connected s.
Proof.
  unfold cache_chunks. revert s. induction (chunks _ b) as [|k ks IH]; intros s; [done|]. simpl.
  destruct (IH (cache_batch k s)) as (-> & -> & ->). apply cache_batch_rest.
Qed.

Lemma report_rest s :
  queue (prod (report s)) = queue (prod s) ∧ stop (report s) = stop s ∧
  connected (report s) = connected s.
Proof. unfold report. by destruct (count (cache s)). Qed.

Lemma drain_cache_rest cf s :
  let s' := drain_cache cf s in
  queue (prod s') = queue (prod s) ∧ stop s' = stop s ∧
  (pc s' = Receiving ∨ ∃ fs, pc s' = DrainWriting fs).
Proof.
  unfold drain_cache. destruct (count (cache s)) as [r c]. simpl.
  destruct (negb _ && _); [by auto|].
  destruct (oldest _ c) as [[[|f fs]|e] c']; simpl; [|by eauto|by auto].
  destruct (draining_cache s); by auto.
Qed.

Lemma failed_rest e b s :
  queue (prod (failed e b s)) = queue (prod s) ∧ stop (failed e b s) = stop s.
Proof.
  unfold failed. set (s0 := set_link _ _ _). destruct b as [|y b]; [done|].
  destruct (cache_batch_rest (y :: b) s0) as (Hq & Hs & _). cbn. by rewrite Hq, Hs.
Qed.

Lemma take_queued_nearer cf t why s :
  pc s = Taking t why →
  stop (take_queued cf t why s) = stop s ∧ (outage_measure (take_queued cf t why s) < outage_measure s)%nat.
Proof.
  intros Hpc. unfold outage_measure, waiting. rewrite Hpc. unfold take_queued, try_recv.
  destruct (items (queue (prod s))) as [|y rest] eqn:Hit; [|destruct why; simpl; split; try done; lia].
  destruct (cache_chunks_rest cf t s) as (Hq & Hst & Hco).
  destruct why; simpl.
  - unfold after_spill; simpl. rewrite Hst, Hq, Hit. split; [done|]. destruct (connected _); simpl; lia.
  - rewrite Hst, Hq, Hit. split; [done|]. destruct (queue_finished _); simpl; lia.
  - unfold shutdown_flush, flush_unsent. destruct t as [|y t]; [simpl; rewrite Hit; split; [done|simpl; lia]|].
    destruct (cache_batch_rest (y :: t) s) as (Hq2 & Hst2 & _).
    destruct (connected s); simpl; rewrite ?Hq2, ?Hst2, ?Hit; split; try done; simpl; lia.
Qed.

(** Each step of an outage is one nearer the end. *)
Lemma outage_step cf start s :
  inv cf start s → stop s ≠ StopIdle → pc s ≠ Done →
  ∃ s', step cf (outage_event (pc s)) s = Some s' ∧ stop s' ≠ StopIdle ∧
    (outage_measure s' < outage_measure s)%nat.
Proof.
  intros Hi Hstop Hnd. pose proof (inv_pc _ _ _ Hi) as Hp. pose proof (inv_stop _ _ _ Hi) as Hseen.
  unfold pc_ok, finishing in *. unfold outage_measure, waiting.
  destruct (pc s) as [| | |fs| |b| |b|e b|t why| |rem| |] eqn:Hpc; try done;
    unfold step, outage_event; rewrite ?Hpc.
  - destruct (report_rest s) as (Hq & Hst & Hco).
    destruct (queue_filling _ _); unfold after_spill; (eexists; split; [done|]); simpl; rewrite Hst, Hq.
    + split; [done|]. lia.
    + split; [done|]. destruct (connected _); simpl; lia.
  - eexists; split; [done|]. simpl. split; [done|lia].
  - destruct (drain_cache_rest cf s) as (Hq & Hst & Hr).
    eexists; split; [done|]. rewrite Hst, Hq. split; [done|].
    destruct Hr as [->|[? ->]]; simpl; lia.
  - unfold write_fits; simpl. eexists; split; [done|].
    destruct (drained_fields 0 fs (Err (MkWriteError 0 (Failed "reset"))) s)
      as (_ & -> & -> & _ & -> & _). split; [done|]. simpl. lia.
  - unfold receive, batch_ready, queue_finished, try_recv; simpl.
    destruct (stop s) eqn:Hs; try done; simpl; destruct (items (queue (prod s))) as [|y rest] eqn:Hit; simpl.
    all: try (rewrite (Hseen eq_refl); simpl).
    all: eexists; split; [done|]; simpl; rewrite ?Hit, ?Hs; split; try done; simpl; lia.
  - unfold fill, batch_ready, try_recv. destruct Hp as (_ & _ & Hne). destruct b as [|y b]; [done|].
    destruct (_ <? _)%nat; [destruct (items (queue (prod s))) as [|z rest] eqn:Hit|];
      (eexists; split; [done|]); simpl; rewrite ?Hit; split; try done; simpl; lia.
  - eexists; split; [done|]. simpl. split; [done|lia].
  - unfold write_fits; simpl. eexists; split; [done|]. simpl. split; [done|lia].
  - eexists; split; [done|]. destruct (failed_rest e b s) as [-> ->]. split; [done|].
    unfold failed. destruct e; simpl; lia.
  - eexists; split; [done|]. destruct (take_queued_nearer cf t why s Hpc) as [-> Hm]. split; [done|].
    unfold outage_measure, waiting in Hm. by rewrite Hpc in Hm.
  - destruct Hp as [_ Hop]. unfold wait_stopped. destruct (stop s) eqn:Hs; try done; simpl.
    + eexists; split; [done|]. simpl. split; [done|lia].
    + by rewrite (Hseen eq_refl) in Hop.
    + eexists; split; [done|]. simpl. split; [done|lia].
  - eexists; split; [done|]. simpl. split; [done|lia].
Qed.

Lemma run_outage_done cf start n s :
  (0 < batch_size cf)%nat → inv cf start s → stop s ≠ StopIdle → (outage_measure s ≤ n)%nat →
  ∃ s', run_outage cf n s = Some s' ∧ pc s' = Done ∧ inv cf start s'.
Proof.
  intros Hn. revert s. induction n as [|n IH]; intros s Hi Hstop Hm.
  - exists s. assert (Hd : pc s = Done).
    { unfold outage_measure in Hm. destruct (pc s) as [| | | | | | | |[]|? []| | | |]; simpl in Hm; done || lia. }
    simpl. by rewrite Hd.
  - destruct (decide (pc s = Done)) as [Hd|Hd]; [exists s; simpl; by rewrite Hd|].
    destruct (outage_step cf start s Hi Hstop Hd) as (s1 & Hs1 & Hstop1 & Hlt).
    destruct (IH s1) as (s' & Hrun & Hdone & Hi'); [|done|lia|].
    { eapply step_inv; [done| |exact Hi|exact Hs1]. by destruct (pc s). }
    exists s'. split; [|done]. cbn [run_outage]. revert Hs1 Hd.
    destruct (pc s); intros Hs1 Hd; rewrite ?Hs1; done.
Qed.

(** C28: a stop during an outage ends. From any state a run can reach, once the
    stop was signalled and with the gateway refusing everything, the worker is
    done within thirteen steps and one for each queued frame, with every frame
    stored, on disk or counted dropped: it does not wait out its backoff or retry. *)
Theorem shutdown_in_outage_ends size pct qsize evs (c : C) s :
  cache_ok c → forallb event_ok evs = true →
  steps (conf_of size pct) evs (channel c qsize) = Some s → stop s ≠ StopIdle →
  ∃ s', run_outage (conf_of size pct) (13 + length (waiting s)) s = Some s' ∧ pc s' = Done ∧
    waiting s' = [] ∧
    stored (ghost s') ++ lost (ghost s') ++ samples_of (cache s')
      ≡ₚ samples_of c ++ accepted (ghost s') ++ resent (ghost s').
Proof.
  intros Hc He Hs Hstop. pose proof (reachable_inv _ _ _ _ _ _ Hc He Hs) as Hi.
  destruct (run_outage_done (conf_of size pct) _ (13 + length (waiting s)) s ltac:(simpl; lia) Hi Hstop)
    as (s' & Hrun & Hd & Hi').
  { unfold outage_measure. destruct (pc s) as [| | | | | | | |[]|? []| | | |]; simpl; lia. }
  exists s'. split; [done|]. split; [done|].
  pose proof (inv_pc _ _ _ Hi') as Hp. pose proof (inv_balance _ _ _ Hi') as Hb.
  unfold pc_ok, held in *. rewrite Hd in *. destruct Hp as [_ Hw]. split; [done|].
  rewrite Hw in Hb. by rewrite !app_nil_r in Hb.
Qed.

(** ** The counters *)

(** What the operator is shown, against what happened. *)
Definition tallied (s : State C) : Prop :=
  written (counters (prod s)) = Z.of_nat (length (stored (ghost s))) mod u64_modulus ∧
  enqueued (counters (prod s)) = Z.of_nat (length (accepted (ghost s))) mod u64_modulus.

Definition same_tally (s s' : State C) : Prop :=
  written (counters (prod s')) = written (counters (prod s)) ∧
  enqueued (counters (prod s')) = enqueued (counters (prod s)) ∧
  stored (ghost s') = stored (ghost s) ∧ accepted (ghost s') = accepted (ghost s).

Lemma tallied_same s s' : same_tally s s' → tallied s → tallied s'.
Proof. unfold tallied. by intros (-> & -> & -> & ->). Qed.

Lemma same_tally_trans s1 s2 s3 : same_tally s1 s2 → same_tally s2 s3 → same_tally s1 s3.
Proof. unfold same_tally. intuition congruence. Qed.

Lemma cache_batch_tally b s : same_tally s (cache_batch b s).
Proof.
  unfold cache_batch. destruct (is_full (cache s)); [done|].
  by destruct (append b (cache s)) as [[] c].
Qed.

Lemma cache_chunks_tally cf b s : same_tally s (cache_chunks cf b s).
Proof.
  unfold cache_chunks. revert s. induction (chunks _ b) as [|k ks IH]; intros s; [done|]. simpl.
  eapply same_tally_trans; [apply cache_batch_tally|apply IH].
Qed.

Lemma add_mod a n k : a = Z.of_nat n mod u64_modulus →
  add a (Z.of_nat k) = Z.of_nat (n + k) mod u64_modulus.
Proof. intros ->. unfold add. rewrite Nat2Z.inj_add. apply Zplus_mod_idemp_l. Qed.

(** Frames the sink took, counted as they are recorded. *)
Lemma written_tally now l n s :
  length l = n → tallied s → tallied (written_frames now n (ghost_stored l s)).
Proof.
  intros <- [Hw He]. unfold tallied, written_frames; simpl. rewrite length_app.
  destruct (0 <? length l)%nat; simpl; (split; [by apply add_mod|done]).
Qed.

Lemma enqueue_tally now x s : tallied s → ∀ cf s', step cf (Frame now x) s = Some s' → tallied s'.
Proof.
  intros [Hw He] cf s' [= <-]. unfold tallied, enqueue, try_send.
  destruct (q_closed _); [done|]. destruct (_ <? _)%nat; simpl.
  - unfold warn_thresholds; simpl.
    destruct (_ =? _); simpl; (split; [done|]); rewrite length_app; by apply (add_mod _ _ 1).
  - unfold log_queue_full; simpl. destruct (negb _); [done|].
    by destruct (match last_full_log (prod s) with Some t => _ | None => _ end).
Qed.

Lemma drained_tally now frames r s :
  write_fits (length frames) r = true → tallied s → tallied (drained now frames r s).
Proof.
  intros Hf Ht. apply Nat.leb_le in Hf. unfold drained.
  set (n := delivered_of (length frames) r) in *.
  assert (Hl : length (sample <$> take n frames) = n) by (rewrite length_fmap, length_take; lia).
  pose proof (written_tally now _ n s Hl Ht) as Hw.
  destruct (remove (take n frames) (cache s)) as [[u|e] c]; destruct r; exact Hw.
Qed.

Lemma wrote_tally now b r s :
  write_fits (length b) r = true → tallied s → tallied (wrote now b r s).
Proof.
  intros Hf Ht. apply Nat.leb_le in Hf. unfold wrote. set (n := delivered_of (length b) r) in *.
  assert (Hl : length (take n b) = n) by (rewrite length_take; lia).
  pose proof (written_tally now _ n s Hl Ht) as Hw. destruct r; exact Hw.
Qed.

Lemma flush_unsent_tally l s : same_tally s (flush_unsent l s).
Proof. unfold flush_unsent. destruct l; [done|]. apply cache_batch_tally. Qed.

Lemma flushed_tally b r s :
  write_fits (length b) r = true → tallied s → tallied (flushed b r s).
Proof.
  intros Hf [Hw He]. apply Nat.leb_le in Hf. unfold flushed.
  set (n := delivered_of (length b) r) in *.
  assert (Hl : length (take n b) = n) by (rewrite length_take; lia).
  eapply tallied_same; [apply flush_unsent_tally|]. unfold tallied.
  destruct (Nat.ltb_spec 0 n) as [Hn|Hn]; simpl; rewrite length_app, Hl.
  - split; [by apply add_mod|done].
  - replace n with 0%nat by lia. by rewrite Nat.add_0_r.
Qed.

Lemma work_tally cf s s' : step cf Work s = Some s' → same_tally s s'.
Proof.
  intros Hs. unfold step in Hs. destruct (pc s) eqn:Hpc; try done.
  - injection Hs as <-. unfold report, after_spill. destruct (count (cache s)) as [r c]. simpl.
    by destruct (queue_filling _ _).
  - injection Hs as <-. unfold drain_cache. destruct (count (cache s)) as [r c]. simpl.
    destruct (negb _ && _); [done|]. destruct (oldest _ c) as [[[|]|] ?]; [|done..].
    by destruct (draining_cache _).
  - unfold receive, try_recv in Hs. simpl in Hs. destruct (stop_ready (stop s)), (items _);
      try destruct (q_closed _); try done; by injection Hs as <-.
  - injection Hs as <-. unfold fill, try_recv, batch_ready.
    destruct (_ <? _)%nat; [destruct (items _)|]; try done; by destruct batch.
  - injection Hs as <-. unfold take_queued, try_recv. destruct (items _); [|done]. destruct why.
    + apply cache_chunks_tally.
    + apply cache_chunks_tally.
    + unfold shutdown_flush. destruct taken; [done|]. destruct (connected s); [done|].
      apply flush_unsent_tally.
  - unfold wait_stopped in Hs. destruct (stop_ready (stop s)); [|done]. by injection Hs as <-.
Qed.

Lemma step_tally cf ev s s' : tallied s → step cf ev s = Some s' → tallied s'.
Proof.
  intros Ht Hs. destruct ev as [now x| | | |r|now r|r| | |].
  - by eapply enqueue_tally.
  - unfold step in Hs. destruct (stop s); [|done..]. by injection Hs as <-.
  - by injection Hs as <-.
  - eapply tallied_same; [by eapply work_tally|done].
  - unfold step in Hs. destruct r, (pc s); try done; by injection Hs as <-.
  - unfold step in Hs. destruct (pc s) as [| | |fs| |b| |b|e b|t why| |rem| |]; try done;
      [destruct (write_fits (length fs) r) eqn:Hf|destruct (write_fits (length b) r) eqn:Hf|
       destruct (write_fits (length rem) r) eqn:Hf]; try done; injection Hs as <-.
    + by apply drained_tally.
    + by apply wrote_tally.
    + by apply flushed_tally.
  - unfold step in Hs. destruct r, (pc s); try done; by injection Hs as <-.
  - unfold step in Hs. destruct (pc s); try done; injection Hs as <-; [|done].
    unfold failed. eapply tallied_same; [|exact Ht]. destruct batch; [done|].
    apply (same_tally_trans _ (set_link false (sink_down s || negb match e with Closed _ => true | _ => false end) s));
      [done|apply cache_batch_tally].
  - unfold step in Hs. destruct (pc s); try done. destruct (_ || _); [done|].
    destruct (items _); [|done]. by injection Hs as <-.
  - unfold step in Hs. destruct (pc s); try done. destruct (stop_ready _); [done|]. by injection Hs as <-.
Qed.

(** The counters tell the truth: in every run, [written] is the number of
    frames the sink stored and [enqueued] the number the queue accepted, each
    modulo the width of the counter. *)
Theorem counters_true size pct qsize evs (c : C) s :
  steps (conf_of size pct) evs (channel c qsize) = Some s →
  written (counters (prod s)) = Z.of_nat (length (stored (ghost s))) mod u64_modulus ∧
  enqueued (counters (prod s)) = Z.of_nat (length (accepted (ghost s))) mod u64_modulus.
Proof.
  intros Hs. change (tallied s). revert Hs. generalize (conf_of size pct) as cf. intros cf.
  assert (H1' : tallied (channel c qsize)) by done. revert H1'.
  generalize (channel c qsize). induction evs as [|ev evs IH]; intros s0 Ht Hs; [by simplify_eq/=|].
  cbn [steps] in Hs. destruct (step cf ev s0) as [s1|] eqn:He; [|done].
  apply (IH s1); [by eapply step_tally|done].
Qed.
End Invariant.

(** ** The spill threshold *)

(** The floating-point test for moving the queue to disk is the exact
    integer one: it fires when [size] frames of [cap] are at least
    [queue_flush_pct] percent, never with a percentage of zero, for every
    percentage a byte holds and any capacity up to 2^40. *)
Theorem queue_filling_exact (size : nat) (pct : Z) (q : Queue) :
  is_u8 pct → (0 < max_capacity q)%nat → (length (items q) ≤ max_capacity q)%nat →
  Z.of_nat (max_capacity q) ≤ 2 ^ 40 →
  queue_filling (conf_of size pct) q =
    (0 <? pct) && (pct * Z.of_nat (max_capacity q) <=? 100 * Z.of_nat (length (items q))).
Proof.
  unfold is_u8. intros Hp Hcap Hlen Hbig. unfold queue_filling, conf_of, depth. cbn [flush_threshold].
  set (n := Z.of_nat (length (items q))). set (d := Z.of_nat (max_capacity q)) in *.
  destruct (decide (pct = 0)) as [->|Hnz]; [reflexivity|].
  rewrite (div_of_Z pct 100) by lia.
  assert (Hz : f64_ge (F64 0 0) (of_ratio pct 100) = false).
  { change (F64 0 0) with (of_ratio 0 1). rewrite of_ratio_ge by lia.
    apply Z.leb_gt. lia. }
  rewrite Hz. destruct (Z.ltb_spec 0 pct); [|lia]. simpl andb.
  assert (Hdiv : f64_div (of_Z n) (of_Z d) = of_ratio n d).
  { destruct (decide (n = 0)) as [->|]; [|apply div_of_Z; lia].
    change (of_Z 0) with (F64 0 0). unfold f64_div, of_ratio; cbn [mant expo].
    by rewrite Z.mul_0_r. }
  rewrite Hdiv, of_ratio_ge by nia. f_equal. lia.
Qed.

(** ** Runs *)

Import (hints) Wire.Packed CacheFifo.Disk.

Lemma fresh_ok : sqlite_ok fresh.
Proof. apply (sqlite_ok_intro fresh []); [vm_compute; reflexivity..|constructor|vm_compute; reflexivity]. Qed.

(** The gateway is away: a frame is spilled to disk; it comes back: the frame is
    drained, ahead of one that arrived since; then a stop. *)
Definition outage_run : list event :=
  [Frame 0 sample_frame; Work; Connected (Err (Failed "refused")); SinkClosed; Work; Work;
   Frame 1 modbus_frame; Backoff; Work; Connected (Ok ()); Work; Wrote 2 (Ok ()); Work; Work; Work; Work;
   Wrote 3 (Ok ())].

Lemma no_frame_unaccounted_witness :
  ∃ s : State CacheState, steps (conf_of 1 50) outage_run (channel fresh 10) = Some s ∧
    stored (ghost s) ++ lost (ghost s) ++ samples_of (cache s) ++ in_hand (pc s) ++ waiting s
      ≡ₚ samples_of fresh ++ accepted (ghost s) ++ resent (ghost s).
Proof.
  eexists. split; [vm_compute; reflexivity|].
  apply (no_frame_unaccounted 1 50 10 outage_run fresh); [exact fresh_ok|vm_compute; reflexivity..].
Defined.

Lemma frames_in_order_witness :
  ∃ s : State CacheState, steps (conf_of 1 50) outage_run (channel fresh 10) = Some s ∧
    stored (ghost s) = [sample_frame; modbus_frame] ∧
    sublist (stored (ghost s) ++ samples_of (cache s) ++ in_hand (pc s) ++ waiting s)
      (samples_of fresh ++ accepted (ghost s)).
Proof.
  eexists. split; [vm_compute; reflexivity|]. split; [vm_compute; reflexivity|].
  apply (frames_in_order 1 50 10 outage_run fresh); [exact fresh_ok|vm_compute; reflexivity..].
Defined.

Definition stopped_run : list event := outage_run ++ [Work; Work; StopSignal; Work; Work; SinkClosed].

Lemma nothing_left_in_memory_witness :
  ∃ s : State CacheState, steps (conf_of 1 50) stopped_run (channel fresh 10) = Some s ∧
    pc s = Done ∧ waiting s = [].
Proof.
  eexists. split; [vm_compute; reflexivity|]. split; [reflexivity|].
  eapply (nothing_left_in_memory 1 50 10 stopped_run fresh);
    [exact fresh_ok|vm_compute; reflexivity..].
Defined.

Lemma shutdown_in_outage_ends_witness :
  ∃ s s' : State CacheState,
    steps (conf_of 1 50) (outage_run ++ [StopSignal; Frame 9 sample_frame]) (channel fresh 10) = Some s ∧
    run_outage (conf_of 1 50) (13 + length (waiting s)) s = Some s' ∧ pc s' = Done.
Proof.
  eexists.
  edestruct (shutdown_in_outage_ends 1 50 10 (outage_run ++ [StopSignal; Frame 9 sample_frame]) fresh)
    as (s' & Hr & Hd & _); [exact fresh_ok|vm_compute; reflexivity|vm_compute; reflexivity|done|].
  exists s'. split; [vm_compute; reflexivity|]. split; [exact Hr|exact Hd].
Defined.

Lemma counters_true_witness :
  ∃ s : State CacheState, steps (conf_of 1 50) outage_run (channel fresh 10) = Some s ∧
    written (counters (prod s)) = 2.
Proof.
  eexists. split; [vm_compute; reflexivity|].
  pose proof (counters_true 1 50 10 outage_run fresh) as Hc.
  etransitivity; [apply Hc; vm_compute; reflexivity|]. vm_compute. reflexivity.
Defined.

Lemma queue_filling_exact_witness :
  queue_filling (conf_of 500 50) (MkQueue [sample_frame] 2 false) = true.
Proof.
  rewrite (queue_filling_exact 500 50 (MkQueue [sample_frame] 2 false));
    [reflexivity|unfold is_u8; lia|simpl; lia..].
Defined.
