(* ===== verification/Cidr.v ===== *)
(** * CIDR ranges ([cidr.rs])

    The GVRET listener's allow list: addresses and ranges, parsed as the standard
    library parses them and matched bit by bit. *)

From S2P Require Import Prelude.
From Stdlib Require Import Ascii.
Local Open Scope Z_scope.

(** ** Addresses *)

(** [IpAddr]: an address as its bits. *)
Inductive IpAddr := V4 (bits : Z) | V6 (bits : Z).

#[global] Instance IpAddr_eq_dec : EqDecision IpAddr.
Proof. solve_decision. Defined.

Definition is_ipv4 (a : IpAddr) : bool := match a with V4 _ => true | V6 _ => false end.

Definition addr_ok (a : IpAddr) : Prop :=
  match a with V4 b => 0 ≤ b < 2 ^ 32 | V6 b => 0 ≤ b < 2 ^ 128 end.

(** [Ipv6Addr::to_ipv4_mapped]: the address of [::ffff:a.b.c.d]. *)
Definition to_ipv4_mapped (b : Z) : option Z :=
  if b / 2 ^ 32 =? 0xFFFF then Some (b mod 2 ^ 32) else None.

(** [IpAddr::to_canonical]. *)
Definition to_canonical (a : IpAddr) : IpAddr :=
  match a with
  | V4 _ => a
  | V6 b => match to_ipv4_mapped b with Some v => V4 v | None => a end
  end.

(** ** [core::net::parser]

    A reader takes a prefix of the text, or nothing. *)

Definition reader (A : Type) : Type := string → option (A * string).

Definition read_given_char (c : ascii) : reader () := λ s,
  match s with
  | String d rest => if bool_decide (d = c) then Some ((), rest) else None
  | EmptyString => None
  end.

Definition to_digit (radix : Z) (c : ascii) : option Z :=
  let n := Z.of_nat (nat_of_ascii c) in
  let d := if (48 <=? n) && (n <=? 57) then Some (n - 48)
           else if (97 <=? n) && (n <=? 122) then Some (n - 87)
           else if (65 <=? n) && (n <=? 90) then Some (n - 55)
           else None in
  match d with Some d => if d <? radix then Some d else None | None => None end.

(** The digits at the front of the text. *)
Fixpoint span_digits (radix : Z) (s : string) : list Z * string :=
  match s with
  | EmptyString => ([], s)
  | String c rest =>
      match to_digit radix c with
      | Some d => let '(ds, tail) := span_digits radix rest in (d :: ds, tail)
      | None => ([], s)
      end
  end.

(** [read_number]: at most [max_digits] digits, at most [limit], and no leading
    zero unless allowed. *)
Definition read_number (radix : Z) (max_digits : nat) (limit : Z) (allow_zero_prefix : bool) : reader Z := λ s,
  let '(ds, rest) := span_digits radix s in
  let n := foldl (λ n d, n * radix + d) 0 ds in
  match ds with
  | [] => None
  | d :: more =>
      if (max_digits <? length ds)%nat then None
      else if limit <? n then None
      else if negb allow_zero_prefix && (d =? 0) && negb (match more with [] => true | _ => false end) then None
      else Some (n, rest)
  end.

Definition read_separator {A} (sep : ascii) (index : nat) (inner : reader A) : reader A := λ s,
  match index with
  | O => inner s
  | S _ => match read_given_char sep s with Some (_, rest) => inner rest | None => None end
  end.

Definition read_octet : reader Z := read_number 10 3 255 false.

Definition read_ipv4 : reader Z := λ s,
  match read_separator "." 0 read_octet s with
  | None => None
  | Some (a, s) =>
  match read_separator "." 1 read_octet s with
  | None => None
  | Some (b, s) =>
  match read_separator "." 2 read_octet s with
  | None => None
  | Some (c, s) =>
  match read_separator "." 3 read_octet s with
  | None => None
  | Some (d, s) => Some (((a * 256 + b) * 256 + c) * 256 + d, s)
  end end end end.

Definition read_group : reader Z := read_number 16 4 0xFFFF true.

(** [read_groups]: the groups read from index [i] up to [limit], whether they end
    in an embedded IPv4 address, and the rest. *)
Fixpoint read_groups (fuel i limit : nat) (s : string) : list Z * bool * string :=
  match fuel with
  | O => ([], false, s)
  | S fuel =>
      let embedded := if (i <? limit - 1)%nat then read_separator ":" i read_ipv4 s else None in
      match embedded with
      | Some (v, rest) => ([v / 2 ^ 16; v mod 2 ^ 16], true, rest)
      | None =>
          match read_separator ":" i read_group s with
          | Some (g, rest) =>
              let '(gs, v4, rest) := read_groups fuel (S i) limit rest in (g :: gs, v4, rest)
          | None => ([], false, s)
          end
      end
  end.

Definition of_groups (gs : list Z) : Z := foldl (λ n g, n * 2 ^ 16 + g) 0 gs.

Definition read_ipv6 : reader Z := λ s,
  let '(head, head_v4, s) := read_groups 8 0 8 s in
  if (length head =? 8)%nat then Some (of_groups head, s)
  else if head_v4 then None
  else
    match read_given_char ":" s with
    | None => None
    | Some (_, s) =>
    match read_given_char ":" s with
    | None => None
    | Some (_, s) =>
        let limit := (8 - (length head + 1))%nat in
        let '(tail, _, s) := read_groups limit 0 limit s in
        Some (of_groups (head ++ replicate (8 - length head - length tail) 0 ++ tail), s)
    end end.

(** [IpAddr::from_str]: all of the text. *)
Definition parse_ip (s : string) : option IpAddr :=
  match (match read_ipv4 s with
         | Some (b, rest) => Some (V4 b, rest)
         | None => match read_ipv6 s with Some (b, rest) => Some (V6 b, rest) | None => None end
         end) with
  | Some (a, EmptyString) => Some a
  | _ => None
  end.

(** [from_str] of an unsigned integer of that maximum: an optional sign, then
    digits that fit. *)
Definition parse_uint (max : Z) (s : string) : option Z :=
  let s := match s with String "+" (String c rest) => String c rest | _ => s end in
  let '(ds, rest) := span_digits 10 s in
  match ds, rest with
  | _ :: _, EmptyString =>
      let n := foldl (λ n d, n * 10 + d) 0 ds in if n <=? max then Some n else None
  | _, _ => None
  end.
Definition parse_u8 : string → option Z := parse_uint u8_max.

(** ** [Cidr] *)

Record Cidr := MkCidr { network : IpAddr; prefix : Z }.

#[global] Instance Cidr_eq_dec : EqDecision Cidr.
Proof. solve_decision. Defined.

Definition LOOPBACK : list Cidr := [MkCidr (V4 (127 * 2 ^ 24)) 8; MkCidr (V6 1) 128].

Definition bits (a : IpAddr) : Z * Z := match a with V4 b => (b, 32) | V6 b => (b, 128) end.

(** [checked_shr] is [None] from 128 on. *)
Definition network_bits (b width prefix : Z) : Z :=
  let host := width - prefix in
  if host <? 128 then Z.shiftl (Z.shiftr b host) host mod 2 ^ 128 else 0.

Definition contains (c : Cidr) (peer : IpAddr) : bool :=
  let peer := to_canonical peer in
  let '(peer_bits, width) := bits peer in
  let '(net, _) := bits (network c) in
  Bool.eqb (is_ipv4 peer) (is_ipv4 (network c)) && (network_bits peer_bits width (prefix c) =? net).

Inductive CidrError :=
  | NotAnAddress (s : string)
  | Ipv4Mapped (s : string)
  | BadPrefix (s : string) (width : Z)
  | HostBits (s : string) (network : Cidr).

(** [IpAddr]'s [Display]: an IPv6 address with its first longest run of zero
    groups, where it is longer than one, as [::]. *)
Definition ipv4_str (b : Z) : string :=
  str_join "." (pretty <$> [b / 2 ^ 24 mod 2 ^ 8; b / 2 ^ 16 mod 2 ^ 8; b / 2 ^ 8 mod 2 ^ 8; b mod 2 ^ 8]).

Definition segments (b : Z) : list Z := (λ i, b / 2 ^ (16 * i) mod 2 ^ 16) <$> [7; 6; 5; 4; 3; 2; 1; 0].

(** Spans are a start and a length. *)
Fixpoint longest_zeros (i : nat) (current longest : nat * nat) (gs : list Z) : nat * nat :=
  match gs with
  | [] => longest
  | g :: gs =>
      if g =? 0 then
        let start := if (current.2 =? 0)%nat then i else current.1 in
        let current := (start, S current.2) in
        longest_zeros (S i) current (if (longest.2 <? current.2)%nat then current else longest) gs
      else longest_zeros (S i) (0%nat, 0%nat) longest gs
  end.

Definition ipv6_str (b : Z) : string :=
  match to_ipv4_mapped b with
  | Some v => "::ffff:" +:+ ipv4_str v
  | None =>
      let gs := segments b in
      let '(start, len) := longest_zeros 0 (0%nat, 0%nat) (0%nat, 0%nat) gs in
      if (1 <? len)%nat
      then str_join ":" (hex_str <$> take start gs) +:+ "::" +:+ str_join ":" (hex_str <$> drop (start + len) gs)
      else str_join ":" (hex_str <$> gs)
  end.

Definition ip_str (a : IpAddr) : string := match a with V4 b => ipv4_str b | V6 b => ipv6_str b end.

(** [Cidr]'s [Display]. *)
Definition cidr_str (c : Cidr) : string := ip_str (network c) +:+ "/" +:+ pretty (prefix c).

Example cidr_str_loopback : cidr_str <$> LOOPBACK = ["127.0.0.0/8"; "::1/128"].
Proof. vm_compute. reflexivity. Qed.
Example cidr_str_groups : ip_str (V6 (0x20010DB8 * 2 ^ 96 + 2 ^ 64 + 0xA)) = "2001:db8:0:1::a".
Proof. vm_compute. reflexivity. Qed.

(** The messages of [from_str]. *)
Definition cidr_error_str (e : CidrError) : string :=
  match e with
  | NotAnAddress s => debug_str s +:+ " is not an IP address or CIDR range"
  | Ipv4Mapped s => debug_str s +:+ " is IPv4-mapped; write it as IPv4"
  | BadPrefix s width => debug_str s +:+ ": the prefix must be 0 to " +:+ pretty width
  | HostBits s net => debug_str s +:+ " has host bits set; the network is " +:+ cidr_str net
  end.

(** [str::split_once]. *)
Fixpoint split_once (c : ascii) (s : string) : option (string * string) :=
  match s with
  | EmptyString => None
  | String d rest =>
      if bool_decide (d = c) then Some (EmptyString, rest)
      else match split_once c rest with Some (a, b) => Some (String d a, b) | None => None end
  end.

Definition from_str (s : string) : result CidrError Cidr :=
  let '(addr, p) := match split_once "/" s with Some (a, p) => (a, Some p) | None => (s, None) end in
  net <-? ok_or (parse_ip addr) (NotAnAddress s) ;;
  if match net with V6 b => bool_decide (is_Some (to_ipv4_mapped b)) | V4 _ => false end
  then Err (Ipv4Mapped s)
  else
    let '(b, width) := bits net in
    pre <-? match p with
            | None => Ok width
            | Some p =>
                ok_or (match parse_u8 p with
                       | Some p => if p <=? width then Some p else None
                       | None => None
                       end) (BadPrefix s width)
            end ;;
    let masked := network_bits b width pre in
    if negb (masked =? b)
    then Err (HostBits s (MkCidr (match net with V4 _ => V4 (masked mod 2 ^ 32) | V6 _ => V6 masked end) pre))
    else Ok (MkCidr net pre).

(** ** What parses is an address *)

Lemma to_digit_range radix c d : to_digit radix c = Some d → 0 ≤ d < radix.
Proof.
  unfold to_digit. generalize (Z.of_nat (nat_of_ascii c)). intros n.
  destruct ((48 <=? n) && (n <=? 57)) eqn:H1; [|destruct ((97 <=? n) && (n <=? 122)) eqn:H2;
    [|destruct ((65 <=? n) && (n <=? 90)) eqn:H3; [|done]]];
    destruct (_ <? radix) eqn:Hr; intros [= <-]; bool_prop; lia.
Qed.

Lemma span_digits_range radix s ds rest :
  span_digits radix s = (ds, rest) → Forall (λ d, 0 ≤ d < radix) ds.
Proof.
  revert ds rest. induction s as [|c s IH]; intros ds rest; cbn [span_digits]; [by intros [= <- <-]|].
  destruct (to_digit radix c) as [d|] eqn:Hd; [|by intros [= <- <-]].
  destruct (span_digits radix s) as [ds' tail]. intros [= <- <-]. constructor; [|by eapply IH].
  by eapply to_digit_range.
Qed.

Lemma digits_nonneg radix ds : ∀ n,
  0 ≤ radix → 0 ≤ n → Forall (λ d, 0 ≤ d < radix) ds → 0 ≤ foldl (λ n d, n * radix + d) n ds.
Proof.
  induction ds as [|d ds IH]; intros n Hr Hn Hds; [done|].
  apply Forall_cons in Hds as [Hd Hds]. cbn. apply IH; [done| |done]. nia.
Qed.

Lemma read_number_range radix k limit z s n rest :
  0 ≤ radix → read_number radix k limit z s = Some (n, rest) → 0 ≤ n ≤ limit.
Proof.
  intros Hr. unfold read_number. destruct (span_digits radix s) as [ds tail] eqn:Hs.
  pose proof (digits_nonneg radix ds 0 Hr ltac:(lia) (span_digits_range _ _ _ _ Hs)) as Hnn.
  revert Hnn. generalize (foldl (λ n d, n * radix + d) 0 ds). intros v Hnn.
  destruct ds as [|d more]; [done|]. destruct (_ <? _)%nat; [done|].
  destruct (Z.ltb_spec limit v); [done|]. destruct (_ && _); [done|]. intros [= <- <-]. lia.
Qed.

Lemma read_separator_inv {A} sep i (inner : reader A) (P : A → Prop) s a rest :
  (∀ s a rest, inner s = Some (a, rest) → P a) → read_separator sep i inner s = Some (a, rest) → P a.
Proof.
  intros Hi. unfold read_separator. destruct i; [apply Hi|].
  destruct (read_given_char sep s) as [[u r]|]; [apply Hi|done].
Qed.

Lemma read_ipv4_range s b rest : read_ipv4 s = Some (b, rest) → 0 ≤ b < 2 ^ 32.
Proof.
  unfold read_ipv4.
  assert (Ho : ∀ i s x rest, read_separator "." i read_octet s = Some (x, rest) → 0 ≤ x ≤ 255).
  { intros i s' x r. apply (read_separator_inv "." i read_octet (λ x, 0 ≤ x ≤ 255)).
    intros ???. by apply read_number_range. }
  destruct (read_separator "." 0 read_octet s) as [[x1 s1]|] eqn:H1; [|done].
  destruct (read_separator "." 1 read_octet s1) as [[x2 s2]|] eqn:H2; [|done].
  destruct (read_separator "." 2 read_octet s2) as [[x3 s3]|] eqn:H3; [|done].
  destruct (read_separator "." 3 read_octet s3) as [[x4 s4]|] eqn:H4; [|done].
  apply Ho in H1, H2, H3, H4. intros [= <- <-]. lia.
Qed.

Lemma read_groups_range fuel : ∀ i limit s gs v4 rest,
  (i + fuel = limit)%nat → read_groups fuel i limit s = (gs, v4, rest) →
  Forall (λ g, 0 ≤ g < 2 ^ 16) gs ∧ (length gs ≤ fuel)%nat.
Proof.
  induction fuel as [|fuel IH]; intros i limit s gs v4 rest Hl; cbn [read_groups]; [by intros [= <- <- <-]|].
  destruct (if (i <? limit - 1)%nat then _ else _) as [[v r]|] eqn:He.
  { destruct (Nat.ltb_spec i (limit - 1)); [|done]. intros [= <- <- <-].
    apply (read_separator_inv ":" i read_ipv4 (λ b, 0 ≤ b < 2 ^ 32)) in He; [|apply read_ipv4_range].
    split; [|cbn; lia]. repeat constructor; try apply Z.mod_pos_bound; try apply Z.div_pos; try lia.
    apply Z.div_lt_upper_bound; lia. }
  destruct (read_separator ":" i read_group s) as [[g r]|] eqn:Hg; [|intros [= <- <- <-]; by split; [|cbn; lia]].
  apply (read_separator_inv ":" i read_group (λ g, 0 ≤ g ≤ 0xFFFF)) in Hg;
    [|intros ???; by apply read_number_range].
  destruct (read_groups fuel (S i) limit r) as [[gs' v4'] r'] eqn:Hr. intros [= <- <- <-].
  destruct (IH (S i) limit r gs' v4' r' ltac:(lia) Hr) as [Hgs Hlen]. split; [|cbn; lia].
  constructor; [lia|done].
Qed.

Lemma of_groups_range gs :
  Forall (λ g, 0 ≤ g < 2 ^ 16) gs → 0 ≤ of_groups gs < 2 ^ (16 * Z.of_nat (length gs)).
Proof.
  unfold of_groups. induction gs as [|g gs IH] using rev_ind; intros Hgs; [done|].
  apply Forall_app in Hgs as [Hgs [Hg _]%Forall_cons]. specialize (IH Hgs).
  rewrite foldl_app, length_app. cbn [foldl length].
  replace (16 * Z.of_nat (length gs + 1)) with (16 * Z.of_nat (length gs) + 16) by lia.
  rewrite Z.pow_add_r by lia. nia.
Qed.

Lemma parse_ip_ok s a : parse_ip s = Some a → addr_ok a.
Proof.
  unfold parse_ip. destruct (read_ipv4 s) as [[b [|? ?]]|] eqn:H4; [|done|].
  { intros [= <-]. by apply read_ipv4_range in H4. }
  destruct (read_ipv6 s) as [[b [|? ?]]|] eqn:H6; [|done..]. intros [= <-]. unfold read_ipv6 in H6.
  destruct (read_groups 8 0 8 s) as [[head v4] r] eqn:Hh.
  destruct (read_groups_range 8 0 8 _ _ _ _ eq_refl Hh) as [Hgs Hlen].
  destruct (Nat.eqb_spec (length head) 8) as [H8|H8].
  { injection H6 as <- _. apply of_groups_range in Hgs. by rewrite H8 in Hgs. }
  destruct v4; [done|]. destruct (read_given_char ":" r) as [[_ r1]|]; [|done].
  destruct (read_given_char ":" r1) as [[_ r2]|]; [|done].
  destruct (read_groups _ 0 _ r2) as [[tail v4'] r3] eqn:Ht. injection H6 as <- _.
  destruct (read_groups_range _ 0 _ _ _ _ _ eq_refl Ht) as [Htl Htn].
  assert (Hall : Forall (λ g, 0 ≤ g < 2 ^ 16) (head ++ replicate (8 - length head - length tail) 0 ++ tail)).
  { apply Forall_app. split; [done|]. apply Forall_app. split; [|done]. by apply Forall_replicate. }
  apply of_groups_range in Hall. rewrite !length_app, length_replicate in Hall. cbn [addr_ok].
  replace (length head + (8 - length head - length tail + length tail))%nat with 8%nat in Hall by lia. done.
Qed.

(** ** Matching *)

Lemma network_bits_spec b width pre :
  0 ≤ b < 2 ^ width → 0 ≤ pre ≤ width → width ≤ 128 →
  network_bits b width pre = b / 2 ^ (width - pre) * 2 ^ (width - pre).
Proof.
  intros Hb Hp Hw. unfold network_bits.
  pose proof (Z.pow_pos_nonneg 2 (width - pre) ltac:(lia) ltac:(lia)) as Hpos.
  pose proof (Z.mul_div_le b (2 ^ (width - pre)) Hpos) as Hle.
  assert (Hlt : 2 ^ width ≤ 2 ^ 128) by (apply Z.pow_le_mono_r; lia).
  destruct (Z.ltb_spec (width - pre) 128).
  - rewrite Z.shiftl_mul_pow2, Z.shiftr_div_pow2 by lia. apply Z.mod_small.
    split; [|lia]. apply Z.mul_nonneg_nonneg; [apply Z.div_pos|]; lia.
  - replace (width - pre) with width by lia. rewrite Z.div_small; lia.
Qed.

(** A range as [from_str] makes it. *)
Definition cidr_ok (c : Cidr) : Prop :=
  let '(b, width) := bits (network c) in
  addr_ok (network c) ∧ 0 ≤ prefix c ≤ width ∧ network_bits b width (prefix c) = b ∧
  to_canonical (network c) = network c.

#[global] Instance addr_ok_dec a : Decision (addr_ok a).
Proof. destruct a; unfold addr_ok; apply _. Defined.
#[global] Instance cidr_ok_dec c : Decision (cidr_ok c).
Proof. unfold cidr_ok. destruct (bits (network c)). apply _. Defined.

Lemma to_canonical_ok a : addr_ok a → addr_ok (to_canonical a).
Proof.
  destruct a as [b|b]; [done|]. unfold to_canonical, to_ipv4_mapped. destruct (_ =? _); [|done].
  intros _. cbn. by apply Z.mod_pos_bound.
Qed.

Lemma mask_interval b n h : 0 ≤ h → n = n / 2 ^ h * 2 ^ h → (b / 2 ^ h * 2 ^ h = n ↔ n ≤ b < n + 2 ^ h).
Proof.
  intros Hh Hn. pose proof (Z.pow_pos_nonneg 2 h ltac:(lia) ltac:(lia)) as Hpos.
  pose proof (Z.div_mod b (2 ^ h) ltac:(lia)). pose proof (Z.mod_pos_bound b (2 ^ h) Hpos).
  split; [lia|]. intros Hb. rewrite Hn. f_equal.
  symmetry. apply (Z.div_unique b (2 ^ h) (n / 2 ^ h) (b - n)); lia.
Qed.

(** An allow-list entry admits exactly its range: a peer, an IPv4-mapped
    IPv6 one taken as its IPv4 address, matches when it is of the entry's family
    and its address lies in the interval of [2^(width - prefix)] addresses that
    starts at the network. *)
Theorem contains_interval c peer :
  cidr_ok c → addr_ok peer →
  contains c peer = true ↔
    is_ipv4 (to_canonical peer) = is_ipv4 (network c) ∧
    (bits (network c)).1 ≤ (bits (to_canonical peer)).1
      < (bits (network c)).1 + 2 ^ ((bits (network c)).2 - prefix c).
Proof.
  intros Hc Hp. pose proof (to_canonical_ok _ Hp) as Hp'. unfold contains, cidr_ok in *.
  destruct (to_canonical peer) as [b|b], (network c) as [n|n]; cbn in *;
    rewrite ?andb_false_l; try (split; [done|intros [? _]; done]);
    destruct Hc as (Hn & Hpre & Hnet & _); rewrite Z.eqb_eq;
    rewrite network_bits_spec in * by lia; rewrite <-Hnet at 2; rewrite (mask_interval b n); intuition lia.
Qed.

Lemma parse_uint_range max s n : parse_uint max s = Some n → 0 ≤ n ≤ max.
Proof.
  unfold parse_uint. destruct (span_digits 10 _) as [ds rest] eqn:Hs. apply span_digits_range in Hs.
  pose proof (digits_nonneg 10 ds 0 ltac:(lia) ltac:(lia) Hs).
  destruct ds, rest; try done. destruct (Z.leb_spec (foldl (λ n d, n * 10 + d) 0 (z :: ds)) max); [|done].
  by intros [= <-].
Qed.

(** What parses as a range is one: every entry [from_str] accepts is an
    address of its family with a prefix no longer than it, no host bit set, and
    not an IPv4-mapped address, which no peer would ever match. *)
Theorem from_str_ok s c : from_str s = Ok c → cidr_ok c.
Proof.
  unfold from_str. destruct (match split_once "/" s with Some _ => _ | None => _ end) as [addr p].
  destruct (parse_ip addr) as [net|] eqn:Hip; [|done]. cbn [ok_or]. apply parse_ip_ok in Hip.
  destruct (match net with V4 _ => _ | V6 _ => _ end) eqn:Hmap; [done|].
  destruct (bits net) as [b width] eqn:Hb.
  destruct (match p with Some _ => _ | None => _ end) as [pre|e] eqn:Hpre; [|done].
  destruct (Z.eqb_spec (network_bits b width pre) b) as [Hn|Hn]; [|done]. intros [= <-].
  assert (Hrange : 0 ≤ pre ≤ width).
  { assert (0 ≤ width) by (by destruct net; injection Hb as _ <-).
    destruct p as [p|]; [|injection Hpre as <-; lia].
    destruct (parse_u8 p) as [q|] eqn:Hq; [|done]. destruct (Z.leb_spec q width); [|done].
    injection Hpre as ->. apply parse_uint_range in Hq. lia. }
  unfold cidr_ok. cbn [network prefix]. rewrite Hb. split_and!; try done; try lia.
  destruct net as [x|x]; [done|]. cbn. apply bool_decide_eq_false in Hmap.
  destruct (to_ipv4_mapped x); [|done]. exfalso. by apply Hmap.
Qed.

Definition local_net : Cidr := MkCidr (V4 (192 * 2 ^ 24 + 168 * 2 ^ 16 + 2 ^ 8)) 24.
Definition mapped_peer : IpAddr := V6 (0xFFFF * 2 ^ 32 + 192 * 2 ^ 24 + 168 * 2 ^ 16 + 2 ^ 8 + 7).

Lemma contains_interval_witness : contains local_net mapped_peer = true.
Proof.
  apply (contains_interval local_net mapped_peer).
  - apply (bool_decide_unpack (cidr_ok local_net)). vm_compute. exact I.
  - apply (bool_decide_unpack (addr_ok mapped_peer)). vm_compute. exact I.
  - split; [reflexivity|]. split; [apply Z.leb_le|apply Z.ltb_lt]; vm_compute; reflexivity.
Defined.
Lemma from_str_ok_witness : cidr_ok local_net.
Proof. apply (from_str_ok "192.168.1.0/24"). vm_compute. reflexivity. Defined.

Example from_str_runs :
  from_str "10.1.2.3/8" = Err (HostBits "10.1.2.3/8" (MkCidr (V4 (10 * 2 ^ 24)) 8)) ∧
  from_str "fe80::/10" = Ok (MkCidr (V6 (0xFE80 * 2 ^ 112)) 10) ∧
  from_str "::ffff:10.0.0.1" = Err (Ipv4Mapped "::ffff:10.0.0.1") ∧
  from_str "::1" = Ok (MkCidr (V6 1) 128) ∧
  from_str "10.0.0.0/33" = Err (BadPrefix "10.0.0.0/33" 32) ∧
  from_str "010.0.0.1" = Err (NotAnAddress "010.0.0.1") ∧
  Forall cidr_ok LOOPBACK.
Proof.
  split_and!; [vm_compute; reflexivity..|].
  apply Forall_cons; split; [|apply Forall_cons; split; [|apply Forall_nil; exact I]];
    match goal with |- cidr_ok ?c => apply (bool_decide_unpack (cidr_ok c)); vm_compute; exact I end.
Qed.
