(* ===== verification/Catalogues.v ===== *)
(** * Which catalogue a serial line frames with ([catalogues.rs], [blob.rs])

    A line frames with the gateway's assignment, else its [/etc] catalogue, else
    none. Assignments and the blobs they name are kept in the state directory, so
    that a restart without the gateway frames as before. *)

From S2P Require Import Prelude Model.
From stdpp Require Import sorting.
From Stdlib Require Import Ascii.
Local Open Scope Z_scope.

(** ** Bytes and hashes *)

Definition byte_of_ascii (c : ascii) : Z := Z.of_nat (nat_of_ascii c).
Fixpoint bytes_of_string (s : string) : list Z :=
  match s with EmptyString => [] | String c s => byte_of_ascii c :: bytes_of_string s end.

(** [blob_sha1_hex]: the hash as hex. *)
Definition blob_sha1_hex (sha : list Z) : string := hex_encode sha.

Lemma hex_digit_slash a : 0 ≤ a < 16 → hex_digit a ≠ "/"%char.
Proof.
  intros Ha Heq. apply (f_equal nat_of_ascii) in Heq. unfold hex_digit in Heq.
  destruct (a <? 10) eqn:Ea; rewrite nat_ascii_embedding in Heq by lia; change (nat_of_ascii "/") with 47%nat in Heq; lia.
Qed.
Lemma blob_sha1_hex_relative x t :
  Forall (λ b, 0 ≤ b < 256) x → str_starts_with "/" (blob_sha1_hex x +:+ String "." t) = false.
Proof.
  destruct x as [|a x]; [done|]. intros [Ha _]%Forall_cons. unfold blob_sha1_hex. cbn [hex_encode].
  change (String ?c ?s +:+ ?u) with (String c (s +:+ u)). cbn [str_starts_with].
  rewrite bool_decide_eq_false_2; [done|]. intros Heq. symmetry in Heq. revert Heq.
  apply hex_digit_slash. split; [apply Z.div_pos|apply Z.div_lt_upper_bound]; lia.
Qed.

(** [std::str::from_utf8]: whether the bytes are well-formed UTF-8. *)
Definition utf8_cont (b : Z) : bool := (128 <=? b) && (b <? 192).
Fixpoint utf8_valid_aux (fuel : nat) (l : list Z) : bool :=
  match fuel, l with
  | _, [] => true
  | O, _ => false
  | S fuel, a :: l =>
      if a <? 128 then utf8_valid_aux fuel l
      else match l with
      | [] => false
      | b :: l1 =>
          if (194 <=? a) && (a <=? 223) then utf8_cont b && utf8_valid_aux fuel l1
          else match l1 with
          | [] => false
          | c :: l2 =>
              if (224 <=? a) && (a <=? 239) then
                (if a =? 224 then (160 <=? b) && (b <? 192)
                 else if a =? 237 then (128 <=? b) && (b <? 160) else utf8_cont b) &&
                utf8_cont c && utf8_valid_aux fuel l2
              else match l2 with
              | [] => false
              | d :: l3 =>
                  ((240 <=? a) && (a <=? 244)) &&
                  (if a =? 240 then (144 <=? b) && (b <? 192)
                   else if a =? 244 then (128 <=? b) && (b <? 144) else utf8_cont b) &&
                  utf8_cont c && utf8_cont d && utf8_valid_aux fuel l3
              end
          end
      end
  end.
Definition utf8_valid (l : list Z) : bool := utf8_valid_aux (length l) l.

Fixpoint string_of_bytes (l : list Z) : string :=
  match l with [] => EmptyString | b :: l => String (ascii_of_nat (Z.to_nat b)) (string_of_bytes l) end.
(** [String::from_utf8]. *)
Definition from_utf8 (l : list Z) : option string :=
  if utf8_valid l then Some (string_of_bytes l) else None.

(** A text's bytes give it back, and ASCII is UTF-8. *)
Lemma string_of_bytes_of s : string_of_bytes (bytes_of_string s) = s.
Proof.
  induction s as [|c s IH]; [done|]. cbn. unfold byte_of_ascii. by rewrite Nat2Z.id, ascii_nat_embedding, IH.
Qed.
Lemma ascii_utf8 s :
  str_all (λ c, (nat_of_ascii c <? 128)%nat) s = true → utf8_valid (bytes_of_string s) = true.
Proof.
  unfold utf8_valid. assert (∀ n, (length (bytes_of_string s) ≤ n)%nat →
    str_all (λ c, (nat_of_ascii c <? 128)%nat) s = true → utf8_valid_aux n (bytes_of_string s) = true) as Hall;
    [|by apply Hall].
  induction s as [|c s IH]; intros n Hn; [by destruct n|]. cbn [str_all]. rewrite andb_true_iff, Nat.ltb_lt.
  intros [Hc Hs]. destruct n as [|n]; cbn in *; [lia|]. unfold byte_of_ascii.
  rewrite (proj2 (Z.ltb_lt _ _)) by lia. apply IH; [lia|done].
Qed.

(** ** What the libraries provide *)

(** SHA-1, the catalogue parser [rtu_rules] (a name and the framing options, as
    [wslib_wiretap_catalogue] reads them), and JSON of a map of strings. *)
Class CatalogueLib := {
  sha1 : list Z → list Z;
  sha1_bytes : ∀ x, Forall (λ b, 0 ≤ b < 256) (sha1 x);
  RtuOptions : Type;
  RtuOptions_eq_dec : EqDecision RtuOptions;
  rtu_rules : list Z → result string (string * RtuOptions);
  to_json : gmap string string → list Z;
  from_json : list Z → option (gmap string string);
  json_roundtrip : ∀ m, from_json (to_json m) = Some m
}.
#[global] Existing Instance RtuOptions_eq_dec.

(** The protocol's [Refusal]. *)
Inductive Refusal := FetchFailed | HashMismatch | DidNotParse.
#[global] Instance Refusal_eq_dec : EqDecision Refusal.
Proof. solve_decision. Defined.

Definition Refused : Type := Refusal * string.
Notation Path := string.
(** The state directory's files. *)
Notation Files := (gmap string (list Z)).

(** [settings.rs] [LineCatalogue]. *)
Record LineCatalogue `{CatalogueLib} := MkLineCatalogue {
  lc_path : string;
  lc_name : string;
  lc_sha : list Z;
  lc_rtu : RtuOptions
}.

Arguments MkLineCatalogue {_}.

Section Catalogues.
Context `{CatalogueLib}.

#[global] Instance LineCatalogue_eq_dec : EqDecision LineCatalogue.
Proof. solve_decision. Defined.

Definition blob_sha1 (content : list Z) : list Z :=
  sha1 (bytes_of_string ("blob " +:+ pretty (length content)) ++ [0] ++ content).

(** [LineCatalogue::parse]. *)
Definition parse_catalogue (path : string) (text : list Z) : result string LineCatalogue :=
  parsed <-? map_err (λ e, "catalog " +:+ path +:+ ": " +:+ e) (rtu_rules text) ;;
  let '(name, options) := parsed in
  if is_empty_str name
  then Err ("catalog " +:+ path +:+ ": meta.name: Catalogue name must not be empty")
  else Ok (MkLineCatalogue path name (blob_sha1 text) options).

Inductive Rules :=
  | Gateway (sha : string) (catalogue : LineCatalogue)
  | Etc (catalogue : LineCatalogue)
  | NoRules.

#[global] Instance Rules_eq_dec : EqDecision Rules.
Proof. solve_decision. Defined.

Definition rules_catalogue (r : Rules) : option LineCatalogue :=
  match r with Gateway _ c | Etc c => Some c | NoRules => None end.

Fixpoint str_take (n : nat) (s : string) : string :=
  match n, s with
  | S n, String c s => String c (str_take n s)
  | _, _ => EmptyString
  end.

Definition rules_source (r : Rules) : string :=
  match r with
  | Gateway sha _ => "gateway " +:+ str_take 8 sha
  | Etc c => lc_path c
  | NoRules => "none"
  end.

Inductive ActiveCatalogue := Assigned_ (sha : list Z) | Local_ (sha : list Z) | ActiveNone.

Definition rules_active (r : Rules) : ActiveCatalogue :=
  match r with
  | Gateway _ c => Assigned_ (lc_sha c)
  | Etc c => Local_ (lc_sha c)
  | NoRules => ActiveNone
  end.

Inductive Update :=
  | UAssigned (sha : string) (catalogue : LineCatalogue)
  | UCleared
  | URefused (sha : list Z) (refusal : Refusal).

(** A line and its watch channel: the current value and how often it changed. *)
Record Line := MkLine {
  l_database : string;
  l_etc : option LineCatalogue;
  l_rules : Rules;
  l_ticks : nat
}.

Definition fallback (etc : option LineCatalogue) : Rules :=
  match etc with Some c => Etc c | None => NoRules end.

Record Catalogues := MkCatalogues {
  dir : option Path;
  lines : gmap string Line;
  assigned : gmap string string;
  refused : gmap string (list Z * Refusal);
  changes : nat
}.

Definition ASSIGNMENTS : string := "assignments.json".

Definition remembered (d : Path) (fs : Files) : gmap string string :=
  match fs !! path_join d ASSIGNMENTS with
  | None => ∅
  | Some json => match from_json json with Some m => m | None => ∅ end
  end.

Definition checked (sha : string) (blob : list Z) (path : Path) : result Refused LineCatalogue :=
  let actual := blob_sha1_hex (blob_sha1 blob) in
  if negb (str_eqb actual sha) then Err (HashMismatch, "its content hashes to " +:+ actual)
  else if negb (utf8_valid blob) then Err (DidNotParse, "not UTF-8")
  else map_err (λ why, (DidNotParse, why)) (parse_catalogue path blob).

Definition blob_path (c : Catalogues) (sha : string) : option Path :=
  match dir c with
  | Some d => Some (path_join (path_join d "catalogs") (sha +:+ ".toml"))
  | None => None
  end.

Definition cached (c : Catalogues) (sha : string) (fs : Files) : result string LineCatalogue :=
  path <-? ok_or (blob_path c sha) "no state directory" ;;
  blob <-? ok_or (fs !! path) (path +:+ ": not found") ;;
  map_err snd (checked sha blob path).

(** [write_atomically] replaces the file or, when [ok] is false, fails and leaves
    it. *)
Definition write_atomically (ok : bool) (path : Path) (bytes : list Z) (fs : Files) :
    result string () * Files :=
  if ok then (Ok (), <[path := bytes]> fs) else (Err (path +:+ ": write failed"), fs).

Definition store (ok : bool) (c : Catalogues) (sha : string) (blob : list Z) (fs : Files) :
    result Refused LineCatalogue * Files :=
  match blob_path c sha with
  | None => (Err (FetchFailed, "no state directory"), fs)
  | Some path =>
      match checked sha blob path with
      | Err e => (Err e, fs)
      | Ok catalogue =>
          match write_atomically ok path blob fs with
          | (Ok _, fs') => (Ok catalogue, fs')
          | (Err why, fs') => (Err (FetchFailed, why), fs')
          end
      end
  end.

Definition remembered_rules (c : Catalogues) (interface : string) (etc : option LineCatalogue)
    (fs : Files) : Rules :=
  match assigned c !! interface with
  | None => fallback etc
  | Some sha =>
      match cached c sha fs with
      | Ok catalogue => Gateway sha catalogue
      | Err _ => fallback etc
      end
  end.

Definition set_lines (ls : gmap string Line) (c : Catalogues) : Catalogues :=
  MkCatalogues (dir c) ls (assigned c) (refused c) (changes c).

(** [Catalogues::new]. *)
Definition new (d : option Path) (ls : list (string * string * option LineCatalogue)) (fs : Files) :
    Catalogues :=
  let c := MkCatalogues d ∅ (match d with Some d => remembered d fs | None => ∅ end) ∅ 0 in
  foldl (λ c '(interface, database, etc),
    set_lines (<[interface := MkLine database etc (remembered_rules c interface etc fs) 0]> (lines c)) c)
    c ls.

Definition effective (c : Catalogues) (interface : string) : option Rules :=
  l_rules <$> lines c !! interface.

(** A device of the session's [HELLO]: its bus and its name. *)
Definition status (c : Catalogues) (devices : list (Z * string)) :
    list (Z * ActiveCatalogue * option (list Z * Refusal)) :=
  (λ '(bus, name),
    (bus, match effective c name with Some r => rules_active r | None => ActiveNone end,
     refused c !! name)) <$> devices.

Definition owned_by (c : Catalogues) (database : string) : list string :=
  merge_sort String.le
    ((map_to_list (filter (λ '(_, l), l_database l = database) (lines c))).*1).

(** The body of [apply]'s loop: the maps so far, whether anything changed, and
    the lines. *)
Definition apply_one (acc : Catalogues * bool) (u : string * Update) : Catalogues * bool :=
  let '(c, changed) := acc in
  let '(interface, update) := u in
  match lines c !! interface with
  | None => (c, changed)
  | Some line =>
      let take (assigned' : gmap string string) (rules : Rules) :=
        let was_refused := bool_decide (is_Some (refused c !! interface)) in
        let modified := bool_decide (l_rules line ≠ rules) in
        let line' := MkLine (l_database line) (l_etc line) rules
          (if modified then S (l_ticks line) else l_ticks line) in
        (MkCatalogues (dir c) (<[interface := line']> (lines c)) assigned'
           (base.delete interface (refused c)) (changes c),
         changed || was_refused || modified) in
      match update with
      | UAssigned sha catalogue => take (<[interface := sha]> (assigned c)) (Gateway sha catalogue)
      | UCleared => take (base.delete interface (assigned c)) (fallback (l_etc line))
      | URefused sha refusal =>
          let now := (sha, refusal) in
          (MkCatalogues (dir c) (lines c) (assigned c) (<[interface := now]> (refused c)) (changes c),
           changed || bool_decide (refused c !! interface ≠ Some now))
      end
  end.

Definition apply (ok : bool) (updates : list (string * Update)) (c : Catalogues) (fs : Files) :
    Catalogues * Files :=
  let before := assigned c in
  let '(c1, changed) := foldl apply_one (c, false) updates in
  let c2 := if changed
    then MkCatalogues (dir c1) (lines c1) (assigned c1) (refused c1) (S (changes c1)) else c1 in
  if bool_decide (assigned c2 = before) then (c2, fs)
  else match dir c2 with
       | None => (c2, fs)
       | Some d => (c2, (write_atomically ok (path_join d ASSIGNMENTS) (to_json (assigned c2)) fs).2)
       end.

(** ** What [apply] does to one line *)

Definition rules_after (l : Line) (u : option Update) : Rules :=
  match u with
  | Some (UAssigned sha cat) => Gateway sha cat
  | Some UCleared => fallback (l_etc l)
  | _ => l_rules l
  end.
Definition assigned_after (old : option string) (u : option Update) : option string :=
  match u with
  | Some (UAssigned sha _) => Some sha
  | Some UCleared => None
  | _ => old
  end.
Definition refused_after (old : option (list Z * Refusal)) (u : option Update) :
    option (list Z * Refusal) :=
  match u with
  | Some (UAssigned _ _) | Some UCleared => None
  | Some (URefused sha r) => Some (sha, r)
  | None => old
  end.

(** One interface's view of a state. *)
Definition view (c : Catalogues) (i : string) :=
  ((λ l, (l_database l, l_etc l, l_rules l)) <$> lines c !! i, assigned c !! i, refused c !! i).

Definition view_after (c : Catalogues) (i : string) (u : option Update) :=
  match lines c !! i with
  | Some l => (Some (l_database l, l_etc l, rules_after l u),
               assigned_after (assigned c !! i) u, refused_after (refused c !! i) u)
  | None => (None, assigned c !! i, refused c !! i)
  end.

Lemma view_after_None c i : view_after c i None = view c i.
Proof. unfold view_after, view. by destruct (lines c !! i). Qed.

(** The rules or the refusal of an interface differ. *)
Definition differs (c c' : Catalogues) (i : string) : Prop :=
  effective c' i ≠ effective c i ∨ refused c' !! i ≠ refused c !! i.

Lemma effective_view c c' i : view c' i = view c i → effective c' i = effective c i.
Proof.
  unfold view, effective. intros Hv. injection Hv as Hv _ _.
  destruct (lines c !! i), (lines c' !! i); simpl in *; congruence.
Qed.
Lemma refused_view c c' i : view c' i = view c i → refused c' !! i = refused c !! i.
Proof. by intros [= _ _ ?]. Qed.

Lemma apply_one_view c b i u c' b' :
  apply_one (c, b) (i, u) = (c', b') →
  dir c' = dir c ∧ changes c' = changes c ∧
  view c' i = view_after c i (Some u) ∧ (∀ j, j ≠ i → view c' j = view c j) ∧
  (b' = true ↔ b = true ∨ differs c c' i).
Proof.
  unfold apply_one, view, view_after, differs, effective.
  destruct (lines c !! i) as [l|] eqn:Hl.
  2:{ intros [= <- <-]. rewrite Hl. split_and!; try done. split; [auto|]. by intros [?|[?|?]]. }
  destruct u as [sha cat| |sha r]; intros [= <- <-]; cbn [dir lines assigned refused changes];
    (split; [done|]); (split; [done|]);
    (split; [by rewrite ?lookup_insert_eq, ?lookup_delete_eq, ?Hl|]);
    (split; [intros j Hj; by rewrite ?lookup_insert_ne, ?lookup_delete_ne by done|]);
    rewrite ?lookup_insert_eq, ?lookup_delete_eq, ?Hl; cbn [fmap option_fmap option_map l_rules].
  3:{ rewrite orb_true_iff, bool_decide_eq_true. split; [intros [?|?]; auto|].
      intros [?|[?|?]]; [auto|done|right; congruence]. }
  all: rewrite !orb_true_iff, !bool_decide_eq_true; split.
  all: try (intros [[?|Hr]|Hr]; [auto|right; right; by destruct Hr as [x Hx]; rewrite Hx|right; left; congruence]).
  all: intros [?|[Hr|Hr]]; [auto|right; congruence|left; right; destruct (refused c !! i); done].
Qed.

Lemma fold_view us : ∀ c b c' b',
  NoDup us.*1 → foldl apply_one (c, b) us = (c', b') →
  dir c' = dir c ∧ changes c' = changes c ∧
  (∀ i, view c' i = view_after c i ((list_to_map us : gmap string Update) !! i)) ∧
  (b' = true ↔ b = true ∨ ∃ i, differs c c' i).
Proof.
  induction us as [|[i u] us IH]; intros c b c' b' Hnd Hf.
  { injection Hf as <- <-. split_and!; try done.
    - intros j. cbn [list_to_map foldr]. by rewrite lookup_empty, view_after_None.
    - split; [auto|]. intros [?|(j & [?|?])]; done. }
  apply NoDup_cons in Hnd as [Hi Hnd]. cbn [foldl] in Hf.
  destruct (apply_one (c, b) (i, u)) as [c1 b1] eqn:H1.
  destruct (apply_one_view _ _ _ _ _ _ H1) as (Hd1 & Hc1 & Hv1 & Ho1 & Hb1).
  destruct (IH _ _ _ _ Hnd Hf) as (Hd2 & Hc2 & Hv2 & Hb2).
  assert (Hnone : (list_to_map us : gmap string Update) !! i = None) by by apply not_elem_of_list_to_map_1.
  assert (Hvi : view c' i = view c1 i) by by rewrite Hv2, Hnone, view_after_None.
  assert (Hvj : ∀ j v, j ≠ i → view_after c1 j v = view_after c j v).
  { intros j v Hj. pose proof (Ho1 j Hj) as Hvj. unfold view, view_after in *.
    injection Hvj as Hl Ha Hr. rewrite Ha, Hr.
    destruct (lines c1 !! j) as [l1|], (lines c !! j) as [l|]; simpl in Hl; try done.
    unfold rules_after. injection Hl as -> -> ->. done. }
  split_and!; [congruence..| |].
  - intros j. cbn [list_to_map foldr]. destruct (decide (j = i)) as [->|Hj].
    + rewrite lookup_insert_eq. by rewrite Hvi.
    + rewrite lookup_insert_ne by done. by rewrite Hv2, Hvj.
  - rewrite Hb2, Hb1. unfold differs. split.
    + intros [[?|Hd]|(j & Hd)]; [auto|right; exists i|right; exists j].
      * by rewrite (effective_view _ _ _ Hvi), (refused_view _ _ _ Hvi).
      * destruct (decide (j = i)) as [->|Hj].
        { rewrite (effective_view _ _ _ Hvi), (refused_view _ _ _ Hvi) in Hd. by destruct Hd. }
        by rewrite <-(effective_view _ _ _ (Ho1 j Hj)), <-(refused_view _ _ _ (Ho1 j Hj)).
    + intros [?|(j & Hd)]; [auto|]. destruct (decide (j = i)) as [->|Hj].
      { left. right. by rewrite (effective_view _ _ _ Hvi), (refused_view _ _ _ Hvi) in Hd. }
      right. exists j. by rewrite (effective_view _ _ _ (Ho1 j Hj)), (refused_view _ _ _ (Ho1 j Hj)).
Qed.

Lemma apply_view ok us c fs c' fs' :
  NoDup us.*1 → apply ok us c fs = (c', fs') →
  dir c' = dir c ∧
  (∀ i, view c' i = view_after c i ((list_to_map us : gmap string Update) !! i)) ∧
  (changes c' ≠ changes c ↔ ∃ i, differs c c' i).
Proof.
  intros Hnd Ha. unfold apply in Ha.
  destruct (foldl apply_one (c, false) us) as [c1 b] eqn:Hf.
  destruct (fold_view us _ _ _ _ Hnd Hf) as (Hd & Hc & Hv & Hb).
  set (c2 := if b then _ else c1) in Ha.
  assert (Hc2 : c' = c2).
  { destruct (bool_decide _); [by injection Ha|]. destruct (dir c2); by injection Ha. }
  assert (Hdc : dir c2 = dir c ∧ (∀ i, view c2 i = view c1 i) ∧ (∀ i, differs c c2 i ↔ differs c c1 i))
    by (unfold c2; by destruct b).
  destruct Hdc as (Hd2 & Hv2 & Hdf). rewrite Hc2. split_and!; [done|intros i; by rewrite Hv2|].
  setoid_rewrite Hdf. unfold c2. destruct b; simpl.
  - split; [|intros _; lia]. intros _. by destruct (proj1 Hb eq_refl) as [?|?].
  - rewrite Hc. split; [done|]. intros Hex. pose proof (proj2 Hb (or_intror Hex)). done.
Qed.

(** ** A blob is what its name says *)

Lemma checked_ok sha blob path cat :
  checked sha blob path = Ok cat →
  blob_sha1_hex (blob_sha1 blob) = sha ∧ lc_sha cat = blob_sha1 blob ∧ lc_path cat = path.
Proof.
  unfold checked. destruct (str_eqb _ _) eqn:Hs; [|done]. cbn [negb].
  apply bool_decide_eq_true in Hs. destruct (utf8_valid blob); [|done]. cbn [negb].
  unfold parse_catalogue. destruct (rtu_rules blob) as [[name o]|e]; [|done]. cbn.
  destruct (is_empty_str name); [done|]. by intros [= <-].
Qed.

Lemma cached_ok c sha fs cat :
  cached c sha fs = Ok cat →
  ∃ path blob, blob_path c sha = Some path ∧ fs !! path = Some blob ∧ checked sha blob path = Ok cat.
Proof.
  unfold cached. destruct (blob_path c sha) as [path|] eqn:Hp; [|done]. cbn.
  destruct (fs !! path) as [blob|] eqn:Hb; [|done]. cbn.
  destruct (checked sha blob path) as [c0|e] eqn:Hc; [|done]. intros [= ->]. eauto.
Qed.

Lemma cached_intro c sha fs cat path blob :
  blob_path c sha = Some path → fs !! path = Some blob → checked sha blob path = Ok cat →
  cached c sha fs = Ok cat.
Proof. unfold cached. intros -> Hb Hc. cbn. rewrite Hb. cbn. by rewrite Hc. Qed.

Lemma cached_dir c c' sha fs : dir c' = dir c → cached c' sha fs = cached c sha fs.
Proof. unfold cached, blob_path. by intros ->. Qed.

Lemma blob_path_not_assignments c d sha :
  dir c = Some d → blob_path c sha ≠ Some (path_join d ASSIGNMENTS).
Proof.
  unfold blob_path. intros -> [= Heq]. apply (f_equal last_char) in Heq.
  assert (Hne : ∃ ch t, sha +:+ ".toml" = String ch t) by (destruct sha; repeat eexists).
  destruct Hne as (ch & t & Hs). rewrite Hs in Heq. unfold ASSIGNMENTS in Heq.
  rewrite !path_join_last, <-Hs in Heq. rewrite last_char_app in Heq. done.
Qed.

Lemma blob_path_inj c x y :
  blob_path c (blob_sha1_hex (blob_sha1 x)) = blob_path c (blob_sha1_hex (blob_sha1 y)) →
  is_Some (dir c) → blob_sha1 x = blob_sha1 y.
Proof.
  unfold blob_path. intros Heq [d Hd]. rewrite Hd in Heq. injection Heq as Heq.
  apply path_join_inj in Heq; [|apply blob_sha1_hex_relative, sha1_bytes..].
  apply str_app_inj_r in Heq. by apply hex_encode_inj in Heq; [|apply sha1_bytes..].
Qed.

(** ** A restart frames as before *)

(** A catalogue in use is the checked content of its blob on disk; a line whose
    remembered blob is unusable frames with its own. *)
Definition line_ok (c : Catalogues) (fs : Files) (i : string) (l : Line) : Prop :=
  match assigned c !! i with
  | None => l_rules l = fallback (l_etc l)
  | Some sha => l_rules l = fallback (l_etc l) ∨
                ∃ cat, l_rules l = Gateway sha cat ∧ cached c sha fs = Ok cat
  end.

Definition lines_ok (c : Catalogues) (fs : Files) : Prop :=
  ∀ i l, lines c !! i = Some l → line_ok c fs i l.

Definition update_ok (c : Catalogues) (fs : Files) (u : string * Update) : Prop :=
  match u.2 with UAssigned sha cat => cached c sha fs = Ok cat | _ => True end.

(** What the sessions do to the shared catalogues: [store] a blob fetched because
    it was not cached, or the same one another session has cached since; and [apply] updates whose
    catalogues came from [cached] or [store], the write of [assignments.json]
    succeeding. *)
Inductive step : Catalogues * Files → Catalogues * Files → Prop :=
  | Step_store ok c fs sha blob r fs' :
      (∀ path old cat, blob_path c sha = Some path → fs !! path = Some old →
                       cached c sha fs = Ok cat → old = blob) →
      store ok c sha blob fs = (r, fs') → step (c, fs) (c, fs')
  | Step_apply us c fs c' fs' :
      Forall (update_ok c fs) us → apply true us c fs = (c', fs') → step (c, fs) (c', fs').

(** The lines a state was made with: what a restart makes them with again. *)
Definition specs (c : Catalogues) : gmap string (string * option LineCatalogue) :=
  (λ l, (l_database l, l_etc l)) <$> lines c.

Lemma specs_insert c i l l' :
  lines c !! i = Some l → l_database l' = l_database l → l_etc l' = l_etc l →
  (λ l, (l_database l, l_etc l)) <$> <[i := l']> (lines c) = specs c.
Proof.
  intros Hl Hd He. unfold specs. rewrite fmap_insert. apply insert_id.
  rewrite lookup_fmap, Hl. cbn. by rewrite Hd, He.
Qed.

Lemma apply_one_ok fs c b u c' b' :
  lines_ok c fs → update_ok c fs u → apply_one (c, b) u = (c', b') →
  lines_ok c' fs ∧ dir c' = dir c ∧ specs c' = specs c.
Proof.
  destruct u as [i u]. intros Hok Hu Ha. unfold apply_one in Ha.
  destruct (lines c !! i) as [l|] eqn:Hl; [|by injection Ha as <- <-].
  assert (Hgen : ∀ rules as' n r,
    (∀ j, j ≠ i → as' !! j = assigned c !! j) →
    line_ok (MkCatalogues (dir c) (lines c) as' r (changes c)) fs i
      (MkLine (l_database l) (l_etc l) rules n) →
    let c' := MkCatalogues (dir c) (<[i := MkLine (l_database l) (l_etc l) rules n]> (lines c)) as' r (changes c) in
    lines_ok c' fs ∧ dir c' = dir c ∧ specs c' = specs c).
  { intros rules as' n r Has Hi. cbv zeta. split_and!; [|done|by apply (specs_insert c i l)].
    intros j lj. cbn [lines]. destruct (decide (j = i)) as [->|Hj].
    - rewrite lookup_insert_eq. by intros [= <-].
    - rewrite lookup_insert_ne by done. intros Hlj. specialize (Hok j lj Hlj).
      unfold line_ok in *. cbn [assigned]. by rewrite Has. }
  destruct u as [sha cat| |sha r]; injection Ha as <- <-; [apply Hgen|apply Hgen|].
  - intros j Hj. by apply lookup_insert_ne.
  - unfold line_ok. cbn [assigned l_rules]. rewrite lookup_insert_eq. right. by exists cat.
  - intros j Hj. by apply lookup_delete_ne.
  - unfold line_ok. cbn [assigned l_rules]. by rewrite lookup_delete_eq.
  - by split_and!; [exact Hok|..].
Qed.

Lemma fold_ok fs us : ∀ c b c' b',
  lines_ok c fs → Forall (update_ok c fs) us → foldl apply_one (c, b) us = (c', b') →
  lines_ok c' fs ∧ dir c' = dir c ∧ specs c' = specs c.
Proof.
  induction us as [|u us IH]; intros c b c' b' Hok Hus Hf; [by injection Hf as <- <-|].
  apply Forall_cons in Hus as [Hu Hus]. cbn [foldl] in Hf.
  destruct (apply_one (c, b) u) as [c1 b1] eqn:H1.
  destruct (apply_one_ok _ _ _ _ _ _ Hok Hu H1) as (Hok1 & Hd1 & Hs1).
  destruct (IH c1 b1 c' b' Hok1) as (? & ? & ?); [|done|split_and!; [done|congruence..]].
  eapply Forall_impl; [exact Hus|]. intros [j [sha cat| |]]; try done.
  unfold update_ok. cbn. by rewrite (cached_dir c c1 sha fs Hd1).
Qed.

(** The state with its file: what is assigned is what is remembered. *)
Definition saved (c : Catalogues) (fs : Files) : Prop :=
  lines_ok c fs ∧ assigned c = match dir c with Some d => remembered d fs | None => ∅ end.

Lemma line_ok_fs c fs fs' i l :
  (∀ sha cat, cached c sha fs = Ok cat → cached c sha fs' = Ok cat) →
  line_ok c fs i l → line_ok c fs' i l.
Proof.
  intros Hc. unfold line_ok. destruct (assigned c !! i); [|done].
  intros [?|(cat & ? & ?)]; [by left|right]. exists cat. auto.
Qed.

(** A blob stored leaves the others usable. *)
Lemma store_keeps_cached ok c fs sha blob r fs' sha' cat' :
  (∀ path old cat, blob_path c sha = Some path → fs !! path = Some old →
                   cached c sha fs = Ok cat → old = blob) →
  store ok c sha blob fs = (r, fs') → cached c sha' fs = Ok cat' → cached c sha' fs' = Ok cat'.
Proof.
  intros Hcol Hs Hc'.
  unfold store in Hs. destruct (blob_path c sha) as [path|] eqn:Hp; [|by injection Hs as <- <-].
  destruct (checked sha blob path) as [cat|e] eqn:Hck; [|by injection Hs as <- <-].
  unfold write_atomically in Hs. destruct ok; injection Hs as <- <-; [|done].
  destruct (cached_ok _ _ _ _ Hc') as (path' & old & Hp' & Hold & Hck').
  destruct (checked_ok _ _ _ _ Hck) as (Hx & _). destruct (checked_ok _ _ _ _ Hck') as (Hy & _).
  destruct (decide (path' = path)) as [->|Hne].
  2:{ apply (cached_intro _ _ _ _ path' old); [done| |done]. by rewrite lookup_insert_ne. }
  assert (sha' = sha) as ->.
  { rewrite <-Hx, <-Hy. f_equal. apply (blob_path_inj c); [by rewrite Hx, Hy, Hp, Hp'|].
    unfold blob_path in Hp. by destruct (dir c). }
  assert (old = blob) as -> by (eapply Hcol; eauto).
  rewrite Hck in Hck'. injection Hck' as ->.
  apply (cached_intro _ _ _ _ path blob); [done|by rewrite lookup_insert_eq|done].
Qed.

Lemma store_saved ok c fs sha blob r fs' :
  (∀ path old cat, blob_path c sha = Some path → fs !! path = Some old →
                   cached c sha fs = Ok cat → old = blob) →
  store ok c sha blob fs = (r, fs') → is_Some (dir c) → saved c fs → saved c fs'.
Proof.
  intros Hcol Hs [d Hd] [Hok Has]. split.
  - intros i l Hl. apply (line_ok_fs _ fs); [|by apply Hok]. intros sha' cat'. by eapply store_keeps_cached.
  - rewrite Has, Hd. unfold store in Hs.
    destruct (blob_path c sha) as [path|] eqn:Hp; [|by injection Hs as <- <-].
    destruct (checked sha blob path) as [cat|e] eqn:Hck; [|by injection Hs as <- <-].
    unfold write_atomically in Hs. destruct ok; injection Hs as <- <-; [|done].
    unfold remembered. rewrite lookup_insert_ne; [done|].
    intros Heq. apply (blob_path_not_assignments c d sha Hd). by rewrite Hp, Heq.
Qed.

Lemma apply_saved us c fs c' fs' :
  Forall (update_ok c fs) us → apply true us c fs = (c', fs') → is_Some (dir c) → saved c fs →
  saved c' fs' ∧ dir c' = dir c ∧ specs c' = specs c.
Proof.
  intros Hus Ha [d Hd] [Hok Has].
  unfold apply in Ha. destruct (foldl apply_one (c, false) us) as [c1 b] eqn:Hf.
  destruct (fold_ok _ _ _ _ _ _ Hok Hus Hf) as (Hok1 & Hd1 & Hs1).
  set (c2 := if b then _ else c1) in Ha.
  assert (Hc2 : lines_ok c2 fs ∧ dir c2 = dir c ∧ specs c2 = specs c ∧ assigned c2 = assigned c1)
    by (unfold c2; by destruct b).
  destruct Hc2 as (Hok2 & Hd2 & Hs2 & Ha2). rewrite Hd2, Hd in Ha.
  case_bool_decide as Hsame; injection Ha as <- <-.
  { split; [|done]. split; [done|]. rewrite Hd2, Hd. by rewrite Hsame, Has, Hd. }
  cbn [write_atomically snd]. split; [|done]. split.
  - intros i l Hl. apply (line_ok_fs _ fs); [|by apply Hok2]. intros sha cat Hc.
    destruct (cached_ok _ _ _ _ Hc) as (path & blob & Hp & Hb & Hck).
    apply (cached_intro _ _ _ _ path blob); [done| |done].
    rewrite lookup_insert_ne; [done|]. intros Heq.
    apply (blob_path_not_assignments c2 d sha); [by rewrite Hd2|]. by rewrite Hp, Heq.
  - rewrite Hd2, Hd. unfold remembered. by rewrite lookup_insert_eq, json_roundtrip.
Qed.

Lemma steps_saved x y :
  rtc step x y → is_Some (dir x.1) → saved x.1 x.2 →
  saved y.1 y.2 ∧ dir y.1 = dir x.1 ∧ specs y.1 = specs x.1.
Proof.
  induction 1 as [x|x y z Hxy Hyz IH]; intros Hd Hs; [done|].
  assert (Hy : saved y.1 y.2 ∧ dir y.1 = dir x.1 ∧ specs y.1 = specs x.1).
  { destruct Hxy as [ok c fs sha blob r fs' Hcol Hst|us c fs c' fs' Hus Ha]; cbn in *.
    - split; [|done]. by eapply store_saved.
    - by eapply apply_saved. }
  destruct Hy as (Hsy & Hdy & Hpy). destruct IH as (? & ? & ?); [by rewrite Hdy|done|].
  split_and!; [done|congruence..].
Qed.

(** What [new] makes. *)
Lemma new_lines d ls fs :
  dir (new d ls fs) = d ∧
  assigned (new d ls fs) = match d with Some d => remembered d fs | None => ∅ end ∧
  specs (new d ls fs) = foldl (λ m '(i, db, e), <[i := (db, e)]> m) ∅ ls ∧
  (∀ i l, lines (new d ls fs) !! i = Some l →
          l_rules l = remembered_rules (new d ls fs) i (l_etc l) fs).
Proof.
  unfold new. set (c0 := MkCatalogues d ∅ _ ∅ 0). cbv zeta.
  assert (Hgen : ∀ ls c m,
    specs c = m →
    (∀ i l, lines c !! i = Some l → l_rules l = remembered_rules c i (l_etc l) fs) →
    let c' := foldl (λ c '(interface, database, etc),
      set_lines (<[interface := MkLine database etc (remembered_rules c interface etc fs) 0]> (lines c)) c) c ls in
    dir c' = dir c ∧ assigned c' = assigned c ∧
    specs c' = foldl (λ m '(i, db, e), <[i := (db, e)]> m) m ls ∧
    (∀ i l, lines c' !! i = Some l → l_rules l = remembered_rules c' i (l_etc l) fs)).
  { clear. intros ls. induction ls as [|[[i db] e] ls IH]; intros c m Hm Hl; [done|]. cbn [foldl].
    match goal with |- context [foldl _ (set_lines ?x c) ls] =>
      destruct (IH (set_lines x c) (<[i := (db, e)]> m)) as (Hd & Ha & Hs & Hr) end.
    - unfold specs in *. cbn [lines set_lines]. by rewrite fmap_insert, Hm.
    - intros j l. cbn [lines set_lines]. destruct (decide (j = i)) as [->|Hj].
      + rewrite lookup_insert_eq. by intros [= <-].
      + rewrite lookup_insert_ne by done. intros Hj'. by rewrite (Hl j l Hj').
    - by split_and!. }
  destruct (Hgen ls c0 ∅) as (Hd & Ha & Hs & Hr); [apply fmap_empty|done|]. by split_and!.
Qed.

Lemma new_saved d ls fs : saved (new d ls fs) fs.
Proof.
  destruct (new_lines d ls fs) as (Hd & Ha & _ & Hr). split; [|by rewrite Hd].
  intros i l Hl. specialize (Hr i l Hl). unfold line_ok, remembered_rules in *.
  destruct (assigned _ !! i) as [sha|]; [|done].
  destruct (cached _ sha fs) as [cat|e]; [right; eauto|by left].
Qed.

Lemma restart_frames d ls fs0 c fs i r :
  rtc step (new (Some d) ls fs0, fs0) (c, fs) →
  effective c i = Some r → (∃ sha cat, r = Gateway sha cat) ∨ assigned c !! i = None →
  effective (new (Some d) ls fs) i = Some r.
Proof.
  intros Hst He Hr. destruct (new_lines (Some d) ls fs0) as (Hd0 & _ & Hs0 & _).
  destruct (steps_saved _ _ Hst) as ([Hok Has] & Hd & Hs); [cbn [fst]; by rewrite Hd0|apply new_saved|].
  cbn [fst snd] in *. rewrite Hd0 in Hd. rewrite Hd in Has.
  destruct (new_lines (Some d) ls fs) as (Hd1 & Ha1 & Hs1 & Hr1).
  unfold effective in *. destruct (lines c !! i) as [l|] eqn:Hl; [|done]. injection He as <-.
  assert (Hsp : specs (new (Some d) ls fs) !! i = specs c !! i) by by rewrite Hs1, Hs, Hs0.
  unfold specs in Hsp. rewrite !lookup_fmap, Hl in Hsp.
  destruct (lines (new (Some d) ls fs) !! i) as [l'|] eqn:Hl'; [|done]. injection Hsp as Hdb Hetc.
  cbn. f_equal. rewrite (Hr1 i l' Hl'), Hetc. unfold remembered_rules. rewrite Ha1, <-Has.
  specialize (Hok i l Hl). unfold line_ok in Hok. destruct (assigned c !! i) as [sha|]; [|done].
  destruct Hr as [(sha' & cat & Hr)|?]; [|done]. rewrite Hr in Hok.
  destruct Hok as [Hf|(cat' & [= -> ->] & Hc)]; [by destruct (l_etc l)|].
  rewrite (cached_dir c) by (by rewrite Hd1). by rewrite Hc.
Qed.

(** A restart frames as before. From a server start, and after any sequence
    of blobs stored and assignments taken (their writes of [assignments.json]
    succeeding), starting again over the files left on disk, without a gateway,
    gives every line that frames with a gateway catalogue that same catalogue,
    and every line without an assignment its own. *)
Theorem restart_frames_as_before d ls fs0 c fs i r :
  rtc step (new (Some d) ls fs0, fs0) (c, fs) →
  effective c i = Some r → (∃ sha cat, r = Gateway sha cat) ∨ assigned c !! i = None →
  effective (new (Some d) ls fs) i = Some r.
Proof. apply restart_frames. Qed.

(** What taking a session's updates does, to every line. With one update per
    interface: each line frames, is assigned and is refused as its own update
    says and no other line changes; a refusal leaves what the line frames with;
    the shared watch ticks exactly when some line's rules or refusal changed. *)
Theorem apply_takes_each_update ok us c fs c' fs' :
  NoDup us.*1 → apply ok us c fs = (c', fs') →
  (∀ i l, lines c !! i = Some l →
    let u := (list_to_map us : gmap string Update) !! i in
    effective c' i = Some (rules_after l u) ∧
    assigned c' !! i = assigned_after (assigned c !! i) u ∧
    refused c' !! i = refused_after (refused c !! i) u) ∧
  (∀ i, lines c !! i = None →
    effective c' i = None ∧ assigned c' !! i = assigned c !! i ∧ refused c' !! i = refused c !! i) ∧
  (changes c' ≠ changes c ↔ ∃ i, differs c c' i).
Proof.
  intros Hnd Ha. destruct (apply_view _ _ _ _ _ _ Hnd Ha) as (_ & Hv & Hch).
  split_and!; [| |done].
  - intros i l Hl. specialize (Hv i). unfold view, view_after in Hv. rewrite Hl in Hv.
    injection Hv as Hl' Ha' Hr'. unfold effective. destruct (lines c' !! i); [|done].
    injection Hl' as _ _ Hr. cbn. by rewrite Hr.
  - intros i Hl. specialize (Hv i). unfold view, view_after in Hv. rewrite Hl in Hv.
    injection Hv as Hl' Ha' Hr'. unfold effective. by destruct (lines c' !! i).
Qed.

(** A blob the server keeps is the content its name says. Whatever [store]
    accepts hashes to the name it was asked for, is what [cached] reads back, as
    the same catalogue carrying that hash; whatever it refuses leaves every file
    alone. *)
Theorem stored_blob_is_its_hash ok c sha blob fs r fs' :
  store ok c sha blob fs = (r, fs') →
  match r with
  | Ok cat => blob_sha1_hex (blob_sha1 blob) = sha ∧ lc_sha cat = blob_sha1 blob ∧
              cached c sha fs' = Ok cat
  | Err _ => fs' = fs
  end.
Proof.
  unfold store. destruct (blob_path c sha) as [path|] eqn:Hp; [|by intros [= <- <-]].
  destruct (checked sha blob path) as [cat|e] eqn:Hck; [|by intros [= <- <-]].
  unfold write_atomically. destruct ok; intros [= <- <-]; [|done].
  destruct (checked_ok _ _ _ _ Hck) as (? & ? & ?). split_and!; [done..|].
  apply (cached_intro _ _ _ _ path blob); [done|by rewrite lookup_insert_eq|done].
Qed.

(** A failed write of the assignments is not made good. When the write of
    [assignments.json] fails, taking the same updates again, as the next session
    does, finds nothing changed and leaves the file as it is. *)
Theorem failed_write_not_retried us c fs c1 fs1 :
  NoDup us.*1 → apply false us c fs = (c1, fs1) → (apply true us c1 fs1).2 = fs.
Proof.
  intros Hnd Ha. assert (fs1 = fs) as ->.
  { unfold apply in Ha. destruct (foldl _ _ _) as [c0 b]. set (c2 := if b then _ else c0) in Ha.
    destruct (bool_decide _); [by injection Ha|]. by destruct (dir c2); injection Ha. }
  destruct (apply true us c1 fs) as [c2 fs2] eqn:Ha2.
  destruct (apply_view _ _ _ _ _ _ Hnd Ha) as (_ & Hv & _).
  destruct (apply_view _ _ _ _ _ _ Hnd Ha2) as (_ & Hv2 & _).
  assert (Has : assigned c2 = assigned c1).
  { apply map_eq. intros i. specialize (Hv i). specialize (Hv2 i). unfold view, view_after in *.
    destruct (lines c !! i) as [l|], (lines c1 !! i) as [l1|]; simpl in Hv; try done.
    2: by injection Hv2.
    injection Hv as _ _ _ Ha1 _. injection Hv2 as _ Ha2' _. rewrite Ha2'.
    destruct (list_to_map us !! i) as [[]|]; simpl in *; congruence. }
  unfold apply in Ha2. destruct (foldl _ _ _) as [c0 b]. set (c3 := if b then _ else c0) in Ha2.
  assert (c2 = c3) as ->.
  { destruct (bool_decide _); [by injection Ha2|]. by destruct (dir c3); injection Ha2. }
  rewrite bool_decide_eq_true_2 in Ha2 by done. by injection Ha2.
Qed.
End Catalogues.

(** ** A concrete library *)

(** A checksum for SHA-1, catalogues of one byte naming themselves, and a
    self-delimiting number for JSON. *)
Module Bench.
Definition checksum (l : list Z) : list Z := [(foldr Z.add 0 l) mod 256; Z.of_nat (length l) mod 256].
Lemma checksum_bytes x : Forall (λ b, 0 ≤ b < 256) (checksum x).
Proof. repeat constructor; apply Z.mod_pos_bound; lia. Qed.
Definition json_out (m : gmap string string) : list Z := [Z.pos (encode m)].
Definition json_in (l : list Z) : option (gmap string string) :=
  match l with [Z.pos p] => decode p | _ => None end.
Lemma json_in_out m : json_in (json_out m) = Some m.
Proof. apply decode_encode. Qed.

#[export] Instance lib : CatalogueLib := {|
  sha1 := checksum;
  sha1_bytes := checksum_bytes;
  RtuOptions := Z;
  RtuOptions_eq_dec := _;
  rtu_rules l := match l with [b] => Ok ("vendor", b) | _ => Err "no rules" end;
  to_json := json_out;
  from_json := json_in;
  json_roundtrip := json_in_out
|}.

Definition blob : list Z := [65].
Definition sha : string := blob_sha1_hex (blob_sha1 blob).
Definition tty : string := "/dev/ttyUSB0".
Definition spec : list (string * string * option LineCatalogue) := [(tty, "site", None)].
Definition start : Catalogues := new (Some "/var/lib/wiretap") spec ∅.
Definition cat : LineCatalogue :=
  MkLineCatalogue ("/var/lib/wiretap/catalogs/" +:+ sha +:+ ".toml") "vendor" (blob_sha1 blob) 65.
Definition stored := (store true start sha blob ∅).2.
Definition update : list (string * Update) := [(tty, UAssigned sha cat)].
Definition after := apply true update start stored.

Lemma reached : rtc step (start, ∅) (after.1, after.2).
Proof.
  eapply rtc_l.
  { eapply (Step_store true start ∅ sha blob (Ok cat) stored); [|vm_compute; reflexivity].
    intros path old ? _ Hold. by rewrite lookup_empty in Hold. }
  eapply rtc_l; [|apply rtc_refl].
  eapply (Step_apply update); [|unfold after; by destruct (apply true update start stored)].
  constructor; [|constructor]. vm_compute. reflexivity.
Qed.
Lemma update_nodup : NoDup update.*1.
Proof. apply NoDup_singleton. Qed.

Lemma restart_frames_as_before_witness :
  effective (new (Some "/var/lib/wiretap") spec after.2) tty = Some (Gateway sha cat).
Proof.
  apply (restart_frames_as_before "/var/lib/wiretap" spec ∅ after.1 after.2 tty _ reached).
  - vm_compute. reflexivity.
  - left. by exists sha, cat.
Defined.

Lemma apply_takes_each_update_witness :
  changes after.1 ≠ changes start ↔ ∃ i, differs start after.1 i.
Proof.
  apply (apply_takes_each_update true update start stored after.1 after.2 update_nodup).
  unfold after. by destruct (apply true update start stored).
Defined.

Lemma stored_blob_is_its_hash_witness :
  blob_sha1_hex (blob_sha1 blob) = sha ∧ lc_sha cat = blob_sha1 blob ∧ cached start sha stored = Ok cat.
Proof.
  apply (stored_blob_is_its_hash true start sha blob ∅ (Ok cat) stored). vm_compute. reflexivity.
Defined.

(** The file that was never written: the line frames with the assignment and a
    restart forgets it. *)
Definition unwritten := apply false update start stored.
Lemma failed_write_not_retried_witness :
  (apply true update unwritten.1 unwritten.2).2 = stored.
Proof.
  apply (failed_write_not_retried update start stored unwritten.1 unwritten.2 update_nodup).
  unfold unwritten. by destruct (apply false update start stored).
Defined.
Example unwritten_forgotten :
  effective unwritten.1 tty = Some (Gateway sha cat) ∧
  effective (new (Some "/var/lib/wiretap") spec unwritten.2) tty = Some NoRules.
Proof. split; vm_compute; reflexivity. Qed.
End Bench.
