(* ===== verification/Environment.v ===== *)
(** * The gateway's configuration ([config.rs])

    What the gateway makes of its environment: every variable with its default,
    the paths it serves under, the secrets and the files they are kept in, and
    the first of its complaints. [f64] is read here as [str::parse] reads it,
    infinities and NaN included, since one variable is one. *)

From S2P Require Import Prelude F64 Cidr Catalogues.
From Stdlib Require Import Ascii.
Local Open Scope Z_scope.

(** ** [str::trim_start_matches] and [str::trim_end_matches] *)

Fixpoint trim_start_if (p : ascii → bool) (s : string) : string :=
  match s with
  | String c s' => if p c then trim_start_if p s' else s
  | EmptyString => EmptyString
  end.
Fixpoint trim_end_if (p : ascii → bool) (s : string) : string :=
  match s with
  | EmptyString => EmptyString
  | String c s' =>
      match trim_end_if p s' with
      | EmptyString => if p c then EmptyString else String c EmptyString
      | t => String c t
      end
  end.
Definition is_slash (c : ascii) : bool := bool_decide (c = "/"%char).

(** ** [f64::from_str] *)

(** A sign and a magnitude [mant * 2^expo]; an infinity; NaN. *)
Inductive Float := Finite (negative : bool) (x : f64) | Infinite (negative : bool) | NaN.

(** [n / d] rounded to the nearest, no finer than a subnormal; past the largest,
    infinite. *)
Definition float_ratio (negative : bool) (n d : Z) : Float :=
  if n =? 0 then Finite negative (F64 0 0)
  else
    let e := Z.max (exponent n d) (-1074) in
    let m := rne (n * up e) (d * dn e) in
    if 2 ^ 1024 * up e <=? m * dn e then Infinite negative else Finite negative (F64 m e).

(** The exponent after [e] or [E], all of the text. *)
Definition read_exponent (s : string) : option Z :=
  match s with
  | EmptyString => Some 0
  | String c s =>
      if bool_decide (c = "e"%char) || bool_decide (c = "E"%char) then
        let '(sign, s) := match s with
          | String "-" s => (-1, s) | String "+" s => (1, s) | _ => (1, s) end in
        match span_digits 10 s with
        | (d :: ds, EmptyString) => Some (sign * foldl (λ n d, n * 10 + d) 0 (d :: ds))
        | _ => None
        end
      else None
  end.

(** A decimal: its digits, as an integer, and the power of ten they are scaled
    by. *)
Definition read_decimal (s : string) : option (Z * Z) :=
  let '(whole, s) := span_digits 10 s in
  let '(fraction, s) := match s with String "." s => span_digits 10 s | _ => ([], s) end in
  match whole ++ fraction with
  | [] => None
  | digits =>
      e ← read_exponent s;
      Some (foldl (λ n d, n * 10 + d) 0 digits, e - Z.of_nat (length fraction))
  end.

Definition parse_f64 (s : string) : option Float :=
  let '(negative, s) := match s with
    | String "-" s => (true, s) | String "+" s => (false, s) | _ => (false, s) end in
  match read_decimal s with
  | Some (m, e) => Some (float_ratio negative (m * 10 ^ Z.max 0 e) (10 ^ Z.max 0 (- e)))
  | None =>
      if eq_ignore_ascii_case s "inf" || eq_ignore_ascii_case s "infinity" then Some (Infinite negative)
      else if eq_ignore_ascii_case s "nan" then Some NaN
      else None
  end.

(** [bool::from_str]. *)
Definition parse_bool (s : string) : option bool :=
  if str_eqb s "true" then Some true else if str_eqb s "false" then Some false else None.

(** ** The environment *)

(** A variable's value is bytes, which [env::var] takes for a value only where
    they are Unicode. *)
Definition Env : Type := string → option string.
Definition var_os (e : Env) (name : string) : option string := e name.
Definition var (e : Env) (name : string) : option string :=
  v ← e name; if utf8_valid (bytes_of_string v) then Some v else None.
Definition var_or (e : Env) (name default_ : string) : string := default default_ (var e name).
Definition parse_or {T} (parse : string → option T) (e : Env) (name : string) (default_ : T) : T :=
  default default_ (v ← var e name; parse v).
Definition non_empty (v : option string) : option string :=
  v ← v; if is_empty_str v then None else Some v.

(** ** Base paths *)

Definition plain_char (c : ascii) : bool :=
  ascii_is_upper c || ascii_is_lower c || ascii_is_digit c ||
  existsb (λ d, bool_decide (c = d)) ["-"; "."; "_"; "~"]%char.
Definition plain (segment : string) : bool :=
  negb (is_empty_str segment) && negb (str_eqb segment ".") && negb (str_eqb segment "..") &&
  str_all plain_char segment.

(** [trim] takes off ASCII white space here, and Unicode's in the source. *)
Definition normalise_base_path (raw : string) : option string :=
  let trimmed := trim_end_if is_slash (trim_start_if is_slash (str_trim raw)) in
  if is_empty_str trimmed then Some EmptyString
  else if forallb plain (str_split "/" trimmed) then Some ("/" +:+ trimmed) else None.

Definition base_path_var (e : Env) (name default_ : string) : result string string :=
  let raw := var_or e name default_ in
  ok_or (normalise_base_path raw)
    (name +:+ " " +:+ debug_str raw +:+ " must be plain path segments, like /apps/wiretap-gateway").

(** ** [AppSocket] *)

Record AppSocket := MkAppSocket { as_path : string; as_console_uid : Z; as_base_path : string }.
Definition OVERFLOW_UID : Z := 65534.
Definition u32_max : Z := 2 ^ 32 - 1.

(** [Path::is_absolute]. *)
Definition is_absolute (path : string) : bool := str_starts_with "/" path.

Definition app_socket_from_env (e : Env) : result string (option AppSocket) :=
  match non_empty (var_os e "WIRETAP_APP_SOCKET") with
  | None => Ok None
  | Some path =>
      if negb (is_absolute path) then
        Err ("WIRETAP_APP_SOCKET " +:+ debug_str path +:+ " must be an absolute path")
      else
        let raw_uid := var_or e "WIRETAP_CONSOLE_UID" "0" in
        console_uid <-? ok_or
          (uid ← parse_uint u32_max raw_uid; if negb (uid =? OVERFLOW_UID) then Some uid else None)
          ("WIRETAP_CONSOLE_UID " +:+ debug_str raw_uid +:+ " must be a uid other than " +:+ pretty OVERFLOW_UID) ;;
        base_path <-? base_path_var e "WIRETAP_APP_BASE_PATH" "/apps/wiretap-gateway" ;;
        Ok (Some (MkAppSocket path console_uid base_path))
  end.

(** ** Secrets *)

(** [SecretFiles]: where each secret is persisted. *)
Record SecretFiles := MkSecretFiles { sf_pg_password : option string; sf_admin_key : option string }.

(** [from_file] is [Secret::from_file]: what a file holds, or why it can not be
    read. *)
Definition secret_var (from_file : string → result string string) (e : Env) (var_name file_var : string)
    : result string (option string * option string) :=
  match non_empty (var e var_name) with
  | Some value => Ok (Some value, None)
  | None =>
      match non_empty (var_os e file_var) with
      | None => Ok (None, None)
      | Some path => secret <-? from_file path ;; Ok (Some secret, Some path)
      end
  end.

(** ** [Config] *)

Record Config := MkConfig {
  cf_http_listen : string; cf_ingest_listen : string;
  cf_pg_host : string; cf_pg_port : Z; cf_pg_user : string; cf_pg_password : string;
  cf_default_database : string;
  cf_bootstrap_admin_key : option string;
  cf_secret_files : SecretFiles;
  cf_auto_create_databases : bool; cf_auto_migrate : bool;
  cf_ingest_keepalive_secs : Float; cf_ingest_max_batch_frames : Z;
  cf_base_path : string; cf_admin_dir : string;
  cf_app_socket : option AppSocket
}.

Definition u16_max : Z := 2 ^ 16 - 1.
Definition usize_max : Z := 2 ^ 64 - 1.

Definition from_env (from_file : string → result string string) (e : Env) : result string Config :=
  password <-? secret_var from_file e "POSTGRES_PASSWORD" "WIRETAP_PG_PASSWORD_FILE" ;;
  pg_password <-? ok_or password.1 "POSTGRES_PASSWORD or WIRETAP_PG_PASSWORD_FILE is required" ;;
  admin <-? secret_var from_file e "WIRETAP_ADMIN_KEY" "WIRETAP_ADMIN_KEY_FILE" ;;
  base_path <-? base_path_var e "WIRETAP_BASE_PATH" "" ;;
  app_socket <-? app_socket_from_env e ;;
  Ok (MkConfig
    (var_or e "WIRETAP_HTTP_LISTEN" "0.0.0.0:8423") (var_or e "WIRETAP_INGEST_LISTEN" "0.0.0.0:9323")
    (var_or e "WIRETAP_PG_HOST" "timescaledb") (parse_or (parse_uint u16_max) e "WIRETAP_PG_PORT" 5432)
    (var_or e "WIRETAP_PG_USER" "postgres") pg_password
    (var_or e "WIRETAP_DEFAULT_DB" "wiretap")
    admin.1 (MkSecretFiles password.2 admin.2)
    (parse_or parse_bool e "WIRETAP_AUTO_CREATE" true) (parse_or parse_bool e "WIRETAP_AUTO_MIGRATE" false)
    (parse_or parse_f64 e "WIRETAP_INGEST_KEEPALIVE_SECS" (float_ratio false 30 1))
    (parse_or (parse_uint usize_max) e "WIRETAP_INGEST_MAX_BATCH_FRAMES" 256)
    base_path (var_or e "WIRETAP_ADMIN_DIR" "/usr/share/wiretap-admin") app_socket).

(** [pg_config]: one database, and no password. *)
Record PgConfig := MkPgConfig {
  pgc_host : string; pgc_port : Z; pgc_user : string; pgc_dbname : string; pgc_password : option string
}.
Definition pg_config (c : Config) (database : string) : PgConfig :=
  MkPgConfig (cf_pg_host c) (cf_pg_port c) (cf_pg_user c) database None.

(** ** The idle limit of an ingest session ([ingest/mod.rs] [handle_client]) *)

(** [a * 3.0]. *)
Definition float_triple (a : Float) : Float :=
  match a with
  | Finite negative x => float_ratio negative (mant x * 3 * dn (expo x)) (up (expo x))
  | a => a
  end.
(** [Duration::from_secs_f64], in nanoseconds; [None] where it panics: below
    zero, not finite, or 2^64 seconds and more. *)
Definition from_secs_f64 (a : Float) : option Z :=
  match a with
  | Finite negative x =>
      if negative && negb (mant x =? 0) then None
      else if 2 ^ 64 * up (expo x) <=? mant x * dn (expo x) then None
      else Some (rne (mant x * dn (expo x) * 10 ^ 9) (up (expo x)))
  | _ => None
  end.
Definition ingest_idle_limit (c : Config) : option Z :=
  from_secs_f64 (float_triple (cf_ingest_keepalive_secs c)).

(** ** Trimming, exactly *)

Definition head_ok (p : ascii → bool) (s : string) : Prop :=
  match s with String c _ => p c = false | EmptyString => True end.
Definition last_ok (p : ascii → bool) (s : string) : Prop :=
  match last_char s with Some c => p c = false | None => True end.

Lemma trim_start_is_if s : trim_start s = trim_start_if ascii_is_space s.
Proof. induction s as [|c s IH]; [done|]. cbn. by rewrite IH. Qed.
Lemma trim_end_is_if s : trim_end s = trim_end_if ascii_is_space s.
Proof. induction s as [|c s IH]; [done|]. cbn. by rewrite IH. Qed.

Lemma trim_start_prefix p a t : str_all p a = true → trim_start_if p (a +:+ t) = trim_start_if p t.
Proof.
  induction a as [|c a IH]; [done|]. cbn [str_all]. intros [Hc Ha]%andb_true_iff.
  change (trim_start_if p (String c (a +:+ t)) = trim_start_if p t). cbn [trim_start_if]. rewrite Hc. by apply IH.
Qed.
Lemma trim_start_id p s : head_ok p s → trim_start_if p s = s.
Proof. destruct s as [|c s]; [done|]. cbn. by intros ->. Qed.
Lemma trim_start_spec p s :
  ∃ a, str_all p a = true ∧ s = a +:+ trim_start_if p s ∧ head_ok p (trim_start_if p s).
Proof.
  induction s as [|c s (a & Ha & Hs & Hh)]; [by exists EmptyString|]. cbn. destruct (p c) eqn:Hp.
  - exists (String c a). cbn. rewrite Hp. split_and!; try done. change (String c s = String c (a +:+ trim_start_if p s)).
    by rewrite <- Hs.
  - by exists EmptyString.
Qed.

Lemma trim_end_all p b : str_all p b = true → trim_end_if p b = EmptyString.
Proof. induction b as [|c b IH]; [done|]. cbn. intros [Hc Hb]%andb_true_iff. by rewrite (IH Hb), Hc. Qed.
Lemma trim_end_suffix p t b : str_all p b = true → trim_end_if p (t +:+ b) = trim_end_if p t.
Proof.
  intros Hb. induction t as [|c t IH]; [by apply trim_end_all|].
  change (trim_end_if p (String c (t +:+ b)) = trim_end_if p (String c t)). cbn. by rewrite IH.
Qed.
Lemma trim_end_id p s : last_ok p s → trim_end_if p s = s.
Proof.
  induction s as [|c s IH]; [done|]. destruct s as [|d s].
  - cbn. by intros ->.
  - intros Hl. change (match trim_end_if p (String d s) with
      | EmptyString => if p c then EmptyString else String c EmptyString | t => String c t end = String c (String d s)).
    by rewrite (IH Hl).
Qed.
Lemma trim_end_spec p s :
  ∃ b, str_all p b = true ∧ s = trim_end_if p s +:+ b ∧ last_ok p (trim_end_if p s).
Proof.
  induction s as [|c s (b & Hb & Hs & Hl)]; [by exists EmptyString|]. cbn.
  destruct (trim_end_if p s) as [|d t] eqn:Ht.
  - destruct (p c) eqn:Hp.
    + exists (String c b). cbn. rewrite Hp. split_and!; try done. by rewrite Hs at 1.
    + exists b. split_and!; [done| |by cbn]. change (String c s = String c b). by rewrite Hs at 1.
  - exists b. split_and!; [done| |exact Hl]. change (String c s = String c (String d t +:+ b)). by rewrite <- Hs.
Qed.

Lemma all_head p q s : str_all p s = true → (∀ c, p c = true → q c = false) → head_ok q s.
Proof. destruct s as [|c s]; [done|]. cbn. intros [Hc _]%andb_true_iff Hpq. auto. Qed.
Lemma all_last p q s : str_all p s = true → (∀ c, p c = true → q c = false) → last_ok q s.
Proof.
  intros Hs Hpq. unfold last_ok. induction s as [|c s IH]; [done|]. cbn in Hs. apply andb_true_iff in Hs as [Hc Hs].
  destruct s as [|d s]; [by apply Hpq|]. by apply IH.
Qed.

(** Trimming what is padded at both ends gives the middle. *)
Lemma trim_padded p a m b :
  str_all p a = true → str_all p b = true → head_ok p m → last_ok p m →
  trim_end_if p (trim_start_if p (a +:+ m +:+ b)) = m.
Proof.
  intros Ha Hb Hh Hl. rewrite trim_start_prefix by done. destruct m as [|c m].
  - change (EmptyString +:+ b) with b. rewrite <- (str_app_nil_r b) at 1. by rewrite trim_start_prefix.
  - rewrite trim_start_id by done. rewrite trim_end_suffix by done. by apply trim_end_id.
Qed.
Lemma trim_is_padded p s :
  ∃ a b, let m := trim_end_if p (trim_start_if p s) in
    str_all p a = true ∧ str_all p b = true ∧ s = a +:+ m +:+ b.
Proof.
  destruct (trim_start_spec p s) as (a & Ha & Hs & _). destruct (trim_end_spec p (trim_start_if p s)) as (b & Hb & Ht & _).
  exists a, b. split_and!; try done. by rewrite <- Ht.
Qed.

(** ** A base path is plain segments *)

Definition path_of (segments : list string) : string :=
  match segments with [] => EmptyString | _ => "/" +:+ str_join "/" segments end.
Definition path_char (c : ascii) : bool := is_slash c || plain_char c.

Lemma is_slash_true c : is_slash c = true ↔ c = "/"%char.
Proof. unfold is_slash. by rewrite bool_decide_eq_true. Qed.
Lemma plain_not_slash c : plain_char c = true → is_slash c = false.
Proof. intros Hc. destruct (is_slash c) eqn:Hs; [|done]. apply is_slash_true in Hs as ->. done. Qed.
Lemma path_not_space c : path_char c = true → ascii_is_space c = false.
Proof.
  destruct (ascii_is_space c) eqn:Hs; [|done]. intros [->%is_slash_true|Hp]%orb_true_iff; [done|].
  destruct c as [[] [] [] [] [] [] [] []]; vm_compute in Hs, Hp; congruence.
Qed.

Lemma plain_spec s : plain s = true → s ≠ EmptyString ∧ str_all plain_char s = true.
Proof. unfold plain. intros [[[H1 _]%andb_true_iff _]%andb_true_iff H4]%andb_true_iff. split; [|done]. by destruct s. Qed.
Lemma plain_free s : plain s = true → str_free "/" s = true.
Proof.
  intros [_ Hs]%plain_spec. eapply str_all_impl; [|exact Hs]. intros c Hc%plain_not_slash.
  rewrite bool_decide_eq_true. intros ->. done.
Qed.

Lemma str_join_split sep s : str_join (String sep EmptyString) (str_split sep s) = s.
Proof.
  induction s as [|c s IH]; [done|]. cbn [str_split]. case_bool_decide as Hc.
  - subst c. destruct (str_split sep s) as [|p ps] eqn:Hs; [by destruct s; cbn in Hs; repeat case_match|].
    change (String sep (str_join (String sep EmptyString) (p :: ps)) = String sep s). by rewrite IH.
  - destruct (str_split sep s) as [|p ps]; [by rewrite <- IH|]. rewrite <- IH. by destruct ps.
Qed.

Lemma join_cons a b l : str_join "/" (a :: b :: l) = a +:+ String "/" (str_join "/" (b :: l)).
Proof. done. Qed.
Lemma join_path segments :
  Forall (λ s, plain s = true) segments →
  str_all path_char (str_join "/" segments) = true ∧
  head_ok is_slash (str_join "/" segments) ∧ last_ok is_slash (str_join "/" segments) ∧
  (segments ≠ [] → str_join "/" segments ≠ EmptyString).
Proof.
  induction 1 as [|a l Ha Hl (IHc & IHh & IHl & IHn)]; [done|].
  destruct (plain_spec a Ha) as [Hne Hp].
  assert (str_all path_char a = true) as Hpa.
  { eapply str_all_impl; [|exact Hp]. intros c Hc. unfold path_char. by rewrite Hc, orb_true_r. }
  destruct l as [|b l].
  - split_and!; [exact Hpa|by eapply all_head, plain_not_slash|by eapply all_last, plain_not_slash|done].
  - rewrite join_cons. destruct a as [|c a]; [done|]. split_and!; [| |unfold last_ok|done].
    + rewrite str_all_app, Hpa. exact IHc.
    + cbn in Hp. apply andb_true_iff in Hp as [Hc _]. by apply plain_not_slash.
    + rewrite last_char_app. assert (str_join "/" (b :: l) ≠ EmptyString) as Hj by (by apply IHn).
      destruct (str_join "/" (b :: l)) as [|d j]; [done|]. exact IHl.
Qed.

Lemma slashes_path s : str_all is_slash s = true → str_all path_char s = true.
Proof. apply str_all_impl. intros c Hc. unfold path_char. by rewrite Hc. Qed.

Lemma normalised sp1 sl1 segments sl2 sp2 :
  str_all ascii_is_space sp1 = true → str_all ascii_is_space sp2 = true →
  str_all is_slash sl1 = true → str_all is_slash sl2 = true → Forall (λ s, plain s = true) segments →
  normalise_base_path (sp1 +:+ (sl1 +:+ str_join "/" segments +:+ sl2) +:+ sp2) = Some (path_of segments).
Proof.
  intros Hp1 Hp2 Hl1 Hl2 Hs. destruct (join_path segments Hs) as (Hc & Hh & Hl & Hn). unfold normalise_base_path.
  assert (str_all path_char (sl1 +:+ str_join "/" segments +:+ sl2) = true) as Hm.
  { by rewrite !str_all_app, Hc, !slashes_path. }
  unfold str_trim. rewrite trim_start_is_if, trim_end_is_if, trim_padded; try done;
    [|by eapply all_head, path_not_space|by eapply all_last, path_not_space].
  rewrite trim_padded by done. destruct segments as [|s l]; [done|]. specialize (Hn ltac:(done)).
  destruct (str_join "/" (s :: l)) as [|c j] eqn:Hj; [done|]. cbn [is_empty_str]. rewrite <- Hj.
  rewrite (str_split_join "/" (s :: l)); [|done|eapply Forall_impl; [exact Hs|]; apply plain_free].
  rewrite (proj2 (forallb_elem plain (s :: l))); [done|]. by apply Forall_forall.
Qed.

Lemma normalise_segments raw p :
  normalise_base_path raw = Some p → ∃ sp1 sl1 segments sl2 sp2,
     str_all ascii_is_space sp1 = true ∧ str_all ascii_is_space sp2 = true ∧
     str_all is_slash sl1 = true ∧ str_all is_slash sl2 = true ∧ Forall (λ s, plain s = true) segments ∧
     raw = sp1 +:+ (sl1 +:+ str_join "/" segments +:+ sl2) +:+ sp2 ∧ p = path_of segments.
Proof.
  unfold normalise_base_path, str_trim. rewrite trim_start_is_if, trim_end_is_if.
  destruct (trim_is_padded ascii_is_space raw) as (sp1 & sp2 & Hp1 & Hp2 & Hraw). set (t := trim_end_if _ _) in *.
  destruct (trim_is_padded is_slash t) as (sl1 & sl2 & Hl1 & Hl2 & Ht). set (m := trim_end_if is_slash _) in *.
  destruct (is_empty_str m) eqn:Hm.
  - intros [= <-]. destruct m; [|done]. exists sp1, sl1, [], sl2, sp2. split_and!; try done.
    change (str_join "/" []) with EmptyString. by rewrite <- Ht.
  - destruct (forallb plain (str_split "/" m)) eqn:Hf; [|done]. intros [= <-].
    exists sp1, sl1, (str_split "/" m), sl2, sp2. rewrite (str_join_split "/" m). split_and!; try done.
    + apply Forall_forall. by apply forallb_elem.
    + by rewrite <- Ht.
    + unfold path_of. rewrite (str_join_split "/" m). destruct (str_split "/" m) eqn:Hs; [|done].
      apply (f_equal (str_join "/")) in Hs. rewrite (str_join_split "/" m) in Hs. by rewrite Hs in Hm.
Qed.

(** A base path is accepted exactly when it is plain segments between
    slashes, and becomes them after one slash each: any number of slashes and
    blanks around it do not matter, none inside is forgiven, and what is made of
    it is accepted and unchanged. So what the routes are nested under is the
    root, or a literal prefix without an empty segment, a dot or a character the
    router reads as a pattern. *)
Theorem base_path_exact (raw p : string) :
  (normalise_base_path raw = Some p ↔
   ∃ sp1 sl1 segments sl2 sp2,
     str_all ascii_is_space sp1 = true ∧ str_all ascii_is_space sp2 = true ∧
     str_all is_slash sl1 = true ∧ str_all is_slash sl2 = true ∧ Forall (λ s, plain s = true) segments ∧
     raw = sp1 +:+ (sl1 +:+ str_join "/" segments +:+ sl2) +:+ sp2 ∧ p = path_of segments) ∧
  (normalise_base_path raw = Some p → normalise_base_path p = Some p).
Proof.
  split; [split; [apply normalise_segments|]|].
  - intros (sp1 & sl1 & segments & sl2 & sp2 & ? & ? & ? & ? & ? & -> & ->). by apply normalised.
  - intros (sp1 & sl1 & segments & sl2 & sp2 & _ & _ & _ & _ & Hs & _ & ->)%normalise_segments. destruct segments as [|s l]; [done|].
    pose proof (normalised "" "/" (s :: l) "" "" eq_refl eq_refl eq_refl eq_refl Hs) as Hn.
    by rewrite !str_app_nil_r in Hn.
Qed.

(** ** What a configuration promises *)

(** A secret is persisted to the file it was read from, and only then. *)
Lemma secret_var_spec from_file e v f secret file :
  secret_var from_file e v f = Ok (secret, file) →
  match file with
  | Some path => non_empty (var e v) = None ∧ non_empty (e f) = Some path ∧ ∃ s, from_file path = Ok s ∧ secret = Some s
  | None => secret = non_empty (var e v) ∧ (secret = None → non_empty (e f) = None)
  end.
Proof.
  unfold secret_var, var_os. destruct (non_empty (var e v)) as [x|]; [by intros [= <- <-]|].
  destruct (non_empty (e f)) as [path|] eqn:Hf; [|by intros [= <- <-]].
  destruct (from_file path) as [s|] eqn:Hs; [|done]. cbn. intros [= <- <-]. eauto.
Qed.

Lemma base_path_var_spec e name default_ p :
  base_path_var e name default_ = Ok p → ∃ segments, Forall (λ s, plain s = true) segments ∧ p = path_of segments.
Proof.
  unfold base_path_var. destruct (normalise_base_path _) as [q|] eqn:Hq; [|done]. cbn. intros [= <-].
  apply normalise_segments in Hq as (? & ? & segments & ? & ? & _ & _ & _ & _ & Hs & _ & ->). eauto.
Qed.

Lemma app_socket_spec e s :
  app_socket_from_env e = Ok (Some s) →
  is_absolute (as_path s) = true ∧ 0 ≤ as_console_uid s ≤ u32_max ∧ as_console_uid s ≠ OVERFLOW_UID ∧
  ∃ segments, Forall (λ s, plain s = true) segments ∧ as_base_path s = path_of segments.
Proof.
  unfold app_socket_from_env. destruct (non_empty _) as [path|]; [|done]. destruct (is_absolute path) eqn:Hp; [|done].
  cbn [negb]. destruct (parse_uint u32_max _) as [uid|] eqn:Hu; [|done]. cbn [mbind option_bind].
  destruct (Z.eqb_spec uid OVERFLOW_UID) as [|Hne]; [done|]. cbn [negb ok_or].
  destruct (base_path_var _ _ _) as [p|] eqn:Hb; [|done]. intros [= <-]. cbn [as_path as_console_uid as_base_path].
  apply parse_uint_range in Hu as [? ?]. apply base_path_var_spec in Hb. by split_and!.
Qed.

Lemma parse_or_range max e name d : 0 ≤ d ≤ max → 0 ≤ parse_or (parse_uint max) e name d ≤ max.
Proof.
  intros Hd. unfold parse_or. destruct (var e name) as [v|]; [|done]. cbn [mbind option_bind].
  destruct (parse_uint max v) eqn:Hv; [|done]. by apply parse_uint_range in Hv.
Qed.

(** C37: A gateway that starts has a database password, from the environment or
    from the file that it is then persisted to, never one while it is read from
    the other; the same for the admin key, which it may be without. Its ports
    and counts fit their types, both of its base paths are plain segments, and
    the console socket it opens is at an absolute path and answers to a uid that
    a remapped stranger can not have. *)
Theorem config_sound (from_file : string → result string string) (e : Env) (c : Config)
    (Hc : from_env from_file e = Ok c) :
  (match sf_pg_password (cf_secret_files c) with
   | Some path => non_empty (var e "POSTGRES_PASSWORD") = None ∧ from_file path = Ok (cf_pg_password c)
   | None => var e "POSTGRES_PASSWORD" = Some (cf_pg_password c) ∧ cf_pg_password c ≠ EmptyString
   end) ∧
  (match sf_admin_key (cf_secret_files c) with
   | Some path => non_empty (var e "WIRETAP_ADMIN_KEY") = None ∧ ∃ k, from_file path = Ok k ∧ cf_bootstrap_admin_key c = Some k
   | None => cf_bootstrap_admin_key c = non_empty (var e "WIRETAP_ADMIN_KEY")
   end) ∧
  0 ≤ cf_pg_port c ≤ u16_max ∧ 0 ≤ cf_ingest_max_batch_frames c ≤ usize_max ∧
  (∃ segments, Forall (λ s, plain s = true) segments ∧ cf_base_path c = path_of segments) ∧
  (∀ s, cf_app_socket c = Some s →
     is_absolute (as_path s) = true ∧ 0 ≤ as_console_uid s ≤ u32_max ∧ as_console_uid s ≠ OVERFLOW_UID ∧
     ∃ segments, Forall (λ s, plain s = true) segments ∧ as_base_path s = path_of segments) ∧
  (∀ database, pgc_password (pg_config c database) = None ∧ pgc_dbname (pg_config c database) = database).
Proof.
  revert Hc. unfold from_env. destruct (secret_var _ _ "POSTGRES_PASSWORD" _) as [[pw pf]|] eqn:Hp; [|done].
  destruct pw as [pw|]; [|done]. cbn [fst snd ok_or].
  destruct (secret_var _ _ "WIRETAP_ADMIN_KEY" _) as [[ak af]|] eqn:Ha; [|done].
  destruct (base_path_var _ _ _) as [bp|] eqn:Hb; [|done].
  destruct (app_socket_from_env e) as [so|] eqn:Hs; [|done]. intros [= <-].
  cbn [cf_secret_files sf_pg_password sf_admin_key cf_pg_password cf_bootstrap_admin_key cf_pg_port cf_base_path
       cf_ingest_max_batch_frames cf_app_socket fst snd].
  apply secret_var_spec in Hp, Ha.
  pose proof (parse_or_range u16_max e "WIRETAP_PG_PORT" 5432 ltac:(done)).
  pose proof (parse_or_range usize_max e "WIRETAP_INGEST_MAX_BATCH_FRAMES" 256 ltac:(done)).
  split; [|split; [|split; [done|split; [done|split; [by eapply base_path_var_spec|split; [|done]]]]]].
  - destruct pf; [destruct Hp as (? & _ & x & ? & [= <-]); by split|]. destruct Hp as [Hp _].
    unfold non_empty in Hp. destruct (var e "POSTGRES_PASSWORD") as [v|]; [|done]. cbn in Hp.
    destruct v; simplify_eq/=. done.
  - destruct af; [destruct Ha as (? & _ & x & ? & ?); eauto|]. by destruct Ha.
  - intros x ->. by apply app_socket_spec in Hs.
Qed.

(** ** A keepalive the gateway takes and can not use *)

Definition env_of (l : list (string * string)) : Env := λ name, snd <$> find_first (λ kv, str_eqb kv.1 name) l.
Definition no_files : string → result string string := λ path, Err (path +:+ ": No such file or directory").

(** [WIRETAP_INGEST_KEEPALIVE_SECS] is a duration no [Duration] can hold: it is
    read, and every client that then connects panics its task. *)
Lemma keepalive_not_checked :
  Forall (λ text, match from_env no_files (env_of [("POSTGRES_PASSWORD", "s"); ("WIRETAP_INGEST_KEEPALIVE_SECS", text)]) with
                  | Ok c => ingest_idle_limit c = None
                  | Err _ => False
                  end) ["-1"; "-0.5e-3"; "inf"; "NaN"; "1e19"; "+infinity"].
Proof. repeat constructor. Qed.

Example config_runs :
  from_env no_files (env_of []) = Err "POSTGRES_PASSWORD or WIRETAP_PG_PASSWORD_FILE is required" ∧
  (c ← match from_env no_files (env_of [("POSTGRES_PASSWORD", "s"); ("WIRETAP_INGEST_KEEPALIVE_SECS", "2.5")]) with
       | Ok c => Some c | Err _ => None end; ingest_idle_limit c) = Some 7500000000 ∧
  parse_f64 "1e1" = parse_f64 "10" ∧ parse_f64 ".5" = Some (Finite false (F64 4503599627370496 (-53))) ∧
  parse_f64 "." = None ∧ parse_f64 "1e" = None ∧ parse_f64 "1e-400" = Some (Finite false (F64 0 (-1074))) ∧
  parse_f64 "30" = Some (float_ratio false 30 1).
Proof. by vm_compute. Qed.

Lemma config_sound_witness :
  ∃ c, from_env (λ _, Ok "old") (env_of [("WIRETAP_PG_PASSWORD_FILE", "/run/pw"); ("WIRETAP_APP_SOCKET", "/run/app");
          ("WIRETAP_CONSOLE_UID", "+7"); ("WIRETAP_BASE_PATH", " //a/b/ ")]) = Ok c ∧
    sf_pg_password (cf_secret_files c) = Some "/run/pw" ∧ cf_base_path c = "/a/b" ∧
    0 ≤ cf_pg_port c ≤ u16_max.
Proof.
  eexists. split; [vm_compute; reflexivity|]. split_and!; [reflexivity|reflexivity| |];
  eapply (config_sound (λ _, Ok "old") (env_of [("WIRETAP_PG_PASSWORD_FILE", "/run/pw"); ("WIRETAP_APP_SOCKET", "/run/app");
          ("WIRETAP_CONSOLE_UID", "+7"); ("WIRETAP_BASE_PATH", " //a/b/ ")])); vm_compute; reflexivity.
Defined.
