(* ===== verification/Secrets.v ===== *)
(** * The gateway's secrets ([secrets.rs], the password's part of [db.rs], the wait of [main.rs])

    The password of the gateway's role is in three places: the cluster, the file
    the gateway reads at its start, and the connections' [Credentials]. A
    rotation changes all three, one after the other, with the new password staged
    in [.next] beside the file first; a start finishes or forgets what a rotation
    left there. They are modelled as steps of one process, which may stop between
    any two and be started again. A rotation is under the lock of [AppState], so
    there is one at a time.

    What is taken of the outside: the role's password is changed by this gateway
    only, and an [ALTER ROLE] whose reply is lost has taken effect or never will;
    a new connection is accepted with the role's password and with no other; a
    secret is read back from its file as it was staged;
    renaming a file is one step, and a stopped process leaves the files as they
    are. *)

From S2P Require Import Prelude Cidr Catalogues Environment.
Local Open Scope Z_scope.

(** ** Connecting *)

(** How a connection goes: PostgreSQL answers it, no one does in time, or it
    breaks. *)
Inductive Net := Up | TimesOut | Breaks (e : string).
(** [Unreached]; [InvalidPassword] is [Failed] of [SqlState::INVALID_PASSWORD]. *)
Inductive Unreached := UTimedOut | InvalidPassword | UFailed (e : string).

Definition describe (u : Unreached) (database : string) : string :=
  match u with
  | UTimedOut => "connect to '" +:+ database +:+ "' timed out"
  | InvalidPassword => "connect to '" +:+ database +:+ "' failed: password authentication failed"
  | UFailed e => "connect to '" +:+ database +:+ "' failed: " +:+ e
  end.

(** [reach], with that password in [Credentials]. *)
Definition reach (role password : string) (n : Net) : result Unreached unit :=
  match n with
  | Up => if str_eqb password role then Ok tt else Err InvalidPassword
  | TimesOut => Err UTimedOut
  | Breaks e => Err (UFailed e)
  end.
Definition connect_raw (role password : string) (n : Net) (database : string) : result string unit :=
  map_err (λ u, describe u database) (reach role password n).

(** ** The vault *)

(** The cluster's password and the disk's: whether it is kept in a file at all,
    what the gateway is started with (that file, or the environment), and
    [.next]. *)
Record Vault := MkVault { v_role : string; v_kept : bool; v_file : string; v_next : option string }.

Definition set_role (p : string) (v : Vault) : Vault := MkVault p (v_kept v) (v_file v) (v_next v).
Definition set_next (n : option string) (v : Vault) : Vault := MkVault (v_role v) (v_kept v) (v_file v) n.
(** [promote]: [.next] over the file. *)
Definition promoted (v : Vault) : Vault :=
  match v_next v with Some p => MkVault (v_role v) (v_kept v) p None | None => v end.

(** [PromoteError], and what it leaves: only [Unsynced] has moved. *)
Inductive PromoteError := Unmoved (error : string) | Unsynced (error : string) | OtherPromote (error : string).
Definition has_moved (e : option PromoteError) : bool :=
  match e with None | Some (Unsynced _) => true | _ => false end.
Definition promote_step (e : option PromoteError) (v : Vault) : Vault := if has_moved e then promoted v else v.
Definition promote_display (e : PromoteError) : string :=
  match e with Unmoved e | Unsynced e | OtherPromote e => e end.

Definition STAGED : string := "next".

Section Secrets.
(** [wslib_file_atomic::beside]: a file's name with a suffix. *)
Context (beside : string → string → string).

Definition staged (file : string) : string := beside file STAGED.

(** ** [reach_postgres] *)

(** What the world answers it: its first connection, the read of [.next], its
    second connection, and the promotion or the removal of [.next]. *)
Record Reached := MkReached {
  r_first : Net; r_read : option string; r_second : Net;
  r_promote : option PromoteError; r_discard : option string
}.

(** Its answer, the vault and the password in [Credentials] after it. *)
Definition reach_postgres (path : string) (a : Reached) (v : Vault) (memory : string)
    : result string unit * Vault * string :=
  match (if v_kept v then v_next v else None) with
  | None => (connect_raw (v_role v) memory (r_first a) "postgres", v, memory)
  | Some next =>
      match reach (v_role v) memory (r_first a) with
      | Err InvalidPassword =>
          match r_read a with
          | Some e => (Err e, v, memory)
          | None =>
              match connect_raw (v_role v) next (r_second a) "postgres" with
              | Err e => (Err e, v, memory)
              | Ok _ =>
                  (match r_promote a with
                   | None => Ok tt
                   | Some e => Err (staged path +:+ ": " +:+ promote_display e)
                   end, promote_step (r_promote a) v, next)
              end
          end
      | Err e => (Err (describe e "postgres"), v, memory)
      | Ok _ =>
          match r_discard a with
          | None => (Ok tt, set_next None v, memory)
          | Some e => (Err (staged path +:+ ": " +:+ e), v, memory)
          end
      end
  end.

(** ** [rotate_pg_password] *)

(** Where it stands between two of its effects: to set its timeout, to stage, to
    alter the role, to promote. *)
Inductive RotateAt := RTimeout | RStage (p : string) | RAlter (p : string) | RPromote (p : string).

(** What the next effect is answered. A failed [stage] leaves what it leaves; a
    failed [ALTER ROLE] may have taken. *)
Inductive RotateReply :=
  | RFine
  | RFails (e : string)
  | RStageFails (e : string) (rest : option string)
  | RAlterFails (e : string) (took : bool)
  | RPromoteFails (e : PromoteError).

Definition not_saved (path : string) (e : PromoteError) : string :=
  match e with
  | Unmoved error => "the password was changed but not saved (" +:+ error +:+ "); it is in " +:+ staged path +:+
      ", which the next start promotes"
  | Unsynced error => "the password was changed and saved in " +:+ path +:+ ", but its directory was not synced (" +:+
      error +:+ ")"
  | OtherPromote error => "the password was changed but not saved (" +:+ error +:+ ")"
  end.

(** One effect: where the rotation stands after it or what it answers, the vault
    and [Credentials]. [fresh] is the [random_hex] it takes. *)
Definition rotate_step (path fresh : string) (r : RotateReply) (t : RotateAt) (v : Vault) (memory : string)
    : option ((RotateAt + result string string) * Vault * string) :=
  match t, r with
  | RTimeout, RFine => Some (inl (if v_kept v then RStage fresh else RAlter fresh), v, memory)
  | RTimeout, RFails e => Some (inr (Err e), v, memory)
  | RStage p, RFine => Some (inl (RAlter p), set_next (Some p) v, memory)
  | RStage p, RStageFails e rest => Some (inr (Err (staged path +:+ ": " +:+ e)), set_next rest v, memory)
  | RAlter p, RFine =>
      Some (if v_kept v then inl (RPromote p) else inr (Ok p), set_role p v, p)
  | RAlter p, RAlterFails e took =>
      Some (inr (Err ("ALTER ROLE failed: " +:+ e)), if (took : bool) then set_role p v else v, memory)
  | RPromote p, RFine => Some (inr (Ok p), promote_step None v, memory)
  | RPromote p, RPromoteFails e => Some (inr (Err (not_saved path e)), promote_step (Some e) v, memory)
  | _, _ => None
  end.

(** ** The process *)

(** Waiting for PostgreSQL after that many attempts, serving, or rotating. *)
Inductive Doing := Waiting (attempts : Z) | Serving | Rotating (t : RotateAt).
Record Process := MkProcess { p_memory : string; p_doing : Doing }.
(** The process if there is one, and the last rotation's answer. *)
Record Secretary := MkSecretary {
  s_vault : Vault; s_process : option Process; s_answer : option (result string string)
}.

(** A start reads the file or the environment; a wait asks once; a rotation
    connects, and takes its effects; the process stops. *)
Inductive SecretEvent :=
  | VStart
  | VReach (a : Reached)
  | VRotate (n : Net)
  | VStep (fresh : string) (r : RotateReply)
  | VStop.

(** The start's loop: sixty failures are waited out, the next ends it. *)
Definition waited (attempts : Z) (answer : result string unit) : option Doing :=
  match answer with
  | Ok _ => Some Serving
  | Err _ => if attempts <? 60 then Some (Waiting (attempts + 1)) else None
  end.

Definition secret_step (path : string) (s : Secretary) (e : SecretEvent) : option Secretary :=
  match e, s_process s with
  | VStart, None => Some (MkSecretary (s_vault s) (Some (MkProcess (v_file (s_vault s)) (Waiting 0))) (s_answer s))
  | VStop, Some _ => Some (MkSecretary (s_vault s) None (s_answer s))
  | VReach a, Some (MkProcess memory (Waiting n)) =>
      let '(answer, v, memory) := reach_postgres path a (s_vault s) memory in
      Some (MkSecretary v (MkProcess memory <$> waited n answer) (s_answer s))
  | VRotate n, Some (MkProcess memory Serving) =>
      Some (match connect_raw (v_role (s_vault s)) memory n "postgres" with
            | Ok _ => MkSecretary (s_vault s) (Some (MkProcess memory (Rotating RTimeout))) (s_answer s)
            | Err e => MkSecretary (s_vault s) (s_process s) (Some (Err e))
            end)
  | VStep fresh r, Some (MkProcess memory (Rotating t)) =>
      '(next, v, memory) ← rotate_step path fresh r t (s_vault s) memory;
      Some (match next with
            | inl t => MkSecretary v (Some (MkProcess memory (Rotating t))) (s_answer s)
            | inr answer => MkSecretary v (Some (MkProcess memory Serving)) (Some answer)
            end)
  | _, _ => None
  end.
Fixpoint secret_steps (path : string) (s : Secretary) (es : list SecretEvent) : option Secretary :=
  match es with [] => Some s | e :: es => s' ← secret_step path s e; secret_steps path s' es end.

End Secrets.

(** A role with its password in its file, and no process. *)
Definition fresh_vault (p : string) : Secretary := MkSecretary (MkVault p true p None) None None.

(** ** [wiretap-backend rotate] *)

(** A socket address: what [lookup_host] makes of [http_listen]. *)
Definition SocketAddr : Type := IpAddr * Z.
Definition is_unspecified (ip : IpAddr) : bool := match ip with V4 b | V6 b => b =? 0 end.
Definition localhost (ip : IpAddr) : IpAddr := match ip with V4 _ => V4 (127 * 2 ^ 24 + 1) | V6 _ => V6 1 end.

Definition local_listener (listen : string) (looked_up : result string (list SocketAddr)) : result string SocketAddr :=
  let about (why : string) := "WIRETAP_HTTP_LISTEN " +:+ debug_str listen +:+ ": " +:+ why in
  addrs <-? map_err about looked_up ;;
  addr <-? ok_or (head addrs) (about "no address") ;;
  let '(ip, port) := addr : SocketAddr in
  Ok (if is_unspecified ip then localhost ip else ip, port).

(** The request it makes: where to, its path and its [Authorization]. *)
Record RotateRequest := MkRotateRequest { rq_to : SocketAddr; rq_path : string; rq_authorization : string }.
(** What comes back within a minute: a status, and the body as [Rotated], as
    [Refused] and as text, the first two where it parses as one. *)
Record RotateResponse := MkRotateResponse {
  rs_status : Z; rs_status_text : string;
  rs_rotated : result string (string * string); rs_refused : option string; rs_text : string
}.

Definition rotate_request (c : Config) (which : string) (looked_up : result string (list SocketAddr))
    : result string RotateRequest :=
  if negb (str_eqb which "db-password" || str_eqb which "admin-key") then
    Err ("unknown secret '" +:+ which +:+ "': db-password or admin-key")
  else
    key <-? ok_or (cf_bootstrap_admin_key c)
      "no admin key to ask the gateway with: WIRETAP_ADMIN_KEY or WIRETAP_ADMIN_KEY_FILE" ;;
    addr <-? local_listener (cf_http_listen c) looked_up ;;
    Ok (MkRotateRequest addr (cf_base_path c +:+ "/v1/admin/secrets/" +:+ which +:+ "/rotate") ("Bearer " +:+ key)).

(** [rotate_command]: what is printed to each stream, or the complaint.
    [exchange] sends a request; [None] is a minute without an answer. *)
Definition rotate_command (c : Config) (which : string) (looked_up : result string (list SocketAddr))
    (show_addr : SocketAddr → string) (exchange : RotateRequest → option (result string RotateResponse))
    : result string (string * string) :=
  request <-? rotate_request c which looked_up ;;
  answered <-? ok_or (exchange request) ("the gateway on " +:+ show_addr (rq_to request) +:+ " did not answer") ;;
  response <-? answered ;;
  if negb ((200 <=? rs_status response) && (rs_status response <? 300)) then
    let why := default (rs_text response) (rs_refused response) in
    let hint := if rs_status response =? 401 then
      "; if the admin key was rotated since the gateway started, pass the current one " +:+
      "as WIRETAP_ADMIN_KEY" else "" in
    Err ("the gateway refused (" +:+ rs_status_text response +:+ "): " +:+ why +:+ hint)
  else rs_rotated response.

(** [main]'s reading of its arguments. *)
Inductive Invocation := RunGateway | RotateSecret (which : string) | Usage.
Definition invocation (args : list string) : Invocation :=
  match args with
  | [] => RunGateway
  | [verb; which] => if str_eqb verb "rotate" then RotateSecret which else Usage
  | _ => Usage
  end.

(** ** The disk knows the password *)

(** No promotion has failed to move its file. *)
Definition moves (e : SecretEvent) : bool :=
  match e with
  | VReach a => has_moved (r_promote a)
  | VStep _ (RPromoteFails e) => has_moved (Some e)
  | _ => true
  end.

(** The role's password is in the file, or staged beside it. *)
Definition known (v : Vault) : Prop := v_file v = v_role v ∨ v_next v = Some (v_role v).

(** And what a process may count on: one whose own password works has it in the
    file, and so has a rotation until its [ALTER ROLE]; after it the new one is
    staged. *)
Definition process_ok (v : Vault) (p : Process) : Prop :=
  match p_doing p with
  | Waiting _ | Serving => p_memory p = v_role v → v_file v = v_role v
  | Rotating (RTimeout | RStage _) => v_file v = v_role v ∧ p_memory p = v_role v
  | Rotating (RAlter q) => (v_file v = v_role v ∧ p_memory p = v_role v) ∧ v_next v = Some q
  | Rotating (RPromote q) => v_role v = q ∧ v_next v = Some q
  end.
Definition vault_ok (s : Secretary) : Prop :=
  v_kept (s_vault s) = true ∧ known (s_vault s) ∧
  match s_process s with Some p => process_ok (s_vault s) p | None => True end.

Section Recovery.
Context (beside : string → string → string) (path : string).

Lemma reach_ok role password n : reach role password n = Ok tt → password = role.
Proof. unfold reach. destruct n; try done. destruct (str_eqb password role) eqn:He; [|done]. by apply str_eqb_eq in He. Qed.
Lemma connect_raw_ok role password n d : connect_raw role password n d = Ok tt → password = role.
Proof. unfold connect_raw. destruct (reach role password n) as [[]|] eqn:Hr; [|done]. intros _. by apply reach_ok in Hr. Qed.
Lemma reach_invalid role password n : reach role password n = Err InvalidPassword → password ≠ role.
Proof. unfold reach. destruct n; try done. destruct (str_eqb password role) eqn:He; [done|]. by apply str_eqb_neq in He. Qed.

Lemma reach_keeps a v memory answer v' memory' :
  has_moved (r_promote a) = true → v_kept v = true → known v → (memory = v_role v → v_file v = v_role v) →
  reach_postgres beside path a v memory = (answer, v', memory') →
  v_kept v' = true ∧ known v' ∧ (memory' = v_role v' → v_file v' = v_role v').
Proof.
  intros Hm Hk Hn Hok. unfold reach_postgres. rewrite Hk. destruct (v_next v) as [next|] eqn:Hnext; [|by intros [= <- <- <-]].
  destruct (reach (v_role v) memory (r_first a)) as [[]|[| |e]] eqn:Hr; try by intros [= <- <- <-].
  - apply reach_ok in Hr. specialize (Hok Hr). destruct (r_discard a); intros [= <- <- <-]; [done|].
    split_and!; [done|by left|done].
  - destruct (r_read a); [by intros [= <- <- <-]|].
    destruct (connect_raw _ next _ _) as [[]|] eqn:Hc; [|by intros [= <- <- <-]]. apply connect_raw_ok in Hc.
    intros [= _ <- <-]. unfold promote_step, promoted. rewrite Hm, Hnext. cbn. split_and!; [done|by left|done].
Qed.

Lemma secret_step_ok s e s' :
  moves e = true → vault_ok s → secret_step beside path s e = Some s' → vault_ok s'.
Proof.
  intros Hm (Hk & Hn & Hp). unfold secret_step, vault_ok.
  destruct e as [|a|n|fresh r|], (s_process s) as [[memory doing]|] eqn:Hproc; try done.
  - intros [= <-]. cbn. split_and!; [done|done|]. by intros <-.
  - destruct doing as [attempts| |]; try done.
    destruct (reach_postgres _ _ _ _ _) as [[answer v'] memory'] eqn:Hr. intros [= <-]. cbn.
    apply reach_keeps in Hr as (? & ? & ?); try done. split_and!; try done.
    destruct answer; [done|]. cbn. by destruct (attempts <? 60).
  - destruct doing; try done. destruct (connect_raw _ _ _ _) as [[]|] eqn:Hc; intros [= <-]; cbn; split_and!; try done.
    + apply Hp. by apply connect_raw_ok in Hc.
    + by apply connect_raw_ok in Hc.
  - destruct doing as [| |t]; try done. unfold process_ok in Hp. cbn [p_doing] in Hp.
    destruct t as [|q|q|q], r as [|er|er rest|er took|er]; try done; cbn [rotate_step mbind option_bind].
    + rewrite Hk. by intros [= <-].
    + intros [= <-]. cbn. by destruct Hp.
    + intros [= <-]. cbn. destruct Hp. split_and!; [done|by left|done..].
    + intros [= <-]. cbn. destruct Hp. split_and!; [done|by left|done].
    + rewrite Hk. intros [= <-]. destruct Hp. cbn. split_and!; [done|by right|done..].
    + destruct Hp as [[Hf Hq] Hx]. cbn [p_memory] in Hq. intros [= <-].
      destruct took; cbn; split_and!; try done; [by right|congruence].
    + intros [= <-]. destruct Hp as [Hr Hx]. unfold promote_step, promoted. cbn [has_moved]. rewrite Hx. cbn.
      split_and!; [done|by left|done].
    + intros [= <-]. destruct Hp as [Hr Hx]. unfold promote_step, promoted. cbn [moves] in Hm. rewrite Hm, Hx. cbn.
      split_and!; [done|by left|done].
  - by intros [= <-].
Qed.
Lemma secret_steps_ok es : ∀ s s',
  forallb moves es = true → vault_ok s → secret_steps beside path s es = Some s' → vault_ok s'.
Proof.
  induction es as [|e es IH]; intros s s' Hm Hs; [by intros [= <-]|]. cbn in *.
  apply andb_true_iff in Hm as [He Hes]. destruct (secret_step beside path s e) as [s1|] eqn:H1; [|done]. cbn.
  apply IH; [done|]. by eapply secret_step_ok.
Qed.

(** A start that reaches PostgreSQL and whose disk works. *)
Definition healthy : Reached := MkReached Up None Up None None.

Lemma start_serves s :
  v_kept (s_vault s) = true → known (s_vault s) → s_process s = None →
  let p := v_role (s_vault s) in
  secret_steps beside path s [VStart; VReach healthy] =
  Some (MkSecretary (MkVault p true p None) (Some (MkProcess p Serving)) (s_answer s)).
Proof.
  destruct s as [[role kept file next] proc answer]. cbn [s_vault v_role v_kept s_process s_answer]. intros -> Hn ->. cbn.
  unfold reach_postgres, reach. cbn [v_kept v_next v_role r_first r_read r_second r_promote r_discard healthy].
  destruct next as [next|].
  - destruct (str_eqb file role) eqn:He.
    + apply str_eqb_eq in He as ->. done.
    + apply str_eqb_neq in He. destruct Hn as [Hn|[= ->]]; [done|]. cbn. unfold connect_raw, reach.
      by rewrite str_eqb_refl.
  - destruct Hn as [Hn|Hn]; [|done]. cbn in Hn. subst file. unfold connect_raw, reach. by rewrite str_eqb_refl.
Qed.

(** C11: Through any number of rotations, however each of their effects goes
    and wherever the process stops, as long as no promotion fails to move its
    file: the role's password is in the gateway's file or staged beside it; so
    the process started next is serving as soon as PostgreSQL answers it, with
    the password in its file and nothing staged; and a rotation that answers a
    password has put it in the role and in the file. *)
Theorem rotation_never_locks_out (p : string) (es : list SecretEvent) (s : Secretary)
    (Hm : forallb moves es = true) (Hs : secret_steps beside path (fresh_vault p) es = Some s) :
  let q := v_role (s_vault s) in
  known (s_vault s) ∧
  secret_steps beside path s ((if s_process s then [VStop] else []) ++ [VStart; VReach healthy]) =
    Some (MkSecretary (MkVault q true q None) (Some (MkProcess q Serving)) (s_answer s)) ∧
  (∀ t fresh r memory answer s', s_process s = Some (MkProcess memory (Rotating t)) →
     rotate_step beside path fresh r t (s_vault s) memory = Some (inr (Ok answer), s', memory) →
     v_role s' = answer ∧ v_file s' = answer ∧ v_next s' = None).
Proof.
  assert (vault_ok s) as (Hk & Hn & Hp).
  { eapply secret_steps_ok; [exact Hm| |exact Hs]. by split_and!; [|left|]. }
  intros q. split_and!; [done| |].
  - destruct (s_process s) eqn:Hproc.
    + cbn [app secret_steps secret_step]. rewrite Hproc. cbn [mbind option_bind].
      apply (start_serves (MkSecretary (s_vault s) None (s_answer s))); done.
    + by apply start_serves.
  - intros t fresh r memory answer s' Hproc. rewrite Hproc in Hp. unfold process_ok in Hp. cbn in Hp.
    destruct t as [|x|x|x], r as [|er|er rest|er took|er]; try done; cbn; rewrite ?Hk; try done.
    destruct Hp as [Hr Hx]. unfold promote_step, promoted. cbn. rewrite Hx. by intros [= <- <-].
Qed.
End Recovery.

(** ** What a failed promotion does *)

(** The disk holds the role's password nowhere, and no start connects again. *)
Definition locked_out (v : Vault) : Prop := v_file v ≠ v_role v ∧ v_next v ≠ Some (v_role v).

Section Lockout.
Context (beside : string → string → string) (path : string).

(** A rotation whose process stops between the role and the file; the next start
    connects with what was staged and can not promote it, tries again, and takes
    its own connection for the sign that what was staged never took. *)
Definition promotion_retried (e : string) : list SecretEvent :=
  [VStart; VReach healthy; VRotate Up; VStep "new" RFine; VStep "new" RFine; VStep "new" RFine; VStop;
   VStart; VReach (MkReached Up None Up (Some (Unmoved e)) None); VReach healthy].

(** A rotation that is not saved and says that the next start promotes it; a
    second one stages over it and is refused. *)
Definition rotated_again (e : string) : list SecretEvent :=
  [VStart; VReach healthy; VRotate Up; VStep "new" RFine; VStep "new" RFine; VStep "new" RFine;
   VStep "new" (RPromoteFails (Unmoved e)); VRotate Up; VStep "newer" RFine; VStep "newer" RFine;
   VStep "newer" (RAlterFails "canceling statement due to statement timeout" false)].

Lemma reach_refused role password n d : password ≠ role → is_ok (connect_raw role password n d) = false.
Proof. intros Hne. unfold connect_raw, reach. destruct n; try done. by rewrite (proj2 (str_eqb_neq _ _) Hne). Qed.
Lemma reach_stuck a v memory :
  locked_out v → memory ≠ v_role v → ∃ e, reach_postgres beside path a v memory = (Err e, v, memory).
Proof.
  intros [_ Hnext] Hne. unfold reach_postgres. destruct (if v_kept v then v_next v else None) as [next|] eqn:Hn.
  - assert (next ≠ v_role v) as Hx by (destruct (v_kept v); congruence).
    destruct (reach _ memory _) as [[]|[| |e]] eqn:Hr; try by eauto.
    + by apply reach_ok in Hr.
    + destruct (r_read a); [by eauto|]. pose proof (reach_refused (v_role v) next (r_second a) "postgres" Hx).
      destruct (connect_raw _ next _ _); [done|eauto].
  - pose proof (reach_refused (v_role v) memory (r_first a) "postgres" Hne). destruct (connect_raw _ memory _ _); [done|eauto].
Qed.

(** However often it is started, and however PostgreSQL and the disk answer. *)
Lemma stuck_forever answers : ∀ s s',
  locked_out (s_vault s) →
  match s_process s with
  | Some (MkProcess memory (Waiting _)) => memory ≠ v_role (s_vault s) | Some _ => False | None => True end →
  secret_steps beside path s answers = Some s' →
  (∀ e, e ∈ answers → e = VStart ∨ e = VStop ∨ ∃ a, e = VReach a) →
  s_vault s' = s_vault s ∧ ∀ p, s_process s' = Some p → p_doing p ≠ Serving.
Proof.
  induction answers as [|e es IH]; intros s s' Hl Hp.
  { intros [= <-] _. split; [done|]. intros [m d] Hq. rewrite Hq in Hp. by destruct d. }
  cbn [secret_steps]. intros Hs Hes. assert (∀ x, x ∈ es → x = VStart ∨ x = VStop ∨ ∃ a, x = VReach a) as Hes'.
  { intros x Hx. apply Hes. by right. }
  destruct (Hes e ltac:(left)) as [->|[->|[a ->]]]; cbn [secret_step] in Hs;
    destruct (s_process s) as [[memory doing]|] eqn:Hproc; try done; cbn [mbind option_bind] in Hs.
  - eapply IH in Hs; [exact Hs|done|cbn; apply Hl|done].
  - eapply IH in Hs; [exact Hs|done|done|done].
  - destruct doing as [n| |]; try done. destruct (reach_stuck a _ memory Hl Hp) as [er Hr]. rewrite Hr in Hs. cbn in Hs.
    eapply IH in Hs; [exact Hs|done| |done]. cbn. by destruct (n <? 60).
Qed.

(** C38: One promotion that fails to move its file is enough to lock the
    gateway out of its database, in two ways. A start that can not promote what
    a stopped rotation staged keeps that password for its connections, so its
    next attempt connects, takes [.next] for one that never took, and discards
    the only copy. A rotation that is changed and not saved, which it says the
    next start promotes, is staged over by a second rotation, whose [ALTER ROLE]
    is then refused. Neither the file nor [.next] is then the role's password,
    and no process started later serves, whatever answers it. *)
Theorem failed_promotion_locks_out (e : string) :
  Forall (λ es, ∃ s, secret_steps beside path (fresh_vault "old") es = Some s ∧ locked_out (s_vault s) ∧
    ∀ later s', (∀ x, x ∈ later → x = VStart ∨ x = VStop ∨ ∃ a, x = VReach a) →
      secret_steps beside path s (VStop :: later) = Some s' →
      s_vault s' = s_vault s ∧ ∀ p, s_process s' = Some p → p_doing p ≠ Serving)
    [promotion_retried e; rotated_again e].
Proof.
  assert (∀ s p later s', locked_out (s_vault s) → s_process s = Some p →
    (∀ x, x ∈ later → x = VStart ∨ x = VStop ∨ ∃ a, x = VReach a) →
    secret_steps beside path s (VStop :: later) = Some s' →
    s_vault s' = s_vault s ∧ ∀ p, s_process s' = Some p → p_doing p ≠ Serving) as Hstuck.
  { intros s p later s' Hl Hp Hlater. cbn [secret_steps secret_step]. rewrite Hp. cbn [mbind option_bind]. intros Hs.
    eapply stuck_forever in Hs; [exact Hs|done|done|done]. }
  repeat constructor; eexists; (split; [reflexivity|]).
  all: match goal with |- locked_out ?v ∧ _ => assert (locked_out v) as Hl by (split; vm_compute; congruence) end.
  all: split; [done|]; intros later s' Hlater Hs; eapply Hstuck; [exact Hl|reflexivity|exact Hlater|exact Hs].
Qed.
End Lockout.

(** ** The command's request *)

(** The command asks the gateway it is configured as: a listener on all
    addresses is asked on loopback, of its own family, any other where it
    listens, on the same port; and nothing is asked of anyone without an admin
    key. *)
Lemma rotate_asks_itself c which ip port rest r :
  rotate_request c which (Ok ((ip, port) :: rest)) = Ok r →
  (which = "db-password" ∨ which = "admin-key") ∧
  (∃ key, cf_bootstrap_admin_key c = Some key ∧ rq_authorization r = "Bearer " +:+ key) ∧
  (rq_to r).2 = port ∧ is_unspecified (rq_to r).1 = false ∧
  (is_unspecified ip = false → (rq_to r).1 = ip) ∧ (is_unspecified ip = true → (rq_to r).1 = localhost ip).
Proof.
  unfold rotate_request. destruct (str_eqb which "db-password" || str_eqb which "admin-key") eqn:Hw; [|done].
  cbn [negb]. destruct (cf_bootstrap_admin_key c) as [key|]; [|done]. cbn.
  intros [= <-]. cbn. split_and!.
  - apply orb_true_iff in Hw as [Hw%str_eqb_eq|Hw%str_eqb_eq]; auto.
  - eauto.
  - done.
  - destruct (is_unspecified ip) eqn:Hu; [|done]. by destruct ip.
  - by intros ->.
  - by intros ->.
Qed.

(** ** A rotation, its crash and the start after it *)

Definition beside_dot (file suffix : string) : string := file +:+ "." +:+ suffix.

Lemma rotation_never_locks_out_witness :
  let es := [VStart; VReach healthy; VRotate Up; VStep "new" RFine; VStep "new" RFine; VStep "new" RFine] in
  ∃ s, secret_steps beside_dot "/run/pw" (fresh_vault "old") es = Some s ∧
    v_file (s_vault s) = "old" ∧ v_role (s_vault s) = "new" ∧ known (s_vault s) ∧
    ∃ s', secret_steps beside_dot "/run/pw" s [VStop; VStart; VReach healthy] = Some s' ∧ v_file (s_vault s') = "new".
Proof.
  eexists. split; [reflexivity|]. split_and!; [reflexivity|reflexivity| |].
  - eapply (rotation_never_locks_out beside_dot "/run/pw" "old"
      [VStart; VReach healthy; VRotate Up; VStep "new" RFine; VStep "new" RFine; VStep "new" RFine]); reflexivity.
  - eexists. split; reflexivity.
Defined.
