(* ===== verification/Settings.v ===== *)
(** * Settings and their layers ([settings.rs], [cli.rs], [ui.rs])

    What the server runs on, resolved from the UI's settings, the flags over
    them, the config file over those, and the environment for secrets; and what
    the rest of the server reads off the result: devices and their bus numbers,
    databases and the forwarding configuration of each. *)

From S2P Require Import Prelude F64 Model Source Cidr Catalogues.
From Stdlib Require Import Ascii.
Import Sample Config.
Local Open Scope Z_scope.

(** ** Paths *)

(** [Path::file_name] and [Path::parent] read a path's components, so trailing
    separators and [.] components do not count. *)
Fixpoint str_rev (s acc : string) : string :=
  match s with EmptyString => acc | String c s => str_rev s (String c acc) end.

(** On the reversed text: drop what does not count at the end. *)
Fixpoint strip_tail_rev (s : string) : string :=
  match s with
  | String c EmptyString => s
  | String c rest =>
      if bool_decide (c = "/"%char) then strip_tail_rev rest
      else match rest with
           | String d _ =>
               if bool_decide (c = "."%char) && bool_decide (d = "/"%char) then strip_tail_rev rest else s
           | EmptyString => s
           end
  | EmptyString => s
  end.

(** The text up to the first [/], and from it on. *)
Fixpoint span_slash (s : string) : string * string :=
  match s with
  | EmptyString => (EmptyString, EmptyString)
  | String c rest =>
      if bool_decide (c = "/"%char) then (EmptyString, s)
      else let '(a, b) := span_slash rest in (String c a, b)
  end.

(** The directory part and the last component. *)
Definition split_path (p : string) : string * string :=
  let r := strip_tail_rev (str_rev p EmptyString) in
  let '(name, dir) := span_slash r in
  (str_rev (strip_tail_rev dir) EmptyString, str_rev name EmptyString).

Definition file_name (p : string) : option string :=
  let '(_, name) := split_path p in
  if is_empty_str name || str_eqb name "." || str_eqb name ".." then None else Some name.

Definition parent (p : string) : option string :=
  let '(dir, name) := split_path p in
  if is_empty_str name then None else Some dir.

(** [file_stem] and [extension]: the name around its last dot, unless that is its
    first character. *)
Fixpoint span_dot (s : string) : option (string * string) :=
  match s with
  | EmptyString => None
  | String c rest =>
      if bool_decide (c = "."%char) then Some (EmptyString, rest)
      else match span_dot rest with Some (a, b) => Some (String c a, b) | None => None end
  end.
Definition stem_ext (name : string) : string * option string :=
  match span_dot (str_rev name EmptyString) with
  | Some (ext, stem) =>
      if is_empty_str stem then (name, None)
      else (str_rev stem EmptyString, Some (str_rev ext EmptyString))
  | None => (name, None)
  end.

Definition with_file_name (p name : string) : string :=
  match file_name p with
  | Some _ => path_join (split_path p).1 name
  | None => path_join p name
  end.

(** ** [cli.rs] *)

Record Cli := MkCli {
  iface : option string;
  cli_host : string;
  cli_port : Z;
  cli_allowed_clients : option string;
  cli_bus_offset : Z;
  cli_echo_console : bool;
  cli_colour : bool;
  cli_default_dir : string;
  cli_can_fd : bool;
  cli_log_level : string;
  cli_stats_interval : f64;
  test_pattern_enable : bool;
  test_pattern_ifaces : string;
  ingest_enable : bool;
  ingest_host : string;
  ingest_port : Z;
  ingest_token : option string;
  ingest_keepalive_secs : f64;
  ingest_max_batch_frames : nat;
  forward_enable : bool;
  forward_host : string;
  forward_port : Z;
  forward_api_key : option string;
  forward_database : string;
  pg_batch_size : nat;
  pg_flush_interval : f64;
  pg_queue_size : nat;
  pg_dir : option string;
  pg_cache_path : option string;
  pg_cache_max_mb : Z;
  pg_queue_flush_pct : Z;
  cli_pg_enable : bool;
  pg_dsn : option string;
  pg_func : option string;
  pg_write_mode : option string;
  ui_config : option string;
  given_flags : list string
}.

(** The defaults [clap] fills in. *)
Definition cli_default : Cli := MkCli
  None "0.0.0.0" 23 None 0 false false "rx" false "INFO" (of_Z 10)
  false "" false "0.0.0.0" 9323 None (of_Z 30) 256
  false "127.0.0.1" 9323 None "" 500 (f64_div (of_Z 1) (of_Z 2)) (Z.to_nat 50000) None None 1000 50
  false None None None None [].

Definition given (c : Cli) (field : string) : bool := bool_decide (field ∈ given_flags c).

Definition is_some {A} (o : option A) : bool := match o with Some _ => true | None => false end.

Definition retired_flags_used (c : Cli) : list string :=
  filter_map (λ '(name, used), if used : bool then Some name else None)
    [("--pg-dsn", is_some (pg_dsn c)); ("--pg-func", is_some (pg_func c));
     ("--pg-write-mode", is_some (pg_write_mode c))].

(** ** The UI's layer ([ui.rs]) *)

Record UiDevice := MkUiDevice { ui_interface : string; ui_fd : option bool; ui_database : option string }.
Record UiForward := MkUiForward {
  uf_enable : option bool; uf_host : option string; uf_port : option Z; uf_api_key : option string;
  uf_database : option string; uf_batch_size : option nat; uf_flush_interval : option f64;
  uf_queue_size : option nat; uf_cache_max_mb : option Z; uf_queue_flush_pct : option Z
}.
Record UiIngest := MkUiIngest { ui_enable : option bool; ui_port : option Z; ui_token : option string }.
Record UiLogging := MkUiLogging { ul_level : option string }.
Record UiConfig := MkUiConfig {
  ui_devices : option (list UiDevice);
  ui_forward : UiForward;
  ui_ingest : UiIngest;
  ui_logging : UiLogging
}.
Definition ui_default : UiConfig :=
  MkUiConfig None (MkUiForward None None None None None None None None None None)
    (MkUiIngest None None None) (MkUiLogging None).

(** [UiDevice::table]. *)
Definition ui_table (d : UiDevice) : result string DeviceSection :=
  let name := ui_interface d in
  if is_empty_str name || (15 <? String.length name)%nat ||
     str_any (λ c, bool_decide (c = "/"%char) || bool_decide (c = ":"%char)) name ||
     str_any ascii_is_space name
  then Err (debug_str name +:+ " is not a CAN interface name")
  else Ok (MkDevice (Some "can") (Some name) (Some "passive") (ui_database d) (ui_fd d)
             None None None None None None None None []).

(** [beneath]'s [fill!] of one flag. *)
Definition fill {A} (c : Cli) (flag : string) (v : option A) (old : A) : A :=
  match v with Some v => if given c flag then old else v | None => old end.

Definition beneath (ui : UiConfig) (c : Cli) : Cli :=
  let f := ui_forward ui in
  let i := ui_ingest ui in
  MkCli (iface c) (cli_host c) (cli_port c) (cli_allowed_clients c) (cli_bus_offset c)
    (cli_echo_console c) (cli_colour c) (cli_default_dir c) (cli_can_fd c)
    (fill c "log_level" (ul_level (ui_logging ui)) (cli_log_level c))
    (cli_stats_interval c) (test_pattern_enable c) (test_pattern_ifaces c)
    (fill c "ingest_enable" (ui_enable i) (ingest_enable c))
    (ingest_host c)
    (fill c "ingest_port" (ui_port i) (ingest_port c))
    (ingest_token c) (ingest_keepalive_secs c) (ingest_max_batch_frames c)
    (fill c "forward_enable" (uf_enable f) (forward_enable c))
    (fill c "forward_host" (uf_host f) (forward_host c))
    (fill c "forward_port" (uf_port f) (forward_port c))
    (forward_api_key c)
    (fill c "forward_database" (uf_database f) (forward_database c))
    (fill c "pg_batch_size" (uf_batch_size f) (pg_batch_size c))
    (fill c "pg_flush_interval" (uf_flush_interval f) (pg_flush_interval c))
    (fill c "pg_queue_size" (uf_queue_size f) (pg_queue_size c))
    (pg_dir c) (pg_cache_path c)
    (fill c "pg_cache_max_mb" (uf_cache_max_mb f) (pg_cache_max_mb c))
    (fill c "pg_queue_flush_pct" (uf_queue_flush_pct f) (pg_queue_flush_pct c))
    (cli_pg_enable c) (pg_dsn c) (pg_func c) (pg_write_mode c) (ui_config c) (given_flags c).

Inductive Origin := FromDefault | FromUi | FromFile | FromEnv (var : string) | FromFlag (field : string).
#[global] Instance Origin_eq_dec : EqDecision Origin.
Proof. solve_decision. Defined.

(** ** The environment *)

Record Env := MkEnv {
  env_ingest_token : option string;
  env_forward_api_key : option string;
  env_cache_path : option string;
  env_state_dir : option string;
  env_home : option string;
  env_hostname : option string;
  (** The files the process sees: [Path::exists], and a catalogue's text. *)
  env_exists : string → bool;
  env_read : string → result string (list Z)
}.

(** ** The protocol's and the serial library's checks *)

Class SettingsLib := {
  Parity : Type;
  Parity_eq_dec : EqDecision Parity;
  parity_parse : string → result string Parity;
  line_validate : Z → Z → Parity → Z → result string ();
  valid_database_name : string → bool;
  valid_daemon_id : string → bool;
  (** A database's name is a lowercase letter, then lowercase letters, digits or
      underscores. *)
  database_name_chars : ∀ n, valid_database_name n = true →
    str_all (λ c, ascii_is_lower c || ascii_is_digit c || bool_decide (c = "_"%char)) n = true ∧
    is_empty_str n = false
}.
#[global] Existing Instance Parity_eq_dec.

Inductive Mode := Active | Passive.
#[global] Instance Mode_eq_dec : EqDecision Mode.
Proof. solve_decision. Defined.
Definition mode_as_str (m : Mode) : string := match m with Active => "active" | Passive => "passive" end.

Inductive Framing := ModbusRtu.
#[global] Instance Framing_eq_dec : EqDecision Framing.
Proof. solve_decision. Defined.
Definition framing_as_str (f : Framing) : string := match f with ModbusRtu => "modbus-rtu" end.

Definition SUPPORTED_BAUDS : list Z :=
  [1200; 2400; 4800; 9600; 19200; 38400; 57600; 115200; 230400; 460800; 921600].

Definition HIDDEN_FROM_THE_UNIT : list string := ["/home"; "/root"; "/run/user"; "/tmp"; "/var/tmp"].

Definition LEGACY_CACHE_FILE : string := ".wiretap-server-cache.db".
Definition STAGED_CACHE_FILE : string := "adopt.db".

Inductive LogLevel := Debug | Info | Warning_ | Error_.
#[global] Instance LogLevel_eq_dec : EqDecision LogLevel.
Proof. solve_decision. Defined.
Definition level_as_str (l : LogLevel) : string :=
  match l with Debug => "DEBUG" | Info => "INFO" | Warning_ => "WARNING" | Error_ => "ERROR" end.
Definition level_from_str (s : string) : option LogLevel :=
  let u := to_ascii_uppercase s in
  if str_eqb u "DEBUG" then Some Debug
  else if str_eqb u "INFO" then Some Info
  else if str_eqb u "WARNING" then Some Warning_
  else if str_eqb u "ERROR" then Some Error_
  else None.

Inductive SettingsError :=
  | RetiredPostgresSink
  | BadDirection (d : string)
  | BadLogLevel (l : string)
  | IoError (path err : string)
  | ParseError (e : string)
  | DeviceError (index : nat) (what : string)
  | BadDatabase (name : string)
  | BadDaemonId (name : string)
  | BadAllowedClient (why : CidrError).

Inductive Warning :=
  | RetiredFlags (flags : list string)
  | UnknownKey (key : string)
  | NoCaptureSource
  | NoForwardSink
  | ForwardKeyMissing
  | UiIgnored (why : string)
  | TestPatternDisarmedByFile.

(** Their [Display]s. *)
Definition newline : string := String (ascii_of_nat 10) EmptyString.
Definition settings_error_str (e : SettingsError) : string :=
  match e with
  | RetiredPostgresSink =>
      "the direct-to-PostgreSQL sink has been removed: the gateway owns the database and nothing else writes to it." +:+ newline +:+
      "Set [postgres].enable = false and configure [forward] to point at a gateway. To move an existing archive, use tools/migrate_to_timescale.py." +:+ newline +:+
      "Refusing to start rather than capturing with no archive."
  | BadDirection d => "direction must be " +:+ quoted "rx" +:+ " or " +:+ quoted "tx" +:+ ", got " +:+ debug_str d
  | BadLogLevel l =>
      "log level must be one of " +:+ debug_list (debug_str <$> ["DEBUG"; "INFO"; "WARNING"; "ERROR"]) +:+
      ", got " +:+ debug_str l
  | IoError path err => "cannot read " +:+ path +:+ ": " +:+ err
  | ParseError e => e
  | DeviceError index what => "device[" +:+ pretty index +:+ "]: " +:+ what
  | BadDatabase d => "database name " +:+ debug_str d +:+
      " is not what the gateway accepts: a lowercase letter, then lowercase letters, digits or _, at most 63"
  | BadAllowedClient why => "allowed_clients: " +:+ cidr_error_str why
  | BadDaemonId id =>
      if is_empty_str id
      then "[forward] daemon_id defaults to the host's short name, and this host has none; set daemon_id"
      else "[forward] daemon_id " +:+ debug_str id +:+
        " is not what the gateway accepts: a lowercase letter or digit, then lowercase letters, digits, ., _ or -, at most 63. It defaults to the host's short name; set daemon_id to name this daemon"
  end.

Definition warning_str (w : Warning) : string :=
  match w with
  | RetiredFlags v => "ignoring flags for the retired PostgreSQL sink: " +:+ str_join ", " v
  | UnknownKey k => "unknown config key, ignored: " +:+ k
  | UiIgnored why => "the UI's settings are not applied: " +:+ why
  | TestPatternDisarmedByFile =>
      "--test-pattern-enable was overridden by [test_pattern] enable = false in the config file: the responder is disarmed"
  | NoCaptureSource => "no devices and no ingest listener: this server will capture nothing"
  | NoForwardSink =>
      "no [forward] gateway configured: frames will be bridged to GVRET clients but not archived"
  | ForwardKeyMissing =>
      "[forward] has no api_key and WIRETAP_FORWARD_TOKEN is unset: the gateway will reject this server"
  end.

Section Settings.
Context `{CatalogueLib} `{SettingsLib}.

(** ** Devices *)

Record LineSettings := MkLine_ { ls_baud : Z; ls_data_bits : Z; ls_parity : Parity; ls_stop_bits : Z }.
#[global] Instance LineSettings_eq_dec : EqDecision LineSettings.
Proof. solve_decision. Defined.

Record SerialSettings := MkSerial_ {
  ss_line : LineSettings;
  ss_framing : option Framing;
  ss_catalogue : option LineCatalogue;
  ss_raw_database : option string
}.
#[global] Instance SerialSettings_eq_dec : EqDecision SerialSettings.
Proof. solve_decision. Defined.

Inductive DeviceKind := KCan (fd : bool) | KSerial (s : SerialSettings).

Record Device := MkDev {
  d_interface : string;
  d_mode : Mode;
  d_database : string;
  d_bus : SourceId;
  d_kind : DeviceKind
}.

(** [LineCatalogue::read] and [load]. *)
Definition catalogue_read (env : Env) (path : string) : result string LineCatalogue :=
  text <-? map_err (λ e, "cannot read catalog " +:+ path +:+ ": " +:+ e) (env_read env path) ;;
  if negb (utf8_valid text) then Err ("cannot read catalog " +:+ path +:+ ": not UTF-8")
  else parse_catalogue path text.

(** [Path::starts_with]: whole components. The path is absolute, and holds no
    [.] or [..]. *)
Definition path_pieces (p : string) : list string :=
  filter (λ s, is_empty_str s = false) (str_split "/" p).
Definition path_starts_with (p dir : string) : bool :=
  bool_decide (take (length (path_pieces dir)) (path_pieces p) = path_pieces dir).

Definition catalogue_load (env : Env) (path : string) : result string LineCatalogue :=
  if negb (str_starts_with "/" path) then Err ("catalog must be an absolute path, got " +:+ debug_str path)
  else if existsb (λ c, str_eqb c "." || str_eqb c "..") (str_split "/" path)
  then Err ("catalog " +:+ path +:+ " must not contain . or .. components")
  else match find (path_starts_with path) HIDDEN_FROM_THE_UNIT with
       | Some dir => Err ("catalog " +:+ path +:+ " is under " +:+ dir +:+
           ", which the packaged unit hides from the daemon; put it in /etc/wiretap-server/")
       | None => catalogue_read env path
       end.

(** [Device::can]. *)
Definition device_can (interface : string) (fd : bool) (database : string) : Device :=
  MkDev interface Active database 0 (KCan fd).

(** [from_table]'s [need] and [only_for]. *)
Definition need (v : option string) (key : string) : result string string :=
  match v with
  | Some v => if is_empty_str v then Err (key +:+ " is required") else Ok v
  | None => Err (key +:+ " is required")
  end.
Definition only_for (set : bool) (key kind : string) : result string () :=
  if set then Err (key +:+ " applies to a " +:+ kind +:+ " device") else Ok ().

Definition table_mode (t : DeviceSection) : result string (option Mode) :=
  match dev_mode t with
  | None => Ok None
  | Some m => if str_eqb m "active" then Ok (Some Active)
              else if str_eqb m "passive" then Ok (Some Passive)
              else Err ("mode must be active or passive, got " +:+ debug_str m)
  end.

Definition can_table (t : DeviceSection) (can_fd : bool) (mode : option Mode) :
    result string (DeviceKind * Mode) :=
  check only_for (is_some (dev_baud t)) "baud" "serial" ;;
  check only_for (is_some (dev_data_bits t)) "data_bits" "serial" ;;
  check only_for (is_some (dev_parity t)) "parity" "serial" ;;
  check only_for (is_some (dev_stop_bits t)) "stop_bits" "serial" ;;
  check only_for (is_some (dev_framing t)) "framing" "serial" ;;
  check only_for (is_some (dev_catalog t)) "catalog" "modbus-rtu" ;;
  check only_for (is_some (dev_capture t)) "capture" "serial" ;;
  check only_for (is_some (dev_raw_database t)) "raw_database" "serial" ;;
  Ok (KCan (default can_fd (dev_fd t)), default Active mode).

Definition table_capture (t : DeviceSection) : result string (bool * bool) :=
  match dev_capture t with
  | None => Ok (true, false)
  | Some c => if str_eqb c "framed" then Ok (true, false)
              else if str_eqb c "raw" then Ok (false, true)
              else if str_eqb c "both" then Ok (true, true)
              else Err ("capture must be " +:+ quoted "framed" +:+ ", " +:+ quoted "raw" +:+ " or " +:+ quoted "both" +:+
                         ", got " +:+ debug_str c)
  end.

Definition table_framing (t : DeviceSection) (framed : bool) : result string (option Framing) :=
  if framed then
    f <-? need (dev_framing t) "framing" ;;
    if str_eqb f "modbus-rtu" then Ok (Some ModbusRtu)
    else Err ("framing must be " +:+ quoted "modbus-rtu" +:+ ", got " +:+ debug_str f)
  else Ok None.

Definition serial_table (env : Env) (t : DeviceSection) (database : string) (mode : option Mode) :
    result string (DeviceKind * Mode) :=
  check only_for (is_some (dev_fd t)) "fd" "CAN" ;;
  if bool_decide (mode = Some Active)
  then Err "an active serial device (a Modbus master) is not built; use passive"
  else
    baud <-? ok_or (dev_baud t) "baud is required" ;;
    if negb (existsb (Z.eqb baud) SUPPORTED_BAUDS) 
    then Err ("baud " +:+ pretty baud +:+ " is not one of " +:+ debug_list (pretty <$> SUPPORTED_BAUDS))
    else
      parity <-? parity_parse (default "none" (dev_parity t)) ;;
      let line := MkLine_ baud (default 8 (dev_data_bits t)) parity (default 1 (dev_stop_bits t)) in
      check line_validate baud (ls_data_bits line) parity (ls_stop_bits line) ;;
      cap <-? table_capture t ;;
      let '(framed, raw) := cap in
      if negb raw && is_some (dev_raw_database t) 
      then Err ("raw_database applies to capture = " +:+ quoted "raw" +:+ " or " +:+ quoted "both")
      else if negb framed && is_some (dev_catalog t)
      then Err ("catalog applies to framed capture, not capture = " +:+ quoted "raw")
      else
        framing <-? table_framing t framed ;;
        catalogue <-? match dev_catalog t with
                      | Some p => (c <-? catalogue_load env p ;; Ok (Some c))
                      | None => Ok None
                      end ;;
        Ok (KSerial (MkSerial_ line framing catalogue
              (if raw then Some (default database (dev_raw_database t)) else None)), Passive).

Definition from_table (env : Env) (t : DeviceSection) (can_fd : bool) (database : string) :
    result string Device :=
  interface <-? need (dev_interface t) "interface" ;;
  let database := default database (dev_database t) in
  mode <-? table_mode t ;;
  kind <-? need (dev_kind t) "kind" ;;
  km <-? (if str_eqb kind "can" then can_table t can_fd mode
          else if str_eqb kind "serial" then serial_table env t database mode
          else Err ("kind must be " +:+ quoted "can" +:+ " or " +:+ quoted "serial" +:+ ", got " +:+ debug_str kind)) ;;
  let '(kind, mode) := km in
  Ok (MkDev interface mode database 0 kind).

Definition is_can (d : Device) : bool := match d_kind d with KCan _ => true | KSerial _ => false end.
Definition fd (d : Device) : bool := match d_kind d with KCan f => f | KSerial _ => false end.

(** [SerialSettings::streams]. *)
Definition streams (s : SerialSettings) (database : string) : list (string * string) :=
  match ss_framing s with Some f => [(framing_as_str f, database)] | None => [] end ++
  match ss_raw_database s with Some db => [("raw", db)] | None => [] end.

(** [Device::databases]. *)
Definition device_databases (d : Device) : list string :=
  match d_kind d with
  | KCan _ => [d_database d]
  | KSerial s => (streams s (d_database d)).*2
  end.

Definition valid_database (name : string) : bool := is_empty_str name || valid_database_name name.

(** ** Sections *)

Record Batching := MkBatching {
  b_size : nat;
  b_flush_interval : f64;
  b_queue_size : nat;
  b_cache_path : string;
  b_cache_origin : option string;
  b_cache_max_mb : Z;
  b_queue_flush_pct : Z;
  b_legacy_cache_path : option string
}.

Definition with_stem_suffix (path suffix : string) : string :=
  let '(stem, ext) := match file_name path with Some n => stem_ext n | None => ("cache", None) end in
  let name := match ext with
              | Some ext => stem +:+ suffix +:+ "." +:+ ext
              | None => stem +:+ suffix
              end in
  with_file_name path name.
Definition sibling_cache (path database : string) : string := with_stem_suffix path ("-" +:+ database).
Definition dead_letter_path (b : Batching) : string := with_stem_suffix (b_cache_path b) ".dead-letter".

(** The first of two, else the second ([Option::or]). *)
Definition or_else {A} (a b : option A) : option A := match a with Some _ => a | None => b end.

Definition cache_path (configured : option string) (env : Env) : string * option string :=
  match or_else configured (env_cache_path env) with
  | Some p => (p, None)
  | None =>
      match env_state_dir env, env_home env with
      | Some state, _ => (path_join state "cache.db", None)
      | None, Some home => (path_join home LEGACY_CACHE_FILE,
          Some "from $HOME; the packaged unit sets STATE_DIRECTORY instead")
      | None, None => (LEGACY_CACHE_FILE,
          Some "relative to the working directory; no $STATE_DIRECTORY, no $HOME")
      end
  end.

Definition legacy_cache_path (in_use : string) (env : Env) : option string :=
  let staged := (λ d, path_join d STAGED_CACHE_FILE) <$> env_state_dir env in
  let in_home := (λ h, path_join h LEGACY_CACHE_FILE) <$> env_home env in
  find (λ p, negb (str_eqb p in_use) && env_exists env p) (option_list staged ++ option_list in_home).

Definition batching_from_cli (c : Cli) (env : Env) : Batching :=
  let '(path, origin) := cache_path (pg_cache_path c) env in
  MkBatching (pg_batch_size c) (pg_flush_interval c) (pg_queue_size c) path origin
    (pg_cache_max_mb c) (pg_queue_flush_pct c) None.

Record Ingest := MkIngest_ {
  i_host : string; i_port : Z; i_token : string; i_keepalive_secs : f64; i_max_batch_frames : nat
}.
Definition ingest_from_cli (c : Cli) : Ingest :=
  MkIngest_ (ingest_host c) (ingest_port c) (default "" (ingest_token c)) (ingest_keepalive_secs c)
    (ingest_max_batch_frames c).

Record TestPattern := MkTestPattern_ { t_ifaces : list string }.
Definition test_pattern_from_cli (c : Cli) : TestPattern :=
  MkTestPattern_ (parse_ifaces (test_pattern_ifaces c)).

Definition short_name (hostname : string) : string :=
  to_ascii_lowercase (default "" (head (str_split "." hostname))).

(** A device as a [HELLO] names it: its bus and its name. *)
Record Forward := MkForward_ {
  f_host : string;
  f_port : Z;
  f_api_key : string;
  f_database : string;
  f_batching : Batching;
  f_daemon_id : string;
  f_devices : list (Z * string);
  f_raw_serial : bool
}.
Definition forward_from_cli (c : Cli) (env : Env) : Forward :=
  MkForward_ (forward_host c) (forward_port c) (default "" (forward_api_key c)) (forward_database c)
    (batching_from_cli c env) (match env_hostname env with Some h => short_name h | None => "" end) [] false.

(** [Forward::state_dir]. *)
Definition state_dir (f : Forward) : string :=
  match parent (b_cache_path (f_batching f)) with
  | Some dir => if is_empty_str dir then "." else dir
  | None => "."
  end.

Definition for_database (f : Forward) (database : string) : Forward :=
  if str_eqb database (f_database f) then f
  else
    let b := f_batching f in
    MkForward_ (f_host f) (f_port f) (f_api_key f) database
      (MkBatching (b_size b) (b_flush_interval b) (b_queue_size b)
        (sibling_cache (b_cache_path b) database) None (b_cache_max_mb b) (b_queue_flush_pct b) None)
      (f_daemon_id f) (f_devices f) (f_raw_serial f).

(** ** [Settings] *)

Record Settings := MkSettings {
  devices : list Device;
  host : string;
  port : Z;
  allowed_clients : list Cidr;
  allowed_clients_source : Origin;
  bus_offset : Z;
  echo_console : bool;
  colour : bool;
  default_dir : Direction;
  can_fd : bool;
  log_level_ : LogLevel;
  stats_interval : f64;
  s_ingest : option Ingest;
  s_forward : option Forward;
  s_test_pattern : option TestPattern
}.

Record Resolved := MkResolved { settings : Settings; warnings : list Warning }.

Definition parse_direction (s : string) : result SettingsError Direction :=
  match Sample.from_str s with Ok d => Ok d | Err _ => Err (BadDirection s) end.
Definition parse_log_level (s : string) : result SettingsError LogLevel :=
  ok_or (level_from_str s) (BadLogLevel s).

(** The function [allowed_clients]. *)
Definition resolve_allowed_clients (c : Cli) (file : option FileConfig) :
    result SettingsError (list Cidr * Origin) :=
  match f ← file; srv_allowed_clients (server f), cli_allowed_clients c with
  | Some l, _ => n <-? collect (λ x, map_err BadAllowedClient (Cidr.from_str x)) l ;; Ok (n, FromFile)
  | None, Some flag =>
      n <-? collect (λ x, map_err BadAllowedClient (Cidr.from_str x)) (parse_ifaces flag) ;;
      Ok (n, FromFlag "allowed_clients")
  | None, None => Ok (LOOPBACK, FromDefault)
  end.

(** [over]: where the file speaks. *)
Definition over {A} (dst : A) (src : option A) : A := default dst src.

Definition file_ingest (c : Cli) (f : FileConfig) (i : option Ingest) : option Ingest :=
  let sec := ingest f in
  let i := if bool_decide (ing_enable sec = Some false) && negb (given c "ingest_enable") then None else i in
  if bool_decide (ing_enable sec = Some true) || is_some i then
    let i := default (ingest_from_cli c) i in
    Some (MkIngest_ (over (i_host i) (ing_host sec)) (over (i_port i) (ing_port sec))
      (over (i_token i) (ing_token sec)) (over (i_keepalive_secs i) (ing_keepalive_secs sec))
      (over (i_max_batch_frames i) (ing_max_batch_frames sec)))
  else i.

Definition file_test_pattern (c : Cli) (f : FileConfig) (t : option TestPattern) : option TestPattern :=
  let sec := test_pattern f in
  if bool_decide (tp_enable sec = Some false) then None
  else if bool_decide (tp_enable sec = Some true) || is_some t then
    let t := default (test_pattern_from_cli c) t in
    Some (MkTestPattern_ (over (t_ifaces t) (parse_ifaces <$> tp_ifaces sec)))
  else t.

Definition file_batching (sec : ForwardSection) (env : Env) (b : Batching) : Batching :=
  let '(path, origin) :=
    match fw_cache_path sec with
    | Some p => cache_path (if is_empty_str p then None else Some p) env
    | None => (b_cache_path b, b_cache_origin b)
    end in
  MkBatching (over (b_size b) (fw_batch_size sec)) (over (b_flush_interval b) (fw_flush_interval sec))
    (over (b_queue_size b) (fw_queue_size sec)) path origin
    (over (b_cache_max_mb b) (fw_cache_max_mb sec)) (over (b_queue_flush_pct b) (fw_queue_flush_pct sec))
    (b_legacy_cache_path b).

Definition file_forward (c : Cli) (env : Env) (f : FileConfig) (w : option Forward) : option Forward :=
  let sec := forward f in
  let w := if bool_decide (fw_enable sec = Some false) && negb (given c "forward_enable") then None else w in
  if bool_decide (fw_enable sec = Some true) || is_some w then
    let w := default (forward_from_cli c env) w in
    Some (MkForward_ (over (f_host w) (fw_host sec)) (over (f_port w) (fw_port sec))
      (over (f_api_key w) (fw_api_key sec)) (over (f_database w) (fw_database sec))
      (file_batching sec env (f_batching w)) (over (f_daemon_id w) (fw_daemon_id sec))
      (f_devices w) (f_raw_serial w))
  else w.

Definition apply_file (c : Cli) (env : Env) (f : FileConfig) (s : Settings) : result SettingsError Settings :=
  let srv := server f in
  dir <-? match srv_default_dir srv with Some v => parse_direction v | None => Ok (default_dir s) end ;;
  level <-? match log_level (logging f) with Some v => parse_log_level v | None => Ok (log_level_ s) end ;;
  Ok (MkSettings (devices s) (over (host s) (srv_host srv)) (over (port s) (srv_port srv))
    (allowed_clients s) (allowed_clients_source s) (over (bus_offset s) (srv_bus_offset srv))
    (over (echo_console s) (srv_echo_console srv)) (over (colour s) (srv_colour srv)) dir
    (over (can_fd s) (srv_can_fd srv)) level (over (stats_interval s) (log_stats_interval (logging f)))
    (file_ingest c f (s_ingest s)) (file_forward c env f (s_forward s))
    (file_test_pattern c f (s_test_pattern s))).

Definition default_database (s : Settings) : string :=
  match s_forward s with Some f => f_database f | None => "" end.

(** *** [build_devices] *)

Definition table_device (env : Env) (s : Settings) (index : nat) (t : DeviceSection) :
    result SettingsError Device :=
  d <-? map_err (DeviceError index) (from_table env t (can_fd s) (default_database s)) ;;
  match find (λ db, negb (valid_database db)) (d_database d :: device_databases d) with
  | Some bad => Err (BadDatabase bad)
  | None => Ok d
  end.

Fixpoint table_devices (env : Env) (s : Settings) (index : nat) (ts : list DeviceSection) :
    result SettingsError (list Device) :=
  match ts with
  | [] => Ok []
  | t :: ts =>
      d <-? table_device env s index t ;;
      ds <-? table_devices env s (S index) ts ;;
      Ok (d :: ds)
  end.

(** The first device whose interface an earlier one has. *)
Fixpoint duplicate (index : nat) (seen : list string) (ds : list Device) : option (nat * string) :=
  match ds with
  | [] => None
  | d :: ds =>
      if bool_decide (d_interface d ∈ seen) then Some (index, d_interface d)
      else duplicate (S index) (seen ++ [d_interface d]) ds
  end.

Definition set_bus (b : SourceId) (d : Device) : Device :=
  MkDev (d_interface d) (d_mode d) (d_database d) b (d_kind d).

(** One of the two numbering passes, from [n]: the devices, and the next number. *)
Fixpoint number_pass (offset : Z) (can : bool) (index n : nat) (ds : list Device) :
    result SettingsError (list Device * nat) :=
  match ds with
  | [] => Ok ([], n)
  | d :: ds =>
      if Bool.eqb (is_can d) can then
        b <-? ok_or (bus_for_index n offset) (DeviceError index "bus number past 255") ;;
        r <-? number_pass offset can (S index) (S n) ds ;;
        let '(ds, n) := r in Ok (set_bus b d :: ds, n)
      else
        r <-? number_pass offset can (S index) n ds ;;
        let '(ds, n) := r in Ok (d :: ds, n)
  end.

Definition number_devices (offset : Z) (ds : list Device) : result SettingsError (list Device) :=
  r <-? number_pass offset true 0 0 ds ;;
  let '(ds, n) := r in
  r <-? number_pass offset false 0 n ds ;;
  Ok r.1.

Definition build_devices (env : Env) (s : Settings) (sugar : list string) (tables : list DeviceSection) :
    result SettingsError (list Device) :=
  let named := (λ name, device_can name (can_fd s) (default_database s)) <$> sugar in
  tabled <-? table_devices env s (length sugar) tables ;;
  let ds := named ++ tabled in
  match duplicate 0 [] ds with
  | Some (i, name) => Err (DeviceError i (name +:+ " is already a device"))
  | None => number_devices (bus_offset s) ds
  end.

(** *** [resolve] *)

(** The one layer that names the devices. *)
Fixpoint ui_tables (index : nat) (ds : list UiDevice) : result SettingsError (list DeviceSection) :=
  match ds with
  | [] => Ok []
  | d :: ds =>
      t <-? map_err (DeviceError index) (ui_table d) ;;
      ts <-? ui_tables (S index) ds ;;
      Ok (t :: ts)
  end.

Definition device_layer (c : Cli) (file : option FileConfig) (ui : option UiConfig) :
    result SettingsError (string * list DeviceSection) :=
  let file_iface := f ← file; srv_iface (server f) in
  let file_tables := match file with Some f => device f | None => [] end in
  match or_else file_iface (iface c), u ← ui; ui_devices u with
  | Some sugar, _ => Ok (sugar, file_tables)
  | None, uids =>
      match file_tables, uids with
      | _ :: _, _ => Ok ("", file_tables)
      | [], Some ds => ts <-? ui_tables 0 ds ;; Ok ("", ts)
      | [], None => Ok ("can0", [])
      end
  end.

(** What a secret left empty is filled from. *)
Definition fill_secret (configured : string) (env ui : option string) : string :=
  if is_empty_str configured then default configured (or_else env ui) else configured.

Definition set_token (t : string) (i : Ingest) : Ingest :=
  MkIngest_ (i_host i) (i_port i) t (i_keepalive_secs i) (i_max_batch_frames i).
Definition set_key (k : string) (f : Forward) : Forward :=
  MkForward_ (f_host f) (f_port f) k (f_database f) (f_batching f) (f_daemon_id f) (f_devices f) (f_raw_serial f).
Definition set_legacy (p : option string) (f : Forward) : Forward :=
  let b := f_batching f in
  MkForward_ (f_host f) (f_port f) (f_api_key f) (f_database f)
    (MkBatching (b_size b) (b_flush_interval b) (b_queue_size b) (b_cache_path b) (b_cache_origin b)
      (b_cache_max_mb b) (b_queue_flush_pct b) p) (f_daemon_id f) (f_devices f) (f_raw_serial f).

Definition finish_ingest (env : Env) (ui : option UiConfig) (i : Ingest) : Ingest :=
  set_token (fill_secret (i_token i) (env_ingest_token env) (u ← ui; ui_token (ui_ingest u))) i.

Definition finish_forward (env : Env) (ui : option UiConfig) (f : Forward) : result SettingsError Forward :=
  let f := set_key (fill_secret (f_api_key f) (env_forward_api_key env) (u ← ui; uf_api_key (ui_forward u))) f in
  let f := set_legacy (legacy_cache_path (b_cache_path (f_batching f)) env) f in
  if negb (valid_database (f_database f)) then Err (BadDatabase (f_database f))
  else if negb (valid_daemon_id (f_daemon_id f)) then Err (BadDaemonId (f_daemon_id f))
  else Ok f.

Definition set_rest (dir : Direction) (i : option Ingest) (f : option Forward) (s : Settings) : Settings :=
  MkSettings (devices s) (host s) (port s) (allowed_clients s) (allowed_clients_source s) (bus_offset s)
    (echo_console s) (colour s) dir (can_fd s) (log_level_ s) (stats_interval s) i f (s_test_pattern s).
Definition set_devices (ds : list Device) (s : Settings) : Settings :=
  MkSettings ds (host s) (port s) (allowed_clients s) (allowed_clients_source s) (bus_offset s)
    (echo_console s) (colour s) (default_dir s) (can_fd s) (log_level_ s) (stats_interval s)
    (s_ingest s) (s_forward s) (s_test_pattern s).

(** The flags, with nothing of the file. *)
Definition from_flags (c : Cli) (file : option FileConfig) (env : Env) : result SettingsError Settings :=
  ac <-? resolve_allowed_clients c file ;;
  let '(clients, source) := ac in
  dir <-? parse_direction (cli_default_dir c) ;;
  level <-? parse_log_level (cli_log_level c) ;;
  Ok (MkSettings [] (cli_host c) (cli_port c) clients source (cli_bus_offset c) (cli_echo_console c)
    (cli_colour c) dir (cli_can_fd c) level (cli_stats_interval c)
    (if ingest_enable c then Some (ingest_from_cli c) else None)
    (if forward_enable c then Some (forward_from_cli c env) else None)
    (if test_pattern_enable c then Some (test_pattern_from_cli c) else None)).

(** The flags, and the file over them. *)
Definition layered (c : Cli) (file : option FileConfig) (env : Env) : result SettingsError Settings :=
  s <-? from_flags c file env ;;
  match file with Some f => apply_file c env f s | None => Ok s end.

(** The warnings about what resolved. *)
Definition final_warnings (c : Cli) (s : Settings) : list Warning :=
  (if test_pattern_enable c && negb (is_some (s_test_pattern s)) then [TestPatternDisarmedByFile] else []) ++
  (if (match devices s with [] => true | _ => false end) && negb (is_some (s_ingest s))
   then [NoCaptureSource] else []) ++
  match s_forward s with
  | None => [NoForwardSink]
  | Some f => if is_empty_str (f_api_key f) then [ForwardKeyMissing] else []
  end.

Definition resolve (c : Cli) (file : option FileConfig) (ui : option UiConfig) (env : Env) :
    result SettingsError Resolved :=
  let c := match ui with Some ui => beneath ui c | None => c end in
  if cli_pg_enable c || match file with Some f => retired_postgres_sink f | None => false end
  then Err RetiredPostgresSink
  else
    let retired := retired_flags_used c in
    let w0 := match retired with [] => [] | _ => [RetiredFlags retired] end in
    s <-? layered c file env ;;
    let w1 := match file with Some f => UnknownKey <$> unknown_keys f | None => [] end in
    layer <-? device_layer c file ui ;;
    let '(sugar, tables) := layer in
    dir <-? match pg_dir c with Some d => parse_direction d | None => Ok (default_dir s) end ;;
    fwd <-? match s_forward s with
            | Some f => f <-? finish_forward env ui f ;; Ok (Some f)
            | None => Ok None
            end ;;
    let s := set_rest dir (finish_ingest env ui <$> s_ingest s) fwd s in
    ds <-? build_devices env s (parse_ifaces sugar) tables ;;
    let s := set_devices ds s in
    Ok (MkResolved s (w0 ++ w1 ++ final_warnings c s)).

(** *** What is read off the result *)

Definition any_fd (s : Settings) : bool := existsb fd (devices s).
Definition can_devices (s : Settings) : list Device := filter (λ d, is_can d = true) (devices s).
Definition serial_devices (s : Settings) : list (Device * SerialSettings) :=
  filter_map (λ d, match d_kind d with KSerial x => Some (d, x) | KCan _ => None end) (devices s).

(** [databases]'s loop: each database fed, once. *)
Definition add_new (out : list string) (db : string) : list string :=
  if bool_decide (db ∈ out) then out else out ++ [db].

Definition databases (s : Settings) : list string :=
  let def := default_database s in
  let fed := devices s ≫= device_databases in
  let out := if is_some (s_ingest s) || bool_decide (def ∈ fed) then [def] else [] in
  foldl add_new out fed.

Definition devices_in (s : Settings) (database : string) : list (Z * string) :=
  (λ d, (d_bus d, d_interface d)) <$> filter (λ d, database ∈ device_databases d) (devices s).

Definition carries_raw_serial (s : Settings) (database : string) : bool :=
  existsb (λ '(_, x), bool_decide (ss_raw_database x = Some database)) (serial_devices s).

Definition forwards (s : Settings) : list Forward :=
  match s_forward s with
  | None => []
  | Some fwd =>
      (λ db, let f := for_database fwd db in
             MkForward_ (f_host f) (f_port f) (f_api_key f) (f_database f) (f_batching f) (f_daemon_id f)
               (devices_in s db) (carries_raw_serial s db)) <$> databases s
  end.

Definition armed_indices (s : Settings) (tp : TestPattern) : list nat :=
  filter_map (λ '(i, d),
    if bool_decide (d_mode d = Active) &&
       ((match t_ifaces tp with [] => true | _ => false end) || bool_decide (d_interface d ∈ t_ifaces tp))
    then Some i else None) (enumerate (can_devices s)).
End Settings.
