(* ===== verification/Ui.v ===== *)
(** * The UI's layer ([ui.rs], [pipeline.rs] [check])

    Which layer each setting a UI may change comes from, what a start makes of a
    UI layer that cannot be used, and what would stop a start. *)

From S2P Require Import Prelude F64 Model Source Cidr Catalogues Settings.
From Stdlib Require Import Ascii.
Import Sample Config.
Local Open Scope Z_scope.

Definition pinned (s : Origin) : bool :=
  match s with FromFile | FromEnv _ | FromFlag _ => true | FromDefault | FromUi => false end.

Definition origin_name (s : Origin) : string :=
  match s with
  | FromDefault => "default" | FromUi => "ui" | FromFile => "file"
  | FromEnv _ => "env" | FromFlag _ => "flag"
  end.

(** [str::replace('_', "-")]. *)
Definition dashes (s : string) : string :=
  str_map (λ c, if bool_decide (c = "_"%char) then "-"%char else c) s.

Definition place (s : Origin) (config : option string) : option string :=
  match s with
  | FromDefault | FromUi => None
  | FromFile => config
  | FromEnv var => Some ("env " +:+ var)
  | FromFlag field => Some ("flag --" +:+ dashes field)
  end.

(** The function [source]. *)
Definition source_of (file : bool) (flag : option string) (ui : bool) : Origin :=
  match file, flag, ui with
  | true, _, _ => FromFile
  | false, Some f, _ => FromFlag f
  | false, None, true => FromUi
  | false, None, false => FromDefault
  end.

Definition SECRETS : list string := ["forward.api_key"; "ingest.token"].

(** [scalar_settings!]: each scalar's key, whether the file and the UI set it,
    and its flag's field. *)
Definition scalar_settings (file : option FileConfig) (ui : UiConfig) : list (string * bool * string * bool) :=
  let has {A} (k : FileConfig → option A) := match file with Some f => is_some (k f) | None => false end in
  let u := ui_forward ui in
  [("forward.enable", has (λ f, fw_enable (forward f)), "forward_enable", is_some (uf_enable u));
   ("forward.host", has (λ f, fw_host (forward f)), "forward_host", is_some (uf_host u));
   ("forward.port", has (λ f, fw_port (forward f)), "forward_port", is_some (uf_port u));
   ("forward.database", has (λ f, fw_database (forward f)), "forward_database", is_some (uf_database u));
   ("forward.batch_size", has (λ f, fw_batch_size (forward f)), "pg_batch_size", is_some (uf_batch_size u));
   ("forward.flush_interval", has (λ f, fw_flush_interval (forward f)), "pg_flush_interval", is_some (uf_flush_interval u));
   ("forward.queue_size", has (λ f, fw_queue_size (forward f)), "pg_queue_size", is_some (uf_queue_size u));
   ("forward.cache_max_mb", has (λ f, fw_cache_max_mb (forward f)), "pg_cache_max_mb", is_some (uf_cache_max_mb u));
   ("forward.queue_flush_pct", has (λ f, fw_queue_flush_pct (forward f)), "pg_queue_flush_pct", is_some (uf_queue_flush_pct u));
   ("ingest.enable", has (λ f, ing_enable (ingest f)), "ingest_enable", is_some (ui_enable (ui_ingest ui)));
   ("ingest.port", has (λ f, ing_port (ingest f)), "ingest_port", is_some (ui_port (ui_ingest ui)));
   ("logging.level", has (λ f, log_level (logging f)), "log_level", is_some (ul_level (ui_logging ui)))].

(** [keys]. *)
Definition ui_keys : list string :=
  "devices" :: SECRETS ++ ((λ '(k, _, _, _), k) <$> scalar_settings None ui_default).

Definition set_origin (key : string) (s : Origin) (out : list (string * Origin)) : list (string * Origin) :=
  (λ '(k, old), (k, if str_eqb k key then s else old)) <$> out.

(** [sources]'s [secret]: the highest layer with a value that is not empty. *)
Definition secret_source (field var : string) (in_file in_flag from_env from_ui : option string) : Origin :=
  let full (o : option string) := match o with Some l => negb (is_empty_str l) | None => false end in
  if full in_file then FromFile
  else if full in_flag then FromFlag field
  else if full from_env then FromEnv var
  else if full from_ui then FromUi
  else FromDefault.

Definition sources (c : Cli) (file : option FileConfig) (ui : UiConfig) (env : Env) : list (string * Origin) :=
  let flag field := if given c field then Some field else None in
  let file_devices := match file with
    | Some f => is_some (srv_iface (server f)) || match device f with [] => false | _ => true end
    | None => false
    end in
  let out := ("devices", source_of file_devices (flag "iface") (is_some (ui_devices ui))) ::
    ((λ '(key, in_file, field, in_ui), (key, source_of in_file (flag field) in_ui)) <$> scalar_settings file ui) in
  let flag_over (key : string) (in_file : option bool) (field : string) (out : list (string * Origin)) :=
    if bool_decide (in_file = Some false) && given c field then set_origin key (FromFlag field) out else out in
  let out := flag_over "forward.enable" (f ← file; fw_enable (forward f)) "forward_enable" out in
  let out := flag_over "ingest.enable" (f ← file; ing_enable (ingest f)) "ingest_enable" out in
  out ++
  [("forward.api_key", secret_source "forward_api_key" "WIRETAP_FORWARD_TOKEN"
      (f ← file; fw_api_key (forward f)) (forward_api_key c) (env_forward_api_key env) (uf_api_key (ui_forward ui)));
   ("ingest.token", secret_source "ingest_token" "WIRETAP_INGEST_TOKEN"
      (f ← file; ing_token (ingest f)) (ingest_token c) (env_ingest_token env) (ui_token (ui_ingest ui)))].

(** [pipeline.rs] [RunError], as far as [check] makes one. *)
Inductive RunError := NothingToDo | IngestNeedsForward | NoDeviceCapture.

Section Ui.
Context `{CatalogueLib} `{SettingsLib}.

(** [linux]: the target, [cfg!(target_os)]. *)
Definition check_start (linux : bool) (s : Settings) : result RunError () :=
  let no_devices := match devices s with [] => true | _ => false end in
  if no_devices && negb (is_some (s_ingest s)) then Err NothingToDo
  else if is_some (s_ingest s) && negb (is_some (s_forward s)) then Err IngestNeedsForward
  else if negb linux && negb no_devices then Err NoDeviceCapture
  else Ok ().

Definition warn (w : Warning) (r : Resolved) : Resolved := MkResolved (settings r) (warnings r ++ [w]).

Definition run_error_str (e : RunError) : string :=
  match e with
  | NothingToDo => "no devices configured and the ingest listener is disabled; nothing to do"
  | NoDeviceCapture => "capturing from a device needs Linux; this build can still run an ingest-only server, which needs no local hardware"
  | IngestNeedsForward => "the ingest listener is enabled but [forward] is not: frames pushed by a device would be acknowledged and then dropped. Configure a gateway."
  end.

(** [loaded] is what [load] gave of [path]. *)
Definition resolve_at_start (linux : bool) (c : Cli) (file : option FileConfig)
    (path : option string) (loaded : result string UiConfig) (env : Env) :
    result SettingsError (Resolved * UiConfig) :=
  match (match path with None => Ok ui_default | Some _ => loaded end) with
  | Err why =>
      r <-? resolve c file None env ;;
      Ok (warn (UiIgnored why) r, ui_default)
  | Ok ui =>
      let with_ := resolve c file (Some ui) env in
      let why := match with_ with
        | Ok r => match check_start linux (settings r) with Ok _ => None | Err e => Some (run_error_str e) end
        | Err e => Some (settings_error_str e)
        end in
      match why, with_ with
      | None, Ok r => Ok (r, ui)
      | None, Err e => Err e
      | Some why, _ =>
          without <-? resolve c file None env ;;
          match is_ok (check_start linux (settings without)), with_ with
          | false, Ok r => Ok (r, ui)
          | _, _ =>
              let prefix := match path with Some p => p +:+ ": " | None => "" end in
              Ok (warn (UiIgnored (prefix +:+ why)) without, ui_default)
          end
      end
  end.
End Ui.
