(* ===== verification/SettingsProofs.v ===== *)
(** * Properties of resolved settings

    Devices are unique and numbered the way GVRET's bus arithmetic expects; each
    database is forwarded to once, from its own cache file; only what an
    administrator asked for may transmit; a UI changes only what nothing above
    it pinned. *)

From S2P Require Import Prelude F64 Model Source Cidr Catalogues Settings Ui.
From Stdlib Require Import Ascii.
Import Sample Config.
Local Open Scope Z_scope.

Section Proofs.
Context `{CatalogueLib} `{SettingsLib}.

(** ** Numbering *)

(** Two devices that differ in their bus number at most. *)
Definition renumbered (d d' : Device) : Prop := set_bus (d_bus d') d = d'.

Lemma renumbered_refl d : renumbered d d.
Proof. by destruct d. Qed.
#[local] Instance renumbered_trans : Transitive renumbered.
Proof. unfold renumbered. intros d1 d2 d3 <- <-. done. Qed.
Lemma renumbered_fields d d' :
  renumbered d d' →
  d_interface d' = d_interface d ∧ d_mode d' = d_mode d ∧ d_database d' = d_database d ∧
  d_kind d' = d_kind d ∧ is_can d' = is_can d.
Proof. by intros <-. Qed.

Definition of_kind (can : bool) (ds : list Device) : list Device := filter (λ d, is_can d = can) ds.

Lemma of_kind_cons can d ds :
  of_kind can (d :: ds) = if Bool.eqb (is_can d) can then d :: of_kind can ds else of_kind can ds.
Proof. unfold of_kind. rewrite filter_cons. by destruct (is_can d), can; cbn. Qed.

Lemma number_pass_spec off can ds : ∀ index n ds' n',
  number_pass off can index n ds = Ok (ds', n') →
  Forall2 renumbered ds ds' ∧ n' = (n + length (of_kind can ds))%nat ∧
  of_kind (negb can) ds' = of_kind (negb can) ds ∧
  Forall2 (λ k d, bus_for_index k off = Some (d_bus d)) (seq n (length (of_kind can ds))) (of_kind can ds').
Proof.
  induction ds as [|d ds IH]; intros index n ds' n'; cbn [number_pass].
  { intros [= <- <-]. rewrite Nat.add_0_r. by split_and!. }
  rewrite !of_kind_cons. destruct (Bool.eqb (is_can d) can) eqn:Hk.
  - destruct (bus_for_index n off) as [b|] eqn:Hb; [|done]. cbn [ok_or].
    destruct (number_pass off can (S index) (S n) ds) as [[ds1 n1]|] eqn:Hr; [|done].
    intros [= <- <-]. destruct (IH _ _ _ _ Hr) as (Hf & -> & Hother & Hbus).
    assert (Hk' : Bool.eqb (is_can (set_bus b d)) can = true) by done.
    rewrite !of_kind_cons, Hk'.
    assert (Hn : ∀ x, Bool.eqb (is_can x) can = true → Bool.eqb (is_can x) (negb can) = false)
      by (intros x; by destruct (is_can x), can).
    rewrite !Hn by done. cbn [length seq]. split_and!; [by constructor|lia|done|by constructor].
  - destruct (number_pass off can (S index) n ds) as [[ds1 n1]|] eqn:Hr; [|done].
    intros [= <- <-]. destruct (IH _ _ _ _ Hr) as (Hf & -> & Hother & Hbus).
    rewrite !of_kind_cons, Hk. split_and!; [constructor; [apply renumbered_refl|done]|done| |done].
    by rewrite Hother.
Qed.

Lemma of_kind_length can ds ds' :
  Forall2 renumbered ds ds' → length (of_kind can ds') = length (of_kind can ds).
Proof.
  induction 1 as [|d d' ds ds' Hd Hds IH]; [done|]. apply renumbered_fields in Hd as (_ & _ & _ & _ & Hc).
  rewrite !of_kind_cons, Hc. destruct (Bool.eqb _ _); cbn; by rewrite IH.
Qed.

Lemma number_devices_spec off ds ds' :
  number_devices off ds = Ok ds' →
  Forall2 renumbered ds ds' ∧
  Forall2 (λ k d, bus_for_index k off = Some (d_bus d)) (seq 0 (length ds'))
    (of_kind true ds' ++ of_kind false ds').
Proof.
  unfold number_devices. destruct (number_pass off true 0 0 ds) as [[ds1 n1]|] eqn:H1'; [|done].
  destruct (number_pass off false 0 n1 ds1) as [[ds2 n2]|] eqn:H2'; [|done]. intros [= <-]. cbn [fst].
  destruct (number_pass_spec _ _ _ _ _ _ _ H1') as (Hf1 & -> & _ & Hb1).
  destruct (number_pass_spec _ _ _ _ _ _ _ H2') as (Hf2 & -> & Ho2 & Hb2). cbn [negb] in *.
  assert (Hf : Forall2 renumbered ds ds2).
  { by etrans. }
  split; [done|].
  assert (Hlen : length ds2 = (length (of_kind true ds) + length (of_kind false ds1))%nat).
  { rewrite <-(of_kind_length true ds ds2), <-(of_kind_length false ds1 ds2) by done. clear.
    induction ds2 as [|d ds2 IH]; [done|]. rewrite !of_kind_cons.
    destruct (is_can d); cbn [Bool.eqb length]; rewrite IH; lia. }
  rewrite Hlen, seq_app. apply Forall2_app; [by rewrite Ho2|done].
Qed.

(** ** Devices *)

Lemma duplicate_none ds : ∀ index seen,
  duplicate index seen ds = None → NoDup (d_interface <$> ds) ∧ Forall (λ d, d_interface d ∉ seen) ds.
Proof.
  induction ds as [|d ds IH]; intros index seen; cbn [duplicate]; [intros _; by split; constructor|].
  case_bool_decide as Hs; [done|]. intros Hd. destruct (IH _ _ Hd) as [Hnd Hall]. split.
  - apply NoDup_cons. split; [|done]. intros (d' & Heq & Hin)%list_elem_of_fmap.
    rewrite Forall_forall in Hall. apply (Hall d' Hin). rewrite <-Heq. set_solver.
  - constructor; [done|]. eapply Forall_impl; [exact Hall|]. intros d' Hd'. cbn in Hd'. set_solver.
Qed.

(** What a table or a name resolves to, before numbering. *)
Definition declared (env : Env) (s : Settings) (sugar : list string) (tables : list DeviceSection) (ds : list Device) : Prop :=
  ∃ tabled, ds = ((λ name, device_can name (can_fd s) (default_database s)) <$> sugar) ++ tabled ∧
  Forall2 (λ t d, from_table env t (can_fd s) (default_database s) = Ok d ∧
    Forall (λ db, valid_database db = true) (d_database d :: device_databases d)) tables tabled.

Lemma table_devices_spec env s ts : ∀ index ds,
  table_devices env s index ts = Ok ds →
  Forall2 (λ t d, from_table env t (can_fd s) (default_database s) = Ok d ∧
    Forall (λ db, valid_database db = true) (d_database d :: device_databases d)) ts ds.
Proof.
  induction ts as [|t ts IH]; intros index ds; cbn [table_devices]; [by intros [= <-]|].
  destruct (table_device env s index t) as [d|e] eqn:Ht; [|done].
  destruct (table_devices env s (S index) ts) as [ds'|] eqn:Hts; [|done]. intros [= <-].
  constructor; [|by eapply IH]. unfold table_device in Ht.
  destruct (from_table env t _ _) as [d0|] eqn:Hd; [|done]. cbn [map_err] in Ht.
  destruct (find _ _) eqn:Hfind; [done|]. injection Ht as ->. split; [done|].
  apply Forall_forall. intros db Hdb. apply list_elem_of_In in Hdb.
  pose proof (find_none _ _ Hfind db Hdb) as Hv. by apply negb_false_iff in Hv.
Qed.

Lemma build_devices_spec env s sugar tables ds :
  build_devices env s sugar tables = Ok ds →
  ∃ ds0, declared env s sugar tables ds0 ∧ NoDup (d_interface <$> ds0) ∧ Forall2 renumbered ds0 ds ∧
  Forall2 (λ k d, bus_for_index k (bus_offset s) = Some (d_bus d)) (seq 0 (length ds))
    (of_kind true ds ++ of_kind false ds).
Proof.
  unfold build_devices. destruct (table_devices env s (length sugar) tables) as [tabled|] eqn:Ht; [|done].
  set (ds0 := _ ++ tabled). destruct (duplicate 0 [] ds0) as [[i name]|] eqn:Hdup; [done|].
  intros Hn%number_devices_spec. destruct Hn as [Hf Hb]. exists ds0. split_and!; [|by eapply duplicate_none|done..].
  exists tabled. split; [done|]. by eapply table_devices_spec.
Qed.

Lemma renumbered_interfaces ds ds' :
  Forall2 renumbered ds ds' → d_interface <$> ds' = d_interface <$> ds.
Proof. induction 1 as [|d d' ds ds' Hd Hds IH]; [done|]. cbn. by rewrite <-Hd, IH. Qed.

Lemma can_devices_of_kind s : can_devices s = of_kind true (devices s).
Proof. done. Qed.

Lemma resolve_devices c file ui env r :
  resolve c file ui env = Ok r →
  ∃ s sugar tables, device_layer (match ui with Some ui => beneath ui c | None => c end) file ui = Ok (sugar, tables) ∧
    build_devices env s (parse_ifaces sugar) tables = Ok (devices (settings r)) ∧
    settings r = set_devices (devices (settings r)) s.
Proof.
  unfold resolve. set (c' := match ui with Some _ => _ | None => _ end). cbv zeta.
  destruct (_ || _); [done|]. destruct (layered c' file env) as [s1|]; [|done].
  destruct (device_layer c' file ui) as [[sugar tables]|] eqn:Hl; [|done].
  destruct (match pg_dir c' with Some _ => _ | None => _ end) as [dir|]; [|done].
  destruct (match s_forward s1 with Some _ => _ | None => _ end) as [fwd|]; [|done].
  set (s2 := set_rest _ _ _ _). destruct (build_devices env s2 _ tables) as [ds|] eqn:Hb; [|done].
  intros [= <-]. cbn [settings]. by exists s2, sugar, tables.
Qed.

Lemma of_kind_perm ds : of_kind true ds ++ of_kind false ds ≡ₚ ds.
Proof.
  induction ds as [|d ds IH]; [done|]. rewrite !of_kind_cons.
  destruct (is_can d); cbn [Bool.eqb]; [by rewrite <-app_comm_cons, IH|].
  by rewrite <-Permutation_middle, IH.
Qed.

(** The CAN devices first and then the serial ones, numbered from the offset. *)
Lemma resolved_numbers c file ui env r k d :
  resolve c file ui env = Ok r →
  (of_kind true (devices (settings r)) ++ of_kind false (devices (settings r))) !! k = Some d →
  d_bus d = Z.of_nat k + bus_offset (settings r) ∧ d_bus d ≤ 255.
Proof.
  intros Hr Hk. destruct (resolve_devices _ _ _ _ _ Hr) as (s2 & sugar & tables & _ & Hb & Hs).
  assert (Hbo : bus_offset s2 = bus_offset (settings r)) by by rewrite Hs.
  destruct (build_devices_spec _ _ _ _ _ Hb) as (ds0 & _ & _ & _ & Hbus). rewrite Hbo in Hbus.
  destruct (Forall2_lookup_r _ _ _ _ _ Hbus Hk) as (k' & Hk' & Hkb).
  apply lookup_seq in Hk' as [-> _]. apply bus_for_index_Some in Hkb as (-> & _ & ?). cbn. lia.
Qed.

(** GVRET's bus arithmetic holds of what resolves. However the layers named
    the devices: no two share an interface or a bus number, every number is a
    byte, and a bus number a client uses resolves to the CAN device at that index
    exactly when that device has it; a serial device's number resolves to none. *)
Theorem bus_numbers_resolve c file ui env r :
  resolve c file ui env = Ok r → is_u8 (bus_offset (settings r)) →
  let s := settings r in
  NoDup (d_interface <$> devices s) ∧ NoDup (d_bus <$> devices s) ∧ Forall (λ d, is_u8 (d_bus d)) (devices s) ∧
  (∀ i d, can_devices s !! i = Some d →
    index_for_bus (d_bus d) (bus_offset s) (length (can_devices s)) = Some i) ∧
  (∀ d, d ∈ devices s → is_can d = false →
    index_for_bus (d_bus d) (bus_offset s) (length (can_devices s)) = None).
Proof.
  intros Hr Hoff s. destruct (resolve_devices _ _ _ _ _ Hr) as (s2 & sugar & tables & _ & Hb & Hs).
  fold s in Hb, Hs. fold s in Hoff.
  destruct (build_devices_spec _ _ _ _ _ Hb) as (ds0 & _ & Hnd & Hf & _).
  pose proof (λ k d, resolved_numbers c file ui env r k d Hr) as Hat. fold s in Hat.
  rewrite !can_devices_of_kind. set (ds := devices s) in *. pose proof (of_kind_perm ds) as Hperm.
  unfold is_u8 in *. split_and!.
  - by rewrite (renumbered_interfaces _ _ Hf).
  - rewrite <-Hperm. apply NoDup_alt. intros i j b Hi Hj.
    apply list_lookup_fmap_Some in Hi as (di & -> & Hi), Hj as (dj & Hbd & Hj).
    destruct (Hat _ _ Hi), (Hat _ _ Hj). lia.
  - apply Forall_forall. intros d Hd. rewrite <-Hperm in Hd. apply list_elem_of_lookup in Hd as [k Hk].
    destruct (Hat _ _ Hk). lia.
  - intros i d Hi. pose proof (lookup_lt_Some _ _ _ Hi). apply index_for_bus_Some.
    destruct (Hat i d) as [-> _]; [by rewrite lookup_app_l|]. lia.
  - intros d Hd Hk. assert (Hin : d ∈ of_kind false ds) by by apply list_elem_of_filter.
    apply list_elem_of_lookup in Hin as [k Hk'].
    destruct (Hat (length (of_kind true ds) + k)%nat d) as [Hbd _].
    { rewrite lookup_app_r by lia. by replace (length _ + k - length _)%nat with k by lia. }
    apply eq_None_not_Some. intros [i Hi%index_for_bus_Some]. lia.
Qed.

(** ** Databases *)

Lemma add_new_fold fed : ∀ out,
  NoDup out → NoDup (foldl add_new out fed) ∧ ∀ db, db ∈ foldl add_new out fed ↔ db ∈ out ∨ db ∈ fed.
Proof.
  induction fed as [|x fed IH]; intros out Hnd; cbn [foldl]; [split; [done|set_solver]|].
  assert (Hx : NoDup (add_new out x) ∧ ∀ db, db ∈ add_new out x ↔ db ∈ out ∨ db = x).
  { unfold add_new. case_bool_decide; [split; [done|set_solver]|]. split; [|set_solver].
    apply NoDup_app. split_and!; [done| |apply NoDup_singleton]. set_solver. }
  destruct Hx as [Hx1 Hx2]. destruct (IH _ Hx1) as [Hn Hin]. split; [done|]. intros db.
  rewrite Hin, Hx2. set_solver.
Qed.

Lemma databases_spec s :
  NoDup (databases s) ∧
  ∀ db, db ∈ databases s ↔ (db = default_database s ∧ is_some (s_ingest s) = true) ∨
    ∃ d, d ∈ devices s ∧ db ∈ device_databases d.
Proof.
  unfold databases. set (fed := devices s ≫= device_databases).
  set (out := if _ || _ then _ else _).
  assert (Hout : NoDup out) by (unfold out; destruct (_ || _); [apply NoDup_singleton|constructor]).
  destruct (add_new_fold fed out Hout) as [Hnd Hin]. split; [done|]. intros db. rewrite Hin.
  assert (Hfed : db ∈ fed ↔ ∃ d, d ∈ devices s ∧ db ∈ device_databases d).
  { unfold fed. rewrite list_elem_of_bind. naive_solver. }
  rewrite <-Hfed. unfold out. destruct (is_some (s_ingest s)) eqn:Hi; cbn [orb].
  - rewrite list_elem_of_singleton. naive_solver.
  - case_bool_decide as Hd; [rewrite list_elem_of_singleton|rewrite elem_of_nil]; naive_solver.
Qed.

Lemma for_database_name f db : f_database (for_database f db) = db.
Proof. unfold for_database. destruct (str_eqb _ _) eqn:He; [|done]. by apply str_eqb_eq in He. Qed.

(** C40: one link per database, and every frame has one. Each database a stream
    lands in, and the default where the ingest listener is on, is forwarded to
    exactly once and no other is; its link names in its [HELLO] exactly the
    devices with a stream that lands there, and refuses to fall back to v2
    exactly when a raw stream does. *)
Theorem one_link_per_database s fwd :
  s_forward s = Some fwd →
  NoDup (f_database <$> forwards s) ∧
  (∀ db, db ∈ f_database <$> forwards s ↔
    (db = f_database fwd ∧ is_some (s_ingest s) = true) ∨ ∃ d, d ∈ devices s ∧ db ∈ device_databases d) ∧
  (∀ f, f ∈ forwards s →
    (∀ b n, (b, n) ∈ f_devices f ↔
      ∃ d, d ∈ devices s ∧ d_bus d = b ∧ d_interface d = n ∧ f_database f ∈ device_databases d) ∧
    (f_raw_serial f = true ↔
      ∃ d x, d ∈ devices s ∧ d_kind d = KSerial x ∧ ss_raw_database x = Some (f_database f))).
Proof.
  intros Hf. destruct (databases_spec s) as [Hnd Hin].
  assert (Hdb : f_database <$> forwards s = databases s).
  { unfold forwards. rewrite Hf, <-list_fmap_compose. clear. induction (databases s) as [|db l IH]; [done|].
    rewrite fmap_cons, IH. cbn. by rewrite for_database_name. }
  rewrite Hdb. split; [done|]. split; [intros db; rewrite Hin; unfold default_database; by rewrite Hf|].
  intros f Hff. unfold forwards in Hff. rewrite Hf in Hff. apply list_elem_of_fmap in Hff as (db & -> & Hdb').
  cbn [f_devices f_raw_serial f_database].
  rewrite for_database_name. split.
  - intros b n. unfold devices_in. rewrite list_elem_of_fmap. split.
    + intros (d & [= -> ->] & [Hd1 Hd2]%list_elem_of_filter). by exists d.
    + intros (d & Hd & <- & <- & Hd'). exists d. split; [done|]. by apply list_elem_of_filter.
  - unfold carries_raw_serial. rewrite existsb_exists. split.
    + intros ([d x] & Hx & Hraw). apply bool_decide_eq_true in Hraw.
      apply list_elem_of_In, list_elem_of_omap in Hx as (d' & Hd' & Hk).
      destruct (d_kind d') as [|x'] eqn:Hkd; [done|]. injection Hk as <- <-. by exists d', x'.
    + intros (d & x & Hd & Hk & Hraw). exists (d, x). split; [|by apply bool_decide_eq_true].
      apply list_elem_of_In, list_elem_of_omap. exists d. by rewrite Hk.
Qed.

(** ** What may transmit *)

Lemma ui_tables_passive ds : ∀ index ts, ui_tables index ds = Ok ts →
  Forall (λ t, dev_kind t = Some "can" ∧ dev_mode t = Some "passive") ts.
Proof.
  induction ds as [|d ds IH]; intros index ts; cbn [ui_tables]; [by intros [= <-]|].
  unfold ui_table. destruct (_ || _); [done|]. cbn [map_err].
  destruct (ui_tables (S index) ds) as [ts'|] eqn:Hts; [|done]. intros [= <-].
  constructor; [done|]. by eapply IH.
Qed.

Lemma passive_table env t fd0 db d :
  dev_kind t = Some "can" → dev_mode t = Some "passive" → from_table env t fd0 db = Ok d →
  d_mode d = Passive ∧ is_can d = true.
Proof.
  intros Hk Hm. unfold from_table. destruct (need (dev_interface t) _) as [i|]; [|done].
  unfold table_mode. rewrite Hm, Hk.
  change (str_eqb "passive" "active") with false. change (str_eqb "passive" "passive") with true.
  cbv beta iota zeta. cbn [need is_empty_str]. change (str_eqb "can" "can") with true. cbv beta iota.
  destruct (can_table t fd0 (Some Passive)) as [[k m]|] eqn:Hc; [|done]. intros [= <-].
  unfold can_table in Hc. repeat (destruct (only_for _ _ _); [|done]). injection Hc as <- <-. done.
Qed.

Lemma armed_spec s tp i :
  i ∈ armed_indices s tp ↔
  ∃ d, can_devices s !! i = Some d ∧ d_mode d = Active ∧ (t_ifaces tp = [] ∨ d_interface d ∈ t_ifaces tp).
Proof.
  unfold armed_indices, filter_map. rewrite list_elem_of_omap. split.
  - intros ([j d] & Hjd%elem_of_enumerate & Hf). exists d.
    destruct (_ && _) eqn:Hb; [|done]. injection Hf as <-. bool_prop. split_and!; [done..|].
    match goal with H : _ ∨ _ |- _ => destruct H as [Hn|Hn] end; [left; by destruct (t_ifaces tp)|right].
    by apply bool_decide_eq_true in Hn.
  - intros (d & Hd & Hm & Hi). exists (i, d). split; [by apply elem_of_enumerate|].
    rewrite (bool_decide_eq_true_2 _ Hm). cbn [andb].
    destruct Hi as [->|Hi]; [done|]. rewrite (bool_decide_eq_true_2 _ Hi), orb_true_r. done.
Qed.

(** What a UI cannot reach. *)
Definition transmit_settings (s : Settings) := (s_test_pattern s, allowed_clients s, allowed_clients_source s, host s, port s).

Lemma resolve_transmit c file ui env r :
  resolve c file ui env = Ok r →
  ∃ l src, resolve_allowed_clients c file = Ok (l, src) ∧
  transmit_settings (settings r) =
    (match file with
     | Some f => file_test_pattern c f (if test_pattern_enable c then Some (test_pattern_from_cli c) else None)
     | None => if test_pattern_enable c then Some (test_pattern_from_cli c) else None
     end, l, src,
     match file with Some f => over (cli_host c) (srv_host (server f)) | None => cli_host c end,
     match file with Some f => over (cli_port c) (srv_port (server f)) | None => cli_port c end).
Proof.
  unfold resolve. set (c' := match ui with Some _ => _ | None => _ end). cbv zeta.
  assert (Hc' : test_pattern_enable c' = test_pattern_enable c ∧ cli_host c' = cli_host c ∧ cli_port c' = cli_port c ∧
    cli_allowed_clients c' = cli_allowed_clients c ∧ test_pattern_from_cli c' = test_pattern_from_cli c)
    by (unfold c'; by destruct ui).
  destruct Hc' as (Ht & Hh & Hp & Hac & Htp).
  destruct (_ || _); [done|]. unfold layered, from_flags.
  assert (Hrac : resolve_allowed_clients c' file = resolve_allowed_clients c file)
    by (unfold resolve_allowed_clients; by rewrite Hac).
  rewrite Hrac. destruct (resolve_allowed_clients c file) as [[l src]|]; [|done].
  destruct (parse_direction (cli_default_dir c')) as [dir0|]; [|done].
  destruct (parse_log_level (cli_log_level c')) as [lv|]; [|done].
  rewrite Ht, Htp, Hh, Hp. set (s0 := MkSettings [] _ _ _ _ _ _ _ _ _ _ _ _ _ _).
  destruct (match file with Some f => apply_file c' env f s0 | None => Ok s0 end) as [s1|] eqn:Hs1; [|done].
  destruct (device_layer c' file ui) as [[sugar tables]|]; [|done].
  destruct (match pg_dir c' with Some _ => _ | None => _ end) as [dir|]; [|done].
  destruct (match s_forward s1 with Some _ => _ | None => _ end) as [fwd|]; [|done].
  destruct (build_devices env _ _ tables) as [ds|]; [|done].
  intros [= <-]. exists l, src. split; [done|]. cbn [settings transmit_settings set_devices set_rest].
  unfold transmit_settings. cbn [set_devices set_rest s_test_pattern allowed_clients allowed_clients_source host port].
  destruct file as [f|]; [|by injection Hs1 as <-].
  unfold apply_file in Hs1. destruct (match srv_default_dir _ with Some _ => _ | None => _ end); [|done].
  destruct (match log_level _ with Some _ => _ | None => _ end); [|done]. injection Hs1 as <-.
  cbn. unfold file_test_pattern. by rewrite Htp.
Qed.

(** C35: a UI cannot make the box transmit. Whatever a UI wrote: the Test Pattern
    responder, who may connect to GVRET and where it listens are what the flags
    and the file say; and where the device set is the UI's, every device is a
    passive CAN one, so no responder is armed on any. *)
Theorem ui_cannot_transmit c file ui env r :
  resolve c file (Some ui) env = Ok r →
  (∀ r', resolve c file None env = Ok r' → transmit_settings (settings r) = transmit_settings (settings r')) ∧
  (or_else (f ← file; srv_iface (server f)) (iface c) = None →
   (match file with Some f => device f | None => [] end) = [] → is_some (ui_devices ui) = true →
   Forall (λ d, is_can d = true ∧ d_mode d = Passive) (devices (settings r)) ∧
   ∀ tp, armed_indices (settings r) tp = []).
Proof.
  intros Hr. split.
  { intros r' Hr'. destruct (resolve_transmit _ _ _ _ _ Hr) as (l & src & Hl & ->).
    destruct (resolve_transmit _ _ _ _ _ Hr') as (l' & src' & Hl' & ->). rewrite Hl in Hl'. by injection Hl' as -> ->. }
  intros Hi Ht Hu. destruct (resolve_devices _ _ _ _ _ Hr) as (s & sugar & tables & Hlayer & Hb & Hs).
  assert (Htables : sugar = "" ∧ Forall (λ t, dev_kind t = Some "can" ∧ dev_mode t = Some "passive") tables).
  { unfold device_layer in Hlayer. change (iface (beneath ui c)) with (iface c) in Hlayer. rewrite Hi, Ht in Hlayer.
    cbn in Hlayer. destruct (ui_devices ui) as [ds|]; [|done].
    destruct (ui_tables 0 ds) as [ts|] eqn:Hts; [|done]. injection Hlayer as <- <-. split; [done|].
    by eapply ui_tables_passive. }
  destruct Htables as [-> Htables]. change (parse_ifaces "") with (@nil string) in Hb.
  destruct (build_devices_spec _ _ _ _ _ Hb) as (ds0 & (tabled & -> & Htab) & _ & Hf & _). cbn in Hf.
  assert (Hall : Forall (λ d, is_can d = true ∧ d_mode d = Passive) tabled).
  { clear -Htab Htables. induction Htab as [|t d ts ds [Hd _] Htab IH]; [constructor|].
    apply Forall_cons in Htables as [[Hk Hm] Hts]. constructor; [|by apply IH].
    destruct (passive_table _ _ _ _ _ Hk Hm Hd). done. }
  assert (Hall' : Forall (λ d, is_can d = true ∧ d_mode d = Passive) (devices (settings r))).
  { clear -Hf Hall. induction Hf as [|d d' ds ds' Hd Hf IH]; [constructor|].
    apply Forall_cons in Hall as [[? ?] Hall]. constructor; [|by apply IH].
    apply renumbered_fields in Hd as (_ & -> & _ & _ & ->). done. }
  split; [done|]. intros tp. destruct (armed_indices (settings r) tp) as [|i l] eqn:Ha; [done|].
  assert (Hin : i ∈ armed_indices (settings r) tp) by (rewrite Ha; left).
  apply armed_spec in Hin as (d & Hd & Hm & _). apply list_elem_of_lookup_2 in Hd.
  unfold can_devices in Hd. apply list_elem_of_filter in Hd as [_ Hd].
  rewrite Forall_forall in Hall'. destruct (Hall' d Hd) as [_ ?]. congruence.
Qed.

(** ** What a UI cannot change *)

(** The value a UI gives a key. *)
Definition ui_agree (k : string) (u1 u2 : UiConfig) : Prop :=
  let f1 := ui_forward u1 in
  let f2 := ui_forward u2 in
  (k = "devices" → ui_devices u1 = ui_devices u2) ∧
  (k = "forward.enable" → uf_enable f1 = uf_enable f2) ∧
  (k = "forward.host" → uf_host f1 = uf_host f2) ∧
  (k = "forward.port" → uf_port f1 = uf_port f2) ∧
  (k = "forward.database" → uf_database f1 = uf_database f2) ∧
  (k = "forward.batch_size" → uf_batch_size f1 = uf_batch_size f2) ∧
  (k = "forward.flush_interval" → uf_flush_interval f1 = uf_flush_interval f2) ∧
  (k = "forward.queue_size" → uf_queue_size f1 = uf_queue_size f2) ∧
  (k = "forward.cache_max_mb" → uf_cache_max_mb f1 = uf_cache_max_mb f2) ∧
  (k = "forward.queue_flush_pct" → uf_queue_flush_pct f1 = uf_queue_flush_pct f2) ∧
  (k = "ingest.enable" → ui_enable (ui_ingest u1) = ui_enable (ui_ingest u2)) ∧
  (k = "ingest.port" → ui_port (ui_ingest u1) = ui_port (ui_ingest u2)) ∧
  (k = "logging.level" → ul_level (ui_logging u1) = ul_level (ui_logging u2)) ∧
  (k = "forward.api_key" → uf_api_key f1 = uf_api_key f2) ∧
  (k = "ingest.token" → ui_token (ui_ingest u1) = ui_token (ui_ingest u2)).

(** A scalar set above the UI, or given the same value by both. *)
Definition settled {A} (c : Cli) (in_file : bool) (flag : string) (v1 v2 : option A) : Prop :=
  in_file = true ∨ given c flag = true ∨ v1 = v2.

Lemma settled_fill {A} c in_file flag (v1 v2 : option A) old :
  settled c in_file flag v1 v2 → in_file = true ∨ fill c flag v1 old = fill c flag v2 old.
Proof. unfold fill. intros [?|[Hg| ->]]; [by left|right|by right]. rewrite Hg. by destruct v1, v2. Qed.

Lemma settled_over {A} c (file : option A) flag (v1 v2 : option A) old :
  settled c (is_some file) flag v1 v2 → over (fill c flag v1 old) file = over (fill c flag v2 old) file.
Proof. intros [Hf| ->]%(settled_fill _ _ _ _ _ old); [by destruct file|done]. Qed.

Lemma settled_none {A} c flag (v1 v2 : option A) old :
  settled c false flag v1 v2 → fill c flag v1 old = fill c flag v2 old.
Proof. by intros [?|?]%(settled_fill _ _ _ _ _ old). Qed.

Definition file_has {A} (file : option FileConfig) (k : FileConfig → option A) : bool :=
  match file with Some f => is_some (k f) | None => false end.

(** Everything a UI sets is settled. *)
Record ui_settled (c : Cli) (file : option FileConfig) (u1 u2 : UiConfig) : Prop := {
  st_enable : settled c (file_has file (λ f, fw_enable (forward f))) "forward_enable" (uf_enable (ui_forward u1)) (uf_enable (ui_forward u2));
  st_host : settled c (file_has file (λ f, fw_host (forward f))) "forward_host" (uf_host (ui_forward u1)) (uf_host (ui_forward u2));
  st_port : settled c (file_has file (λ f, fw_port (forward f))) "forward_port" (uf_port (ui_forward u1)) (uf_port (ui_forward u2));
  st_database : settled c (file_has file (λ f, fw_database (forward f))) "forward_database" (uf_database (ui_forward u1)) (uf_database (ui_forward u2));
  st_batch : settled c (file_has file (λ f, fw_batch_size (forward f))) "pg_batch_size" (uf_batch_size (ui_forward u1)) (uf_batch_size (ui_forward u2));
  st_flush : settled c (file_has file (λ f, fw_flush_interval (forward f))) "pg_flush_interval" (uf_flush_interval (ui_forward u1)) (uf_flush_interval (ui_forward u2));
  st_queue : settled c (file_has file (λ f, fw_queue_size (forward f))) "pg_queue_size" (uf_queue_size (ui_forward u1)) (uf_queue_size (ui_forward u2));
  st_max : settled c (file_has file (λ f, fw_cache_max_mb (forward f))) "pg_cache_max_mb" (uf_cache_max_mb (ui_forward u1)) (uf_cache_max_mb (ui_forward u2));
  st_pct : settled c (file_has file (λ f, fw_queue_flush_pct (forward f))) "pg_queue_flush_pct" (uf_queue_flush_pct (ui_forward u1)) (uf_queue_flush_pct (ui_forward u2));
  st_ing : settled c (file_has file (λ f, ing_enable (ingest f))) "ingest_enable" (ui_enable (ui_ingest u1)) (ui_enable (ui_ingest u2));
  st_iport : settled c (file_has file (λ f, ing_port (ingest f))) "ingest_port" (ui_port (ui_ingest u1)) (ui_port (ui_ingest u2));
  st_level : settled c (file_has file (λ f, log_level (logging f))) "log_level" (ul_level (ui_logging u1)) (ul_level (ui_logging u2))
}.

(** An enable turned on, off, or left alone by the file: what it was before does
    not matter once it is settled. *)
Lemma settled_section {A} c (en : option bool) flag (v1 v2 : option bool) old (a1 a2 : A) (g : A → A) :
  settled c (is_some en) flag v1 v2 → g a1 = g a2 →
  let sec e a :=
    let w := if e : bool then Some a else None in
    let w := if bool_decide (en = Some false) && negb (given c flag) then None else w in
    if bool_decide (en = Some true) || is_some w then Some (g (default a w)) else w in
  sec (fill c flag v1 old) a1 = sec (fill c flag v2 old) a2.
Proof.
  intros Hs Hg sec. unfold sec. destruct en as [[]|].
  - change (bool_decide (Some true = Some false)) with false. change (bool_decide (Some true = Some true)) with true.
    cbn [andb orb]. by destruct (fill c flag v1 old), (fill c flag v2 old); cbn; rewrite Hg.
  - change (bool_decide (Some false = Some false)) with true. change (bool_decide (Some false = Some true)) with false.
    cbn [andb orb]. destruct (given c flag) eqn:Hgv; cbn [negb]; [|done]. unfold fill. rewrite Hgv.
    destruct v1, v2, old; cbn; by rewrite ?Hg.
  - change (bool_decide (None = Some false)) with false. change (bool_decide (None = Some true)) with false.
    cbn [andb orb]. apply (settled_fill _ _ _ _ _ old) in Hs as [?| ->]; [done|].
    destruct (fill c flag v2 old); cbn; by rewrite ?Hg.
Qed.

Lemma ingest_settled c f u1 u2 :
  ui_settled c (Some f) u1 u2 →
  file_ingest (beneath u1 c) f (if ingest_enable (beneath u1 c) then Some (ingest_from_cli (beneath u1 c)) else None) =
  file_ingest (beneath u2 c) f (if ingest_enable (beneath u2 c) then Some (ingest_from_cli (beneath u2 c)) else None).
Proof.
  intros Hs. set (sec := ingest f).
  apply (settled_section c (ing_enable sec) "ingest_enable" _ _ (ingest_enable c)
    (ingest_from_cli (beneath u1 c)) (ingest_from_cli (beneath u2 c))
    (λ i, MkIngest_ (over (i_host i) (ing_host sec)) (over (i_port i) (ing_port sec))
      (over (i_token i) (ing_token sec)) (over (i_keepalive_secs i) (ing_keepalive_secs sec))
      (over (i_max_batch_frames i) (ing_max_batch_frames sec)))); [exact (st_ing _ _ _ _ Hs)|].
  cbn. f_equal. apply (settled_over c (ing_port sec) "ingest_port"), (st_iport _ _ _ _ Hs).
Qed.

Lemma batching_settled c f u1 u2 env :
  ui_settled c (Some f) u1 u2 →
  file_batching (forward f) env (batching_from_cli (beneath u1 c) env) =
  file_batching (forward f) env (batching_from_cli (beneath u2 c) env).
Proof.
  intros Hs. unfold batching_from_cli. cbn [pg_cache_path beneath].
  destruct (cache_path (pg_cache_path c) env) as [path origin]. unfold file_batching. cbn.
  destruct (match fw_cache_path (forward f) with Some _ => _ | None => _ end) as [p o]. f_equal.
  - apply (settled_over c (fw_batch_size (forward f)) "pg_batch_size"), (st_batch _ _ _ _ Hs).
  - apply (settled_over c (fw_flush_interval (forward f)) "pg_flush_interval"), (st_flush _ _ _ _ Hs).
  - apply (settled_over c (fw_queue_size (forward f)) "pg_queue_size"), (st_queue _ _ _ _ Hs).
  - apply (settled_over c (fw_cache_max_mb (forward f)) "pg_cache_max_mb"), (st_max _ _ _ _ Hs).
  - apply (settled_over c (fw_queue_flush_pct (forward f)) "pg_queue_flush_pct"), (st_pct _ _ _ _ Hs).
Qed.

Lemma forward_settled c f u1 u2 env :
  ui_settled c (Some f) u1 u2 →
  file_forward (beneath u1 c) env f (if forward_enable (beneath u1 c) then Some (forward_from_cli (beneath u1 c) env) else None) =
  file_forward (beneath u2 c) env f (if forward_enable (beneath u2 c) then Some (forward_from_cli (beneath u2 c) env) else None).
Proof.
  intros Hs. set (sec := forward f).
  apply (settled_section c (fw_enable sec) "forward_enable" _ _ (forward_enable c)
    (forward_from_cli (beneath u1 c) env) (forward_from_cli (beneath u2 c) env)
    (λ w, MkForward_ (over (f_host w) (fw_host sec)) (over (f_port w) (fw_port sec))
      (over (f_api_key w) (fw_api_key sec)) (over (f_database w) (fw_database sec))
      (file_batching sec env (f_batching w)) (over (f_daemon_id w) (fw_daemon_id sec))
      (f_devices w) (f_raw_serial w))); [exact (st_enable _ _ _ _ Hs)|].
  unfold forward_from_cli. cbn [f_host f_port f_api_key f_database f_batching f_daemon_id f_devices f_raw_serial].
  cbn [forward_host forward_port forward_api_key forward_database beneath]. f_equal.
  - apply (settled_over c (fw_host sec) "forward_host"), (st_host _ _ _ _ Hs).
  - apply (settled_over c (fw_port sec) "forward_port"), (st_port _ _ _ _ Hs).
  - apply (settled_over c (fw_database sec) "forward_database"), (st_database _ _ _ _ Hs).
  - by apply batching_settled.
Qed.

(** A command line as [clap] leaves it: [-i] is given or absent, and the log level
    is one of those it accepts. *)
Definition cli_ok (c : Cli) : bool :=
  Bool.eqb (given c "iface") (is_some (iface c)) && is_some (level_from_str (cli_log_level c)).
Definition ui_level_ok (u : UiConfig) : bool :=
  match ul_level (ui_logging u) with Some l => is_some (level_from_str l) | None => true end.

Lemma level_parses c u :
  cli_ok c = true → ui_level_ok u = true → ∃ l, parse_log_level (cli_log_level (beneath u c)) = Ok l.
Proof.
  unfold cli_ok, ui_level_ok, parse_log_level. intros [_ Hc]%andb_true_iff Hu. cbn. unfold fill.
  destruct (ul_level (ui_logging u)) as [l|]; [destruct (given c "log_level")|];
    match goal with |- context [level_from_str ?x] => destruct (level_from_str x) end; by eauto.
Qed.

Lemma layered_settled c file u1 u2 env :
  cli_ok c = true → ui_level_ok u1 = true → ui_level_ok u2 = true → ui_settled c file u1 u2 →
  layered (beneath u1 c) file env = layered (beneath u2 c) file env.
Proof.
  intros Hc Hl1 Hl2 Hs. unfold layered, from_flags.
  change (resolve_allowed_clients (beneath u1 c) file) with (resolve_allowed_clients c file).
  change (resolve_allowed_clients (beneath u2 c) file) with (resolve_allowed_clients c file).
  destruct (resolve_allowed_clients c file) as [[cl src]|]; [|done].
  change (cli_default_dir (beneath u1 c)) with (cli_default_dir c).
  change (cli_default_dir (beneath u2 c)) with (cli_default_dir c).
  destruct (parse_direction (cli_default_dir c)) as [dir|]; [|done].
  destruct file as [f|].
  - destruct (level_parses c u1 Hc Hl1) as [l1 Hp1], (level_parses c u2 Hc Hl2) as [l2 Hp2]. rewrite Hp1, Hp2.
    unfold apply_file. cbn [default_dir log_level_ s_ingest s_forward s_test_pattern devices host port allowed_clients
      allowed_clients_source bus_offset echo_console colour can_fd stats_interval].
    rewrite (ingest_settled c f u1 u2 Hs), (forward_settled c f u1 u2 env Hs).
    destruct (match srv_default_dir (server f) with Some _ => _ | None => _ end); [|done].
    destruct (log_level (logging f)) as [l|] eqn:Hlv; [by destruct (parse_log_level l)|].
    pose proof (st_level _ _ _ _ Hs) as Hst. cbn [file_has] in Hst. rewrite Hlv in Hst.
    apply (settled_fill _ _ _ _ _ (cli_log_level c)) in Hst as [?|Hfill]; [done|].
    cbn [cli_log_level beneath] in Hp1, Hp2. rewrite Hfill, Hp2 in Hp1. by injection Hp1 as ->.
  - assert (Hb : beneath u1 c = beneath u2 c); [|by rewrite Hb].
    destruct Hs. unfold beneath. f_equal; apply settled_none; assumption.
Qed.

(** *** From [sources] to what is settled *)

Lemma set_origin_other key x k s out : (k, s) ∈ out → k ≠ key → (k, s) ∈ set_origin key x out.
Proof.
  intros Hin Hk. apply list_elem_of_fmap. exists (k, s). split; [|done].
  destruct (str_eqb k key) eqn:He; [|done]. by apply str_eqb_eq in He.
Qed.

Lemma sources_scalar c file u env k in_file field in_ui :
  (k, in_file, field, in_ui) ∈ scalar_settings file u →
  (k = "forward.enable" → given c "forward_enable" = false) →
  (k = "ingest.enable" → given c "ingest_enable" = false) →
  (k, source_of in_file (if given c field then Some field else None) in_ui) ∈ sources c file u env.
Proof.
  intros Hin Hf Hi. unfold sources. apply elem_of_app. left. cbv zeta.
  set (x := source_of in_file _ in_ui).
  assert (H0' : (k, x) ∈ ((λ '(key, in_file, field, in_ui),
    (key, source_of in_file (if given c field then Some field else None) in_ui)) <$> scalar_settings file u)).
  { apply list_elem_of_fmap. by exists (k, in_file, field, in_ui). }
  assert (Hkeep : ∀ b key field' out, (k, x) ∈ out → (k = key → given c field' = false) →
    (k, x) ∈ (if b && given c field' then set_origin key (FromFlag field') out else out)).
  { intros b key field' out Ho Hk. destruct (b && given c field') eqn:Hb; [|done].
    apply set_origin_other; [done|]. intros ->. rewrite (Hk eq_refl) in Hb. by destruct b. }
  apply Hkeep; [|done]. apply Hkeep; [|done]. by right.
Qed.

Lemma sources_devices c file u env :
  ("devices", source_of (match file with
    | Some f => is_some (srv_iface (server f)) || match device f with [] => false | _ => true end
    | None => false end) (if given c "iface" then Some "iface" else None) (is_some (ui_devices u))) ∈ sources c file u env.
Proof.
  unfold sources. apply elem_of_app. left. cbv zeta.
  assert (Hkeep : ∀ b key field' x out, ("devices", x) ∈ out → key ≠ "devices" →
    ("devices", x) ∈ (if (b : bool) && given c field' then set_origin key (FromFlag field') out else out)).
  { intros b key field' x out Ho Hk. destruct (b && given c field'); [|done]. by apply set_origin_other. }
  apply Hkeep; [|done]. apply Hkeep; [|done]. left.
Qed.

(** Two UIs that agree on every secret, and on every other setting [sources] does
    not report as pinned. *)
Definition agree_unpinned (c : Cli) (file : option FileConfig) (env : Env) (u1 u2 : UiConfig) : Prop :=
  (∀ k src, (k, src) ∈ sources c file u1 env → pinned src = false → ui_agree k u1 u2) ∧
  uf_api_key (ui_forward u1) = uf_api_key (ui_forward u2) ∧
  ui_token (ui_ingest u1) = ui_token (ui_ingest u2).

Lemma agree_settled {A} c file env u1 u2 k in_file field in_ui (v1 v2 : option A) :
  agree_unpinned c file env u1 u2 → (k, in_file, field, in_ui) ∈ scalar_settings file u1 →
  (k = "forward.enable" → field = "forward_enable") → (k = "ingest.enable" → field = "ingest_enable") →
  (ui_agree k u1 u2 → v1 = v2) → settled c in_file field v1 v2.
Proof.
  intros [Hag _] Hin Hf Hi Hv. unfold settled. destruct in_file; [by left|right].
  destruct (given c field) eqn:Hg; [by left|right]. apply Hv. eapply Hag.
  - apply (sources_scalar c file u1 env k false field in_ui Hin).
    + intros Hk. by rewrite <-(Hf Hk).
    + intros Hk. by rewrite <-(Hi Hk).
  - rewrite Hg. by destruct in_ui.
Qed.

Lemma agree_ui_settled c file env u1 u2 : agree_unpinned c file env u1 u2 → ui_settled c file u1 u2.
Proof.
  intros Hag. split;
    (eapply (agree_settled c file env u1 u2);
      [exact Hag|unfold scalar_settings; repeat first [apply list_elem_of_here | apply list_elem_of_further]
      |done|done|by intros (? & ? & ? & ? & ? & ? & ? & ? & ? & ? & ? & ? & ? & ? & ?); auto]).
Qed.

Lemma device_layer_settled c file env u1 u2 :
  cli_ok c = true → agree_unpinned c file env u1 u2 →
  device_layer (beneath u1 c) file (Some u1) = device_layer (beneath u2 c) file (Some u2).
Proof.
  intros Hc [Hag _]. unfold device_layer. cbn [mbind option_bind].
  change (iface (beneath u1 c)) with (iface c). change (iface (beneath u2 c)) with (iface c).
  destruct (or_else (file ≫= λ f, srv_iface (server f)) (iface c)) as [x|] eqn:Hx; [done|].
  destruct (match file with Some f => device f | None => [] end) as [|t ts] eqn:Ht; [|done].
  assert (Hd : ui_devices u1 = ui_devices u2).
  { pose proof (sources_devices c file u1 env) as Hin. destruct (Hag _ _ Hin) as [Hd _]; [|by apply Hd].
    unfold or_else in Hx. destruct (file ≫= λ f, srv_iface (server f)) eqn:Hfi; [done|].
    unfold cli_ok in Hc. apply andb_true_iff in Hc as [Hgi _]. rewrite Hx in Hgi. cbn in Hgi.
    destruct (given c "iface"); [done|].
    destruct file as [f|]; [|by destruct (ui_devices u1)]. cbn in Hfi. rewrite Hfi, Ht. by destruct (ui_devices u1). }
  by rewrite Hd.
Qed.

Lemma resolve_cong c u1 u2 file env :
  layered (beneath u1 c) file env = layered (beneath u2 c) file env →
  device_layer (beneath u1 c) file (Some u1) = device_layer (beneath u2 c) file (Some u2) →
  uf_api_key (ui_forward u1) = uf_api_key (ui_forward u2) → ui_token (ui_ingest u1) = ui_token (ui_ingest u2) →
  resolve c file (Some u1) env = resolve c file (Some u2) env.
Proof.
  intros Hl Hd Hk Ht. unfold resolve. cbv zeta. rewrite Hl, Hd.
  assert (Hff : ∀ f, finish_forward env (Some u1) f = finish_forward env (Some u2) f)
    by (intros f; unfold finish_forward; cbn [mbind option_bind]; by rewrite Hk).
  assert (Hfi : ∀ i : option Ingest, finish_ingest env (Some u1) <$> i = finish_ingest env (Some u2) <$> i)
    by (intros [i|]; [|done]; cbn; f_equal; unfold finish_ingest; cbn [mbind option_bind]; by rewrite Ht).
  change (cli_pg_enable (beneath u1 c)) with (cli_pg_enable c). change (cli_pg_enable (beneath u2 c)) with (cli_pg_enable c).
  destruct (_ || _); [done|]. destruct (layered (beneath u2 c) file env) as [s|]; [|done].
  destruct (device_layer (beneath u2 c) file (Some u2)) as [[sugar tables]|]; [|done].
  change (pg_dir (beneath u1 c)) with (pg_dir c). change (pg_dir (beneath u2 c)) with (pg_dir c).
  destruct (match pg_dir c with Some _ => _ | None => _ end) as [dir|]; [|done].
  rewrite Hfi. destruct (s_forward s) as [f|]; [rewrite Hff; destruct (finish_forward env (Some u2) f)|]; done.
Qed.

(** A UI changes only what nothing above it set. Two UI layers that agree on
    the secrets and on every other setting that is not reported as pinned by the
    file, a flag or the environment resolve alike, errors and warnings included:
    a pinned setting is out of a UI's reach. *)
Theorem pinned_is_out_of_reach c file env u1 u2 :
  cli_ok c = true → ui_level_ok u1 = true → ui_level_ok u2 = true →
  agree_unpinned c file env u1 u2 →
  resolve c file (Some u1) env = resolve c file (Some u2) env.
Proof.
  intros Hc Hl1 Hl2 Hag. apply resolve_cong.
  - apply layered_settled; [done..|]. by eapply agree_ui_settled.
  - by eapply device_layer_settled.
  - apply Hag.
  - apply Hag.
Qed.

(** A UI's settings never cost the start. Where the server resolves without
    them it starts, whatever [ui.toml] holds or fails to: on the UI's settings,
    or without them and with a warning that says so. Settings that a start would
    refuse are only run on when those without the UI would be refused too. *)
Theorem ui_never_costs_the_start linux c file path loaded env r0 :
  resolve c file None env = Ok r0 →
  ∃ r ui, resolve_at_start linux c file path loaded env = Ok (r, ui) ∧
  (resolve c file (Some ui) env = Ok r ∨ settings r = settings r0 ∧ ∃ why, warnings r = warnings r0 ++ [UiIgnored why]) ∧
  (is_ok (check_start linux (settings r0)) = true → is_ok (check_start linux (settings r)) = true).
Proof.
  intros H0'. unfold resolve_at_start. rewrite H0'.
  destruct (match path with None => Ok ui_default | Some _ => loaded end) as [ui|why].
  2:{ eexists _, _. split; [done|]. split; [right; cbn; by eauto|done]. }
  cbv zeta. destruct (resolve c file (Some ui) env) as [r|e] eqn:Hr.
  - destruct (check_start linux (settings r)) as [[]|e] eqn:Hck.
    + exists r, ui. split; [done|]. split; [by left|]. by rewrite Hck.
    + destruct (is_ok (check_start linux (settings r0))) eqn:Hc0.
      * eexists _, _. split; [done|]. split; [right; cbn; by eauto|done].
      * exists r, ui. split; [done|]. split; [by left|done].
  - destruct (is_ok (check_start linux (settings r0))) eqn:Hc0; eexists _, _; (split; [done|]);
      (split; [right; cbn; by eauto|done]).
Qed.
End Proofs.

(** ** A site to run on *)

Module Site.
Import (hints) Catalogues.Bench.

Definition name_chars (n : string) : bool :=
  str_all (λ c, ascii_is_lower c || ascii_is_digit c || bool_decide (c = "_"%char)) n &&
  negb (is_empty_str n).
Lemma name_chars_ok n : name_chars n = true →
  str_all (λ c, ascii_is_lower c || ascii_is_digit c || bool_decide (c = "_"%char)) n = true ∧
  is_empty_str n = false.
Proof. unfold name_chars. intros [? Hn]%andb_true_iff. by apply negb_true_iff in Hn. Qed.

#[export] Instance lib : SettingsLib := {|
  Parity := bool;
  Parity_eq_dec := _;
  parity_parse s := if str_eqb s "none" then Ok false else if str_eqb s "even" then Ok true else Err "parity";
  line_validate _ _ _ _ := Ok ();
  valid_database_name := name_chars;
  valid_daemon_id n := negb (is_empty_str n);
  database_name_chars := name_chars_ok
|}.

Definition env : Env :=
  MkEnv None (Some "key") None (Some "/var/lib/wiretap-server") None (Some "Pi-Bench.local")
    (λ _, false) (λ _, Err "not found").

(** Two CAN interfaces, a line captured both framed and raw, and a gateway. *)
Definition line_table : DeviceSection :=
  MkDevice (Some "serial") (Some "/dev/ttyUSB0") None (Some "modbus") None (Some 9600) None None None
    (Some "modbus-rtu") None (Some "both") (Some "rawbytes") [].
Definition file : FileConfig :=
  MkFile (MkServer (Some "can0, can1") None None None (Some 2) None None None None [])
    postgres_default ingest_default test_pattern_default
    (MkForward (Some true) (Some "gateway") None None (Some "site") None None None None None None None [])
    logging_default [line_table] [].

Definition blank : Settings :=
  MkSettings [] "" 0 [] FromDefault 0 false false Rx false Info (of_Z 0) None None None.
Definition run (r : result SettingsError Resolved) : Resolved :=
  match r with Ok r => r | Err _ => MkResolved blank [] end.
Lemma run_ok r : is_ok r = true → r = Ok (run r).
Proof. by destruct r. Qed.

Definition site : Resolved := run (resolve cli_default (Some file) None env).
Lemma site_ok : resolve cli_default (Some file) None env = Ok site.
Proof. apply run_ok. vm_compute. reflexivity. Qed.

Lemma bus_numbers_resolve_witness :
  NoDup (d_bus <$> devices (settings site)) ∧ Forall (λ d, is_u8 (d_bus d)) (devices (settings site)).
Proof.
  destruct (bus_numbers_resolve cli_default (Some file) None env site site_ok) as (_ & Hn & Hu & _); [|by split].
  assert (Hb : bus_offset (settings site) = 2) by (vm_compute; reflexivity). rewrite Hb. unfold is_u8. lia.
Defined.

Definition site_forward : Forward := match s_forward (settings site) with Some f => f | None => forward_from_cli cli_default env end.
Lemma site_forward_ok : s_forward (settings site) = Some site_forward.
Proof.
  assert (Hs : is_some (s_forward (settings site)) = true) by (vm_compute; reflexivity).
  unfold site_forward. by destruct (s_forward (settings site)).
Qed.

Lemma one_link_per_database_witness :
  NoDup (f_database <$> forwards (settings site)) ∧ f_database <$> forwards (settings site) = ["site"; "modbus"; "rawbytes"].
Proof.
  split; [|vm_compute; reflexivity].
  exact (proj1 (one_link_per_database (settings site) site_forward site_forward_ok)).
Defined.

(** A UI that names a device, and one that also sets what the file pins. *)
Definition ui1 : UiConfig :=
  MkUiConfig (Some [MkUiDevice "can0" None None]) (MkUiForward (Some true) None None None None None None None None None)
    (MkUiIngest None None (Some "ui-token")) (MkUiLogging None).
Definition ui_site : Resolved := run (resolve cli_default None (Some ui1) env).
Lemma ui_site_ok : resolve cli_default None (Some ui1) env = Ok ui_site.
Proof. apply run_ok. vm_compute. reflexivity. Qed.

Lemma ui_cannot_transmit_witness :
  Forall (λ d, is_can d = true ∧ d_mode d = Passive) (devices (settings ui_site)) ∧ length (devices (settings ui_site)) = 1%nat.
Proof.
  split; [|vm_compute; reflexivity].
  exact (proj1 (proj2 (ui_cannot_transmit cli_default None ui1 env ui_site ui_site_ok) eq_refl eq_refl eq_refl)).
Defined.

Definition ui_host (h : string) : UiConfig :=
  MkUiConfig None (MkUiForward None (Some h) None None None None None None None None)
    (MkUiIngest None None None) (MkUiLogging None).

Lemma pinned_is_out_of_reach_witness :
  resolve cli_default (Some file) (Some (ui_host "a")) env = resolve cli_default (Some file) (Some (ui_host "b")) env.
Proof.
  apply (pinned_is_out_of_reach cli_default (Some file) env (ui_host "a") (ui_host "b")); [reflexivity..|].
  split; [|split; reflexivity]. intros k src Hin Hp.
  assert (Hk : k ≠ "forward.host").
  { intros ->. assert (Hsrc : src = FromFile); [|by rewrite Hsrc in Hp].
    vm_compute in Hin. repeat (apply elem_of_cons in Hin as [[= <-]|Hin]; try reflexivity). by apply elem_of_nil in Hin. }
  unfold ui_agree. split_and!; try (intros _; reflexivity). intros ->. by destruct Hk.
Defined.

Lemma ui_never_costs_the_start_witness :
  ∃ r ui, resolve_at_start true cli_default (Some file) (Some "ui.toml") (Err "bad") env = Ok (r, ui).
Proof.
  destruct (ui_never_costs_the_start true cli_default (Some file) (Some "ui.toml") (Err "bad") env site site_ok)
    as (r & ui & Hr & _). exists r, ui. exact Hr.
Defined.

(** *** Secrets *)

(** An ingest listener whose token the command line gives and the file empties. *)
Definition cli_token : Cli :=
  let c := cli_default in
  MkCli (iface c) (cli_host c) (cli_port c) (cli_allowed_clients c) (cli_bus_offset c) (cli_echo_console c) (cli_colour c)
    (cli_default_dir c) (cli_can_fd c) (cli_log_level c) (cli_stats_interval c) (test_pattern_enable c)
    (test_pattern_ifaces c) true (ingest_host c) (ingest_port c) (Some "flag-token") (ingest_keepalive_secs c)
    (ingest_max_batch_frames c) (forward_enable c) (forward_host c) (forward_port c) (forward_api_key c)
    (forward_database c) (pg_batch_size c) (pg_flush_interval c) (pg_queue_size c) (pg_dir c) (pg_cache_path c)
    (pg_cache_max_mb c) (pg_queue_flush_pct c) (cli_pg_enable c) (pg_dsn c) (pg_func c) (pg_write_mode c)
    (ui_config c) ["ingest_enable"; "ingest_token"].
Definition file_token : FileConfig :=
  MkFile server_default postgres_default (MkIngest None None None (Some "") None None []) test_pattern_default
    forward_default logging_default [] [].
Definition token_of (r : result SettingsError Resolved) : option string :=
  match r with Ok r => i_token <$> s_ingest (settings r) | Err _ => None end.
Definition env_token : Env :=
  MkEnv (Some "") None None None None (Some "bench") (λ _, false) (λ _, Err "not found").
Definition cli_listen : Cli := beneath (MkUiConfig None (ui_forward ui_default) (MkUiIngest (Some true) None None) (MkUiLogging None)) cli_default.

(** What is reported of a secret is not what is used. A file's empty token
    overrides the flag's, so the UI's is used while the flag is reported as
    pinning it; and an environment variable that is set but empty keeps the UI's
    token out, so authentication is off while the UI's token is reported in
    use. *)
Theorem secret_report_diverges :
  (("ingest.token", FromFlag "ingest_token") ∈ sources cli_token (Some file_token) ui1 env ∧
   token_of (resolve cli_token (Some file_token) (Some ui1) env) = Some "ui-token") ∧
  (("ingest.token", FromUi) ∈ sources cli_listen None ui1 env_token ∧
   token_of (resolve cli_listen None (Some ui1) env_token) = Some "").
Proof.
  split; (split; [|vm_compute; reflexivity]);
    (apply list_elem_of_lookup; exists 14%nat; vm_compute; reflexivity).
Qed.
End Site.
