(* ===== verification/CachePaths.v ===== *)
(** * The files of each pipeline ([settings.rs])

    A pipeline's cache sits beside the default one under a name of its own, and
    its dead letters beside that: no two pipelines share a file. *)

From S2P Require Import Prelude F64 Model Source Cidr Catalogues Settings Ui SettingsProofs.
From Stdlib Require Import Ascii.
Import Sample Config.
Local Open Scope Z_scope.

(** ** Strings backwards *)

Lemma str_rev_acc s : ∀ acc, str_rev s acc = str_rev s "" +:+ acc.
Proof.
  induction s as [|c s IH]; intros acc; [done|]. cbn [str_rev].
  rewrite IH, (IH (String c "")), <-str_app_assoc. done.
Qed.
Lemma str_rev_cons c s : str_rev (String c s) "" = str_rev s "" +:+ String c "".
Proof. cbn [str_rev]. apply str_rev_acc. Qed.
Lemma str_rev_app a b : str_rev (a +:+ b) "" = str_rev b "" +:+ str_rev a "".
Proof.
  induction a as [|c a IH]; [by rewrite str_app_nil_r|].
  change (String c a +:+ b) with (String c (a +:+ b)). rewrite !str_rev_cons, IH. by rewrite str_app_assoc.
Qed.
Lemma str_rev_rev s : str_rev (str_rev s "") "" = s.
Proof. induction s as [|c s IH]; [done|]. rewrite str_rev_cons, str_rev_app, IH. done. Qed.
Lemma str_rev_nil s : str_rev s "" = "" → s = "".
Proof. intros Hs. by rewrite <-(str_rev_rev s), Hs. Qed.

Lemma str_rev_length s : String.length (str_rev s "") = String.length s.
Proof. induction s as [|c s IH]; [done|]. rewrite str_rev_cons, str_length_app, IH. cbn. lia. Qed.

Lemma str_all_rev p s : str_all p (str_rev s "") = str_all p s.
Proof.
  induction s as [|c s IH]; [done|]. rewrite str_rev_cons, str_all_app, IH. cbn. by rewrite andb_true_r, andb_comm.
Qed.

(** ** The last component *)

(** Not a [/], and not a [.] after one: nothing to strip from the reversed text. *)
Definition stripped (s : string) : bool :=
  match s with
  | String c (String d _) => negb (bool_decide (c = "/"%char)) && negb (bool_decide (c = "."%char) && bool_decide (d = "/"%char))
  | _ => true
  end.

Lemma strip_stripped s : stripped (strip_tail_rev s) = true.
Proof.
  induction s as [|c s IH]; [done|]. destruct s as [|d s]; [done|]. cbn [strip_tail_rev].
  destruct (bool_decide (c = "/"%char)) eqn:Hc; [exact IH|].
  destruct (bool_decide (c = "."%char) && bool_decide (d = "/"%char)) eqn:Hd; [exact IH|].
  cbn [stripped]. by rewrite Hc, Hd.
Qed.
Lemma strip_id s : stripped s = true → strip_tail_rev s = s.
Proof.
  destruct s as [|c [|d s]]; [done..|]. cbn [stripped]. intros [Hc Hd]%andb_true_iff.
  apply negb_true_iff in Hc, Hd. cbn [strip_tail_rev]. by rewrite Hc, Hd.
Qed.

Definition slash_free (s : string) : bool := str_all (λ c, negb (bool_decide (c = "/"%char))) s.

Lemma span_slash_free s : slash_free (span_slash s).1 = true.
Proof.
  induction s as [|c s IH]; [done|]. cbn [span_slash]. destruct (bool_decide (c = "/"%char)) eqn:Hc; [done|].
  destruct (span_slash s) as [a b]. unfold slash_free in *. cbn [fst str_all] in *. by rewrite Hc.
Qed.
Lemma span_slash_app a b :
  slash_free a = true → (b = "" ∨ ∃ b', b = String "/" b') → span_slash (a +:+ b) = (a, b).
Proof.
  intros Ha Hb. induction a as [|c a IH].
  - destruct Hb as [->|[b' ->]]; done.
  - unfold slash_free in Ha. cbn [str_all] in Ha. apply andb_true_iff in Ha as [Hc Ha]. apply negb_true_iff in Hc.
    change (String c a +:+ b) with (String c (a +:+ b)). cbn [span_slash]. by rewrite Hc, (IH Ha).
Qed.

Lemma split_path_name p : slash_free (split_path p).2 = true ∧ stripped (str_rev (split_path p).1 "") = true.
Proof.
  unfold split_path. pose proof (span_slash_free (strip_tail_rev (str_rev p ""))) as Hs.
  destruct (span_slash _) as [name dir]. cbn [fst snd] in *. rewrite str_rev_rev. split; [|apply strip_stripped].
  unfold slash_free in *. by rewrite str_all_rev.
Qed.

Lemma ends_with_slash_rev s : ends_with_slash s = str_starts_with "/" (str_rev s "").
Proof.
  induction s as [|c s IH]; [done|]. rewrite str_rev_cons. destruct s as [|d s].
  - change (bool_decide (c = "/"%char) = bool_decide ("/"%char = c) && true).
    rewrite andb_true_r. apply bool_decide_ext. split; congruence.
  - change (ends_with_slash (String c (String d s))) with (ends_with_slash (String d s)). rewrite IH. destruct (str_rev (String d s) "") as [|e t] eqn:Hr; [|done].
    by apply str_rev_nil in Hr.
Qed.

Lemma slash_free_starts n : slash_free n = true → str_starts_with "/" n = false.
Proof.
  destruct n as [|c n]; [done|]. unfold slash_free. cbn [str_all str_starts_with].
  intros [Hc _]%andb_true_iff. apply negb_true_iff, bool_decide_eq_false in Hc.
  rewrite bool_decide_eq_false_2; [done|]. congruence.
Qed.

(** A name of two characters or more, in a directory as [split_path] leaves it. *)
Lemma split_path_join dir n :
  stripped (str_rev dir "") = true → slash_free n = true → (2 ≤ String.length n)%nat →
  split_path (path_join dir n) = (dir, n).
Proof.
  intros Hd Hn Hlen. unfold path_join. rewrite (slash_free_starts n Hn).
  assert (Hrn : slash_free (str_rev n "") = true) by (unfold slash_free in *; by rewrite str_all_rev).
  assert (Hst : ∀ t, stripped (str_rev n "" +:+ t) = true).
  { intros t. rewrite <-str_rev_length in Hlen. destruct (str_rev n "") as [|x [|y m]]; [cbn in Hlen; lia..|].
    unfold slash_free in Hrn. cbn [str_all] in Hrn. apply andb_true_iff in Hrn as [Hx [Hy _]%andb_true_iff].
    apply negb_true_iff in Hx, Hy. change (stripped (String x (String y (m +:+ t))) = true). cbn [stripped].
    by rewrite Hx, Hy, andb_false_r. }
  assert (Hgen : ∀ t, (t = "" ∨ ∃ b', t = String "/" b') → strip_tail_rev t = str_rev dir "" →
    ∀ p, str_rev p "" = str_rev n "" +:+ t → split_path p = (dir, n)).
  { intros t Ht Hs p Hp. unfold split_path. rewrite Hp, strip_id by apply Hst.
    rewrite span_slash_app by done. by rewrite Hs, !str_rev_rev. }
  destruct dir as [|c dir].
  { apply (Hgen ""); [by left|done|]. by rewrite str_app_nil_r. }
  set (d := String c dir) in *. change (is_empty_str d) with false. cbn [orb].
  destruct (ends_with_slash d) eqn:He; rewrite ends_with_slash_rev in He.
  - assert (Hroot : str_rev d "" = "/").
    { destruct (str_rev d "") as [|x [|y t]]; [done| |].
      - cbn in He. apply andb_true_iff in He as [Hx _]. by apply bool_decide_eq_true in Hx as <-.
      - cbn in He, Hd. apply andb_true_iff in He as [Hx _]. apply bool_decide_eq_true in Hx as <-. done. }
    apply (Hgen "/"); [right; by exists ""|by rewrite Hroot|]. by rewrite str_rev_app, Hroot.
  - apply (Hgen (String "/" (str_rev d ""))); [right; by eexists| |].
    + destruct (str_rev d "") as [|x t] eqn:Hr; [by apply str_rev_nil in Hr|].
      change (strip_tail_rev (String "/" (String x t))) with (strip_tail_rev (String x t)). by apply strip_id.
    + change ("/" +:+ n) with (String "/" n). rewrite str_rev_app, str_rev_cons, <-str_app_assoc. done.
Qed.

(** ** The stem and the extension *)

Definition dot_free (s : string) : bool := str_all (λ c, negb (bool_decide (c = "."%char))) s.

Lemma span_dot_spec s :
  match span_dot s with
  | Some (a, b) => s = a +:+ String "." b ∧ dot_free a = true
  | None => dot_free s = true
  end.
Proof.
  induction s as [|c s IH]; [done|]. cbn [span_dot]. unfold dot_free in *.
  destruct (bool_decide (c = "."%char)) eqn:Hc; [apply bool_decide_eq_true in Hc as ->; done|].
  destruct (span_dot s) as [[a b]|]; cbn [str_all]; rewrite Hc; [|done].
  destruct IH as [-> IH]. done.
Qed.
Lemma span_dot_app a b : dot_free a = true → span_dot (a +:+ String "." b) = Some (a, b).
Proof.
  induction a as [|c a IH]; [done|]. unfold dot_free in *. cbn [str_all]. intros [Hc Ha]%andb_true_iff.
  apply negb_true_iff in Hc. change (String c a +:+ String "." b) with (String c (a +:+ String "." b)).
  cbn [span_dot]. by rewrite Hc, (IH Ha).
Qed.
Lemma span_dot_none s : dot_free s = true → span_dot s = None.
Proof.
  induction s as [|c s IH]; [done|]. unfold dot_free in *. cbn [str_all span_dot]. intros [Hc Ha]%andb_true_iff.
  apply negb_true_iff in Hc. by rewrite Hc, (IH Ha).
Qed.

(** A name put back together around a suffix of its stem. *)
Definition suffixed (stem : string) (ext : option string) (suffix : string) : string :=
  match ext with Some e => stem +:+ suffix +:+ "." +:+ e | None => stem +:+ suffix end.

Lemma dot_free_rev s : dot_free (str_rev s "") = dot_free s.
Proof. apply str_all_rev. Qed.

Lemma stem_ext_spec name stem ext :
  stem_ext name = (stem, ext) → is_empty_str name = false →
  name = suffixed stem ext "" ∧ is_empty_str stem = false ∧
  (∀ a, dot_free a = true → stem_ext (suffixed stem ext a) = (stem +:+ a, ext)).
Proof.
  unfold stem_ext. pose proof (span_dot_spec (str_rev name "")) as Hs.
  destruct (span_dot (str_rev name "")) as [[e st]|] eqn:Hd.
  - destruct Hs as [Hn He]. apply (f_equal (λ s, str_rev s "")) in Hn. rewrite str_rev_rev, str_rev_app, str_rev_cons in Hn.
    destruct (is_empty_str st) eqn:Hst; intros [= <- <-] Hne.
    + assert (st = "") as -> by by destruct st. cbn [suffixed].
      split; [by rewrite str_app_nil_r|]. split; [done|]. intros a Ha.
      assert (Hr : str_rev (name +:+ a) "" = (str_rev a "" +:+ e) +:+ String "." "").
      { rewrite str_rev_app, Hn, str_rev_app, str_rev_rev. cbn. by rewrite str_app_assoc. }
      rewrite Hr, span_dot_app; [done|]. unfold dot_free in *. by rewrite str_all_app, str_all_rev, Ha, He.
    + cbn [suffixed]. split; [rewrite Hn; by rewrite <-str_app_assoc|].
      split. { destruct (str_rev st "") eqn:Hr; [|done]. apply str_rev_nil in Hr. by subst. }
      intros a Ha.
      assert (Hr : str_rev (str_rev st "" +:+ a +:+ "." +:+ str_rev e "") "" = e +:+ String "." (str_rev a "" +:+ st)).
      { rewrite !str_rev_app, !str_rev_rev. change (str_rev "." "") with (String "." ""). by rewrite <-!str_app_assoc. }
      rewrite Hr, span_dot_app by done.
      destruct (is_empty_str (str_rev a "" +:+ st)) eqn:Hem; [by destruct (str_rev a ""), st|].
      by rewrite str_rev_app, str_rev_rev.
  - intros [= <- <-] Hne. cbn [suffixed]. split; [by rewrite str_app_nil_r|]. split; [done|]. intros a Ha.
    rewrite span_dot_none; [done|]. rewrite str_rev_app. unfold dot_free in *. by rewrite str_all_app, str_all_rev, Ha, Hs.
Qed.

Lemma suffixed_inj stem ext a b : suffixed stem ext a = suffixed stem ext b → a = b.
Proof.
  destruct ext as [e|]; cbn [suffixed]; intros Heq%(inj (String.app stem)); [|done]. by apply str_app_inj_r in Heq.
Qed.
Lemma suffixed_length stem ext a :
  String.length (suffixed stem ext a) = (String.length (suffixed stem ext "") + String.length a)%nat.
Proof. destruct ext; cbn [suffixed]; rewrite !str_length_app; cbn; lia. Qed.
Lemma suffixed_suffixed stem ext a b : suffixed (stem +:+ a) ext b = suffixed stem ext (a +:+ b).
Proof. destruct ext; cbn [suffixed]; by rewrite <-!str_app_assoc. Qed.
Lemma suffixed_slash_free stem ext a :
  slash_free (suffixed stem ext "") = true → slash_free a = true → slash_free (suffixed stem ext a) = true.
Proof.
  unfold slash_free. destruct ext; cbn [suffixed]; rewrite !str_all_app; cbn [str_all]; intros Hs Ha;
    repeat (apply andb_true_iff in Hs as [? Hs]); rewrite ?Ha; bool_prop;
    repeat match goal with H : str_all _ _ = true |- _ => rewrite H end; done.
Qed.

(** ** Names beside the cache *)

Section Beside.
Variables (p n0 : string).
Hypothesis (Hn0 : file_name p = Some n0).

Lemma name_facts :
  (split_path p).2 = n0 ∧ is_empty_str n0 = false ∧ slash_free n0 = true ∧ stripped (str_rev (split_path p).1 "") = true.
Proof.
  destruct (split_path_name p) as [Hs Hd]. unfold file_name in Hn0. destruct (split_path p) as [dir name].
  cbn in *. destruct (is_empty_str name) eqn:He; [done|]. cbn [orb] in Hn0.
  destruct (_ || _); [done|]. injection Hn0 as <-. done.
Qed.

Definition beside (suffix : string) : string :=
  path_join (split_path p).1 (suffixed (stem_ext n0).1 (stem_ext n0).2 suffix).

Lemma with_stem_suffix_beside suffix : with_stem_suffix p suffix = beside suffix.
Proof.
  unfold with_stem_suffix, with_file_name, beside. rewrite Hn0. by destruct (stem_ext n0) as [stem [e|]].
Qed.

Lemma suffixed_ok suffix :
  slash_free suffix = true → is_empty_str suffix = false →
  let n := suffixed (stem_ext n0).1 (stem_ext n0).2 suffix in
  slash_free n = true ∧ (2 ≤ String.length n)%nat ∧ (String.length n0 < String.length n)%nat.
Proof.
  intros Hs Hne n. destruct name_facts as (_ & He & Hf & _).
  destruct (stem_ext n0) as [stem ext] eqn:Hse. destruct (stem_ext_spec _ _ _ Hse He) as (Hname & Hst & _).
  cbn [fst snd] in n. unfold n. split; [apply suffixed_slash_free; [by rewrite <-Hname|done]|].
  rewrite suffixed_length, <-Hname. destruct suffix; [done|]. destruct n0; [done|]. cbn. lia.
Qed.

Lemma beside_split suffix :
  slash_free suffix = true → is_empty_str suffix = false →
  split_path (beside suffix) = ((split_path p).1, suffixed (stem_ext n0).1 (stem_ext n0).2 suffix).
Proof.
  intros Hs Hne. destruct (suffixed_ok suffix Hs Hne) as (Hf & Hl & _).
  apply split_path_join; [apply name_facts|done|done].
Qed.

Lemma beside_inj a b :
  slash_free a = true → is_empty_str a = false → slash_free b = true → is_empty_str b = false →
  beside a = beside b → a = b.
Proof.
  intros Ha Hae Hb Hbe Heq. apply (f_equal split_path) in Heq. rewrite !beside_split in Heq by done.
  injection Heq as Heq. by eapply suffixed_inj.
Qed.

Lemma beside_not_itself a : slash_free a = true → is_empty_str a = false → beside a ≠ p.
Proof.
  intros Ha Hae Heq. apply (f_equal split_path) in Heq. rewrite beside_split in Heq by done.
  apply (f_equal snd) in Heq. cbn [snd] in Heq. destruct name_facts as (Hn & _). rewrite Hn in Heq.
  destruct (suffixed_ok a Ha Hae) as (_ & _ & Hlt). rewrite Heq in Hlt. lia.
Qed.

(** A suffix that names something: no separator, and not only dots. *)
Definition names (a : string) : bool :=
  slash_free a && negb (is_empty_str a) && negb (str_all (λ c, bool_decide (c = "."%char)) a).

Lemma file_name_beside a :
  names a = true → file_name (beside a) = Some (suffixed (stem_ext n0).1 (stem_ext n0).2 a).
Proof.
  intros [[Ha Hae]%andb_true_iff Hdots]%andb_true_iff. apply negb_true_iff in Hae, Hdots.
  unfold file_name. rewrite beside_split by done.
  destruct (suffixed_ok a Ha Hae) as (_ & Hl & _). set (n := suffixed _ _ a) in *.
  assert (Hn : str_all (λ c, bool_decide (c = "."%char)) n = false).
  { unfold n. destruct (stem_ext n0).2; cbn [suffixed]; rewrite !str_all_app, Hdots; by rewrite ?andb_false_r. }
  destruct (is_empty_str n) eqn:He; [by destruct n|]. cbn [orb].
  destruct (str_eqb n ".") eqn:E1; [apply str_eqb_eq in E1; by rewrite E1 in Hn|].
  destruct (str_eqb n "..") eqn:E2; [apply str_eqb_eq in E2; by rewrite E2 in Hn|]. done.
Qed.

(** A suffix of a suffixed name. *)
Lemma with_stem_suffix_twice a b :
  names a = true → dot_free a = true → with_stem_suffix (beside a) b = beside (a +:+ b).
Proof.
  intros Hna Hdot. unfold with_stem_suffix, with_file_name. rewrite (file_name_beside a Hna).
  apply andb_true_iff in Hna as [[Ha Hae]%andb_true_iff _]. apply negb_true_iff in Hae.
  rewrite beside_split by done. cbn [fst]. destruct name_facts as (_ & He & _).
  destruct (stem_ext n0) as [stem ext] eqn:Hse. destruct (stem_ext_spec _ _ _ Hse He) as (_ & _ & Hsuf).
  cbn [fst snd]. rewrite Hsuf by done. unfold beside. rewrite Hse. cbn [fst snd].
  rewrite <-suffixed_suffixed. by destruct ext.
Qed.
End Beside.

(** ** Every pipeline its own files *)

Section Pipelines.
Context `{CatalogueLib} `{SettingsLib}.

Lemma valid_database_free db : valid_database db = true → slash_free db = true ∧ dot_free db = true.
Proof.
  unfold valid_database. destruct (is_empty_str db) eqn:He; [by destruct db|]. cbn [orb].
  intros [Hall _]%database_name_chars. clear He. unfold slash_free, dot_free.
  induction db as [|c db IH]; [done|]. cbn [str_all] in *. apply andb_true_iff in Hall as [Hc Hdb].
  destruct (IH Hdb) as [-> ->].
  assert (c ≠ "/"%char ∧ c ≠ "."%char) as [H1' H2'] by (split; intros ->; done).
  by rewrite !bool_decide_eq_false_2.
Qed.

(** Every database of a resolved configuration that forwards has a valid name. *)
Lemma resolved_databases_valid c file ui env r fwd db :
  resolve c file ui env = Ok r → s_forward (settings r) = Some fwd → db ∈ databases (settings r) →
  valid_database db = true.
Proof.
  intros Hr Hf Hdb. destruct (resolve_devices _ _ _ _ _ Hr) as (s & sugar & tables & _ & Hb & Hs).
  assert (Hdef : valid_database (default_database (settings r)) = true).
  { unfold default_database. rewrite Hf. revert Hr Hf. unfold resolve. cbv zeta.
    set (c' := match ui with Some _ => _ | None => _ end). destruct (_ || _); [done|].
    destruct (layered c' file env) as [s1|]; [|done]. destruct (device_layer c' file ui) as [[sg ts]|]; [|done].
    destruct (match pg_dir c' with Some _ => _ | None => _ end); [|done].
    destruct (s_forward s1) as [f|]; [destruct (finish_forward env ui f) as [f'|] eqn:Hff; [|done]|];
      (destruct (build_devices env _ _ ts); [|done]); intros [= <-]; [|done]. intros [= <-].
    unfold finish_forward in Hff. destruct (valid_database _) eqn:Hv; [|done]. cbn [negb] in Hff.
    destruct (negb (valid_daemon_id _)); [done|]. by injection Hff as <-. }
  apply databases_spec in Hdb as [[-> _]|(d & Hd & Hdd)]; [done|].
  destruct (build_devices_spec _ _ _ _ _ Hb) as (ds0 & (tabled & -> & Htab) & _ & Hren & _).
  apply list_elem_of_lookup in Hd as [i Hi]. destruct (Forall2_lookup_r _ _ _ _ _ Hren Hi) as (d0 & Hi0 & Hd0).
  apply renumbered_fields in Hd0 as (_ & _ & Hd1 & Hd2 & _).
  assert (Hdd0 : db ∈ device_databases d0) by (unfold device_databases in *; by rewrite <-Hd1, <-Hd2).
  apply list_elem_of_lookup_2, elem_of_app in Hi0 as [Hin|Hin].
  - apply list_elem_of_fmap in Hin as (name & -> & _). cbn in Hdd0. apply list_elem_of_singleton in Hdd0 as ->.
    by rewrite Hs in Hdef.
  - apply list_elem_of_lookup in Hin as [j Hj]. destruct (Forall2_lookup_r _ _ _ _ _ Htab Hj) as (t & _ & _ & Hall).
    apply Forall_cons in Hall as [_ Hall]. rewrite Forall_forall in Hall. by apply Hall.
Qed.

(** The files a pipeline writes. *)
Definition own_files (f : Forward) : list string := [b_cache_path (f_batching f); dead_letter_path (f_batching f)].

(** What they are called beside the default cache: itself, or a suffix. *)
Definition file_keys (def db : string) : list (option string) :=
  if str_eqb db def then [None; Some ".dead-letter"]
  else [Some ("-" +:+ db); Some (("-" +:+ db) +:+ ".dead-letter")].

Definition key_file (p n0 : string) (k : option string) : string :=
  match k with None => p | Some suffix => beside p n0 suffix end.

Lemma own_files_keys p n0 s fwd db :
  s_forward s = Some fwd → b_cache_path (f_batching fwd) = p → file_name p = Some n0 → valid_database db = true →
  own_files (for_database fwd db) = key_file p n0 <$> file_keys (f_database fwd) db.
Proof.
  intros Hf <- Hn0 Hv. unfold own_files, for_database, file_keys, dead_letter_path.
  destruct (str_eqb db (f_database fwd)) eqn:He; cbn [fmap list_fmap key_file].
  - by rewrite (with_stem_suffix_beside _ n0).
  - cbn [f_batching b_cache_path]. unfold sibling_cache. rewrite (with_stem_suffix_beside _ n0) by done.
    destruct (valid_database_free db Hv) as [Hs Hd]. rewrite (with_stem_suffix_twice _ n0 Hn0); [done| |exact Hd].
    unfold names. change ("-" +:+ db) with (String "-" db).
    unfold slash_free in *. cbn [str_all is_empty_str]. by rewrite Hs.
Qed.

Lemma file_keys_disjoint def db db' k :
  dot_free db = true → dot_free db' = true → k ∈ file_keys def db → k ∈ file_keys def db' → db = db'.
Proof.
  intros Hd Hd'. unfold file_keys.
  assert (Hno : ∀ x y, dot_free x = true → x = y +:+ ".dead-letter" → False).
  { intros x y Hx ->. unfold dot_free in Hx. rewrite str_all_app in Hx. cbn in Hx. by rewrite andb_false_r in Hx. }
  destruct (str_eqb db def) eqn:He, (str_eqb db' def) eqn:He';
    rewrite ?str_eqb_eq in *; [congruence|..];
    intros [->|[->|[]%elem_of_nil]%elem_of_cons]%elem_of_cons
           [Hk|[Hk|[]%elem_of_nil]%elem_of_cons]%elem_of_cons;
    try done; injection Hk as Hk; try done.
  - exfalso. by apply (Hno db db').
  - exfalso. by apply (Hno db' db).
  - by apply str_app_inj_r in Hk.
Qed.

Lemma key_file_inj p n0 def dbs k k' :
  file_name p = Some n0 → Forall (λ db, valid_database db = true) dbs →
  k ∈ dbs ≫= file_keys def → k' ∈ dbs ≫= file_keys def → key_file p n0 k = key_file p n0 k' → k = k'.
Proof.
  intros Hn0 Hall Hk Hk'.
  assert (Hok : ∀ x, Some x ∈ dbs ≫= file_keys def → slash_free x = true ∧ is_empty_str x = false).
  { intros x (db & Hx & Hdb)%list_elem_of_bind. rewrite Forall_forall in Hall.
    destruct (valid_database_free db (Hall db Hdb)) as [Hs _]. unfold file_keys in Hx.
    destruct (str_eqb db def); apply elem_of_cons in Hx as [Hx|[Hx|[]%elem_of_nil]%elem_of_cons]; try done;
      injection Hx as ->; [done|..]; (split; [|done]); unfold slash_free in *.
    - change ("-" +:+ db) with (String "-" db). cbn [str_all]. by rewrite Hs.
    - rewrite str_all_app. change ("-" +:+ db) with (String "-" db). cbn [str_all]. by rewrite Hs. }
  destruct k as [a|], k' as [b|]; cbn [key_file]; [|intros Heq..|done].
  - intros Heq. destruct (Hok a Hk), (Hok b Hk'). f_equal. by apply (beside_inj p n0 Hn0).
  - destruct (Hok a Hk). by apply (beside_not_itself p n0 Hn0 a) in Heq.
  - destruct (Hok b Hk'). symmetry in Heq. by apply (beside_not_itself p n0 Hn0 b) in Heq.
Qed.

(** No two pipelines share a file. Where the configured cache path names a
    file, the disk cache and the dead-letter cache of every database forwarded
    to are all different files. *)
Theorem pipelines_own_their_files c file ui env r fwd :
  resolve c file ui env = Ok r → s_forward (settings r) = Some fwd →
  is_Some (file_name (b_cache_path (f_batching fwd))) →
  NoDup (forwards (settings r) ≫= own_files).
Proof.
  intros Hr Hf [n0 Hn0]. set (s := settings r) in *. set (p := b_cache_path (f_batching fwd)) in *.
  assert (Hall : Forall (λ db, valid_database db = true) (databases s)).
  { apply Forall_forall. intros db Hdb. by eapply resolved_databases_valid. }
  assert (Hfiles : forwards s ≫= own_files = key_file p n0 <$> (databases s ≫= file_keys (f_database fwd))).
  { unfold forwards. rewrite Hf. clear -Hall Hf Hn0. induction Hall as [|db dbs Hv Hall IH]; [done|].
    rewrite fmap_cons, !bind_cons, fmap_app, IH. f_equal. by apply (own_files_keys p n0 s). }
  rewrite Hfiles. apply NoDup_fmap_2_strong; [intros; by eapply key_file_inj|].
  destruct (databases_spec s) as [Hnd _]. clear -Hnd Hall.
  induction Hnd as [|db dbs Hdb Hnd IH]; [constructor|]. apply Forall_cons in Hall as [Hv Hall].
  rewrite bind_cons. apply NoDup_app. split_and!; [|intros k Hk Hin|by apply IH].
  - unfold file_keys. destruct (str_eqb _ _); apply NoDup_cons; (split; [|apply NoDup_singleton]);
      intros Hin%list_elem_of_singleton; [done|]. injection Hin as Hin. symmetry in Hin. by apply str_app_neq in Hin.
  - apply list_elem_of_bind in Hin as (db' & Hk' & Hdb'). apply Hdb.
    rewrite Forall_forall in Hall. specialize (Hall db' Hdb').
    destruct (valid_database_free db Hv) as [_ Hd], (valid_database_free db' Hall) as [_ Hd'].
    by rewrite (file_keys_disjoint _ _ _ _ Hd Hd' Hk Hk').
Qed.
End Pipelines.

Import (hints) Catalogues.Bench SettingsProofs.Site.
Lemma pipelines_own_their_files_witness :
  NoDup (forwards (settings Site.site) ≫= own_files) ∧
  forwards (settings Site.site) ≫= own_files =
    ["/var/lib/wiretap-server/cache.db"; "/var/lib/wiretap-server/cache.dead-letter.db";
     "/var/lib/wiretap-server/cache-modbus.db"; "/var/lib/wiretap-server/cache-modbus.dead-letter.db";
     "/var/lib/wiretap-server/cache-rawbytes.db"; "/var/lib/wiretap-server/cache-rawbytes.dead-letter.db"].
Proof.
  split; [|vm_compute; reflexivity].
  apply (pipelines_own_their_files cli_default (Some Site.file) None Site.env Site.site Site.site_forward Site.site_ok Site.site_forward_ok).
  assert (Hn : file_name (b_cache_path (f_batching Site.site_forward)) = Some "cache.db") by (vm_compute; reflexivity).
  rewrite Hn. by eexists.
Defined.
