(* ===== verification/UiDoc.v ===== *)
(** * [ui.toml] as a document ([ui.rs] [merge], [load], [write], [path])

    A change a UI sends is merged as JSON: the settings as they stand are made a
    [serde_json] value, the slots the change names are replaced, and the value is
    read back. The reading and writing [serde] derives from the structures of
    [ui.rs] is written out field by field; the texts of its errors, the TOML
    syntax and the JSON syntax are a class. *)

From S2P Require Import Prelude F64 Model Source Cidr Catalogues Settings Ui.
From Stdlib Require Import Ascii.
Import Config.
Local Open Scope Z_scope.

(** ** [serde_json::Value] *)

(** A map is its entries, in the order of its keys; a number is an integer or
    not. *)
Inductive Json :=
  | JNull
  | JBool (b : bool)
  | JInt (n : Z)
  | JFloat (x : f64)
  | JStr (s : string)
  | JArr (l : list Json)
  | JObj (l : list (string * Json)).

Definition Obj : Type := list (string * Json).

Fixpoint obj_insert (k : string) (v : Json) (l : Obj) : Obj :=
  match l with
  | [] => [(k, v)]
  | (k', v') :: l' =>
      match String.compare k k' with
      | Lt => (k, v) :: l
      | Eq => (k, v) :: l'
      | Gt => (k', v') :: obj_insert k v l'
      end
  end.
Definition obj_get (k : string) (l : Obj) : option Json := snd <$> find (λ '(k', _), str_eqb k' k) l.
Lemma obj_get_elem k v l : NoDup l.*1 → (k, v) ∈ l → obj_get k l = Some v.
Proof.
  unfold obj_get. induction l as [|[k' v'] l IH]; cbn; intros Hnd Hin; [by apply not_elem_of_nil in Hin|].
  apply NoDup_cons in Hnd as [Hk Hnd]. apply elem_of_cons in Hin as [[= <- <-]|Hin]; [by rewrite str_eqb_refl|].
  rewrite (proj2 (str_eqb_neq _ _)); [by apply IH|]. intros ->. apply Hk, list_elem_of_fmap. by exists (k, v).
Qed.
(** [json!] of an object. *)
Definition obj (l : Obj) : Json := JObj (foldr (λ '(k, v) l, obj_insert k v l) [] l).

Definition is_null (j : Json) : bool := match j with JNull => true | _ => false end.

(** ** [Value::pointer_mut] *)

(** A token's escapes: [~1] is a slash and [~0] a tilde. *)
Fixpoint replace2 (a b with_ : ascii) (s : string) : string :=
  match s with
  | String x ((String y rest) as s') =>
      if bool_decide (x = a) && bool_decide (y = b) then String with_ (replace2 a b with_ rest)
      else String x (replace2 a b with_ s')
  | _ => s
  end.
Definition unescape (t : string) : string := replace2 "~" "0" "~" (replace2 "~" "1" "/" t).

(** An array's index: digits, without a sign or a leading zero. *)
Fixpoint digits (acc : nat) (s : string) : option nat :=
  match s with
  | EmptyString => Some acc
  | String c s =>
      if ascii_is_digit c then digits (acc * 10 + (nat_of_ascii c - 48)) s else None
  end.
Definition parse_index (s : string) : option nat :=
  match s with
  | EmptyString => None
  | String c rest =>
      if bool_decide (c = "0"%char) && negb (is_empty_str rest) then None else digits 0 s
  end.

Fixpoint pointer_set (path : list string) (v doc : Json) : option Json :=
  match path with
  | [] => Some v
  | k :: path =>
      match doc with
      | JObj l => d ← obj_get k l; d' ← pointer_set path v d; Some (JObj (obj_insert k d' l))
      | JArr l =>
          i ← parse_index k; d ← l !! i; d' ← pointer_set path v d; Some (JArr (<[i := d']> l))
      | _ => None
      end
  end.
(** The tokens of [format!("/{}", key.replace('.', "/"))]. *)
Definition pointer_of (key : string) : list string :=
  unescape <$> str_split "/" (str_map (λ c, if bool_decide (c = "."%char) then "/"%char else c) key).

(** ** What [serde] derives *)

Inductive SerdeError :=
  | InvalidType (expected : string) (found : Json)
  | InvalidValue (expected : string) (found : Json)
  | InvalidLength (n : nat)
  | UnknownField (name : string).

Definition Decode (A : Type) : Type := Json → result SerdeError A.

Definition bool_of : Decode bool := λ j, match j with JBool b => Ok b | _ => Err (InvalidType "a boolean" j) end.
Definition str_of : Decode string := λ j, match j with JStr s => Ok s | _ => Err (InvalidType "a string" j) end.
Definition uint_of (what : string) (bits : Z) : Decode Z := λ j,
  match j with
  | JInt n => if (0 <=? n) && (n <? 2 ^ bits) then Ok n else Err (InvalidValue what j)
  | _ => Err (InvalidType what j)
  end.
Definition usize_of : Decode nat := λ j, n <-? uint_of "usize" 64 j ;; Ok (Z.to_nat n).
Definition f64_of : Decode f64 := λ j,
  match j with JFloat x => Ok x | JInt n => Ok (of_Z n) | _ => Err (InvalidType "f64" j) end.
Definition opt_of {A} (d : Decode A) : Decode (option A) := λ j,
  match j with JNull => Ok None | _ => x <-? d j ;; Ok (Some x) end.
Definition opt_to {A} (f : A → Json) (o : option A) : Json := match o with Some x => f x | None => JNull end.

(** A structure with [#[serde(default, deny_unknown_fields)]]: its fields, in
    declaration order. *)
Definition Fields (S : Type) : Type := list (string * (Json → S → result SerdeError S)).
Definition field {A S} (name : string) (d : Decode A) (set : A → S → S) : string * (Json → S → result SerdeError S) :=
  (name, λ j s, x <-? d j ;; Ok (set x s)).

Fixpoint visit_map {S} (fields : Fields S) (l : Obj) (s : S) : result SerdeError S :=
  match l with
  | [] => Ok s
  | (k, j) :: l =>
      match find (λ '(k', _), str_eqb k' k) fields with
      | None => Err (UnknownField k)
      | Some (_, put) => s <-? put j s ;; visit_map fields l s
      end
  end.
Fixpoint visit_seq {S} (fields : Fields S) (n : nat) (l : list Json) (s : S) : result SerdeError S :=
  match l, fields with
  | [], _ => Ok s
  | _ :: _, [] => Err (InvalidLength n)
  | j :: l, (_, put) :: fields => s <-? put j s ;; visit_seq fields n l s
  end.
Definition struct_of {S} (name : string) (fields : Fields S) (dflt : S) : Decode S := λ j,
  match j with
  | JObj l => visit_map fields l dflt
  | JArr l => visit_seq fields (length l) l dflt
  | _ => Err (InvalidType name j)
  end.
Fixpoint list_of {A} (d : Decode A) (l : list Json) : result SerdeError (list A) :=
  match l with [] => Ok [] | j :: l => x <-? d j ;; xs <-? list_of d l ;; Ok (x :: xs) end.
Definition vec_of {A} (d : Decode A) : Decode (list A) := λ j,
  match j with JArr l => list_of d l | _ => Err (InvalidType "a sequence" j) end.

(** [UiDevice]. *)
Definition device_fields : Fields UiDevice :=
  [field "interface" str_of (λ x d, MkUiDevice x (ui_fd d) (ui_database d));
   field "fd" (opt_of bool_of) (λ x d, MkUiDevice (ui_interface d) x (ui_database d));
   field "database" (opt_of str_of) (λ x d, MkUiDevice (ui_interface d) (ui_fd d) x)].
Definition device_of : Decode UiDevice := struct_of "struct UiDevice" device_fields (MkUiDevice EmptyString None None).
Definition device_to (d : UiDevice) : Json :=
  obj [("interface", JStr (ui_interface d)); ("fd", opt_to JBool (ui_fd d)); ("database", opt_to JStr (ui_database d))].

(** [UiForward]. *)
Definition forward_fields : Fields UiForward :=
  [field "enable" (opt_of bool_of) (λ x f, MkUiForward x (uf_host f) (uf_port f) (uf_api_key f) (uf_database f)
     (uf_batch_size f) (uf_flush_interval f) (uf_queue_size f) (uf_cache_max_mb f) (uf_queue_flush_pct f));
   field "host" (opt_of str_of) (λ x f, MkUiForward (uf_enable f) x (uf_port f) (uf_api_key f) (uf_database f)
     (uf_batch_size f) (uf_flush_interval f) (uf_queue_size f) (uf_cache_max_mb f) (uf_queue_flush_pct f));
   field "port" (opt_of (uint_of "u16" 16)) (λ x f, MkUiForward (uf_enable f) (uf_host f) x (uf_api_key f) (uf_database f)
     (uf_batch_size f) (uf_flush_interval f) (uf_queue_size f) (uf_cache_max_mb f) (uf_queue_flush_pct f));
   field "api_key" (opt_of str_of) (λ x f, MkUiForward (uf_enable f) (uf_host f) (uf_port f) x (uf_database f)
     (uf_batch_size f) (uf_flush_interval f) (uf_queue_size f) (uf_cache_max_mb f) (uf_queue_flush_pct f));
   field "database" (opt_of str_of) (λ x f, MkUiForward (uf_enable f) (uf_host f) (uf_port f) (uf_api_key f) x
     (uf_batch_size f) (uf_flush_interval f) (uf_queue_size f) (uf_cache_max_mb f) (uf_queue_flush_pct f));
   field "batch_size" (opt_of usize_of) (λ x f, MkUiForward (uf_enable f) (uf_host f) (uf_port f) (uf_api_key f)
     (uf_database f) x (uf_flush_interval f) (uf_queue_size f) (uf_cache_max_mb f) (uf_queue_flush_pct f));
   field "flush_interval" (opt_of f64_of) (λ x f, MkUiForward (uf_enable f) (uf_host f) (uf_port f) (uf_api_key f)
     (uf_database f) (uf_batch_size f) x (uf_queue_size f) (uf_cache_max_mb f) (uf_queue_flush_pct f));
   field "queue_size" (opt_of usize_of) (λ x f, MkUiForward (uf_enable f) (uf_host f) (uf_port f) (uf_api_key f)
     (uf_database f) (uf_batch_size f) (uf_flush_interval f) x (uf_cache_max_mb f) (uf_queue_flush_pct f));
   field "cache_max_mb" (opt_of (uint_of "u64" 64)) (λ x f, MkUiForward (uf_enable f) (uf_host f) (uf_port f) (uf_api_key f)
     (uf_database f) (uf_batch_size f) (uf_flush_interval f) (uf_queue_size f) x (uf_queue_flush_pct f));
   field "queue_flush_pct" (opt_of (uint_of "u8" 8)) (λ x f, MkUiForward (uf_enable f) (uf_host f) (uf_port f) (uf_api_key f)
     (uf_database f) (uf_batch_size f) (uf_flush_interval f) (uf_queue_size f) (uf_cache_max_mb f) x)].
Definition forward_of : Decode UiForward := struct_of "struct UiForward" forward_fields (ui_forward ui_default).
Definition usize_to (n : nat) : Json := JInt (Z.of_nat n).
Definition forward_to (f : UiForward) : Json :=
  obj [("enable", opt_to JBool (uf_enable f)); ("host", opt_to JStr (uf_host f)); ("port", opt_to JInt (uf_port f));
       ("api_key", opt_to JStr (uf_api_key f)); ("database", opt_to JStr (uf_database f));
       ("batch_size", opt_to usize_to (uf_batch_size f)); ("flush_interval", opt_to JFloat (uf_flush_interval f));
       ("queue_size", opt_to usize_to (uf_queue_size f)); ("cache_max_mb", opt_to JInt (uf_cache_max_mb f));
       ("queue_flush_pct", opt_to JInt (uf_queue_flush_pct f))].

(** [UiIngest] and [UiLogging]. *)
Definition ingest_fields : Fields UiIngest :=
  [field "enable" (opt_of bool_of) (λ x i, MkUiIngest x (ui_port i) (ui_token i));
   field "port" (opt_of (uint_of "u16" 16)) (λ x i, MkUiIngest (ui_enable i) x (ui_token i));
   field "token" (opt_of str_of) (λ x i, MkUiIngest (ui_enable i) (ui_port i) x)].
Definition ingest_of : Decode UiIngest := struct_of "struct UiIngest" ingest_fields (ui_ingest ui_default).
Definition ingest_to (i : UiIngest) : Json :=
  obj [("enable", opt_to JBool (ui_enable i)); ("port", opt_to JInt (ui_port i)); ("token", opt_to JStr (ui_token i))].

Definition logging_fields : Fields UiLogging := [field "level" (opt_of str_of) (λ x _, MkUiLogging x)].
Definition logging_of : Decode UiLogging := struct_of "struct UiLogging" logging_fields (ui_logging ui_default).
Definition logging_to (l : UiLogging) : Json := obj [("level", opt_to JStr (ul_level l))].

(** [UiConfig]. *)
Definition ui_fields : Fields UiConfig :=
  [field "devices" (opt_of (vec_of device_of)) (λ x u, MkUiConfig x (ui_forward u) (ui_ingest u) (ui_logging u));
   field "forward" forward_of (λ x u, MkUiConfig (ui_devices u) x (ui_ingest u) (ui_logging u));
   field "ingest" ingest_of (λ x u, MkUiConfig (ui_devices u) (ui_forward u) x (ui_logging u));
   field "logging" logging_of (λ x u, MkUiConfig (ui_devices u) (ui_forward u) (ui_ingest u) x)].
Definition from_value : Decode UiConfig := struct_of "struct UiConfig" ui_fields ui_default.
(** Its interval is finite: [serde_json] writes an infinity or a NaN as null. *)
Definition to_value (u : UiConfig) : Json :=
  obj [("devices", opt_to (λ ds, JArr (device_to <$> ds)) (ui_devices u)); ("forward", forward_to (ui_forward u));
       ("ingest", ingest_to (ui_ingest u)); ("logging", logging_to (ui_logging u))].

(** ** The syntaxes *)

Class UiLib := {
  serde_error_str : SerdeError → string;
  (** An error's span starts at a byte of the text. *)
  toml_from_str : string → result (option nat * string) UiConfig;
  toml_to_string : UiConfig → result string string;
  json_from_slice : list Z → result string Obj;
  json_to_string : Json → string;
  (** [FileConfig::parse]'s TOML. *)
  config_from_str : string → result string FileConfig
}.

Definition HEADER : string :=
  "# Written by wiretap-server for its UI. Set a value in the config file" +:+ newline +:+
  "# instead to pin it: anything set there wins over this file." +:+ newline.

(** A file as [read_to_string] finds it. *)
Inductive FileRead := Text (s : string) | Missing | Unreadable (err : string).

Fixpoint newlines (n : nat) (s : string) : nat :=
  match n, s with
  | S n, String c s => (if bool_decide (String c EmptyString = newline) then 1 else 0) + newlines n s
  | _, _ => 0
  end%nat.

Section Files.
Context `{UiLib}.

Definition load (path : string) (file : FileRead) : result string UiConfig :=
  match file with
  | Text text =>
      map_err (λ '(span, message),
        let line := match span with Some start => " line " +:+ pretty (newlines start text + 1)%nat | None => EmptyString end in
        path +:+ line +:+ ": " +:+ message) (toml_from_str text)
  | Missing => Ok ui_default
  | Unreadable e => Err (path +:+ ": " +:+ e)
  end.

(** [write]: what is at the path afterwards. [outcome] is the atomic write's,
    which leaves the old file when it fails. *)
Definition write (outcome : result string ()) (u : UiConfig) (old : FileRead) : result string () * FileRead :=
  match toml_to_string u with
  | Err e => (Err e, old)
  | Ok text => match outcome with Ok _ => (Ok (), Text (HEADER +:+ text)) | Err e => (Err e, old) end
  end.

Fixpoint merge_slots (put : Obj) (doc : Json) : result string Json :=
  match put with
  | [] => Ok doc
  | (key, v) :: put =>
      match pointer_set (pointer_of key) v doc with
      | None => Err (key +:+ " is not a UI setting")
      | Some doc => merge_slots put doc
      end
  end.
Definition merge (current : UiConfig) (put : Obj) : result string UiConfig :=
  doc <-? merge_slots put (to_value current) ;; map_err serde_error_str (from_value doc).
End Files.

(** [settings.rs] [load]. *)
Definition config_load `{UiLib} (path : string) (file : FileRead) : result SettingsError (option FileConfig) :=
  match file with
  | Text text => map_err ParseError (f <-? config_from_str text ;; Ok (Some f))
  | Missing => Ok None
  | Unreadable e => Err (IoError path e)
  end.

Definition ui_path (c : Cli) (env : Env) : option string :=
  match ui_config c with Some p => Some p | None => (λ d, path_join d "ui.toml") <$> env_state_dir env end.

(** ** A document by its slots *)

(** The slot of a key, in the document of a UI's settings. *)
Fixpoint pointer (path : list string) (doc : Json) : Json :=
  match path with
  | [] => doc
  | k :: path => match doc with JObj l => default JNull (pointer path <$> obj_get k l) | _ => JNull end
  end.
Definition ui_setting (key : string) (u : UiConfig) : Json := pointer (pointer_of key) (to_value u).

Section Slots.
Context `{UiLib}.

Definition doc_of (s : string → Json) : Json :=
  JObj [("devices", s "devices");
        ("forward", JObj [("api_key", s "forward.api_key"); ("batch_size", s "forward.batch_size");
           ("cache_max_mb", s "forward.cache_max_mb"); ("database", s "forward.database"); ("enable", s "forward.enable");
           ("flush_interval", s "forward.flush_interval"); ("host", s "forward.host"); ("port", s "forward.port");
           ("queue_flush_pct", s "forward.queue_flush_pct"); ("queue_size", s "forward.queue_size")]);
        ("ingest", JObj [("enable", s "ingest.enable"); ("port", s "ingest.port"); ("token", s "ingest.token")]);
        ("logging", JObj [("level", s "logging.level")])].

Lemma to_value_doc u : to_value u = doc_of (λ k, ui_setting k u).
Proof. reflexivity. Qed.

Definition set_slot (k : string) (v : Json) (s : string → Json) : string → Json :=
  λ k', if str_eqb k' k then v else s k'.

Lemma pointer_set_doc s k v :
  k ∈ ui_keys → pointer_set (pointer_of k) v (doc_of s) = Some (doc_of (set_slot k v s)).
Proof. intros Hk. repeat (apply elem_of_cons in Hk as [->|Hk]; [reflexivity|]). by apply not_elem_of_nil in Hk. Qed.

Definition set_slots (put : Obj) (s : string → Json) : string → Json :=
  foldl (λ s '(k, v), set_slot k v s) s put.

Lemma merge_slots_doc put : ∀ s,
  Forall (λ x, x.1 ∈ ui_keys) put → merge_slots put (doc_of s) = Ok (doc_of (set_slots put s)).
Proof.
  induction put as [|[k v] put IH]; intros s Hk; [done|]. apply Forall_cons in Hk as [Hk Hks].
  cbn [merge_slots]. rewrite pointer_set_doc by done. by apply IH.
Qed.
(** A slot as it is read and written again. *)
Definition renorm {A} (d : Decode A) (f : A → Json) : Decode Json := λ j, o <-? opt_of d j ;; Ok (opt_to f o).
Definition slot_norms : list (string * Decode Json) :=
  [("devices", renorm (vec_of device_of) (λ ds, JArr (device_to <$> ds)));
   ("forward.api_key", renorm str_of JStr); ("ingest.token", renorm str_of JStr);
   ("forward.enable", renorm bool_of JBool); ("forward.host", renorm str_of JStr);
   ("forward.port", renorm (uint_of "u16" 16) JInt); ("forward.database", renorm str_of JStr);
   ("forward.batch_size", renorm usize_of usize_to); ("forward.flush_interval", renorm f64_of JFloat);
   ("forward.queue_size", renorm usize_of usize_to); ("forward.cache_max_mb", renorm (uint_of "u64" 64) JInt);
   ("forward.queue_flush_pct", renorm (uint_of "u8" 8) JInt);
   ("ingest.enable", renorm bool_of JBool); ("ingest.port", renorm (uint_of "u16" 16) JInt);
   ("logging.level", renorm str_of JStr)].

Lemma slot_norms_keys : slot_norms.*1 = ui_keys.
Proof. reflexivity. Qed.

Lemma from_value_doc s :
  from_value (doc_of s) =
  (dv <-? opt_of (vec_of device_of) (s "devices") ;;
   ak <-? opt_of str_of (s "forward.api_key") ;;
   bs <-? opt_of usize_of (s "forward.batch_size") ;;
   cm <-? opt_of (uint_of "u64" 64) (s "forward.cache_max_mb") ;;
   db <-? opt_of str_of (s "forward.database") ;;
   en <-? opt_of bool_of (s "forward.enable") ;;
   fi <-? opt_of f64_of (s "forward.flush_interval") ;;
   ho <-? opt_of str_of (s "forward.host") ;;
   po <-? opt_of (uint_of "u16" 16) (s "forward.port") ;;
   qf <-? opt_of (uint_of "u8" 8) (s "forward.queue_flush_pct") ;;
   qs <-? opt_of usize_of (s "forward.queue_size") ;;
   ie <-? opt_of bool_of (s "ingest.enable") ;;
   ip <-? opt_of (uint_of "u16" 16) (s "ingest.port") ;;
   it <-? opt_of str_of (s "ingest.token") ;;
   ll <-? opt_of str_of (s "logging.level") ;;
   Ok (MkUiConfig dv (MkUiForward en ho po ak db bs fi qs cm qf) (MkUiIngest ie ip it) (MkUiLogging ll))).
Proof.
  lazy -[opt_of vec_of device_of str_of bool_of uint_of usize_of f64_of].
  repeat match goal with |- context[match opt_of ?d (s ?k) with _ => _ end] =>
    destruct (opt_of d (s k)) as [?|]; [|reflexivity] end. reflexivity.
Qed.

(** Each slot's reading, from that of the whole. *)
Ltac slots_of Hu :=
  repeat match type of Hu with (match opt_of ?d ?j with _ => _ end) = _ =>
    destruct (opt_of d j) eqn:?; [|discriminate Hu] end;
  injection Hu as <-.

Lemma from_value_slots s u :
  from_value (doc_of s) = Ok u → Forall (λ '(k, n), n (s k) = Ok (ui_setting k u)) slot_norms.
Proof.
  intros Hu. rewrite from_value_doc in Hu. slots_of Hu. unfold slot_norms, renorm.
  repeat (apply Forall_cons; split; [match goal with E : opt_of ?d (s ?k) = _ |- context[s ?k] => by rewrite E end|]).
  constructor.
Qed.

Lemma renorm_null {A} (d : Decode A) f j j' :
  (∀ x, is_null (f x) = false) → renorm d f j = Ok j' → is_null j' = is_null j.
Proof.
  intros Hf. unfold renorm, opt_of. destruct j; try (intros [= <-]; done);
    destruct (d _) as [y|]; try done; intros [= <-]; apply Hf.
Qed.
Lemma renorm_same {A} (d : Decode A) f j j' :
  (∀ j x, d j = Ok x → f x = j) → renorm d f j = Ok j' → j' = j.
Proof.
  intros Hf. unfold renorm, opt_of. destruct j; try (intros [= <-]; done);
    destruct (d _) as [y|] eqn:Hd; try done; intros [= <-]; by apply Hf.
Qed.
Lemma str_same j x : str_of j = Ok x → JStr x = j.
Proof. by destruct j; intros [= ->]. Qed.
Lemma bool_same j x : bool_of j = Ok x → JBool x = j.
Proof. by destruct j; intros [= ->]. Qed.
Lemma uint_same what bits j x : uint_of what bits j = Ok x → JInt x = j.
Proof. destruct j; try done. unfold uint_of. destruct (_ && _); [|done]. by intros [= ->]. Qed.
Lemma usize_same j x : usize_of j = Ok x → usize_to x = j.
Proof.
  unfold usize_of. destruct (uint_of _ _ j) as [n|] eqn:Hn; [|done]. intros [= <-].
  apply uint_same in Hn as Hj. subst j. unfold uint_of in Hn. destruct (Z.leb_spec 0 n); [|done]. unfold usize_to. f_equal. lia.
Qed.

(** Every slot is null after a reading where it was before, and a scalar other
    than the interval is as it was. *)
Lemma slot_norms_null : Forall (λ x, ∀ j j', x.2 j = Ok j' → is_null j' = is_null j) slot_norms.
Proof. unfold slot_norms. repeat (constructor; [intros j j'; by apply renorm_null|]). constructor. Qed.
Lemma slot_norms_same :
  Forall (λ x, x.1 ∉ ["devices"; "forward.flush_interval"] → ∀ j j', x.2 j = Ok j' → j' = j) slot_norms.
Proof.
  unfold slot_norms.
  repeat (constructor; [cbn; intros Hk j j'; first [by (exfalso; apply Hk; set_solver) |
    apply renorm_same; first [exact str_same | exact bool_same | exact usize_same | apply uint_same]]|]).
  constructor.
Qed.

Lemma set_slots_other put : ∀ s k, k ∉ put.*1 → set_slots put s k = s k.
Proof.
  induction put as [|[k' v] put IH]; intros s k Hk; [done|]. cbn in Hk. apply not_elem_of_cons in Hk as [Hne Hk].
  change (set_slots put (set_slot k' v s) k = s k). rewrite IH by done. unfold set_slot. by rewrite (proj2 (str_eqb_neq _ _)) by congruence.
Qed.
Lemma set_slots_put put k v : ∀ s, NoDup put.*1 → (k, v) ∈ put → set_slots put s k = v.
Proof.
  induction put as [|[k' v'] put IH]; intros s Hnd Hin; [by apply not_elem_of_nil in Hin|].
  cbn in Hnd. apply NoDup_cons in Hnd as [Hk Hnd]. change (set_slots put (set_slot k' v' s) k = v).
  apply elem_of_cons in Hin as [[= <- <-]|Hin].
  - rewrite set_slots_other by done. unfold set_slot. by rewrite str_eqb_refl.
  - by apply IH.
Qed.

(** A layer of values that Rust's types hold. *)
Definition ui_typed (u : UiConfig) : Prop := from_value (to_value u) = Ok u.

(** What is written is read back as it was. *)
Lemma opt_round {A} (d : Decode A) (f : A → Json) j o :
  (∀ x, is_null (f x) = false) → (∀ x, d j = Ok x → d (f x) = Ok x) → opt_of d j = Ok o → opt_of d (opt_to f o) = Ok o.
Proof.
  intros Hn Hf. unfold opt_of at 1. destruct j; try (intros [= <-]; done);
    (destruct (d _) as [y|] eqn:Hd; [|done]); intros [= <-]; cbn; unfold opt_of;
    specialize (Hn y); rewrite (Hf y eq_refl); by destruct (f y).
Qed.
Lemma same_round {A} (d : Decode A) (f : A → Json) j :
  (∀ j x, d j = Ok x → f x = j) → ∀ x, d j = Ok x → d (f x) = Ok x.
Proof. intros Hf x Hx. by rewrite (Hf _ _ Hx). Qed.
Lemma device_round d : device_of (device_to d) = Ok d.
Proof. by destruct d as [i [fd|] [db|]]. Qed.
Lemma devices_round ds : vec_of device_of (JArr (device_to <$> ds)) = Ok ds.
Proof.
  unfold vec_of. induction ds as [|d ds IH]; [done|]. cbn [fmap list_fmap list_of]. rewrite device_round.
  by rewrite IH.
Qed.

(** The reading of slot [k] of what was read, from that of the slot it came from. *)
Ltac slot_back E k u round same :=
  let X := fresh in pose proof (round _ _ (λ _, eq_refl) same E) as X;
  match type of X with ?l = _ => match l with opt_of ?d ?j =>
    change (opt_of d (ui_setting k u)) with (opt_of d j) end end;
  rewrite X; clear X E.

Lemma from_value_typed s u : from_value (doc_of s) = Ok u → ui_typed u.
Proof.
  intros Hu. rewrite from_value_doc in Hu. slots_of Hu. unfold ui_typed. rewrite to_value_doc, from_value_doc.
  cbv beta. repeat match goal with
  | E : opt_of str_of _ = Ok ?o |- context[ui_setting ?k ?u] => slot_back E k u (opt_round str_of JStr) (same_round str_of JStr (s k) str_same)
  | E : opt_of bool_of _ = Ok ?o |- context[ui_setting ?k ?u] => slot_back E k u (opt_round bool_of JBool) (same_round bool_of JBool (s k) bool_same)
  | E : opt_of usize_of _ = Ok ?o |- context[ui_setting ?k ?u] => slot_back E k u (opt_round usize_of usize_to) (same_round usize_of usize_to (s k) usize_same)
  | E : opt_of (uint_of ?w ?b) _ = Ok ?o |- context[ui_setting ?k ?u] =>
      slot_back E k u (opt_round (uint_of w b) JInt) (same_round (uint_of w b) JInt (s k) (uint_same w b))
  | E : opt_of f64_of _ = Ok ?o |- context[ui_setting ?k ?u] =>
      slot_back E k u (opt_round f64_of JFloat) (λ (x : f64) (_ : f64_of (s k) = Ok x), eq_refl : f64_of (JFloat x) = Ok x)
  | E : opt_of (vec_of device_of) _ = Ok ?o |- context[ui_setting ?k ?u] =>
      slot_back E k u (opt_round (vec_of device_of) (λ ds, JArr (device_to <$> ds)))
        (λ (x : list UiDevice) (_ : vec_of device_of (s k) = Ok x), devices_round x)
  end.
  done.
Qed.
Lemma merge_typed u put u' : Forall (λ x, x.1 ∈ ui_keys) put → merge u put = Ok u' → ui_typed u'.
Proof.
  intros Hks Hm. unfold merge in Hm. rewrite to_value_doc, merge_slots_doc in Hm by done.
  destruct (from_value _) as [u2|] eqn:Hf; [|done]. injection Hm as <-. by eapply from_value_typed.
Qed.

(** What [merge] makes of a change that names settings: the others stay, those
    it names are set, or cleared by [null]. *)
Definition changed_as (put : Obj) (u u' : UiConfig) : Prop :=
  (∀ k, k ∈ ui_keys → k ∉ put.*1 → ui_setting k u' = ui_setting k u) ∧
  (∀ k v, (k, v) ∈ put → is_null (ui_setting k u') = is_null v ∧
     (k ∉ ["devices"; "forward.flush_interval"] → ui_setting k u' = v)).

Lemma merge_changes u put u' :
  ui_typed u → NoDup put.*1 → Forall (λ x, x.1 ∈ ui_keys) put → merge u put = Ok u' → changed_as put u u'.
Proof.
  intros Ht Hnd Hks Hm. unfold merge in Hm. rewrite to_value_doc, merge_slots_doc in Hm by done.
  destruct (from_value _) as [u2|] eqn:Hf; [|done]. cbn in Hm. injection Hm as ->.
  apply from_value_slots in Hf. unfold ui_typed in Ht. rewrite to_value_doc in Ht. apply from_value_slots in Ht.
  assert (Hn : ∀ k, k ∈ ui_keys → ∃ n, (k, n) ∈ slot_norms).
  { intros k Hk. rewrite <-slot_norms_keys in Hk. apply list_elem_of_fmap in Hk as ([k' n] & -> & Hin). by exists n. }
  split.
  - intros k Hk Hnot. destruct (Hn k Hk) as [n Hin].
    pose proof (proj1 (Forall_forall _ _) Hf _ Hin) as Hx. pose proof (proj1 (Forall_forall _ _) Ht _ Hin) as Hy.
    cbv beta iota in Hx, Hy. rewrite set_slots_other in Hx by done. congruence.
  - intros k v Hkv. destruct (Hn k) as [n Hin]; [by apply (proj1 (Forall_forall _ _) Hks (k, v))|].
    pose proof (proj1 (Forall_forall _ _) Hf _ Hin) as Hx. cbv beta iota in Hx. rewrite (set_slots_put _ _ _ _ Hnd Hkv) in Hx.
    split; [by apply (proj1 (Forall_forall _ _) slot_norms_null _ Hin)|].
    intros Hx'. by apply (proj1 (Forall_forall _ _) slot_norms_same _ Hin).
Qed.
End Slots.

(** TOML read back is what was written, comments aside, and what is read of
    either syntax is of Rust's types; a JSON map has a key once. *)
Class UiLaws `{UiLib} : Prop := {
  toml_round_trip : ∀ u t, toml_to_string u = Ok t → toml_from_str (HEADER +:+ t) = Ok u;
  toml_typed : ∀ t u, toml_from_str t = Ok u → ui_typed u;
  json_keys : ∀ body put, json_from_slice body = Ok put → NoDup put.*1
}.
