(* ===== verification/UiEffect.v ===== *)
(** * What a start makes of the UI's settings ([settings.rs] [resolve], [ui.rs] [sources])

    The setting each of a UI's keys decides, and that a start runs on the UI's
    value of every key that nothing above it pins. *)

From S2P Require Import Prelude F64 Model Source Cidr Catalogues Settings Ui SettingsProofs.
From Stdlib Require Import Ascii.
Import Sample Config.
Local Open Scope Z_scope.

Section Effect.
Context `{CatalogueLib} `{SettingsLib}.

(** ** What each key decides *)

(** A device as a UI names it: a CAN interface that is only listened to, in the
    server's FD mode and database where the UI gives neither. *)
Definition ui_device_is (s : Settings) (u : UiDevice) (d : Device) : Prop :=
  d_interface d = ui_interface u ∧ d_mode d = Passive ∧
  d_kind d = KCan (default (can_fd s) (ui_fd u)) ∧ d_database d = default (default_database s) (ui_database u).

(** The value a UI gives is the one the gateway's link, or the listener, has
    where there is one. *)
Definition link_has {A} (v : option A) (get : Forward → A) (s : Settings) : Prop :=
  ∀ x f, v = Some x → s_forward s = Some f → get f = x.
Definition listener_has {A} (v : option A) (get : Ingest → A) (s : Settings) : Prop :=
  ∀ x i, v = Some x → s_ingest s = Some i → get i = x.

Definition ui_used : list (string * (UiConfig → Settings → Prop)) :=
  [("devices", λ u s, ∀ ds, ui_devices u = Some ds → Forall2 (ui_device_is s) ds (devices s));
   ("forward.enable", λ u s, ∀ b, uf_enable (ui_forward u) = Some b → is_some (s_forward s) = b);
   ("forward.host", λ u, link_has (uf_host (ui_forward u)) f_host);
   ("forward.port", λ u, link_has (uf_port (ui_forward u)) f_port);
   ("forward.database", λ u, link_has (uf_database (ui_forward u)) f_database);
   ("forward.batch_size", λ u, link_has (uf_batch_size (ui_forward u)) (λ f, b_size (f_batching f)));
   ("forward.flush_interval", λ u, link_has (uf_flush_interval (ui_forward u)) (λ f, b_flush_interval (f_batching f)));
   ("forward.queue_size", λ u, link_has (uf_queue_size (ui_forward u)) (λ f, b_queue_size (f_batching f)));
   ("forward.cache_max_mb", λ u, link_has (uf_cache_max_mb (ui_forward u)) (λ f, b_cache_max_mb (f_batching f)));
   ("forward.queue_flush_pct", λ u, link_has (uf_queue_flush_pct (ui_forward u)) (λ f, b_queue_flush_pct (f_batching f)));
   ("ingest.enable", λ u s, ∀ b, ui_enable (ui_ingest u) = Some b → is_some (s_ingest s) = b);
   ("ingest.port", λ u, listener_has (ui_port (ui_ingest u)) i_port);
   ("logging.level", λ u s, ∀ l, ul_level (ui_logging u) = Some l → level_from_str l = Some (log_level_ s));
   ("forward.api_key", λ u, link_has (uf_api_key (ui_forward u)) f_api_key);
   ("ingest.token", λ u, listener_has (ui_token (ui_ingest u)) i_token)].

(** A start on these settings runs on the UI's value of a key. *)
Definition takes_effect (u : UiConfig) (s : Settings) (k : string) : Prop :=
  ∃ P, (k, P) ∈ ui_used ∧ P u s.

(** The variable that would hold this secret is set, and empty. *)
Definition emptied (env : Env) (k : string) : Prop :=
  (k = "forward.api_key" ∧ env_forward_api_key env = Some "") ∨
  (k = "ingest.token" ∧ env_ingest_token env = Some "").

Definition unpinned (c : Cli) (file : option FileConfig) (u : UiConfig) (env : Env) (k : string) : Prop :=
  ∀ o, (k, o) ∈ sources c file u env → pinned o = false.

(** ** From [sources] to the layers *)

Lemma set_origin_pins key x k o out :
  pinned x = true → (k, o) ∈ out → pinned o = true → ∃ o', (k, o') ∈ set_origin key x out ∧ pinned o' = true.
Proof.
  intros Hx Hin Ho. exists (if str_eqb k key then x else o). split; [|by destruct (str_eqb k key)].
  apply list_elem_of_fmap. by exists (k, o).
Qed.

(** A scalar nothing pins is not in the file, and its flag is not given. *)
Lemma unpinned_scalar c file u env k in_file field in_ui :
  (k, in_file, field, in_ui) ∈ scalar_settings file u → unpinned c file u env k →
  in_file = false ∧ given c field = false.
Proof.
  intros Hin Hun. set (o := source_of in_file (if given c field then Some field else None) in_ui).
  assert (Ho : pinned o = false → in_file = false ∧ given c field = false)
    by (unfold o; destruct in_file, (given c field), in_ui; cbn; by intros).
  apply Ho. destruct (pinned o) eqn:Hp; [exfalso|done].
  assert (Hmem : ∃ o', (k, o') ∈ sources c file u env ∧ pinned o' = true);
    [|destruct Hmem as (o' & Ho' & Hp'); by rewrite (Hun _ Ho') in Hp'].
  unfold sources. cbv zeta.
  assert (Hkeep : ∀ (b : bool) key field' out, (∃ o', (k, o') ∈ out ∧ pinned o' = true) →
    ∃ o', (k, o') ∈ (if b && given c field' then set_origin key (FromFlag field') out else out) ∧ pinned o' = true).
  { intros b key field' out (o' & Ho' & Hp'). destruct (b && _); [by eapply set_origin_pins|by exists o']. }
  assert (Happ : ∀ out rest, (∃ o', (k, o') ∈ out ∧ pinned o' = true) → ∃ o', (k, o') ∈ out ++ rest ∧ pinned o' = true).
  { intros out rest (o' & Ho' & Hp'). exists o'. rewrite elem_of_app. auto. }
  apply Happ, Hkeep, Hkeep. exists o. split; [|done]. right.
  apply list_elem_of_fmap. by exists (k, in_file, field, in_ui).
Qed.

Lemma unpinned_secret field var in_file in_flag from_env from_ui :
  pinned (secret_source field var in_file in_flag from_env from_ui) = false →
  over (default "" in_flag) in_file = "" ∧ (from_env = None ∨ from_env = Some "").
Proof.
  unfold secret_source. intros Hp.
  destruct in_file as [[|]|], in_flag as [[|]|], from_env as [[|]|]; cbn in *; try done; auto.
Qed.

Ltac unpinned_as Hun Hin Hg :=
  eapply unpinned_scalar in Hun as [Hin Hg];
    [|unfold scalar_settings; repeat first [apply list_elem_of_here | apply list_elem_of_further]].

Lemma fill_unpinned {A} c field (v : option A) x old : given c field = false → v = Some x → fill c field v old = x.
Proof. intros Hg ->. unfold fill. by rewrite Hg. Qed.

(** ** What resolves *)

Definition section_of (file : option FileConfig) {A} (over_file : FileConfig → option A → option A) (a : option A) : option A :=
  match file with Some f => over_file f a | None => a end.

Lemma resolve_sections c file u env r :
  resolve c file (Some u) env = Ok r →
  let c' := beneath u c in
  s_ingest (settings r) = finish_ingest env (Some u) <$>
    section_of file (file_ingest c') (if ingest_enable c' then Some (ingest_from_cli c') else None) ∧
  (match section_of file (file_forward c' env) (if forward_enable c' then Some (forward_from_cli c' env) else None) with
   | Some f0 => ∃ f, s_forward (settings r) = Some f ∧ finish_forward env (Some u) f0 = Ok f
   | None => s_forward (settings r) = None
   end) ∧
  (file_has file (λ f, log_level (logging f)) = false →
   parse_log_level (cli_log_level c') = Ok (log_level_ (settings r))).
Proof.
  unfold resolve. set (c' := beneath u c). cbv zeta. destruct (_ || _); [done|].
  destruct (layered c' file env) as [s1|] eqn:Hl; [|done].
  destruct (device_layer c' file (Some u)) as [[sugar tables]|]; [|done].
  destruct (match pg_dir c' with Some _ => _ | None => _ end) as [dir|]; [|done].
  destruct (match s_forward s1 with Some _ => _ | None => _ end) as [fwd|] eqn:Hfwd; [|done].
  destruct (build_devices env _ _ tables) as [ds|]; [|done].
  intros [= <-]. cbn [settings set_devices set_rest s_ingest s_forward log_level_].
  unfold layered, from_flags in Hl. destruct (resolve_allowed_clients c' file) as [[l src]|]; [|done].
  destruct (parse_direction (cli_default_dir c')) as [dir0|]; [|done].
  destruct (parse_log_level (cli_log_level c')) as [lv|]; [|done].
  assert (Hs1 : s_ingest s1 = section_of file (file_ingest c') (if ingest_enable c' then Some (ingest_from_cli c') else None) ∧
    s_forward s1 = section_of file (file_forward c' env) (if forward_enable c' then Some (forward_from_cli c' env) else None) ∧
    (file_has file (λ f, log_level (logging f)) = false → lv = log_level_ s1)).
  { destruct file as [f|]; [|by injection Hl as <-]. unfold apply_file in Hl.
    destruct (match srv_default_dir _ with Some _ => _ | None => _ end); [|done]. cbn [file_has].
    destruct (log_level (logging f)) as [lf|]; [destruct (parse_log_level lf); [|done]|];
      injection Hl as <-; by split_and!. }
  destruct Hs1 as (Hi & Hf & Hlv). rewrite <-Hi, <-Hf. split; [done|]. split.
  - destruct (s_forward s1) as [f0|]; [|by injection Hfwd as <-].
    destruct (finish_forward env (Some u) f0) as [f|] eqn:Hff; [|done]. injection Hfwd as <-. by exists f.
  - intros Hn. by rewrite (Hlv Hn).
Qed.
(** The fields of the link and of the listener: the file's, or the flags'. *)
Definition of_file {A} (file : option FileConfig) (k : FileConfig → option A) : option A := f ← file; k f.

Lemma of_file_has {A} (file : option FileConfig) (k : FileConfig → option A) :
  file_has file k = false → of_file file k = None.
Proof. destruct file as [f|]; [|done]. cbn. by destruct (k f). Qed.

Lemma link_fields file c env f0 :
  section_of file (file_forward c env) (if forward_enable c then Some (forward_from_cli c env) else None) = Some f0 →
  f_host f0 = over (forward_host c) (of_file file (λ f, fw_host (forward f))) ∧
  f_port f0 = over (forward_port c) (of_file file (λ f, fw_port (forward f))) ∧
  f_api_key f0 = over (default "" (forward_api_key c)) (of_file file (λ f, fw_api_key (forward f))) ∧
  f_database f0 = over (forward_database c) (of_file file (λ f, fw_database (forward f))) ∧
  b_size (f_batching f0) = over (pg_batch_size c) (of_file file (λ f, fw_batch_size (forward f))) ∧
  b_flush_interval (f_batching f0) = over (pg_flush_interval c) (of_file file (λ f, fw_flush_interval (forward f))) ∧
  b_queue_size (f_batching f0) = over (pg_queue_size c) (of_file file (λ f, fw_queue_size (forward f))) ∧
  b_cache_max_mb (f_batching f0) = over (pg_cache_max_mb c) (of_file file (λ f, fw_cache_max_mb (forward f))) ∧
  b_queue_flush_pct (f_batching f0) = over (pg_queue_flush_pct c) (of_file file (λ f, fw_queue_flush_pct (forward f))).
Proof.
  assert (Hb : ∀ sec, let b := batching_from_cli c env in let b' := file_batching sec env b in
    b_size b = pg_batch_size c ∧ b_flush_interval b = pg_flush_interval c ∧ b_queue_size b = pg_queue_size c ∧
    b_cache_max_mb b = pg_cache_max_mb c ∧ b_queue_flush_pct b = pg_queue_flush_pct c ∧
    b_size b' = over (b_size b) (fw_batch_size sec) ∧ b_flush_interval b' = over (b_flush_interval b) (fw_flush_interval sec) ∧
    b_queue_size b' = over (b_queue_size b) (fw_queue_size sec) ∧ b_cache_max_mb b' = over (b_cache_max_mb b) (fw_cache_max_mb sec) ∧
    b_queue_flush_pct b' = over (b_queue_flush_pct b) (fw_queue_flush_pct sec)).
  { intros sec. cbv zeta. unfold file_batching, batching_from_cli. destruct (cache_path _ _).
    destruct (match fw_cache_path sec with Some _ => _ | None => _ end). by split_and!. }
  destruct file as [f|]; cbn [section_of].
  - unfold file_forward. set (w := if _ && _ then None else _).
    assert (Hw : default (forward_from_cli c env) w = forward_from_cli c env)
      by (unfold w; destruct (_ && _), (forward_enable c); done).
    rewrite Hw. destruct (_ || _) eqn:He.
    + intros [= <-]. destruct (Hb (forward f)) as (E1 & E2 & E3 & E4 & E5 & F1 & F2 & F3 & F4 & F5).
      cbn [f_host f_port f_api_key f_database f_batching of_file mbind option_bind forward_from_cli].
      rewrite F1, F2, F3, F4, F5, E1, E2, E3, E4, E5. by split_and!.
    + intros ->. apply orb_false_iff in He as [_ He]. done.
  - destruct (forward_enable c); [|done]. intros [= <-].
    destruct (Hb forward_default) as (E1 & E2 & E3 & E4 & E5 & _). cbn [f_batching forward_from_cli].
    rewrite E1, E2, E3, E4, E5. by split_and!.
Qed.

Lemma listener_fields file c i0 :
  section_of file (file_ingest c) (if ingest_enable c then Some (ingest_from_cli c) else None) = Some i0 →
  i_port i0 = over (ingest_port c) (of_file file (λ f, ing_port (ingest f))) ∧
  i_token i0 = over (default "" (ingest_token c)) (of_file file (λ f, ing_token (ingest f))).
Proof.
  destruct file as [f|]; cbn [section_of].
  - unfold file_ingest. set (w := if _ && _ then None else _).
    assert (Hw : default (ingest_from_cli c) w = ingest_from_cli c)
      by (unfold w; destruct (_ && _), (ingest_enable c); done).
    rewrite Hw. destruct (_ || _) eqn:He; [by intros [= <-]|].
    intros ->. apply orb_false_iff in He as [_ He]. done.
  - destruct (ingest_enable c); [|done]. by intros [= <-].
Qed.

(** A section the file does not turn on or off is there as the flags say. *)
Lemma section_enabled file c env :
  (of_file file (λ f, fw_enable (forward f)) = None →
   is_some (section_of file (file_forward c env) (if forward_enable c then Some (forward_from_cli c env) else None)) = forward_enable c) ∧
  (of_file file (λ f, ing_enable (ingest f)) = None →
   is_some (section_of file (file_ingest c) (if ingest_enable c then Some (ingest_from_cli c) else None)) = ingest_enable c).
Proof.
  destruct file as [f|]; cbn [section_of of_file mbind option_bind]; [|by destruct (forward_enable c), (ingest_enable c)].
  split; intros Hn.
  - unfold file_forward. rewrite Hn. cbn. by destruct (forward_enable c).
  - unfold file_ingest. rewrite Hn. cbn. by destruct (ingest_enable c).
Qed.

Lemma finish_forward_fields env ui f0 f :
  finish_forward env ui f0 = Ok f →
  f_host f = f_host f0 ∧ f_port f = f_port f0 ∧ f_database f = f_database f0 ∧
  f_api_key f = fill_secret (f_api_key f0) (env_forward_api_key env) (u ← ui; uf_api_key (ui_forward u)) ∧
  b_size (f_batching f) = b_size (f_batching f0) ∧ b_flush_interval (f_batching f) = b_flush_interval (f_batching f0) ∧
  b_queue_size (f_batching f) = b_queue_size (f_batching f0) ∧ b_cache_max_mb (f_batching f) = b_cache_max_mb (f_batching f0) ∧
  b_queue_flush_pct (f_batching f) = b_queue_flush_pct (f_batching f0).
Proof.
  unfold finish_forward. destruct (negb (valid_database _)); [done|]. destruct (negb (valid_daemon_id _)); [done|].
  intros [= <-]. by split_and!.
Qed.

(** *** The devices *)

Lemma ui_tables_are env s ds : ∀ index ts tabled, ui_tables index ds = Ok ts →
  Forall2 (λ t d, from_table env t (can_fd s) (default_database s) = Ok d ∧
    Forall (λ db, valid_database db = true) (d_database d :: device_databases d)) ts tabled →
  Forall2 (ui_device_is s) ds tabled.
Proof.
  induction ds as [|d ds IH]; intros index ts tabled; cbn [ui_tables].
  { intros [= <-] Hf. by apply Forall2_nil_inv_l in Hf as ->. }
  unfold ui_table. destruct (_ || _) eqn:Hbad; [done|]. cbn [map_err].
  destruct (ui_tables (S index) ds) as [ts'|] eqn:Hts; [|done]. intros [= <-] Hf.
  apply Forall2_cons_inv_l in Hf as (x & xs & [Hx _] & Hxs & ->). constructor; [|by eapply IH].
  apply orb_false_iff in Hbad as [[[Hne _]%orb_false_iff _]%orb_false_iff _].
  unfold from_table in Hx. cbn [dev_interface need dev_kind is_empty_str] in Hx. rewrite Hne in Hx.
  unfold table_mode in Hx. cbn [dev_mode] in Hx.
  change (str_eqb "passive" "active") with false in Hx. change (str_eqb "passive" "passive") with true in Hx.
  change (str_eqb "can" "can") with true in Hx. cbv beta iota zeta in Hx. by injection Hx as <-.
Qed.

Lemma ui_device_renumbered s ds ds1 ds2 :
  Forall2 (ui_device_is s) ds ds1 → Forall2 renumbered ds1 ds2 → Forall2 (ui_device_is s) ds ds2.
Proof.
  intros Hd. revert ds2. induction Hd as [|u d ds ds1 Hu Hd IH]; intros ds2 Hr.
  { by apply Forall2_nil_inv_l in Hr as ->. }
  apply Forall2_cons_inv_l in Hr as (x & xs & Hx & Hxs & ->). constructor; [|by apply IH].
  apply renumbered_fields in Hx as (Hi & Hm & Hdb & Hk & _). unfold ui_device_is. by rewrite Hi, Hm, Hdb, Hk.
Qed.

Lemma devices_take_effect c file u env r ds :
  cli_ok c = true → resolve c file (Some u) env = Ok r → unpinned c file u env "devices" →
  ui_devices u = Some ds → Forall2 (ui_device_is (settings r)) ds (devices (settings r)).
Proof.
  intros Hc Hr Hun Hds. destruct (resolve_devices _ _ _ _ _ Hr) as (s & sugar & tables & Hlayer & Hb & Hs).
  pose proof (Hun _ (sources_devices c file u env)) as Hp. rewrite Hds in Hp. cbn [is_some] in Hp.
  unfold cli_ok in Hc. apply andb_true_iff in Hc as [Hgi _].
  assert (Hlay : or_else (f ← file; srv_iface (server f)) (iface c) = None ∧
    match file with Some f => device f | None => [] end = []).
  { destruct (given c "iface"), (iface c); try done; (destruct file as [f|]; [|done]); cbn in Hp |- *;
      destruct (srv_iface (server f)), (device f); done. }
  destruct Hlay as [Hi Ht]. unfold device_layer in Hlayer. change (iface (beneath u c)) with (iface c) in Hlayer.
  rewrite Hi, Ht in Hlayer. cbn [mbind option_bind] in Hlayer. rewrite Hds in Hlayer.
  destruct (ui_tables 0 ds) as [ts|] eqn:Hts; [|done]. injection Hlayer as <- <-.
  change (parse_ifaces "") with (@nil string) in Hb.
  destruct (build_devices_spec _ _ _ _ _ Hb) as (ds0 & (tabled & -> & Htab) & _ & Hf & _).
  assert (His : Forall2 (ui_device_is s) ds (devices (settings r)))
    by (eapply ui_device_renumbered; [by eapply ui_tables_are|exact Hf]).
  rewrite Hs. exact His.
Qed.
(** *** The link and the listener *)

Lemma link_of c file u env r f :
  resolve c file (Some u) env = Ok r → s_forward (settings r) = Some f →
  ∃ f0, section_of file (file_forward (beneath u c) env)
      (if forward_enable (beneath u c) then Some (forward_from_cli (beneath u c) env) else None) = Some f0 ∧
    finish_forward env (Some u) f0 = Ok f.
Proof.
  intros Hr Hf. destruct (resolve_sections _ _ _ _ _ Hr) as (_ & Hs & _).
  destruct (section_of _ _ _) as [f0|]; [|congruence]. destruct Hs as (f' & Hf' & Hfin). exists f0. split; [done|]. congruence.
Qed.

Lemma listener_of c file u env r i :
  resolve c file (Some u) env = Ok r → s_ingest (settings r) = Some i →
  ∃ i0, section_of file (file_ingest (beneath u c))
      (if ingest_enable (beneath u c) then Some (ingest_from_cli (beneath u c)) else None) = Some i0 ∧
    i = finish_ingest env (Some u) i0.
Proof.
  intros Hr Hi. destruct (resolve_sections _ _ _ _ _ Hr) as (Hs & _). rewrite Hi in Hs.
  destruct (section_of _ _ _) as [i0|]; [|done]. injection Hs as ->. by exists i0.
Qed.

(** A field neither the file nor a flag gives is the UI's. *)
Lemma unpinned_field {A} c (in_file : option A) field (v : option A) x old :
  in_file = None → given c field = false → v = Some x → over (fill c field v old) in_file = x.
Proof. intros -> Hg Hv. by apply fill_unpinned. Qed.

Lemma secret_takes_effect configured (env ui : option string) x :
  configured = "" → env = None ∨ env = Some "" → env ≠ Some "" → ui = Some x → fill_secret configured env ui = x.
Proof. intros -> [->|?] Hne ->; done. Qed.

Lemma sources_secrets c file u env :
  ("forward.api_key", secret_source "forward_api_key" "WIRETAP_FORWARD_TOKEN"
    (f ← file; fw_api_key (forward f)) (forward_api_key c) (env_forward_api_key env) (uf_api_key (ui_forward u))) ∈ sources c file u env ∧
  ("ingest.token", secret_source "ingest_token" "WIRETAP_INGEST_TOKEN"
    (f ← file; ing_token (ingest f)) (ingest_token c) (env_ingest_token env) (ui_token (ui_ingest u))) ∈ sources c file u env.
Proof. split; unfold sources; apply elem_of_app; right; [left|right; left]. Qed.

Lemma link_takes_effect c file u env r :
  resolve c file (Some u) env = Ok r → ∀ f, s_forward (settings r) = Some f →
  ∀ k, unpinned c file u env k →
  (k = "forward.host" → ∀ x, uf_host (ui_forward u) = Some x → f_host f = x) ∧
  (k = "forward.port" → ∀ x, uf_port (ui_forward u) = Some x → f_port f = x) ∧
  (k = "forward.database" → ∀ x, uf_database (ui_forward u) = Some x → f_database f = x) ∧
  (k = "forward.batch_size" → ∀ x, uf_batch_size (ui_forward u) = Some x → b_size (f_batching f) = x) ∧
  (k = "forward.flush_interval" → ∀ x, uf_flush_interval (ui_forward u) = Some x → b_flush_interval (f_batching f) = x) ∧
  (k = "forward.queue_size" → ∀ x, uf_queue_size (ui_forward u) = Some x → b_queue_size (f_batching f) = x) ∧
  (k = "forward.cache_max_mb" → ∀ x, uf_cache_max_mb (ui_forward u) = Some x → b_cache_max_mb (f_batching f) = x) ∧
  (k = "forward.queue_flush_pct" → ∀ x, uf_queue_flush_pct (ui_forward u) = Some x → b_queue_flush_pct (f_batching f) = x) ∧
  (k = "forward.api_key" → ¬ emptied env k → ∀ x, uf_api_key (ui_forward u) = Some x → f_api_key f = x).
Proof.
  intros Hr f Hf k Hun. destruct (link_of _ _ _ _ _ _ Hr Hf) as (f0 & Hf0 & Hfin).
  destruct (link_fields _ _ _ _ Hf0) as (E1 & E2 & E3 & E4 & E5 & E6 & E7 & E8 & E9).
  destruct (finish_forward_fields _ _ _ _ Hfin) as (-> & -> & -> & -> & -> & -> & -> & -> & ->).
  rewrite E1, E2, E3, E4, E5, E6, E7, E8, E9.
  split_and!; try (intros -> x Hx;
    unpinned_as Hun Hin Hg;
    apply unpinned_field; [by apply of_file_has|done|done]).
  intros -> Hne x Hx. pose proof (Hun _ (proj1 (sources_secrets c file u env))) as Hp.
  apply unpinned_secret in Hp as [Hc He]. apply secret_takes_effect; [done|done| |done].
  intros He'. apply Hne. by left.
Qed.

Lemma listener_takes_effect c file u env r :
  resolve c file (Some u) env = Ok r → ∀ i, s_ingest (settings r) = Some i →
  ∀ k, unpinned c file u env k →
  (k = "ingest.port" → ∀ x, ui_port (ui_ingest u) = Some x → i_port i = x) ∧
  (k = "ingest.token" → ¬ emptied env k → ∀ x, ui_token (ui_ingest u) = Some x → i_token i = x).
Proof.
  intros Hr i Hi k Hun. destruct (listener_of _ _ _ _ _ _ Hr Hi) as (i0 & Hi0 & ->).
  destruct (listener_fields _ _ _ Hi0) as (E1 & E2). cbn [i_port i_token finish_ingest set_token]. rewrite E1, E2. split.
  - intros -> x Hx. unpinned_as Hun Hin Hg.
    apply unpinned_field; [by apply of_file_has|done|done].
  - intros -> Hne x Hx. pose proof (Hun _ (proj2 (sources_secrets c file u env))) as Hp.
    apply unpinned_secret in Hp as [Hc He]. apply secret_takes_effect; [done|done| |done].
    intros He'. apply Hne. by right.
Qed.
(** ** Every key *)

(** A start on a UI's settings runs on its value of each key nothing above it
    pins, but a secret whose environment variable is set and empty. *)
Lemma unpinned_takes_effect c file u env r k :
  resolve c file (Some u) env = Ok r → k ∈ ui_keys → unpinned c file u env k →
  (k = "devices" → cli_ok c = true) → ¬ emptied env k → takes_effect u (settings r) k.
Proof.
  intros Hr Hk Hun Hc Hne. pose proof (link_takes_effect _ _ _ _ _ Hr) as Hlink.
  pose proof (listener_takes_effect _ _ _ _ _ Hr) as Hlis.
  destruct (resolve_sections _ _ _ _ _ Hr) as (Hi & Hf & Hl). destruct (section_enabled file (beneath u c) env) as [Hfe Hie].
  unfold ui_keys in Hk. cbn in Hk. unfold takes_effect.
  repeat (apply elem_of_cons in Hk as [->|Hk]); [..|by apply not_elem_of_nil in Hk];
    (eexists; split; [unfold ui_used; repeat first [apply list_elem_of_here | apply list_elem_of_further]|]); cbn beta;
    try (intros x f Hx Hsec; first [destruct (Hlink f Hsec _ Hun) as (? & ? & ? & ? & ? & ? & ? & ? & ?)|destruct (Hlis f Hsec _ Hun) as (? & ?)];
      by auto).
  - intros ds Hds. by eapply devices_take_effect; [apply Hc|..].
  - intros b Hb. unpinned_as Hun Hin Hg. specialize (Hfe (of_file_has _ _ Hin)).
    assert (Hen : forward_enable (beneath u c) = b) by by apply fill_unpinned. rewrite <-Hen, <-Hfe.
    revert Hf. destruct (section_of file (file_forward _ _) _); [by intros (? & -> & _)|by intros ->].
  - intros b Hb. unpinned_as Hun Hin Hg. specialize (Hie (of_file_has _ _ Hin)).
    assert (Hen : ingest_enable (beneath u c) = b) by by apply fill_unpinned. rewrite <-Hen, <-Hie, Hi.
    by destruct (section_of file (file_ingest _) _).
  - intros l Hlv. unpinned_as Hun Hin Hg. specialize (Hl Hin). cbn [cli_log_level beneath] in Hl.
    rewrite (fill_unpinned _ _ _ _ _ Hg Hlv) in Hl. unfold parse_log_level in Hl.
    destruct (level_from_str l); [|done]. by injection Hl as <-.
Qed.
End Effect.
