(* ===== verification/Control.v ===== *)
(** * The control socket ([control.rs], and [ui.rs]'s [listing])

    The routes of the socket, the change a [PUT] makes, and what the answers to
    [GET] say. The host is a record: the config file, the environment and what
    binding and writing answer. *)

From S2P Require Import Prelude F64 Model Source Wire Cache Archive Cidr Catalogues Settings Ui SettingsProofs UiDoc UiEffect.
From Stdlib Require Import Ascii.
Import Sample Config Source.Status.
Local Open Scope Z_scope.

Definition OK_ : Z := 200.
Definition ACCEPTED : Z := 202.
Definition BAD_REQUEST : Z := 400.
Definition NOT_FOUND : Z := 404.
Definition METHOD_NOT_ALLOWED : Z := 405.
Definition CONFLICT : Z := 409.
Definition PAYLOAD_TOO_LARGE : Z := 413.
Definition UNPROCESSABLE_ENTITY : Z := 422.
Definition INTERNAL_SERVER_ERROR : Z := 500.
Definition SERVICE_UNAVAILABLE : Z := 503.

Definition Answer : Type := Z * Json.
Definition refuse (status : Z) (error : string) : Answer := (status, obj [("error", JStr error)]).

(** [Control::socket]. *)
Definition socket (control_socket runtime_dir : option string) : option string :=
  match control_socket with
  | Some p => if is_empty_str p then None else Some p
  | None => (λ d, path_join d "control.sock") <$> runtime_dir
  end.

(** What a change meets: the [cfg!] of the build, the config file named on the
    command line, the environment, and how a bind and a write go. A failed bind
    says whether permission was what refused it. *)
Record Host := MkHost {
  h_linux : bool;
  h_config : option (string * FileRead);
  h_env : Env;
  h_bind : string → Z → result (bool * string) ();
  h_write : result string ()
}.

(** [RunError::Bind]'s [Display]. *)
Definition bind_error_str (addr : string) (err : bool * string) : string :=
  "cannot listen on " +:+ addr +:+ ": " +:+ err.2 +:+
  if err.1 then ". A port below 1024 needs CAP_NET_BIND_SERVICE" else EmptyString.
Definition addr_str (host : string) (port : Z) : string := host +:+ ":" +:+ pretty port.

Section Control.
Context `{CatalogueLib} `{SettingsLib} `{UiLib}.

Definition host_file (h : Host) : result SettingsError (option FileConfig) :=
  match h_config h with Some (path, f) => config_load path f | None => Ok None end.

(** The first key of the change that is pinned, and by what. *)
Fixpoint pinned_key (srcs : list (string * Origin)) (put : Obj) : option (string * Origin) :=
  match put with
  | [] => None
  | (key, _) :: put =>
      match find (λ '(k, s), str_eqb k key && pinned s) srcs with
      | Some (_, s) => Some (key, s)
      | None => pinned_key srcs put
      end
  end.

(** The ingest listener's new address must be free, unless it is the one held. *)
Definition bind_check (h : Host) (running s : Settings) : result Answer () :=
  match s_ingest s with
  | None => Ok ()
  | Some i =>
      let unmoved := match s_ingest running with
        | Some r => str_eqb (i_host r) (i_host i) && (i_port r =? i_port i)
        | None => false
        end in
      if unmoved then Ok ()
      else map_err (λ e, refuse UNPROCESSABLE_ENTITY (bind_error_str (addr_str (i_host i) (i_port i)) e))
             (h_bind h (i_host i) (i_port i))
  end.

(** [apply] up to the write: the new UI layer, and where to write it. *)
Definition validate (c : Cli) (path : option string) (h : Host) (running : Settings) (body : list Z) (old : FileRead) :
    result Answer (string * UiConfig) :=
  path <-? ok_or path (refuse SERVICE_UNAVAILABLE
             "there is no ui.toml to write: set STATE_DIRECTORY or --ui-config") ;;
  put <-? map_err (λ e, refuse BAD_REQUEST ("not a JSON object: " +:+ e)) (json_from_slice body) ;;
  check (match put with [] => Err (refuse BAD_REQUEST "the change names no setting") | _ => Ok () end) ;;
  check (match find (λ '(k, _), negb (existsb (str_eqb k) ui_keys)) put with
         | Some (key, _) => Err (BAD_REQUEST, obj [("error", JStr (key +:+ " is not a setting a UI may change")); ("key", JStr key)])
         | None => Ok ()
         end) ;;
  file <-? map_err (λ e, refuse UNPROCESSABLE_ENTITY (settings_error_str e)) (host_file h) ;;
  next <-? map_err (refuse BAD_REQUEST)
             (merge (match load path old with Ok u => u | Err _ => ui_default end) put) ;;
  check (match pinned_key (sources c file next (h_env h)) put with
         | Some (key, source) =>
             let place := place source (fst <$> h_config h) in
             Err (CONFLICT, obj [("error", JStr (key +:+ " is pinned by " +:+ default "the config file" place));
                                 ("key", JStr key); ("where", opt_to JStr place)])
         | None => Ok ()
         end) ;;
  check (match obj_get "devices" put with
         | Some JNull => Err (BAD_REQUEST, obj [("error", JStr "devices cannot be cleared: the default, can0, transmits; set a device list instead"); ("key", JStr "devices")])
         | _ => Ok ()
         end) ;;
  r <-? map_err (λ e, refuse UNPROCESSABLE_ENTITY (settings_error_str e)) (resolve c file (Some next) (h_env h)) ;;
  check (map_err (λ e, refuse UNPROCESSABLE_ENTITY (run_error_str e)) (check_start (h_linux h) (settings r))) ;;
  check (bind_check h running (settings r)) ;;
  Ok (path, next).

(** [apply], with the file at the path before and after. *)
Definition apply (c : Cli) (path : option string) (h : Host) (running : Settings) (body : list Z) (old : FileRead) :
    result Answer () * FileRead :=
  match validate c path h running body old with
  | Err a => (Err a, old)
  | Ok (path, next) =>
      let '(r, file) := write (h_write h) next old in
      (map_err (λ e, refuse INTERNAL_SERVER_ERROR ("cannot write " +:+ path +:+ ": " +:+ e)) r, file)
  end.

(** ** The listing *)

Record Setting := MkSetting { st_key : string; st_value : Json; st_secret : bool; st_source : Origin }.

Definition setting_json (config : option string) (s : Setting) : Json :=
  obj ([("key", JStr (st_key s)); ("source", JStr (origin_name (st_source s))); ("pinned", JBool (pinned (st_source s)));
        (if st_secret s then "set" else "value", st_value s)] ++
       match place (st_source s) config with Some p => [("where", JStr p)] | None => [] end).

(** [format!("{:<24}")]. *)
Definition pad (n : nat) (s : string) : string :=
  s +:+ String.concat EmptyString (replicate (n - String.length s) " ").
Definition setting_row (config : option string) (s : Setting) : string :=
  let value := match st_value s, st_secret s with
    | JBool b, true => if b then "set" else "unset"
    | JStr t, _ => debug_str t
    | v, _ => json_to_string v
    end in
  let from := match st_source s, place (st_source s) config with
    | FromFile, Some path => "file " +:+ path
    | _, Some p => p
    | source, None => origin_name source
    end in
  pad 24 (st_key s) +:+ value +:+ " (" +:+ from +:+ ")" +:+ newline.

Definition device_json (d : Device) : Json :=
  obj [("interface", JStr (d_interface d)); ("kind", JStr (if is_can d then "can" else "serial"));
       ("mode", JStr (mode_as_str (d_mode d))); ("fd", JBool (fd d)); ("database", JStr (d_database d));
       ("bus", JInt (d_bus d))].

(** What the file says of a scalar, else what the flags and the UI do. *)
Definition scalar_values (file : option FileConfig) (c : Cli) : Obj :=
  let v {A} (to : A → Json) (k : FileConfig → option A) (flag : A) := to (default flag (f ← file; k f)) in
  [("forward.enable", v JBool (λ f, fw_enable (forward f)) (forward_enable c));
   ("forward.host", v JStr (λ f, fw_host (forward f)) (forward_host c));
   ("forward.port", v JInt (λ f, fw_port (forward f)) (forward_port c));
   ("forward.database", v JStr (λ f, fw_database (forward f)) (forward_database c));
   ("forward.batch_size", v usize_to (λ f, fw_batch_size (forward f)) (pg_batch_size c));
   ("forward.flush_interval", v JFloat (λ f, fw_flush_interval (forward f)) (pg_flush_interval c));
   ("forward.queue_size", v usize_to (λ f, fw_queue_size (forward f)) (pg_queue_size c));
   ("forward.cache_max_mb", v JInt (λ f, fw_cache_max_mb (forward f)) (pg_cache_max_mb c));
   ("forward.queue_flush_pct", v JInt (λ f, fw_queue_flush_pct (forward f)) (pg_queue_flush_pct c));
   ("ingest.enable", v JBool (λ f, ing_enable (ingest f)) (ingest_enable c));
   ("ingest.port", v JInt (λ f, ing_port (ingest f)) (ingest_port c));
   ("logging.level", v JStr (λ f, log_level (logging f)) (cli_log_level c))].

Definition listing (c : Cli) (file : option FileConfig) (ui : UiConfig) (env : Env) (s : Settings) : list Setting :=
  let values : Obj :=
    [("devices", JArr (device_json <$> devices s));
     ("forward.enable", JBool (is_some (s_forward s)));
     ("ingest.enable", JBool (is_some (s_ingest s)));
     ("logging.level", JStr (level_as_str (log_level_ s)))] ++ scalar_values file (beneath ui c) in
  (λ '(key, source),
     let secret := existsb (str_eqb key) SECRETS in
     let value := if secret then JBool (negb (bool_decide (source = FromDefault))) else default JNull (obj_get key values) in
     MkSetting key value secret source) <$> sources c file ui env.

(** ** The routes *)

(** What [Live] says at a moment. *)
Record View := MkView {
  v_uptime_secs : Z;
  v_devices : list (string * DeviceStatus);
  v_links : option (list (string * Counters));
  v_gvret_clients : option Z;
  v_ingest_clients : option Z
}.

Definition label_of (database : string) : string := if is_empty_str database then "<pinned>" else database.

Definition link_json (x : string * Counters) : Json :=
  let c := x.2 in
  obj [("database", JStr (label_of x.1)); ("connected", JBool (c_connected c));
       ("last_ack_unix_ms", if last_ack_ms c =? 0 then JNull else JInt (last_ack_ms c));
       ("cache_pending", JInt (cache_pending c)); ("enqueued", JInt (enqueued c)); ("written", JInt (written c));
       ("dropped", JInt (dropped c))].

Definition status (version : string) (warnings : list string) (applying : bool) (s : Settings) (v : View) : Json :=
  obj [("version", JStr version);
       ("daemon_id", opt_to (λ f, JStr (f_daemon_id f)) (s_forward s));
       ("uptime_secs", JInt (v_uptime_secs v));
       ("applying", JBool applying);
       ("devices", JArr (zip_with (λ d x,
          obj [("interface", JStr (d_interface d)); ("kind", JStr (if is_can d then "can" else "serial"));
               ("bus", JInt (d_bus d)); ("mode", JStr (mode_as_str (d_mode d)));
               ("state", JStr (state_str x.2)); ("frames", JInt (frames x.2))]) (devices s) (v_devices v)));
       ("forward", obj [("enabled", JBool (is_some (s_forward s)));
                        ("gateway", opt_to (λ f, JStr (addr_str (f_host f) (f_port f))) (s_forward s));
                        ("links", JArr (link_json <$> default [] (v_links v)))]);
       ("ingest", obj [("enabled", JBool (is_some (s_ingest s)));
                       ("listen", opt_to (λ i, JStr (addr_str (i_host i) (i_port i))) (s_ingest s));
                       ("clients", opt_to JInt (v_ingest_clients v))]);
       ("gvret", obj [("enabled", JBool (match can_devices s with [] => false | _ => true end));
                      ("listen", JStr (addr_str (host s) (port s)));
                      ("clients", opt_to JInt (v_gvret_clients v))]);
       ("warnings", JArr (JStr <$> warnings))].

(** [State::settings]. *)
Definition settings_json (config : option string) (warnings : list string) (l : list Setting) : Json :=
  obj [("settings", JArr (setting_json config <$> l)); ("warnings", JArr (JStr <$> warnings))].

(** What the process was started with, and what it has done since: whether a
    change is being applied, the change a request is applying, and [ui.toml].
    Ghost: the answers given. *)
Record Started := MkStarted {
  c_cli : Cli;
  c_config : option string;
  c_path : option string;
  c_version : string;
  c_settings : Settings;
  c_listing : list Setting;
  c_warnings : list string
}.
(** What [main] starts the socket with, of the config file the command line names
    and the file at [ui.toml]'s path. *)
Definition start_up (version : string) (linux : bool) (c : Cli) (config : option (string * FileRead)) (ui_file : FileRead)
    (env : Env) : result SettingsError Started :=
  file <-? match config with Some (path, f) => config_load path f | None => Ok None end ;;
  let path := ui_path c env in
  r <-? resolve_at_start linux c file path (match path with Some u => load u ui_file | None => Ok ui_default end) env ;;
  let '(resolved, ui) := r in
  Ok (MkStarted c (fst <$> config) path version (settings resolved) (listing c file ui env (settings resolved))
        (warning_str <$> warnings resolved)).

Record State := MkState {
  applying : bool;
  in_flight : option (list Z);
  ui_toml : FileRead;
  answers : list Answer
}.
Definition state_new (f : FileRead) : State := MkState false None f [].

Inductive Method := GET | PUT | OtherMethod.

(** A request, its body as collected up to the limit or the limit's error; and
    the rest of a [PUT], which other requests may come between. *)
Inductive Event :=
  | Request (m : Method) (path : string) (body : result string (list Z)) (v : View)
  | PutEnds (h : Host).

Definition answer (a : Answer) (st : State) : State :=
  MkState (applying st) (in_flight st) (ui_toml st) (answers st ++ [a]).

(** [State::handle], [put] up to its call of [apply] and after it. *)
Definition handle (c : Started) (st : State) (ev : Event) : State :=
  match ev with
  | Request m path body v =>
      if str_eqb path "/v1/status" then
        match m with
        | GET => answer (OK_, status (c_version c) (c_warnings c) (applying st) (c_settings c) v) st
        | _ => answer (refuse METHOD_NOT_ALLOWED "method not allowed") st
        end
      else if str_eqb path "/v1/settings" then
        match m with
        | GET => answer (OK_, settings_json (c_config c) (c_warnings c) (c_listing c)) st
        | PUT =>
            match body with
            | Err e => answer (refuse PAYLOAD_TOO_LARGE e) st
            | Ok body =>
                if applying st then answer (refuse SERVICE_UNAVAILABLE "another change is being applied") st
                else MkState true (Some body) (ui_toml st) (answers st)
            end
        | OtherMethod => answer (refuse METHOD_NOT_ALLOWED "method not allowed") st
        end
      else answer (refuse NOT_FOUND "not found") st
  | PutEnds h =>
      match in_flight st with
      | None => st
      | Some body =>
          match apply (c_cli c) (c_path c) h (c_settings c) body (ui_toml st) with
          | (Ok _, f) => answer (ACCEPTED, obj [("restarting", JBool true)]) (MkState (applying st) None f (answers st))
          | (Err a, f) => answer a (MkState false None f (answers st))
          end
      end
  end.
End Control.

(** ** A change that is accepted takes effect *)

Section Change.
Context `{CatalogueLib} `{SettingsLib} `{UiLaws}.

Lemma pinned_key_None srcs put k s :
  pinned_key srcs put = None → k ∈ put.*1 → (k, s) ∈ srcs → pinned s = false.
Proof.
  induction put as [|[k' v] put IH]; cbn; intros Hp Hk Hs; [by apply not_elem_of_nil in Hk|].
  destruct (find _ srcs) as [[? ?]|] eqn:Hf; [done|].
  apply elem_of_cons in Hk as [->|Hk]; [|by apply IH].
  pose proof (find_none _ _ Hf (k', s)) as Hn. rewrite <-list_elem_of_In in Hn. specialize (Hn Hs). cbn in Hn.
  by rewrite str_eqb_refl in Hn.
Qed.

(** [scalar_settings]' last column says whether the slot is set. *)
Lemma scalar_settings_set file ui :
  Forall (λ '(k, _, _, in_ui), in_ui = negb (is_null (ui_setting k ui))) (scalar_settings file ui).
Proof.
  destruct ui as [ds [en ho po ak db bs fi qs cm qf] [ie ip it] [ll]]. unfold scalar_settings.
  repeat (apply Forall_cons; split; [cbn [ui_forward ui_ingest ui_logging uf_enable uf_host uf_port uf_database
    uf_batch_size uf_flush_interval uf_queue_size uf_cache_max_mb uf_queue_flush_pct ui_enable ui_port ul_level];
    match goal with |- is_some ?o = _ => by destruct o end|]).
  constructor.
Qed.

Definition ui_source (k : string) (ui : UiConfig) : Origin := if is_null (ui_setting k ui) then FromDefault else FromUi.

Lemma source_of_ui in_file flag k ui :
  let s := source_of in_file flag (negb (is_null (ui_setting k ui))) in pinned s = true ∨ s = ui_source k ui.
Proof. cbv zeta. unfold ui_source. destruct in_file; [by left|]. destruct flag; [by left|]. right. by destruct (is_null _). Qed.

(** A source that is [o], or pins the setting. *)
Definition has_source (k : string) (o : Origin) (out : list (string * Origin)) : Prop :=
  ∃ o', (k, o') ∈ out ∧ (pinned o' = true ∨ o' = o).

Lemma set_origin_source key s k o out : pinned s = true → has_source k o out → has_source k o (set_origin key s out).
Proof.
  intros Hs (o' & Hin & Ho). exists (if str_eqb k key then s else o'). split.
  - apply list_elem_of_fmap. by exists (k, o').
  - destruct (str_eqb k key); [by left|done].
Qed.

Lemma has_source_app k o out rest : has_source k o out → has_source k o (out ++ rest).
Proof. intros (o' & Hin & Ho). exists o'. rewrite elem_of_app. auto. Qed.

(** A setting that is no secret comes from the UI's layer, unless it is pinned. *)
Lemma sources_of_ui c file ui env k :
  k ∈ ui_keys → k ∉ SECRETS → has_source k (ui_source k ui) (sources c file ui env).
Proof.
  intros Hk Hsec. unfold sources. apply has_source_app.
  assert (Hover : ∀ key (f : option bool) field out, has_source k (ui_source k ui) out →
    has_source k (ui_source k ui)
      (if bool_decide (f = Some false) && given c field then set_origin key (FromFlag field) out else out)).
  { intros key f field out Ho. destruct (_ && _); [by apply set_origin_source|done]. }
  apply Hover, Hover. clear Hover. unfold ui_keys in Hk. apply elem_of_cons in Hk as [->|Hk].
  { eexists. split; [by apply elem_of_cons; left|]. pose proof (source_of_ui) as Hs.
    assert (Hd : is_some (ui_devices ui) = negb (is_null (ui_setting "devices" ui))) by (destruct ui as [[ds|] ? ? ?]; reflexivity).
    rewrite Hd. apply source_of_ui. }
  apply elem_of_app in Hk as [Hk|Hk]; [done|].
  change ((λ '(k, _, _, _), k) <$> scalar_settings None ui_default) with ((λ '(k, _, _, _), k) <$> scalar_settings file ui) in Hk.
  apply list_elem_of_fmap in Hk as ([[[k' in_file] field] in_ui] & -> & Hin).
  pose proof (proj1 (Forall_forall _ _) (scalar_settings_set file ui) _ Hin) as Hu. cbv beta iota in Hu.
  exists (source_of in_file (if given c field then Some field else None) in_ui). split.
  - apply elem_of_cons. right. apply list_elem_of_fmap. by exists (k', in_file, field, in_ui).
  - rewrite Hu. apply source_of_ui.
Qed.

Definition loaded_or_default (path : string) (f : FileRead) : UiConfig :=
  match load path f with Ok u => u | Err _ => ui_default end.
Lemma loaded_typed path f : ui_typed (loaded_or_default path f).
Proof.
  unfold loaded_or_default, load. destruct f as [t| |e]; [|reflexivity..].
  destruct (toml_from_str t) as [u|[span msg]] eqn:Ht; [by eapply toml_typed|reflexivity].
Qed.

(** What a change that passes validation is. *)
Lemma validate_inv c path h running body old p next :
  validate c path h running body old = Ok (p, next) →
  ∃ put file r, path = Some p ∧ json_from_slice body = Ok put ∧ put ≠ [] ∧
    Forall (λ x, x.1 ∈ ui_keys) put ∧ host_file h = Ok file ∧ merge (loaded_or_default p old) put = Ok next ∧
    pinned_key (sources c file next (h_env h)) put = None ∧ ("devices", JNull) ∉ put ∧
    resolve c file (Some next) (h_env h) = Ok r ∧ check_start (h_linux h) (settings r) = Ok () ∧
    bind_check h running (settings r) = Ok ().
Proof.
  unfold validate. destruct path as [p'|]; [cbn [ok_or]|done].
  destruct (json_from_slice body) as [put|] eqn:Hj; [|done]. cbn [map_err].
  destruct put as [|x0 put0] eqn:Hput; [done|]. rewrite <-Hput in *.
  destruct (find _ put) as [[k0 v0]|] eqn:Hfind; [done|].
  destruct (host_file h) as [file|] eqn:Hfile; [|done]. cbn [map_err].
  fold (loaded_or_default p' old). destruct (merge (loaded_or_default p' old) put) as [u|] eqn:Hm; [|done]. cbn [map_err].
  destruct (pinned_key _ put) as [[? ?]|] eqn:Hp; [done|].
  assert (Hdev : ("devices", JNull) ∈ put → obj_get "devices" put = Some JNull)
    by (apply obj_get_elem; by eapply json_keys).
  assert (Hks : Forall (λ x, x.1 ∈ ui_keys) put).
  { apply Forall_forall. intros [k v] Hx. pose proof (find_none _ _ Hfind (k, v)) as Hn.
    rewrite <-list_elem_of_In in Hn. specialize (Hn Hx). cbv beta iota in Hn. cbn [fst].
    apply negb_false_iff, existsb_exists in Hn as (k' & Hin & ->%str_eqb_eq). by apply list_elem_of_In. }
  destruct (match obj_get "devices" put with Some JNull => _ | _ => _ end) as [?|] eqn:Hd; [|done].
  destruct (resolve c file (Some u) (h_env h)) as [r|] eqn:Hr; [|done]. cbn [map_err].
  destruct (check_start (h_linux h) (settings r)) as [[]|] eqn:Hc; [|done]. cbn [map_err].
  destruct (bind_check h running (settings r)) as [[]|] eqn:Hb; [|done]. intros [= <- <-].
  exists put, file, r. split_and!; try done; [by subst put|]. intros Hnull. by rewrite Hdev in Hd.
Qed.

(** An early return of [apply] never answers 202. *)
Definition refusal {A} (r : result Answer A) : Prop := match r with Ok _ => True | Err a => a.1 ≠ ACCEPTED end.
Lemma refusal_bind {A B} (m : result Answer A) (k : A → result Answer B) :
  refusal m → (∀ x, refusal (k x)) → refusal (x <-? m ;; k x).
Proof. destruct m; cbn; auto. Qed.
Lemma map_err_refusal {E A} (f : E → Answer) (r : result E A) : (∀ e, (f e).1 ≠ ACCEPTED) → refusal (map_err f r).
Proof. destruct r; cbn; auto. Qed.

Lemma validate_refusal c path h running body old : refusal (validate c path h running body old).
Proof.
  unfold validate. apply refusal_bind; [by destruct path|intros p].
  apply refusal_bind; [by apply map_err_refusal|intros put]. apply (refusal_bind (match put with [] => _ | _ => _ end)); [by destruct put|intros _].
  apply (refusal_bind (match find _ put with Some _ => _ | None => _ end)); [by destruct (find _ put) as [[? ?]|]|intros _].
  apply refusal_bind; [by apply map_err_refusal|intros file]. apply refusal_bind; [by apply map_err_refusal|intros next].
  apply (refusal_bind (match pinned_key _ put with Some _ => _ | None => _ end)); [by destruct (pinned_key _ put) as [[? ?]|]|intros _].
  apply (refusal_bind (match obj_get _ put with Some JNull => _ | _ => _ end)); [by destruct (obj_get _ put) as [[]|]|intros _].
  apply refusal_bind; [by apply map_err_refusal|intros r]. apply refusal_bind; [by apply map_err_refusal|intros _].
  apply refusal_bind; [|done]. unfold bind_check. destruct (s_ingest (settings r)); [|done].
  destruct (match s_ingest running with Some _ => _ | None => _ end); [done|]. by apply map_err_refusal.
Qed.

Lemma apply_refusal c path h running body old a f :
  apply c path h running body old = (Err a, f) → f = old ∧ a.1 ≠ ACCEPTED.
Proof.
  unfold apply. destruct (validate c path h running body old) as [[p next]|a'] eqn:Hv.
  - unfold write. destruct (toml_to_string next) as [t|]; [destruct (h_write h)|]; cbn; try done;
      intros [= <- <-]; (split; [done|]); cbn; done.
  - intros [= <- <-]. split; [done|]. pose proof (validate_refusal c path h running body old) as Hr. by rewrite Hv in Hr.
Qed.

Lemma apply_accepts c path h running body old f :
  apply c path h running body old = (Ok (), f) →
  ∃ p next, validate c path h running body old = Ok (p, next) ∧ load p f = Ok next.
Proof.
  unfold apply. destruct (validate c path h running body old) as [[p next]|a']; [|done].
  unfold write. destruct (toml_to_string next) as [t|] eqn:Ht; [|done]. destruct (h_write h) as [[]|]; [|done].
  intros [= <-]. exists p, next. split; [done|]. cbn [load]. by rewrite (toml_round_trip _ _ Ht).
Qed.

(** Requests up to the first change that is accepted, and from then on. *)
Definition before (c : Started) (f0 : FileRead) (evs : list Event) (st : State) : Prop :=
  Forall (λ a : Answer, a.1 ≠ ACCEPTED) (answers st) ∧ ui_toml st = f0 ∧
  ∀ body, in_flight st = Some body → applying st = true ∧ ∃ v, Request PUT "/v1/settings" (Ok body) v ∈ evs.
Definition after (c : Started) (f0 : FileRead) (evs : list Event) (st : State) : Prop :=
  length (filter (λ a : Answer, a.1 = ACCEPTED) (answers st)) = 1%nat ∧ applying st = true ∧ in_flight st = None ∧
  ∃ h body v, PutEnds h ∈ evs ∧ Request PUT "/v1/settings" (Ok body) v ∈ evs ∧
    apply (c_cli c) (c_path c) h (c_settings c) body f0 = (Ok (), ui_toml st).

Lemma answer_before c f0 evs a st : a.1 ≠ ACCEPTED → before c f0 evs st → before c f0 evs (answer a st).
Proof. intros Ha (Hf & Hu & Hi). split_and!; [|done|done]. apply Forall_app. split; [done|]. by apply Forall_singleton. Qed.
Lemma answer_after c f0 evs a st : a.1 ≠ ACCEPTED → after c f0 evs st → after c f0 evs (answer a st).
Proof.
  intros Ha (Hf & Hu). split; [|done]. cbn [answers answer]. rewrite filter_app, length_app, Hf.
  rewrite filter_cons_False by done. done.
Qed.
Lemma before_more c f0 evs ev st : before c f0 evs st → before c f0 (evs ++ [ev]) st.
Proof. intros (Hf & Hu & Hi). split_and!; [done|done|]. intros b Hb. destruct (Hi b Hb) as [Ha [v Hv]]. split; [done|]. exists v. apply elem_of_app. by left. Qed.
Lemma after_more c f0 evs ev st : after c f0 evs st → after c f0 (evs ++ [ev]) st.
Proof.
  intros (Hf & Ha & Hi & h & b & v & Hp & Hr & Hap). split_and!; [done..|].
  exists h, b, v. split_and!; [apply elem_of_app; by left..|done].
Qed.

Lemma handle_once c f0 evs ev st :
  before c f0 evs st ∨ after c f0 evs st →
  before c f0 (evs ++ [ev]) (handle c st ev) ∨ after c f0 (evs ++ [ev]) (handle c st ev).
Proof.
  intros Hst. assert (Hans : ∀ a : Answer, a.1 ≠ ACCEPTED →
    before c f0 (evs ++ [ev]) (answer a st) ∨ after c f0 (evs ++ [ev]) (answer a st)).
  { intros a Ha. destruct Hst as [Hb|Hb]; [left; by apply answer_before, before_more|right; by apply answer_after, after_more]. }
  destruct ev as [m path body v|h]; cbn [handle].
  - destruct (str_eqb path "/v1/status"); [destruct m; by apply Hans|].
    destruct (str_eqb path "/v1/settings") eqn:Hp; [|by apply Hans]. apply str_eqb_eq in Hp as ->.
    destruct m; [by apply Hans| |by apply Hans]. destruct body as [body|e]; [|by apply Hans].
    destruct (applying st) eqn:Ha; [by apply Hans|].
    destruct Hst as [(Hf & Hu & Hi)|(_ & Ha' & _)]; [|congruence]. left. split_and!; [done|done|].
    intros b [= <-]. split; [done|]. exists v. apply elem_of_app. right. by apply list_elem_of_singleton.
  - destruct (in_flight st) as [body|] eqn:Hfl.
    2:{ destruct Hst as [Hb|Hb]; [left; by apply before_more|right; by apply after_more]. }
    destruct Hst as [(Hf & Hu & Hi)|(_ & _ & Hn & _)]; [|congruence]. destruct (Hi body Hfl) as [Ha [v Hv]].
    destruct (apply _ _ _ _ _ _) as [[[]|a] f] eqn:Hap.
    + right. split_and!; [|done|done|].
      { cbn [answers answer]. rewrite filter_app, filter_none by done.
        by rewrite filter_cons_True. }
      exists h, body, v. rewrite Hu in Hap. split_and!; [apply elem_of_app; right; by apply list_elem_of_singleton| |done].
      apply elem_of_app. by left.
    + left. apply apply_refusal in Hap as [-> Hne]. apply answer_before; [done|]. by split_and!.
Qed.

Lemma handle_run c f0 evs :
  let st := foldl (handle c) (state_new f0) evs in before c f0 evs st ∨ after c f0 evs st.
Proof.
  induction evs as [|ev evs IH] using rev_ind; [left; by split_and!|].
  cbv zeta in *. rewrite foldl_app. by apply handle_once.
Qed.

(** C29: a change the socket accepts is what the next start runs on. Over any
    interleaving of requests: at most one change is accepted in the life of a
    process, and without one [ui.toml] is untouched. With one, the settings the
    change named, and no others, are set or cleared; none of them was pinned, and
    each that is no secret is then reported as the UI's; and a start on the same
    config file and environment runs on the new settings, which its checks pass,
    without leaving the UI's layer out. It runs on the value of every key the
    change set, device by device and key by key, but of a secret whose
    environment variable is set and empty, which keeps it out. *)
Theorem change_takes_effect c f0 evs :
  let st := foldl (handle c) (state_new f0) evs in
  let accepted := filter (λ a : Answer, a.1 = ACCEPTED) (answers st) in
  (length accepted ≤ 1)%nat ∧ (accepted = [] → ui_toml st = f0) ∧
  (accepted ≠ [] → ∃ h body v p put file next r,
    PutEnds h ∈ evs ∧ Request PUT "/v1/settings" (Ok body) v ∈ evs ∧
    c_path c = Some p ∧ json_from_slice body = Ok put ∧ host_file h = Ok file ∧ load p (ui_toml st) = Ok next ∧
    changed_as put (loaded_or_default p f0) next ∧
    (∀ k s, k ∈ put.*1 → (k, s) ∈ sources (c_cli c) file next (h_env h) → pinned s = false) ∧
    (∀ k, k ∈ put.*1 → k ∉ SECRETS → (k, ui_source k next) ∈ sources (c_cli c) file next (h_env h)) ∧
    (∀ k, k ∈ put.*1 → (k = "devices" → cli_ok (c_cli c) = true) → ¬ emptied (h_env h) k → takes_effect next (settings r) k) ∧
    resolve (c_cli c) file (Some next) (h_env h) = Ok r ∧ check_start (h_linux h) (settings r) = Ok () ∧
    resolve_at_start (h_linux h) (c_cli c) file (Some p) (load p (ui_toml st)) (h_env h) = Ok (r, next)).
Proof.
  cbv zeta. destruct (handle_run c f0 evs) as [(Hf & Hu & _)|(Hl & _ & _ & h & body & v & Hp & Hr & Hap)].
  { rewrite (filter_none (λ a : Answer, a.1 = ACCEPTED)) by done. split_and!; [cbn; lia|done|done]. }
  split_and!; [lia|intros He; by rewrite He in Hl|]. intros _.
  destruct (apply_accepts _ _ _ _ _ _ _ Hap) as (p & next & Hv & Hload).
  destruct (validate_inv _ _ _ _ _ _ _ _ Hv) as (put & file & r & Hpath & Hj & _ & Hks & Hfile & Hm & Hpin & _ & Hres & Hck & _).
  exists h, body, v, p, put, file, next, r. split_and!; try done.
  - apply merge_changes; [apply loaded_typed|by eapply json_keys|done|done].
  - intros k s Hk Hs. by eapply pinned_key_None.
  - intros k Hk Hsec. apply list_elem_of_fmap in Hk as ([k' w] & Hkk & Hin). cbn in Hkk. subst k'.
    destruct (sources_of_ui (c_cli c) file next (h_env h) k) as (o & Ho & [Hpo| ->]); [|done| |done].
    + by apply (proj1 (Forall_forall _ _) Hks (k, w)).
    + rewrite (pinned_key_None _ _ k o Hpin) in Hpo; [done|apply list_elem_of_fmap; by exists (k, w)|done].
  - intros k Hk Hc Hne. apply (unpinned_takes_effect (c_cli c) file next (h_env h)); [done| |by intros o Ho; eapply pinned_key_None|done|done].
    apply list_elem_of_fmap in Hk as ([k' w] & -> & Hin). by apply (proj1 (Forall_forall _ _) Hks (k', w)).
  - unfold resolve_at_start. rewrite Hload, Hres. by rewrite Hck.
Qed.
End Change.

(** ** A desk to run on *)

Module Desk.
Import (hints) Catalogues.Bench SettingsProofs.Site.

#[local] Instance f64_eq_dec : EqDecision f64.
Proof. solve_decision. Defined.
#[local] Instance UiDevice_eq_dec : EqDecision UiDevice.
Proof. solve_decision. Defined.
#[local] Instance UiForward_eq_dec : EqDecision UiForward.
Proof. solve_decision. Defined.
#[local] Instance UiIngest_eq_dec : EqDecision UiIngest.
Proof. solve_decision. Defined.
#[local] Instance UiLogging_eq_dec : EqDecision UiLogging.
Proof. solve_decision. Defined.
#[local] Instance UiConfig_eq_dec : EqDecision UiConfig.
Proof. solve_decision. Defined.

(** One layer, one text of it, and one change that makes it. *)
Definition layer : UiConfig :=
  MkUiConfig None (MkUiForward None None (Some 9000) None None None None None None None) (MkUiIngest None None None)
    (MkUiLogging (Some "DEBUG")).

#[export] Instance syntaxes : UiLib := {
  serde_error_str _ := "bad";
  toml_from_str t := if str_eqb t (HEADER +:+ "x") then Ok layer else Err (Some 3%nat, "bad");
  toml_to_string u := if bool_decide (u = layer) then Ok "x" else Err "not this one";
  json_from_slice b := if bool_decide (b = [1]) then Ok [("forward.port", JInt 9000); ("logging.level", JStr "DEBUG")] else Err "bad";
  json_to_string _ := EmptyString;
  config_from_str _ := Ok Site.file
}.
#[export] Instance syntax_laws : UiLaws.
Proof.
  constructor.
  - intros u t. cbn [toml_to_string syntaxes]. case_bool_decide as Hu; [|done]. intros [= <-]. subst u.
    cbn [toml_from_str syntaxes]. by rewrite str_eqb_refl.
  - intros t u. cbn [toml_from_str syntaxes]. destruct (str_eqb t _); [|done]. intros [= <-]. reflexivity.
  - intros b put. cbn [json_from_slice syntaxes]. case_bool_decide; [|done]. intros [= <-].
    cbn. apply (bool_decide_unpack _). vm_compute. exact I.
Qed.

Definition path : string := "/var/lib/wiretap-server/ui.toml".
Definition host : Host := MkHost true (Some ("/etc/wiretap-server.toml", Text "x")) Site.env (λ _ _, Ok ()) (Ok ()).
Definition started : Started := MkStarted cli_default (Some "/etc/wiretap-server.toml") (Some path) "1" (settings Site.site) [] [].
Definition view : View := MkView 1 [] None None None.
Definition events : list Event :=
  [Request PUT "/v1/settings" (Ok [1]) view; Request PUT "/v1/settings" (Ok [1]) view; PutEnds host;
   Request PUT "/v1/settings" (Ok [1]) view].

Lemma change_takes_effect_witness :
  (fst <$> answers (foldl (handle started) (state_new Missing) events)) = [503; 202; 503] ∧
  ∃ p next r, resolve_at_start true cli_default (Some Site.file) (Some p)
    (load p (ui_toml (foldl (handle started) (state_new Missing) events))) Site.env = Ok (r, next) ∧
    takes_effect next (settings r) "forward.port".
Proof.
  assert (Hcodes : (fst <$> answers (foldl (handle started) (state_new Missing) events)) = [503; 202; 503])
    by (vm_compute; reflexivity).
  split; [exact Hcodes|].
  destruct (change_takes_effect started Missing events) as (_ & _ & Heff). cbv zeta in Heff.
  destruct Heff as (h & body & v & p & put & file & next & r & Hin & Hreq & _ & Hj & Hfile & _ & _ & _ & _ & Hval & _ & _ & Hstart).
  { intros He. apply (f_equal length) in He. revert He. generalize dependent (answers (foldl (handle started) (state_new Missing) events)).
    intros l Hl He. destruct l as [|a [|b [|d [|]]]]; try discriminate Hl. injection Hl as Ha Hb Hd.
    rewrite filter_cons, filter_cons, filter_cons in He. destruct (decide (b.1 = ACCEPTED)) as [_|Hne]; [|by apply Hne].
    destruct (decide (a.1 = ACCEPTED)); discriminate He. }
  exists p, next, r.
  assert (h = host) as ->.
  { unfold events in Hin. rewrite !elem_of_cons in Hin. destruct Hin as [Hx|[Hx|[Hx|[Hx|Hx]]]]; try discriminate Hx;
      [by injection Hx|by apply not_elem_of_nil in Hx]. }
  change (host_file host) with (Ok (E := SettingsError) (Some Site.file)) in Hfile. injection Hfile as <-.
  split; [exact Hstart|]. apply Hval; [|by intros|by intros [[? _]|[? _]]].
  assert (body = [1]) as ->.
  { unfold events in Hreq. rewrite !elem_of_cons in Hreq. destruct Hreq as [Hx|[Hx|[Hx|[Hx|Hx]]]]; try discriminate Hx;
      [by injection Hx..|by apply not_elem_of_nil in Hx]. }
  change (json_from_slice [1]) with (Ok (E := string) [("forward.port", JInt 9000); ("logging.level", JStr "DEBUG")]) in Hj.
  injection Hj as <-. left.
Defined.
End Desk.
