(* ===== verification/Report.v ===== *)
(** * What the daemon says of its settings ([settings.rs] [report], [control.rs])

    The report of [--check-config], and that neither it nor an answer of the
    control socket depends on a secret beyond whether it is set. *)

From S2P Require Import Prelude F64 Model Source Wire Cache Archive Cidr Catalogues Settings Ui SettingsProofs UiDoc Control.
From Stdlib Require Import Ascii.
Import Sample Config.
Local Open Scope Z_scope.

(** ** The [Display]s of the libraries *)

Class ReportLib `{CatalogueLib} `{SettingsLib} := {
  line_str : LineSettings → string;
  vendor_functions : RtuOptions → list Z;
  f64_str : f64 → string;
  secret_str : string → string
}.
(** A secret's [Display] redacts. *)
Class ReportLaws `{ReportLib} : Prop := {
  secret_redacted : ∀ a b, is_empty_str a = false → is_empty_str b = false → secret_str a = secret_str b
}.

Section Report.
Context `{ReportLib}.

(** [format!("{c:#04x}")] of a byte. *)
Definition hex_code (c : Z) : string := "0x" +:+ String (hex_digit (c / 16)) (String (hex_digit (c mod 16)) EmptyString).

Definition line_catalogue_str (l : LineCatalogue) : string :=
  let codes := hex_code <$> vendor_functions (lc_rtu l) in
  lc_name l +:+ " (" +:+ (match codes with [] => "no vendor codes" | _ => str_join ", " codes end) +:+ ")".

Definition rules_str (r : Rules) : string :=
  match rules_catalogue r with
  | Some c => rules_source r +:+ ", " +:+ line_catalogue_str c
  | None => "none"
  end.

Definition database_label (database : string) : string :=
  if is_empty_str database then "(gateway default)" else database.

Definition device_str (d : Device) : string :=
  d_interface d +:+ " [bus " +:+ pretty (d_bus d) +:+ "] " +:+
  match d_kind d with
  | KCan fd => "can, " +:+ mode_as_str (d_mode d) +:+ ", fd " +:+ (if fd then "on" else "off") +:+ " → " +:+
               database_label (d_database d)
  | KSerial s =>
      "serial, " +:+ mode_as_str (d_mode d) +:+ ", " +:+ line_str (ss_line s) +:+ " " +:+
      str_join ", " ((λ '(name, db), name +:+ " → " +:+ database_label db) <$> streams s (d_database d))
  end.

Definition bool_str (b : bool) : string := if b then "true" else "false".

Definition Row : Type := string * string.

Definition device_rows (cats : string → option Rules) (s : Settings) : list Row :=
  let caveat := match s_forward s with
    | Some f => match b_cache_origin (f_batching f) with
        | Some _ => ", assignments looked for in " +:+ state_dir f +:+ "; the packaged unit sets STATE_DIRECTORY instead"
        | None => EmptyString
        end
    | None => EmptyString
    end in
  (match devices s with [] => [("devices", "(none)")] | _ => [] end) ++
  (devices s ≫= λ d, ("device", device_str d) ::
     match cats (d_interface d) with Some r => [("  catalogue", rules_str r +:+ caveat)] | None => [] end).

Definition general_rows (s : Settings) : list Row :=
  [("gvret listen", addr_str (host s) (port s));
   ("gvret clients",
      (match allowed_clients s with [] => "none, every client is refused" | l => str_join ", " (cidr_str <$> l) end) +:+
      " (" +:+ default (origin_name (allowed_clients_source s)) (place (allowed_clients_source s) None) +:+ ")");
   ("bus offset", pretty (bus_offset s));
   ("direction", as_str (default_dir s));
   ("console echo", bool_str (echo_console s) +:+ " (colour " +:+ bool_str (colour s) +:+ ")");
   ("log level", level_as_str (log_level_ s));
   ("stats interval", f64_str (stats_interval s) +:+ "s")].

Definition ingest_rows (s : Settings) : list Row :=
  match s_ingest s with
  | Some i =>
      [("ingest listen", addr_str (i_host i) (i_port i));
       ("ingest auth", if is_empty_str (i_token i) then "disabled" else secret_str (i_token i));
       ("ingest limits", pretty (i_max_batch_frames i) +:+ " frames/batch, keepalive " +:+ f64_str (i_keepalive_secs i) +:+ "s")]
  | None => [("ingest listen", "disabled")]
  end.

Definition test_pattern_rows (s : Settings) : list Row :=
  [("test pattern",
    match s_test_pattern s with
    | None => "disabled"
    | Some tp =>
        match armed_indices s tp with
        | [] => "enabled, but no active captured interface matches; nothing is armed"
        | armed =>
            "ARMED, transmits on " +:+ str_join ", " (filter_map (λ i, d_interface <$> can_devices s !! i) armed) +:+
            (if any_fd s then EmptyString else " (classic sweep only; no device has fd on)")
        end
    end)].

Definition cache_row (f : Forward) (many : bool) (db : string) : Row :=
  let c := f_batching (for_database f db) in
  ("disk cache",
   b_cache_path c +:+ " (max " +:+ pretty (b_cache_max_mb c) +:+ " MB)" +:+
   (if many then " for " +:+ database_label db else EmptyString) +:+
   match b_cache_origin c with Some origin => ", " +:+ origin | None => EmptyString end).

Definition forward_rows (s : Settings) : list Row :=
  match s_forward s with
  | Some f =>
      let b := f_batching f in
      [("forward to", addr_str (f_host f) (f_port f));
       ("forward db", database_label (f_database f));
       ("daemon id", f_daemon_id f);
       ("forward auth", if is_empty_str (f_api_key f) then "MISSING" else secret_str (f_api_key f));
       ("batching", pretty (b_size b) +:+ " frames or " +:+ f64_str (b_flush_interval b) +:+ "s, queue " +:+
          pretty (b_queue_size b) +:+ " (spill at " +:+ pretty (b_queue_flush_pct b) +:+ "%)")] ++
      (cache_row f (1 <? length (databases s))%nat <$> databases s) ++
      match b_legacy_cache_path b with Some p => [("adopt on start", p)] | None => [] end
  | None => [("forward to", "disabled — frames will not be archived")]
  end.

(** [cats] is [Catalogues::effective]. *)
Definition rows (cats : string → option Rules) (s : Settings) : list Row :=
  device_rows cats s ++ general_rows s ++ ingest_rows s ++ test_pattern_rows s ++ forward_rows s.

Definition report (cats : string → option Rules) (s : Settings) : string :=
  String.concat EmptyString ((λ '(label, value), pad 16 label +:+ value +:+ newline) <$> rows cats s).
End Report.

(** ** Secrets stay secret *)

(** What is left of a secret when only whether it is set is kept, in each of the
    places one is held: the file, the flags, the environment, the UI's layer, and
    the settings they resolve to. *)
Definition mask (s : string) : string := if is_empty_str s then s else "*".

Definition file_masked (f : FileConfig) : FileConfig :=
  let w := forward f in
  let i := ingest f in
  MkFile (server f) (postgres f)
    (MkIngest (ing_enable i) (ing_host i) (ing_port i) (mask <$> ing_token i) (ing_keepalive_secs i) (ing_max_batch_frames i)
       (ing_unknown i))
    (test_pattern f)
    (MkForward (fw_enable w) (fw_host w) (fw_port w) (mask <$> fw_api_key w) (fw_database w) (fw_daemon_id w) (fw_batch_size w)
       (fw_flush_interval w) (fw_queue_size w) (fw_cache_path w) (fw_cache_max_mb w) (fw_queue_flush_pct w) (fw_unknown w))
    (logging f) (device f) (unknown f).
Definition cli_masked (c : Cli) : Cli :=
  MkCli (iface c) (cli_host c) (cli_port c) (cli_allowed_clients c) (cli_bus_offset c) (cli_echo_console c) (cli_colour c)
    (cli_default_dir c) (cli_can_fd c) (cli_log_level c) (cli_stats_interval c) (test_pattern_enable c)
    (test_pattern_ifaces c) (ingest_enable c) (ingest_host c) (ingest_port c) (mask <$> ingest_token c) (ingest_keepalive_secs c)
    (ingest_max_batch_frames c) (forward_enable c) (forward_host c) (forward_port c) (mask <$> forward_api_key c)
    (forward_database c) (pg_batch_size c) (pg_flush_interval c) (pg_queue_size c) (pg_dir c) (pg_cache_path c)
    (pg_cache_max_mb c) (pg_queue_flush_pct c) (cli_pg_enable c) (pg_dsn c) (pg_func c) (pg_write_mode c) (ui_config c)
    (given_flags c).
Definition env_masked (e : Env) : Env :=
  MkEnv (mask <$> env_ingest_token e) (mask <$> env_forward_api_key e) (env_cache_path e) (env_state_dir e) (env_home e)
    (env_hostname e) (env_exists e) (env_read e).
Definition ui_masked (u : UiConfig) : UiConfig :=
  let f := ui_forward u in
  MkUiConfig (ui_devices u)
    (MkUiForward (uf_enable f) (uf_host f) (uf_port f) (mask <$> uf_api_key f) (uf_database f) (uf_batch_size f)
       (uf_flush_interval f) (uf_queue_size f) (uf_cache_max_mb f) (uf_queue_flush_pct f))
    (MkUiIngest (ui_enable (ui_ingest u)) (ui_port (ui_ingest u)) (mask <$> ui_token (ui_ingest u))) (ui_logging u).
Definition forward_masked (f : Forward) : Forward := set_key (mask (f_api_key f)) f.
Definition ingest_masked (i : Ingest) : Ingest := set_token (mask (i_token i)) i.
Definition settings_masked `{CatalogueLib} `{SettingsLib} (s : Settings) : Settings :=
  MkSettings (devices s) (host s) (port s) (allowed_clients s) (allowed_clients_source s) (bus_offset s) (echo_console s)
    (colour s) (default_dir s) (can_fd s) (log_level_ s) (stats_interval s) (ingest_masked <$> s_ingest s)
    (forward_masked <$> s_forward s) (s_test_pattern s).

(** *** What a start resolves to *)

Section Masked.
Context `{CatalogueLib} `{SettingsLib}.

Lemma is_empty_mask s : is_empty_str (mask s) = is_empty_str s.
Proof. by destruct s. Qed.
Lemma mask_over a o : over (mask a) (mask <$> o) = mask (over a o).
Proof. by destruct o. Qed.
Lemma mask_default o : default "" (mask <$> o) = mask (default "" o).
Proof. by destruct o. Qed.
Lemma mask_fill a e u : fill_secret (mask a) (mask <$> e) (mask <$> u) = mask (fill_secret a e u).
Proof. unfold fill_secret. rewrite is_empty_mask. by destruct (is_empty_str a), e, u. Qed.

Lemma ingest_from_cli_masked c : ingest_from_cli (cli_masked c) = ingest_masked (ingest_from_cli c).
Proof. unfold ingest_from_cli, ingest_masked, set_token. cbn. by rewrite mask_default. Qed.
Lemma forward_from_cli_masked c env : forward_from_cli (cli_masked c) (env_masked env) = forward_masked (forward_from_cli c env).
Proof. unfold forward_from_cli, forward_masked, set_key. cbn. by rewrite mask_default. Qed.

Lemma section_masked {A} (m g g' : A → A) (on off : bool) (w : option A) a :
  (∀ x, g' (m x) = m (g x)) →
  let w1 := if off then None else w in let w2 := if off then None else m <$> w in
  (if on || is_some w2 then Some (g' (default (m a) w2)) else w2) =
  m <$> (if on || is_some w1 then Some (g (default a w1)) else w1).
Proof. intros Hg. cbv zeta. destruct off, on, w as [x|]; cbn; by rewrite ?Hg. Qed.

Lemma file_ingest_masked c f i :
  file_ingest (cli_masked c) (file_masked f) (ingest_masked <$> i) = ingest_masked <$> file_ingest c f i.
Proof.
  unfold file_ingest. rewrite ingest_from_cli_masked.
  apply (section_masked ingest_masked
    (λ i, MkIngest_ (over (i_host i) (ing_host (ingest f))) (over (i_port i) (ing_port (ingest f)))
      (over (i_token i) (ing_token (ingest f))) (over (i_keepalive_secs i) (ing_keepalive_secs (ingest f)))
      (over (i_max_batch_frames i) (ing_max_batch_frames (ingest f))))
    (λ i, MkIngest_ (over (i_host i) (ing_host (ingest f))) (over (i_port i) (ing_port (ingest f)))
      (over (i_token i) (mask <$> ing_token (ingest f))) (over (i_keepalive_secs i) (ing_keepalive_secs (ingest f)))
      (over (i_max_batch_frames i) (ing_max_batch_frames (ingest f))))
    (bool_decide (ing_enable (ingest f) = Some true))
    (bool_decide (ing_enable (ingest f) = Some false) && negb (given c "ingest_enable")) i (ingest_from_cli c)).
  intros x. unfold ingest_masked, set_token. cbn. by rewrite mask_over.
Qed.
Lemma file_forward_masked c env f w :
  file_forward (cli_masked c) (env_masked env) (file_masked f) (forward_masked <$> w) = forward_masked <$> file_forward c env f w.
Proof.
  unfold file_forward. rewrite forward_from_cli_masked.
  apply (section_masked forward_masked
    (λ w, MkForward_ (over (f_host w) (fw_host (forward f))) (over (f_port w) (fw_port (forward f)))
      (over (f_api_key w) (fw_api_key (forward f))) (over (f_database w) (fw_database (forward f)))
      (file_batching (forward f) env (f_batching w)) (over (f_daemon_id w) (fw_daemon_id (forward f)))
      (f_devices w) (f_raw_serial w))
    (λ w, MkForward_ (over (f_host w) (fw_host (forward f))) (over (f_port w) (fw_port (forward f)))
      (over (f_api_key w) (mask <$> fw_api_key (forward f))) (over (f_database w) (fw_database (forward f)))
      (file_batching (forward f) env (f_batching w)) (over (f_daemon_id w) (fw_daemon_id (forward f)))
      (f_devices w) (f_raw_serial w))
    (bool_decide (fw_enable (forward f) = Some true))
    (bool_decide (fw_enable (forward f) = Some false) && negb (given c "forward_enable")) w (forward_from_cli c env)).
  intros x. unfold forward_masked, set_key. cbn. by rewrite mask_over.
Qed.

Definition result_map {E A B} (g : A → B) (r : result E A) : result E B := match r with Ok a => Ok (g a) | Err e => Err e end.

Lemma layered_masked c file env :
  layered (cli_masked c) (file_masked <$> file) (env_masked env) = result_map settings_masked (layered c file env).
Proof.
  unfold layered, from_flags.
  assert (Hac : resolve_allowed_clients (cli_masked c) (file_masked <$> file) = resolve_allowed_clients c file) by by destruct file.
  rewrite Hac. destruct (resolve_allowed_clients c file) as [[l src]|]; [|done].
  change (cli_default_dir (cli_masked c)) with (cli_default_dir c). destruct (parse_direction (cli_default_dir c)) as [dir|]; [|done].
  change (cli_log_level (cli_masked c)) with (cli_log_level c). destruct (parse_log_level (cli_log_level c)) as [lv|]; [|done].
  rewrite ingest_from_cli_masked, forward_from_cli_masked. set (s := MkSettings _ _ _ _ _ _ _ _ _ _ _ _ _ _ _).
  set (s0 := MkSettings [] (cli_host c) (cli_port c) l src (cli_bus_offset c) (cli_echo_console c) (cli_colour c) dir
    (cli_can_fd c) lv (cli_stats_interval c) (if ingest_enable c then Some (ingest_from_cli c) else None)
    (if forward_enable c then Some (forward_from_cli c env) else None) (if test_pattern_enable c then Some (test_pattern_from_cli c) else None)).
  assert (Hs : s = settings_masked s0).
  { unfold s, s0, settings_masked. cbn. by destruct (ingest_enable c), (forward_enable c). }
  rewrite Hs. destruct file as [f|]; [|done]. cbn [fmap option_fmap option_map]. unfold apply_file.
  cbn [settings_masked default_dir log_level_ s_ingest s_forward s_test_pattern].
  rewrite file_ingest_masked, file_forward_masked. cbn [file_masked server logging].
  destruct (match srv_default_dir (server f) with Some _ => _ | None => _ end); [|done].
  by destruct (match log_level (logging f) with Some _ => _ | None => _ end).
Qed.
Lemma default_database_masked s : default_database (settings_masked s) = default_database s.
Proof. unfold default_database. cbn. by destruct (s_forward s). Qed.

Lemma table_devices_masked env s ts : ∀ index,
  table_devices (env_masked env) (settings_masked s) index ts = table_devices env s index ts.
Proof.
  induction ts as [|t ts IH]; intros index; [done|]. cbn [table_devices]. rewrite IH.
  unfold table_device. rewrite default_database_masked. done.
Qed.
Lemma build_devices_masked env s sugar ts :
  build_devices (env_masked env) (settings_masked s) sugar ts = build_devices env s sugar ts.
Proof. unfold build_devices. by rewrite table_devices_masked, default_database_masked. Qed.

Lemma finish_ingest_masked env ui i :
  finish_ingest (env_masked env) (ui_masked <$> ui) (ingest_masked i) = ingest_masked (finish_ingest env ui i).
Proof.
  unfold finish_ingest, ingest_masked, set_token. cbn.
  assert (Hu : (u ← ui_masked <$> ui; ui_token (ui_ingest u)) = mask <$> (u ← ui; ui_token (ui_ingest u))) by by destruct ui.
  by rewrite Hu, mask_fill.
Qed.
Lemma finish_forward_masked env ui f :
  finish_forward (env_masked env) (ui_masked <$> ui) (forward_masked f) = result_map forward_masked (finish_forward env ui f).
Proof.
  assert (Hu : (u ← ui_masked <$> ui; uf_api_key (ui_forward u)) = mask <$> (u ← ui; uf_api_key (ui_forward u))) by by destruct ui.
  unfold finish_forward, forward_masked, set_legacy, set_key. rewrite Hu.
  cbn [f_api_key f_host f_port f_database f_batching f_daemon_id f_devices f_raw_serial env_masked env_forward_api_key]. rewrite mask_fill.
  destruct (negb (valid_database (f_database f))); [done|]. by destruct (negb (valid_daemon_id (f_daemon_id f))).
Qed.

Definition resolved_masked (r : Resolved) : Resolved := MkResolved (settings_masked (settings r)) (warnings r).

(** Settings resolve alike but for what their secrets are: the same error, or
    the same settings and warnings. *)
Lemma resolve_masked c file ui env :
  resolve (cli_masked c) (file_masked <$> file) (ui_masked <$> ui) (env_masked env) =
  result_map resolved_masked (resolve c file ui env).
Proof.
  unfold resolve.
  set (c' := match ui with Some ui => beneath ui c | None => c end).
  assert (Hc : match ui_masked <$> ui with Some ui => beneath ui (cli_masked c) | None => cli_masked c end = cli_masked c')
    by by destruct ui.
  rewrite Hc. cbv zeta. change (cli_pg_enable (cli_masked c')) with (cli_pg_enable c').
  assert (Hr : match file_masked <$> file with Some f => retired_postgres_sink f | None => false end =
    match file with Some f => retired_postgres_sink f | None => false end) by by destruct file.
  rewrite Hr. destruct (_ || _); [done|]. rewrite layered_masked. destruct (layered c' file env) as [s|]; [|done]. cbn [result_map].
  assert (Hl : device_layer (cli_masked c') (file_masked <$> file) (ui_masked <$> ui) = device_layer c' file ui)
    by by destruct file, ui.
  rewrite Hl. destruct (device_layer c' file ui) as [[sugar tables]|]; [|done].
  change (pg_dir (cli_masked c')) with (pg_dir c'). change (default_dir (settings_masked s)) with (default_dir s).
  destruct (match pg_dir c' with Some _ => _ | None => _ end) as [dir|]; [|done].
  assert (Hu : match file_masked <$> file with Some f => UnknownKey <$> unknown_keys f | None => [] end =
    match file with Some f => UnknownKey <$> unknown_keys f | None => [] end) by by destruct file.
  rewrite Hu. cbn [settings_masked s_forward s_ingest].
  assert (Hi : finish_ingest (env_masked env) (ui_masked <$> ui) <$> (ingest_masked <$> s_ingest s) =
    ingest_masked <$> (finish_ingest env ui <$> s_ingest s)) by (destruct (s_ingest s); cbn; by rewrite ?finish_ingest_masked).
  rewrite Hi. set (fs := finish_ingest env ui <$> s_ingest s).
  assert (Hgo : ∀ fwd, let s2 := set_rest dir fs fwd s in
    (ds <-? build_devices (env_masked env) (set_rest dir (ingest_masked <$> fs) (forward_masked <$> fwd) (settings_masked s)) (parse_ifaces sugar) tables ;;
     let s3 := set_devices ds (set_rest dir (ingest_masked <$> fs) (forward_masked <$> fwd) (settings_masked s)) in
     Ok (MkResolved s3 (match retired_flags_used c' with [] => [] | _ => [RetiredFlags (retired_flags_used c')] end ++
       match file with Some f => UnknownKey <$> unknown_keys f | None => [] end ++ final_warnings (cli_masked c') s3))) =
    result_map resolved_masked (ds <-? build_devices env s2 (parse_ifaces sugar) tables ;;
     Ok (MkResolved (set_devices ds s2) (match retired_flags_used c' with [] => [] | _ => [RetiredFlags (retired_flags_used c')] end ++
       match file with Some f => UnknownKey <$> unknown_keys f | None => [] end ++ final_warnings c' (set_devices ds s2))))).
  { intros fwd s2. change (set_rest dir (ingest_masked <$> fs) (forward_masked <$> fwd) (settings_masked s)) with (settings_masked s2).
    rewrite build_devices_masked. destruct (build_devices env s2 (parse_ifaces sugar) tables) as [ds|]; [|done].
    cbn [result_map resolved_masked settings warnings]. f_equal. unfold resolved_masked. cbn [settings warnings]. f_equal. do 2 f_equal.
    unfold final_warnings, s2. cbn. destruct fwd as [f|]; cbn; rewrite ?is_empty_mask; by destruct fs. }
  destruct (s_forward s) as [f|].
  - cbn [fmap option_fmap option_map]. rewrite finish_forward_masked. destruct (finish_forward env ui f) as [f'|]; [|done].
    cbn [result_map]. exact (Hgo (Some f')).
  - exact (Hgo None).
Qed.

Lemma check_start_masked linux s : check_start linux (settings_masked s) = check_start linux s.
Proof. unfold check_start. cbn. by destruct (s_ingest s), (s_forward s). Qed.
Lemma resolve_at_start_masked linux c file path loaded env :
  resolve_at_start linux (cli_masked c) (file_masked <$> file) path (result_map ui_masked loaded) (env_masked env) =
  result_map (λ '(r, u), (resolved_masked r, ui_masked u)) (resolve_at_start linux c file path loaded env).
Proof.
  unfold resolve_at_start. pose proof (λ ui, resolve_masked c file ui env) as Hres.
  set (l := match path with Some _ => loaded | None => Ok ui_default end).
  assert (Hl : match path with None => Ok ui_default | Some _ => result_map ui_masked loaded end = result_map ui_masked l)
    by by destruct path.
  rewrite Hl. clearbody l. destruct l as [u|why]; cbn [result_map].
  2:{ pose proof (Hres None) as Hn. cbn [fmap option_fmap option_map] in Hn. rewrite Hn. by destruct (resolve c file None env). }
  pose proof (Hres (Some u)) as Hu. pose proof (Hres None) as Hn. cbn [fmap option_fmap option_map] in Hu, Hn. rewrite Hu, Hn.
  destruct (resolve c file (Some u) env) as [r|e]; cbn [result_map resolved_masked settings].
  - rewrite check_start_masked. destruct (check_start linux (settings r)); [done|].
    destruct (resolve c file None env) as [r0|]; [|done]. cbn [result_map resolved_masked settings]. rewrite check_start_masked.
    by destruct (is_ok (check_start linux (settings r0))).
  - destruct (resolve c file None env) as [r0|]; [|done]. cbn [result_map resolved_masked settings]. rewrite check_start_masked.
    by destruct (is_ok (check_start linux (settings r0))).
Qed.
End Masked.

(** *** What is said of it *)

Section Hidden.
Context `{ReportLaws} `{UiLib}.

Definition full (o : option string) : bool := match o with Some l => negb (is_empty_str l) | None => false end.
Lemma full_mask o : full (mask <$> o) = full o.
Proof. destruct o; [|done]. cbn. by rewrite is_empty_mask. Qed.

Lemma secret_source_full field var a a' b b' c c' d d' :
  full a = full a' → full b = full b' → full c = full c' → full d = full d' →
  secret_source field var a b c d = secret_source field var a' b' c' d'.
Proof.
  unfold secret_source. intros Ha Hb Hc Hd.
  fold (full a) (full a') (full b) (full b') (full c) (full c') (full d) (full d'). by rewrite Ha, Hb, Hc, Hd.
Qed.
Lemma sources_masked c file ui env :
  sources (cli_masked c) (file_masked <$> file) (ui_masked ui) (env_masked env) = sources c file ui env.
Proof.
  unfold sources. f_equal; [by destruct file|].
  apply (f_equal2 (λ a b, [("forward.api_key", a); ("ingest.token", b)])); apply secret_source_full;
    destruct file; cbn [fmap option_fmap option_map mbind option_bind file_masked forward ingest fw_api_key ing_token];
    first [done | apply full_mask].
Qed.

Lemma listing_masked c file ui env s :
  listing (cli_masked c) (file_masked <$> file) (ui_masked ui) (env_masked env) (settings_masked s) = listing c file ui env s.
Proof.
  unfold listing. rewrite sources_masked.
  assert (Hv : scalar_values (file_masked <$> file) (beneath (ui_masked ui) (cli_masked c)) = scalar_values file (beneath ui c))
    by by destruct file.
  rewrite Hv. cbn [settings_masked s_forward s_ingest devices log_level_]. by destruct (s_forward s), (s_ingest s).
Qed.

Lemma status_masked version ws b s v : status version ws b (settings_masked s) v = status version ws b s v.
Proof. unfold status. cbn [settings_masked s_forward s_ingest devices host port]. by destruct (s_forward s), (s_ingest s). Qed.

Lemma secret_row_masked a (dflt : string) :
  (if is_empty_str (mask a) then dflt else secret_str (mask a)) = (if is_empty_str a then dflt else secret_str a).
Proof. destruct a; [done|]. by apply secret_redacted. Qed.

Lemma rows_masked cats s : rows cats (settings_masked s) = rows cats s.
Proof.
  unfold rows.
  assert (Hdb : databases (settings_masked s) = databases s).
  { unfold databases. rewrite default_database_masked. cbn [settings_masked s_ingest devices]. by destruct (s_ingest s). }
  assert (Hc : ∀ f many db, cache_row (forward_masked f) many db = cache_row f many db).
  { intros f many db. unfold cache_row, for_database. cbn [forward_masked set_key f_database]. by destruct (str_eqb db _). }
  apply f_equal2; [|apply f_equal2; [done|apply f_equal2; [|apply f_equal2; [done|]]]].
  - unfold device_rows. cbn [settings_masked s_forward devices]. by destruct (s_forward s).
  - unfold ingest_rows. cbn [settings_masked s_ingest]. destruct (s_ingest s) as [i|]; [|done].
    cbn [fmap option_fmap option_map ingest_masked set_token i_token i_host i_port i_max_batch_frames i_keepalive_secs].
    by rewrite secret_row_masked.
  - unfold forward_rows. rewrite Hdb. cbn [settings_masked s_forward]. destruct (s_forward s) as [f|]; [|done].
    cbn [fmap option_fmap option_map]. rewrite (list_fmap_ext _ (cache_row f (1 <? length (databases s))%nat) (databases s))
      by (intros; apply Hc).
    cbn [forward_masked set_key f_api_key f_host f_port f_database f_daemon_id f_batching]. by rewrite secret_row_masked.
Qed.
Lemma report_masked cats s : report cats (settings_masked s) = report cats s.
Proof. unfold report. by rewrite rows_masked. Qed.

(** *** Files that differ in secrets *)

(** Two results that are the same error, or values that differ in secrets. *)
Definition like {E A} (m : A → A) (r r' : result E A) : Prop := result_map m r = result_map m r'.

Lemma like_inv {E A} (m : A → A) (r r' : result E A) :
  like m r r' → match r, r' with Ok a, Ok a' => m a = m a' | Err e, Err e' => e = e' | _, _ => False end.
Proof.
  unfold like. destruct r as [a|e], r' as [a'|e']; cbn; try done; [|by intros [= ->]].
  intros Hl. exact (f_equal (λ r : result E A, match r with Ok x => x | Err _ => m a end) Hl).
Qed.

(** Config files that are read alike. *)
Definition config_like (f f' : FileRead) : Prop :=
  ∀ path, like (fmap file_masked : option FileConfig → option FileConfig) (config_load path f) (config_load path f').

(** [ui.toml]s that are both absent, unreadable for the same reason, read alike,
    or refused on the same line with the same message. What is on the line is
    free. *)
Definition line_of (span : option nat) (text : string) : option nat := (λ n, newlines n text) <$> span.
Definition ui_like (f f' : FileRead) : Prop :=
  match f, f' with
  | Missing, Missing => True
  | Unreadable e, Unreadable e' => e = e'
  | Text t, Text t' =>
      match toml_from_str t, toml_from_str t' with
      | Ok u, Ok u' => ui_masked u = ui_masked u'
      | Err (span, m), Err (span', m') => line_of span t = line_of span' t' ∧ m = m'
      | _, _ => False
      end
  | _, _ => False
  end.

Lemma load_like path f f' : ui_like f f' → like ui_masked (load path f) (load path f').
Proof.
  unfold ui_like, like, load. destruct f as [t| |e], f' as [t'| |e']; try done; [|by intros ->].
  destruct (toml_from_str t) as [u|[sp m]], (toml_from_str t') as [u'|[sp' m']]; try done; cbn.
  - by intros ->.
  - intros [Hl ->]. destruct sp, sp'; try done. cbn in Hl. by injection Hl as ->.
Qed.
Lemma loaded_or_default_like path f f' : ui_like f f' → ui_masked (loaded_or_default path f) = ui_masked (loaded_or_default path f').
Proof.
  intros Hl%(load_like path)%like_inv. unfold loaded_or_default. by destruct (load path f), (load path f').
Qed.
(** *** A change *)

(** A document's slot as it is before a change: the same in both, or a secret. *)
Definition slot_like (k : string) (j j' : Json) : Prop :=
  j = j' ∨ (k ∈ SECRETS ∧ ∃ a b, mask a = mask b ∧ j = JStr a ∧ j' = JStr b).

Lemma opt_str_like (a b : option string) k : k ∈ SECRETS → mask <$> a = mask <$> b → slot_like k (opt_to JStr a) (opt_to JStr b).
Proof.
  intros Hk Hm. destruct a as [a|], b as [b|]; try done; [|by left].
  right. split; [done|]. exists a, b. cbn in Hm. by injection Hm.
Qed.
Lemma ui_setting_like u u' k : ui_masked u = ui_masked u' → k ∈ ui_keys → slot_like k (ui_setting k u) (ui_setting k u').
Proof.
  intros Hm Hk. destruct u as [ds [en ho po ak db bs fi qs cm qf] [ie ip it] [ll]], u' as [ds' [en' ho' po' ak' db' bs' fi' qs' cm' qf'] [ie' ip' it'] [ll']].
  unfold ui_masked in Hm. cbn in Hm. injection Hm as -> -> -> -> Hak -> -> -> -> -> -> -> -> Hit ->.
  unfold ui_keys in Hk. cbn in Hk.
  repeat (apply elem_of_cons in Hk as [->|Hk]; [first [by left | by apply opt_str_like; [set_solver|]]|]).
  by apply not_elem_of_nil in Hk.
Qed.
Lemma set_slots_like put k : ∀ s s', slot_like k (s k) (s' k) → slot_like k (set_slots put s k) (set_slots put s' k).
Proof.
  induction put as [|[k' v] put IH]; intros s s' Hs; [done|]. apply (IH (set_slot k' v s) (set_slot k' v s')).
  unfold set_slot. destruct (str_eqb k k'); [by left|done].
Qed.

Lemma opt_of_slot {A} (d : Decode A) k j j' : k ∉ SECRETS → slot_like k j j' → opt_of d j = opt_of d j'.
Proof. by intros Hk [->|[? _]]. Qed.
Lemma opt_of_secret k j j' : slot_like k j j' → like (fmap mask : option string → option string) (opt_of str_of j) (opt_of str_of j').
Proof. intros [->|(_ & a & b & Hm & -> & ->)]; [done|]. unfold like. cbn. by rewrite Hm. Qed.

Ltac key_in := apply (bool_decide_unpack _); vm_compute; exact I.

Lemma from_value_like s s' :
  (∀ k, k ∈ ui_keys → slot_like k (s k) (s' k)) → like ui_masked (from_value (doc_of s)) (from_value (doc_of s')).
Proof.
  intros Hs. rewrite !from_value_doc.
  assert (Hk : ∀ k A (d : Decode A), k ∈ ui_keys → k ∉ SECRETS → opt_of d (s k) = opt_of d (s' k)).
  { intros k A d Hk Hn. by eapply opt_of_slot, Hs. }
  assert (Hsec : ∀ k, k ∈ ui_keys → like (fmap mask : option string → option string) (opt_of str_of (s k)) (opt_of str_of (s' k))).
  { intros k Hin. by eapply opt_of_secret, Hs. }
  pose proof (like_inv _ _ _ (Hsec "forward.api_key" ltac:(key_in))) as Hak.
  pose proof (like_inv _ _ _ (Hsec "ingest.token" ltac:(key_in))) as Hit. clear Hsec.
  repeat match goal with |- context[opt_of ?d (s ?k)] =>
    lazymatch k with "forward.api_key" => fail | "ingest.token" => fail
    | _ => rewrite (Hk k _ d) by key_in end end.
  clear Hk. unfold like.
  repeat match goal with
  | |- context[match opt_of ?d (s' ?k) with _ => _ end] =>
      lazymatch k with "forward.api_key" => fail | "ingest.token" => fail
      | _ => destruct (opt_of d (s' k)); [|reflexivity] end
  | |- context[match opt_of ?d (s ?k) with _ => _ end] =>
      destruct (opt_of d (s k)), (opt_of d (s' k)); try done; [|cbn; by f_equal]
  end.
  cbn. unfold ui_masked. cbn. by rewrite Hak, Hit.
Qed.
Lemma merge_like u u' put :
  ui_masked u = ui_masked u' → Forall (λ x, x.1 ∈ ui_keys) put → like ui_masked (merge u put) (merge u' put).
Proof.
  intros Hm Hks. unfold merge. rewrite !to_value_doc, !merge_slots_doc by done.
  pose proof (from_value_like (set_slots put (λ k, ui_setting k u)) (set_slots put (λ k, ui_setting k u'))
    (λ k Hk, set_slots_like put k _ _ (ui_setting_like u u' k Hm Hk))) as Hl%like_inv.
  unfold like. destruct (from_value _), (from_value _); cbn; try done; by rewrite Hl.
Qed.

Lemma resolve_like c c' file file' ui ui' env env' :
  cli_masked c = cli_masked c' → file_masked <$> file = file_masked <$> file' → ui_masked <$> ui = ui_masked <$> ui' →
  env_masked env = env_masked env' → like resolved_masked (resolve c file ui env) (resolve c' file' ui' env').
Proof. intros Hc Hf Hu He. unfold like. rewrite <- !resolve_masked. by rewrite Hc, Hf, Hu, He. Qed.

(** What a change meets on two such hosts, and what it changes in two such
    processes. *)
Definition named_like (x x' : option (string * FileRead)) : Prop :=
  match x, x' with
  | Some (p, f), Some (p', f') => p = p' ∧ config_like f f'
  | None, None => True
  | _, _ => False
  end.
Definition host_like (h h' : Host) : Prop :=
  h_linux h = h_linux h' ∧ h_bind h = h_bind h' ∧ h_write h = h_write h' ∧ env_masked (h_env h) = env_masked (h_env h') ∧
  named_like (h_config h) (h_config h').

Lemma named_path x x' : named_like x x' → fst <$> x = fst <$> x'.
Proof. destruct x as [[p f]|], x' as [[p' f']|]; try done. cbn. by intros [-> _]. Qed.
Definition named_file (x : option (string * FileRead)) : result SettingsError (option FileConfig) :=
  match x with Some (path, f) => config_load path f | None => Ok None end.
Lemma named_file_like x x' :
  named_like x x' → like (fmap file_masked : option FileConfig → option FileConfig) (named_file x) (named_file x').
Proof. destruct x as [[p f]|], x' as [[p' f']|]; try done. cbn. by intros [-> Hf]. Qed.

Lemma bind_check_masked h running s :
  bind_check h (settings_masked running) (settings_masked s) = bind_check h running s.
Proof. unfold bind_check. cbn. destruct (s_ingest s); [|done]. by destruct (s_ingest running). Qed.
Lemma bind_check_like h h' running running' s s' :
  h_bind h = h_bind h' → settings_masked running = settings_masked running' → settings_masked s = settings_masked s' →
  bind_check h running s = bind_check h' running' s'.
Proof.
  intros Hb Hr Hs. rewrite <- (bind_check_masked h running s), <- (bind_check_masked h' running' s'), Hr, Hs.
  unfold bind_check. by rewrite Hb.
Qed.

Lemma find_key_None (put : Obj) :
  find (λ '(k, _), negb (existsb (str_eqb k) ui_keys)) put = None → Forall (λ x, x.1 ∈ ui_keys) put.
Proof.
  intros Hf. apply Forall_forall. intros [k v] Hin. apply list_elem_of_In in Hin. pose proof (find_none _ _ Hf _ Hin) as Hn.
  cbn beta iota in Hn. apply negb_false_iff, existsb_exists in Hn as (k' & Hk' & He). apply str_eqb_eq in He as ->. by apply list_elem_of_In.
Qed.

Lemma sources_like c c' file file' u u' env env' :
  cli_masked c = cli_masked c' → file_masked <$> file = file_masked <$> file' → ui_masked u = ui_masked u' →
  env_masked env = env_masked env' → sources c file u env = sources c' file' u' env'.
Proof.
  intros Hc Hf Hu He. rewrite <- (sources_masked c file u env), <- (sources_masked c' file' u' env'). by rewrite Hc, Hf, Hu, He.
Qed.

Lemma validate_like c c' path h h' running running' body old old' :
  cli_masked c = cli_masked c' → host_like h h' → settings_masked running = settings_masked running' → ui_like old old' →
  like (prod_map (λ p, p) ui_masked) (validate c path h running body old) (validate c' path h' running' body old').
Proof.
  intros Hc (Hlin & Hbind & _ & Henv & Hcfg) Hrun Hold. unfold validate. destruct path as [path|]; [|done]. cbn [ok_or].
  destruct (json_from_slice body) as [put|]; [|done]. cbn [map_err]. destruct put as [|x put0]; [done|].
  set (put := x :: put0). clearbody put. destruct (find (λ '(k, _), _) put) as [[k v]|] eqn:Hfind; [done|].
  apply find_key_None in Hfind. pose proof (like_inv _ _ _ (named_file_like _ _ Hcfg)) as Hfile.
  unfold host_file. fold (named_file (h_config h)) (named_file (h_config h')).
  destruct (named_file (h_config h)) as [file|e], (named_file (h_config h')) as [file'|e']; try done; [|by rewrite Hfile].
  cbn [map_err]. fold (loaded_or_default path old) (loaded_or_default path old').
  pose proof (like_inv _ _ _ (merge_like _ _ put (loaded_or_default_like path _ _ Hold) Hfind)) as Hm.
  destruct (merge _ put) as [next|e], (merge _ put) as [next'|e']; try done; [|by rewrite Hm]. cbn [map_err].
  rewrite (sources_like _ _ _ _ _ _ _ _ Hc Hfile Hm Henv), (named_path _ _ Hcfg), Hlin.
  destruct (pinned_key _ put) as [[key source]|]; [done|].
  destruct (match obj_get "devices" put with Some JNull => _ | _ => _ end); [|done].
  pose proof (like_inv _ _ _ (resolve_like _ _ _ _ (Some next) (Some next') _ _ Hc Hfile (f_equal Some Hm) Henv)) as Hr.
  destruct (resolve c file _ _) as [r|e], (resolve c' file' _ _) as [r'|e']; try done; [|by rewrite Hr]. cbn [map_err].
  assert (Hs : settings_masked (settings r) = settings_masked (settings r')) by exact (f_equal settings Hr).
  rewrite <- (check_start_masked _ (settings r)), <- (check_start_masked _ (settings r')), Hs.
  destruct (check_start (h_linux h') _); [|done]. cbn [map_err].
  rewrite (bind_check_like h h' running running' (settings r) (settings r')) by done.
  destruct (bind_check h' running' (settings r')); [|done]. unfold like. cbn. by rewrite Hm.
Qed.
End Hidden.

(** *** Every answer *)

(** Whether [ui.toml] can be written, and what is said if not, does not depend
    on what a secret is. *)
Class WriteLaws `{UiLib} : Prop := {
  toml_writes : ∀ u u', ui_masked u = ui_masked u' → like (λ _, EmptyString) (toml_to_string u) (toml_to_string u')
}.

Section Answers.
Context `{ReportLaws} `{UiLaws} `{!WriteLaws}.

Definition state_like (st st' : State) : Prop :=
  applying st = applying st' ∧ in_flight st = in_flight st' ∧ answers st = answers st' ∧ ui_like (ui_toml st) (ui_toml st').
Definition started_like (c c' : Started) : Prop :=
  cli_masked (c_cli c) = cli_masked (c_cli c') ∧ c_config c = c_config c' ∧ c_path c = c_path c' ∧
  c_version c = c_version c' ∧ settings_masked (c_settings c) = settings_masked (c_settings c') ∧
  c_listing c = c_listing c' ∧ c_warnings c = c_warnings c'.
Definition event_like (ev ev' : Event) : Prop :=
  match ev, ev' with
  | Request m path body v, Request m' path' body' v' => ev = ev'
  | PutEnds h, PutEnds h' => host_like h h'
  | _, _ => False
  end.

Lemma write_like o u u' old old' :
  ui_masked u = ui_masked u' → ui_like old old' →
  (write o u old).1 = (write o u' old').1 ∧ ui_like (write o u old).2 (write o u' old').2.
Proof.
  intros Hu Ho. unfold write. pose proof (like_inv _ _ _ (toml_writes _ _ Hu)) as Ht.
  destruct (toml_to_string u) as [t|e] eqn:E, (toml_to_string u') as [t'|e'] eqn:E'; try done; [|by rewrite Ht].
  destruct o; [|done]. split; [done|]. unfold ui_like. cbn. by rewrite (toml_round_trip _ _ E), (toml_round_trip _ _ E').
Qed.

Lemma apply_like c c' path h h' running running' body old old' :
  cli_masked c = cli_masked c' → host_like h h' → settings_masked running = settings_masked running' → ui_like old old' →
  (apply c path h running body old).1 = (apply c' path h' running' body old').1 ∧
  ui_like (apply c path h running body old).2 (apply c' path h' running' body old').2.
Proof.
  intros Hc Hh Hr Ho. pose proof (like_inv _ _ _ (validate_like c c' path h h' running running' body old old' Hc Hh Hr Ho)) as Hv.
  unfold apply. destruct Hh as (_ & _ & Hw & _). rewrite Hw.
  destruct (validate c path h running body old) as [[p u]|a], (validate c' path h' running' body old') as [[p' u']|a']; try done;
    [|by rewrite Hv].
  assert (p = p') as -> by exact (f_equal fst Hv). assert (Hu : ui_masked u = ui_masked u') by exact (f_equal snd Hv).
  destruct (write_like (h_write h') u u' old old' Hu Ho) as [H1' H2'].
  destruct (write (h_write h') u old), (write (h_write h') u' old'). cbn in *. by rewrite H1'.
Qed.

Lemma handle_like c c' st st' ev ev' :
  started_like c c' → state_like st st' → event_like ev ev' → state_like (handle c st ev) (handle c' st' ev').
Proof.
  intros (Hcli & Hcfg & Hpath & Hver & Hset & Hlist & Hwarn) (Hap & Hfl & Hans & Hui) Hev.
  destruct ev as [m path body v|h], ev' as [m' path' body' v'|h']; try done; cbn [event_like] in Hev; unfold handle.
  - injection Hev as -> -> -> ->.
    rewrite <- (status_masked _ _ _ (c_settings c)), <- (status_masked _ _ _ (c_settings c')), Hver, Hwarn, Hap, Hset, Hcfg, Hlist.
    assert (Ha : ∀ a, state_like (answer a st) (answer a st')) by (intros a; unfold answer; split_and!; cbn; congruence || done).
    destruct (str_eqb path' "/v1/status"); [by destruct m'|]. destruct (str_eqb path' "/v1/settings"); [|done].
    destruct m'; try done. destruct body' as [b|]; [|done]. destruct (applying st'); [done|]. by split_and!.
  - rewrite Hfl, Hpath. destruct (in_flight st') as [body|] eqn:Hfl'; [|unfold state_like; by rewrite Hfl, Hfl'].
    destruct (apply_like (c_cli c) (c_cli c') (c_path c') h h' (c_settings c) (c_settings c') body _ _ Hcli Hev Hset Hui) as [H1' H2'].
    destruct (apply (c_cli c) _ _ _ _ _) as [r f], (apply (c_cli c') _ _ _ _ _) as [r' f']. cbn in H1', H2'. subst r'.
    destruct r; unfold answer; split_and!; cbn; congruence || done.
Qed.

Lemma handles_like c c' evs evs' : started_like c c' → Forall2 event_like evs evs' → ∀ st st',
  state_like st st' → state_like (foldl (handle c) st evs) (foldl (handle c') st' evs').
Proof. intros Hc. induction 1 as [|ev ev' evs evs' He Hes IH]; intros st st' Hst; [done|]. cbn. by apply IH, handle_like. Qed.

Lemma start_up_like version linux c c' config config' f f' env env' :
  cli_masked c = cli_masked c' → env_masked env = env_masked env' → named_like config config' → ui_like f f' →
  match start_up version linux c config f env, start_up version linux c' config' f' env' with
  | Ok s, Ok s' => started_like s s'
  | Err e, Err e' => e = e'
  | _, _ => False
  end.
Proof.
  intros Hc He Hn Hf. unfold start_up. fold (named_file config) (named_file config').
  pose proof (like_inv _ _ _ (named_file_like _ _ Hn)) as Hfile.
  destruct (named_file config) as [file|e], (named_file config') as [file'|e']; try done.
  assert (Hp : ui_path c env = ui_path c' env').
  { change (ui_path (cli_masked c) (env_masked env) = ui_path c' env'). by rewrite Hc, He. }
  rewrite Hp. set (path := ui_path c' env').
  set (l := match path with Some u => load u f | None => Ok ui_default end).
  set (l' := match path with Some u => load u f' | None => Ok ui_default end).
  assert (Hl : like ui_masked l l') by (unfold l, l'; destruct path as [p|]; [by apply load_like|done]).
  assert (Hr : like (λ '(r, u), (resolved_masked r, ui_masked u)) (resolve_at_start linux c file path l env)
    (resolve_at_start linux c' file' path l' env')).
  { unfold like. rewrite <- !resolve_at_start_masked. unfold like in Hl. by rewrite Hc, Hfile, He, Hl. }
  apply like_inv in Hr.
  destruct (resolve_at_start linux c file path l env) as [[r u]|e], (resolve_at_start linux c' file' path l' env') as [[r' u']|e']; try done.
  assert (Hu : ui_masked u = ui_masked u') by exact (f_equal snd Hr).
  assert (Hs : settings_masked (settings r) = settings_masked (settings r')) by exact (f_equal (λ x, settings x.1) Hr).
  assert (Hw : warnings r = warnings r') by exact (f_equal (λ x, warnings x.1) Hr).
  unfold started_like. cbn [c_cli c_config c_path c_version c_settings c_listing c_warnings].
  assert (Hws : warning_str <$> warnings r = warning_str <$> warnings r') by (f_equal; exact Hw).
  split_and!; [done|by apply named_path|done|done|done| |exact Hws].
  rewrite <- (listing_masked c), <- (listing_masked c'). by rewrite Hc, Hfile, Hu, He, Hs.
Qed.

(** C30: nothing the daemon says about itself depends on a secret beyond whether
    it is set. Take two hosts that differ in nothing but the keys and tokens on the
    command line, in the environment, in the config file and in [ui.toml], each
    set, set but empty, or absent in the same places, and whose [ui.toml] may be
    broken, on the same line with the same message and anything on that line.
    Both refuse to start for the same reason, or both start with the same
    warnings, rows and [--check-config] report and answer every sequence of
    requests to the control socket alike to the byte: both [GET]s, and each
    change, whatever refuses it, as long as the config file it meets is read
    alike too. *)
Theorem answers_hide_secrets version linux c c' config config' f f' env env' :
  cli_masked c = cli_masked c' → env_masked env = env_masked env' → named_like config config' → ui_like f f' →
  match start_up version linux c config f env, start_up version linux c' config' f' env' with
  | Ok s, Ok s' =>
      c_warnings s = c_warnings s' ∧
      (setting_row (c_config s) <$> c_listing s) = (setting_row (c_config s') <$> c_listing s') ∧
      (∀ cats, report cats (c_settings s) = report cats (c_settings s')) ∧
      (∀ g g' evs evs', ui_like g g' → Forall2 event_like evs evs' →
        answers (foldl (handle s) (state_new g) evs) = answers (foldl (handle s') (state_new g') evs'))
  | Err e, Err e' => e = e'
  | _, _ => False
  end.
Proof.
  intros Hc He Hn Hf. pose proof (start_up_like version linux c c' config config' f f' env env' Hc He Hn Hf) as Hs.
  destruct (start_up version linux c config f env) as [s|], (start_up version linux c' config' f' env') as [s'|]; try done.
  pose proof Hs as (_ & Hcfg & _ & _ & Hset & Hlist & Hwarn). split_and!; [done|by rewrite Hcfg, Hlist| |].
  - intros cats. rewrite <- (report_masked cats (c_settings s)), <- (report_masked cats (c_settings s')). by rewrite Hset.
  - intros g g' evs evs' Hg Hev. apply (handles_like s s' evs evs' Hs Hev). by split_and!.
Qed.
End Answers.

Module Shown.
Import (hints) Catalogues.Bench SettingsProofs.Site Control.Desk.

#[export] Instance displays : ReportLib := {
  line_str _ := "9600 8N1";
  vendor_functions _ := [];
  f64_str _ := "1";
  secret_str s := if is_empty_str s then EmptyString else "[redacted]"
}.
#[export] Instance redacts : ReportLaws.
Proof. constructor. intros a b Ha Hb. cbn. by rewrite Ha, Hb. Qed.

Lemma layer_masked u : ui_masked u = ui_masked Desk.layer → u = Desk.layer.
Proof.
  destruct u as [ds [en ho po ak db bs fi qs cm qf] [ie ip it] [ll]]. unfold ui_masked, Desk.layer. cbn.
  intros [= -> -> -> -> Hak -> -> -> -> -> -> -> -> Hit ->]. by destruct ak, it.
Qed.
#[export] Instance writes : WriteLaws.
Proof.
  constructor. intros u u' Hm. unfold like. cbn [toml_to_string Desk.syntaxes].
  case_bool_decide as Hu; case_bool_decide as Hu'; try done.
  - subst u. by rewrite (layer_masked u') in Hu'.
  - subst u'. by rewrite (layer_masked u) in Hu.
Qed.

(** A host whose key and token are [k], and whose [ui.toml] breaks on the line
    that holds it. *)
Definition env (k : string) : Env :=
  MkEnv (Some k) (Some k) None (Some "/var/lib/wiretap-server") None (Some "bench") (λ _, false) (λ _, Err "not found").
Definition config : option (string * FileRead) := Some ("/etc/wiretap-server.toml", Text "x").
Definition ui_text (k : string) : FileRead := Text ("token = " +:+ k).
Definition start_with (k : string) : result SettingsError Started :=
  start_up "1" true cli_default config (ui_text k) (env k).
Definition events (k : string) : list Event :=
  [Request GET "/v1/settings" (Ok []) Desk.view; Request GET "/v1/status" (Ok []) Desk.view;
   Request PUT "/v1/settings" (Ok [1]) Desk.view; PutEnds (MkHost true config (env k) (λ _ _, Ok ()) (Ok ()))].

Lemma answers_hide_secrets_witness :
  match start_with "one", start_with "another" with
  | Ok s, Ok s' =>
      c_warnings s = c_warnings s' ∧
      answers (foldl (handle s) (state_new (ui_text "one")) (events "one")) =
      answers (foldl (handle s') (state_new (ui_text "another")) (events "another"))
  | _, _ => False
  end.
Proof.
  assert (H1 : is_ok (start_with "one") = true) by (vm_compute; reflexivity).
  pose proof (answers_hide_secrets "1" true cli_default cli_default config config (ui_text "one") (ui_text "another")
    (env "one") (env "another") eq_refl eq_refl (conj eq_refl (λ p, eq_refl)) (conj eq_refl eq_refl)) as Hx.
  unfold start_with in *. destruct (start_up "1" true cli_default config (ui_text "one") (env "one")) as [s|]; [|discriminate H1].
  destruct (start_up "1" true cli_default config (ui_text "another") (env "another")) as [s'|]; [|exact Hx].
  destruct Hx as (Hw & _ & _ & Ha). split; [exact Hw|]. apply Ha; [exact (conj eq_refl eq_refl)|].
  unfold events. constructor; [reflexivity|]. constructor; [reflexivity|]. constructor; [reflexivity|].
  constructor; [|constructor]. split; [reflexivity|]. split; [reflexivity|]. split; [reflexivity|].
  split; [reflexivity|]. exact (conj eq_refl (λ p, eq_refl)).
Defined.
End Shown.
