(* ===== verification/Capture.v ===== *)
(** * From the devices to the queue and the broadcast

    [pipeline.rs] ([read_loop], [publish], [transmit_loop]), [source/serial_tap.rs],
    [source/modbus.rs], [source/raw.rs], [source/socketcan.rs] and
    [testpattern.rs]. A CAN interface and a serial line are read event by event;
    what is read goes to the archive's queue and, but for the daemon's own
    transmits, to a broadcast that GVRET clients, the console and the Test
    Pattern responder listen to. A clock, a bitrate or a catalogue read along
    the way comes with the event. *)

From S2P Require Import Prelude F64 Model Source Wire Cache Archive Cidr Catalogues Settings Ui.
Import Sample Source.Status.
Local Open Scope Z_scope.

(** ** [tokio::sync::broadcast] *)

Definition FRAME_BACKLOG : nat := 1024.
Definition TRANSMIT_QUEUE : nat := 64.

(** Everything ever sent, how much of it is kept for a receiver that is behind,
    and whether a sender is left. A receiver is its position. *)
Record Channel := MkChannel { sent : list Sample; backlog : nat; open : bool }.

Inductive Received := RFrame (s : Sample) | RLagged (n : nat) | REmpty | RClosed.

Definition send_frame (s : Sample) (ch : Channel) : Channel :=
  MkChannel (sent ch ++ [s]) (backlog ch) (open ch).

Definition try_recv_frame (ch : Channel) (pos : nat) : Received * nat :=
  if (backlog ch <? length (sent ch) - pos)%nat
  then (RLagged (length (sent ch) - backlog ch - pos), (length (sent ch) - backlog ch)%nat)
  else match sent ch !! pos with
       | Some s => (RFrame s, S pos)
       | None => (if open ch then REmpty else RClosed, pos)
       end.

(** ** [publish] *)

(** What the readers share: the archive of each stream, and the broadcast. *)
Definition publish (now : Z) (s : Sample) (archive : option Producer) (frames : Channel) :
    option Producer * Channel :=
  (enqueue now s <$> archive, send_frame s frames).

(** ** A CAN interface *)

Inductive CanError := CeClosed | CeRead (network_down : bool) (text : string) | CeOther (text : string).
Definition can_error_str (e : CanError) : string :=
  match e with CeClosed => "closed" | CeRead _ t | CeOther t => t end.

(** [socketcan.rs] [loss]. *)
Definition loss (e : CanError) : string :=
  match e with
  | CeClosed => "interface is gone; reopening it by name"
  | CeRead true _ => "interface is down; capture resumes once it is up"
  | other => can_error_str other
  end.

(** [socketcan.rs] [bitrates], of netlink's answer. *)
Definition bitrates (answer : option (option Z * option Z)) : Bitrates :=
  match answer with None => FALLBACK | Some (nominal, data) => reported nominal data end.

Section CanReader.
Context `{CanLib}.

(** A read: the frame, whether this socket sent it, and when. *)
Record CanRead := MkCanRead { cr_frame : CanFrame; cr_own : bool; cr_at : SystemTime }.

Inductive CanEvent :=
  | CanConnected
  | CanReads (reads : list CanRead)
  | CanDisconnected (error : CanError) (consecutive : Z)
  | CanOther.

Inductive LogLine :=
  | LReopened (opened : bool)
  | LReadingAgain
  | LLost (why : string)
  | LWaitingFor (why : string).

Record Reader := MkReader {
  r_status : DeviceStatus;
  r_opened : bool;
  r_reopening : bool;
  r_lost : bool;
  r_rate_stale : bool;
  r_speed : Z;
  r_archive : option Producer;
  r_frames : Channel;
  r_log : list LogLine
}.

Definition set_r_io (a : option Producer) (f : Channel) (r : Reader) : Reader :=
  MkReader (r_status r) (r_opened r) (r_reopening r) (r_lost r) (r_rate_stale r) (r_speed r) a f (r_log r).

(** One read of [read_loop]'s inner loop. *)
Definition take_read (now : Z) (bus : SourceId) (dir : Direction) (r : Reader) (read : CanRead) : Reader :=
  let sample := Can (socketcan_sample (cr_frame read) (cr_own read) (cr_at read) bus dir) in
  if negb (cr_own read) then
    let '(a, f) := publish now sample (r_archive r) (r_frames r) in set_r_io a f r
  else set_r_io (enqueue now sample <$> r_archive r) (r_frames r) r.

(** [read_loop], one event; [rate] is what the kernel says when asked. *)
Definition read_step (bus : SourceId) (dir : Direction) (now : Z) (rate : option (option Z * option Z))
    (ev : CanEvent) (r : Reader) : Reader :=
  let speed := br_nominal (bitrates rate) in
  match ev with
  | CanConnected =>
      MkReader (up (r_status r)) true false (if r_reopening r then false else r_lost r) true speed
        (r_archive r) (r_frames r)
        (if r_reopening r then r_log r ++ [LReopened (r_opened r)] else r_log r)
  | CanReads reads =>
      let r := MkReader (read (up (r_status r)) (Z.of_nat (length reads))) (r_opened r) (r_reopening r) false false
                 (if r_rate_stale r then speed else r_speed r) (r_archive r) (r_frames r)
                 (if r_lost r then r_log r ++ [LReadingAgain] else r_log r) in
      foldl (take_read now bus dir) r reads
  | CanDisconnected error consecutive =>
      MkReader (lost (r_status r) (r_opened r)) (r_opened r)
        (match error with CeRead _ _ => false | _ => true end) true true (r_speed r)
        (r_archive r) (r_frames r)
        (if consecutive =? 1 then
           r_log r ++ [if r_opened r then LLost (loss error) else LWaitingFor (can_error_str error)]
         else r_log r)
  | CanOther => r
  end.

Definition CanInput : Type := Z * option (option Z * option Z) * CanEvent.
Definition read_loop (bus : SourceId) (dir : Direction) (evs : list CanInput) (r : Reader) : Reader :=
  foldl (λ r '(now, rate, ev), read_step bus dir now rate ev r) r evs.

(** Every read of a run, with the time it was taken. *)
Definition all_reads (evs : list CanInput) : list (Z * CanRead) :=
  evs ≫= λ '(now, _, ev), match ev with CanReads l => (now,.) <$> l | _ => [] end.
End CanReader.

(** ** A serial line *)

(** [wslib_modbus::RtuTap] and the protocol's [RawTap]. The raw tap gives back
    the bytes it was pushed, in chunks. *)
Class TapLib `{CatalogueLib} := {
  allow_broadcast : RtuOptions → RtuOptions;
  frame_any_function : RtuOptions → RtuOptions;
  tapped : RtuOptions;
  Rtu : Type;
  rtu_new : RtuOptions → Z → Z → Rtu;
  rtu_set_options : RtuOptions → Rtu → Rtu;
  rtu_push : list Z → SystemTime → Rtu → list (SystemTime * (Z * Z * bool * list Z)) * Rtu;
  rtu_reset : Rtu → Rtu;
  Raw : Type;
  raw_new : Z → Z → Raw;
  raw_push : list Z → SystemTime → Raw → list (SystemTime * Z * list Z) * Raw;
  raw_reset : Raw → Raw
}.
Class TapLaws `{TapLib} := {
  rtu_options : Rtu → RtuOptions;
  new_options : ∀ o b c, rtu_options (rtu_new o b c) = o;
  set_options : ∀ o t, rtu_options (rtu_set_options o t) = o;
  push_options : ∀ bytes at_ t, rtu_options (rtu_push bytes at_ t).2 = rtu_options t;
  reset_options : ∀ t, rtu_options (rtu_reset t) = rtu_options t;
  raw_lossless : ∀ bytes at_ t, (raw_push bytes at_ t).1 ≫= snd = bytes
}.

Section Serial.
Context `{TapLib}.

(** [modbus.rs] [options]. *)
Definition options (catalogue : option LineCatalogue) : RtuOptions :=
  match catalogue with
  | Some c => frame_any_function (allow_broadcast (lc_rtu c))
  | None => tapped
  end.

Definition rtu_samples (bus : SourceId) (bytes : list Z) (at_ : SystemTime) (t : Rtu) :
    list ModbusSample * Rtu :=
  let '(ms, t) := rtu_push bytes at_ t in
  ((λ '(at_, (unit, func, crc, raw)), MkModbus (system_time_to_us at_) bus unit func crc raw) <$> ms, t).

Definition raw_samples (bus : SourceId) (bytes : list Z) (at_ : SystemTime) (t : Raw) :
    list SerialSample * Raw :=
  let '(cs, t) := raw_push bytes at_ t in
  ((λ '(at_, seq, data), MkSerial (system_time_to_us at_) bus seq data) <$> cs, t).

(** A line's framer: its tap, how many changes of the line's rules it has seen,
    and the rules it follows. *)
Record Framed := MkFramed { f_tap : Rtu; f_seen : nat; f_current : Rules }.

Definition framed_new (baud bits : Z) (l : Line) : Framed :=
  MkFramed (rtu_new (options (rules_catalogue (l_rules l))) baud bits) (l_ticks l) (l_rules l).

(** [watch] is the line's channel, [None] once its sender is gone. *)
Definition follow (watch : option Line) (f : Framed) : Framed :=
  match watch with
  | None => f
  | Some l =>
      if (l_ticks l =? f_seen f)%nat then f
      else MkFramed (rtu_set_options (options (rules_catalogue (l_rules l))) (f_tap f)) (l_ticks l) (l_rules l)
  end.

Inductive SerialEvent :=
  | SConnected
  | SRead (bytes : list Z) (at_ : SystemTime)
  | SDisconnected (error : string) (consecutive : Z).

Record Tap := MkTap {
  t_status : DeviceStatus;
  t_opened : bool;
  t_lost : bool;
  t_framed : option Framed;
  t_raw : option Raw;
  t_framed_archive : option Producer;
  t_raw_archive : option Producer;
  t_frames : Channel;
  t_log : list LogLine
}.

(** [drain]'s [publish]: counted, then to the archive of its kind. *)
Definition tap_publish (now : Z) (t : Tap) (s : Sample) : Tap :=
  let status := read (t_status t) 1 in
  match s with
  | Serial _ =>
      let '(a, f) := publish now s (t_raw_archive t) (t_frames t) in
      MkTap status (t_opened t) (t_lost t) (t_framed t) (t_raw t) (t_framed_archive t) a f (t_log t)
  | _ =>
      let '(a, f) := publish now s (t_framed_archive t) (t_frames t) in
      MkTap status (t_opened t) (t_lost t) (t_framed t) (t_raw t) a (t_raw_archive t) f (t_log t)
  end.

Definition set_taps (f : option Framed) (r : option Raw) (t : Tap) : Tap :=
  MkTap (t_status t) (t_opened t) (t_lost t) f r (t_framed_archive t) (t_raw_archive t) (t_frames t) (t_log t).
Definition set_t_status (s : DeviceStatus) (t : Tap) : Tap :=
  MkTap s (t_opened t) (t_lost t) (t_framed t) (t_raw t) (t_framed_archive t) (t_raw_archive t) (t_frames t) (t_log t).

(** [drain] on a read: the raw tap first, then the framer, following its rules. *)
Definition push_raw (now : Z) (bus : SourceId) (bytes : list Z) (at_ : SystemTime) (t : Tap) : Tap :=
  match t_raw t with
  | None => t
  | Some raw =>
      let '(cs, raw) := raw_samples bus bytes at_ raw in
      foldl (tap_publish now) (set_taps (t_framed t) (Some raw) t) (Serial <$> cs)
  end.
Definition push_framed (now : Z) (bus : SourceId) (watch : option Line) (bytes : list Z) (at_ : SystemTime)
    (t : Tap) : Tap :=
  match t_framed t with
  | None => t
  | Some f =>
      let f := follow watch f in
      let '(ms, rtu) := rtu_samples bus bytes at_ (f_tap f) in
      foldl (tap_publish now) (set_taps (Some (MkFramed rtu (f_seen f) (f_current f))) (t_raw t) t) (Modbus <$> ms)
  end.

(** [drain], one event. *)
Definition drain_step (bus : SourceId) (now : Z) (watch : option Line) (ev : SerialEvent) (t : Tap) : Tap :=
  match ev with
  | SConnected =>
      MkTap (up (t_status t)) true false (t_framed t) (raw_reset <$> t_raw t)
        (t_framed_archive t) (t_raw_archive t) (t_frames t)
        (if t_lost t then t_log t ++ [LReopened (t_opened t)] else t_log t)
  | SRead bytes at_ =>
      push_framed now bus watch bytes at_ (push_raw now bus bytes at_ (set_t_status (up (t_status t)) t))
  | SDisconnected error consecutive =>
      MkTap (lost (t_status t) (t_opened t)) (t_opened t) true
        ((λ f, MkFramed (rtu_reset (f_tap f)) (f_seen f) (f_current f)) <$> t_framed t) (t_raw t)
        (t_framed_archive t) (t_raw_archive t) (t_frames t)
        (if consecutive =? 1 then t_log t ++ [if t_opened t then LLost error else LWaitingFor error] else t_log t)
  end.

Definition SerialInput : Type := Z * option Line * SerialEvent.
Definition drain (bus : SourceId) (evs : list SerialInput) (t : Tap) : Tap :=
  foldl (λ t '(now, watch, ev), drain_step bus now watch ev t) t evs.
End Serial.

(** ** The Test Pattern responder *)

Record TpReply := MkTpReply { rp_arb_id : Z; rp_extended : bool; rp_fd : bool; rp_data : list Z }.

Class TestPatternLib := {
  CAP_EXTENDED : Z;
  CAP_FD : Z;
  is_test_pattern_frame : Z → bool → bool;
  Responder : Type;
  responder_new : Z → Z → Responder;
  on_frame : Z → bool → bool → list Z → Z → Responder → list TpReply * Responder
}.

Section TestPattern.
Context `{TestPatternLib}.

Definition capabilities (can_fd : bool) : Z := Z.lor CAP_EXTENDED (if can_fd then CAP_FD else 0).

(** The frames a responder on [bus] passes to its state machine. *)
Definition heard (bus : SourceId) (s : Sample) : option CanSample :=
  match s with
  | Can c => if negb (can_bus c =? bus) || (match can_rtr c with Some _ => true | None => false end) ||
                negb (is_test_pattern_frame (can_arb_id c) (can_extended c))
             then None else Some c
  | _ => None
  end.

(** [responder_loop] on what it received: the replies, and whether it returned. *)
Fixpoint responder_run (bus : SourceId) (r : Responder) (rs : list Received) : list TpReply * bool :=
  match rs with
  | [] => ([], false)
  | RClosed :: _ => ([], true)
  | (RLagged _ | REmpty) :: rs => responder_run bus r rs
  | RFrame s :: rs =>
      match heard bus s with
      | None => responder_run bus r rs
      | Some c =>
          let '(replies, r) := on_frame (can_arb_id c) (can_extended c) (can_is_fd c) (can_data c)
                                 (Z.max (can_ts_us c) 0) r in
          let '(rest, fin) := responder_run bus r rs in (replies ++ rest, fin)
      end
  end.

Definition responder_loop (bus : SourceId) (can_fd : bool) (rs : list Received) : list TpReply * bool :=
  responder_run bus (responder_new (capabilities can_fd) bus) rs.
End TestPattern.

Section Warnings.
Context `{CatalogueLib} `{SettingsLib}.

Definition test_pattern_warnings (s : Settings) (tp : TestPattern) : list string :=
  let can := can_devices s in
  let named := filter_map (λ name,
    match find (λ d, str_eqb (d_interface d) name) can with
    | None => Some ("Test Pattern: no interface named " +:+ name +:+ " is being captured")
    | Some d => if bool_decide (d_mode d = Passive)
                then Some ("Test Pattern: " +:+ name +:+ " is passive, so it is not armed") else None
    end) (t_ifaces tp) in
  let armed := armed_indices s tp in
  named ++
  match armed with
  | [] => ["Test Pattern: enabled, but no configured interface matched; nothing is armed"]
  | _ =>
      ("Test Pattern responder ARMED on " +:+
         str_join "," (filter_map (λ i, d_interface <$> can !! i) armed) +:+ " — this transmits on the bus") ::
      (if any_fd s then [] else ["Test Pattern: no device has fd on, so only the classic sweep can be answered"])
  end.

(** [Live::new] and [Live::device]. *)
Definition live_devices (s : Settings) : list (string * DeviceStatus) :=
  (λ d, (d_interface d, status_default)) <$> devices s.
Definition live_device (interface : string) (l : list (string * DeviceStatus)) : option DeviceStatus :=
  snd <$> find (λ '(i, _), str_eqb i interface) l.
End Warnings.

(** ** What is read is what is published *)

(** The archive after frames were offered to it, each at its time. *)
Definition offered (l : list (Z * Sample)) (a : option Producer) : option Producer :=
  (λ p, foldl (λ p '(now, s), enqueue now s p) p l) <$> a.
Lemma offered_app l1 l2 a : offered (l1 ++ l2) a = offered l2 (offered l1 a).
Proof. destruct a as [p|]; [|done]. cbn. by rewrite foldl_app. Qed.
Lemma offered_nil a : offered [] a = a.
Proof. by destruct a. Qed.

Section CanFacts.
Context `{CanLib}.

Definition sample_of (bus : SourceId) (dir : Direction) (x : Z * CanRead) : Z * Sample :=
  (x.1, Can (socketcan_sample (cr_frame x.2) (cr_own x.2) (cr_at x.2) bus dir)).

(** What a run published, from where it started. *)
Definition published (bus : SourceId) (dir : Direction) (l : list (Z * CanRead)) (r r' : Reader) : Prop :=
  r_archive r' = offered (sample_of bus dir <$> l) (r_archive r) ∧
  sent (r_frames r') = sent (r_frames r) ++ (sample_of bus dir <$> filter (λ x, cr_own x.2 = false) l).*2 ∧
  backlog (r_frames r') = backlog (r_frames r) ∧ open (r_frames r') = open (r_frames r).

Lemma published_trans bus dir l1 l2 r1 r2 r3 :
  published bus dir l1 r1 r2 → published bus dir l2 r2 r3 → published bus dir (l1 ++ l2) r1 r3.
Proof.
  intros (Ha & Hs & Hb & Ho) (Ha' & Hs' & Hb' & Ho'). split_and!; [|..|congruence|congruence].
  - by rewrite Ha', Ha, fmap_app, offered_app.
  - by rewrite Hs', Hs, filter_app, !fmap_app, app_assoc.
Qed.

Lemma take_read_published now bus dir r x :
  published bus dir [(now, x)] r (take_read now bus dir r x) ∧ r_status (take_read now bus dir r x) = r_status r.
Proof.
  unfold take_read, published, publish, offered. destruct x as [f own at_]; cbn [cr_own cr_frame cr_at].
  rewrite filter_cons. cbn [snd cr_own].
  destruct own; cbn [negb]; [rewrite decide_False by done|rewrite decide_True by done]; cbn;
    rewrite ?app_nil_r; split_and!; done.
Qed.

Lemma take_reads_published now bus dir l : ∀ r,
  published bus dir ((now,.) <$> l) r (foldl (take_read now bus dir) r l) ∧
  r_status (foldl (take_read now bus dir) r l) = r_status r.
Proof.
  induction l as [|x l IH]; intros r; cbn [foldl fmap list_fmap].
  { split; [|done]. unfold published. cbn. rewrite offered_nil. cbn. by rewrite app_nil_r. }
  destruct (take_read_published now bus dir r x) as [H1 Hs1]. destruct (IH (take_read now bus dir r x)) as [H2 Hs2].
  split; [|congruence]. by apply (published_trans bus dir [(now, x)] _ _ _ _ H1 H2).
Qed.

Lemma read_step_published bus dir now rate ev r :
  published bus dir (all_reads [(now, rate, ev)]) r (read_step bus dir now rate ev r) ∧
  frames (r_status (read_step bus dir now rate ev r)) mod u64_modulus =
    (frames (r_status r) + Z.of_nat (length (all_reads [(now, rate, ev)]))) mod u64_modulus.
Proof.
  assert (Hnone : ∀ r' : Reader, r_archive r' = r_archive r → r_frames r' = r_frames r →
    published bus dir [] r r').
  { intros r' Ha Hf. unfold published. rewrite Ha, Hf. cbn. rewrite offered_nil. cbn. by rewrite app_nil_r. }
  unfold all_reads. destruct ev as [|reads|e k|]; cbn [mbind list_bind]; rewrite app_nil_r.
  - split; [by apply Hnone|]. cbn. by rewrite Z.add_0_r.
  - unfold read_step. set (r0 := MkReader _ _ _ _ _ _ _ _ _).
    destruct (take_reads_published now bus dir reads r0) as [Hp Hs]. split; [exact Hp|].
    rewrite Hs. cbn. rewrite length_fmap, Zmod_mod. by rewrite Zmod_mod || done.
  - split; [by apply Hnone|]. cbn. by rewrite Z.add_0_r.
  - split; [by apply Hnone|]. cbn. by rewrite Z.add_0_r.
Qed.

Lemma all_reads_cons (x : CanInput) evs : all_reads (x :: evs) = all_reads [x] ++ all_reads evs.
Proof. unfold all_reads. cbn [mbind list_bind]. by rewrite app_nil_r. Qed.

Lemma read_loop_published bus dir evs : ∀ r,
  published bus dir (all_reads evs) r (read_loop bus dir evs r) ∧
  frames (r_status (read_loop bus dir evs r)) mod u64_modulus =
    (frames (r_status r) + Z.of_nat (length (all_reads evs))) mod u64_modulus.
Proof.
  unfold read_loop. induction evs as [|x evs IH]; intros r; cbn [foldl].
  { split; [|cbn; by rewrite Z.add_0_r]. unfold published. cbn. rewrite offered_nil. cbn. by rewrite app_nil_r. }
  rewrite (all_reads_cons x evs). destruct x as [[now rate] ev].
  destruct (read_step_published bus dir now rate ev r) as [H1 Hc1].
  destruct (IH (read_step bus dir now rate ev r)) as [H2 Hc2].
  split; [by eapply published_trans|].
  rewrite Hc2, <-Zplus_mod_idemp_l, Hc1, Zplus_mod_idemp_l, length_app. f_equal. rewrite Nat2Z.inj_add. symmetry. apply Z.add_assoc.
Qed.
End CanFacts.

(** What an interface reads is archived whole, and its own transmits stay
    out of everyone's sight. Over any run of a CAN reader, every frame read was
    offered to the archive, in order; the broadcast got, in order, exactly those
    the daemon did not send itself, so no client sees them and no responder on
    any bus answers them; and the device's count went up by the frames read. *)
Theorem can_reads_published `{CanLib} `{TestPatternLib} bus dir evs r :
  let r' := read_loop bus dir evs r in
  let rx := filter (λ x, cr_own x.2 = false) (all_reads evs) in
  r_archive r' = offered (sample_of bus dir <$> all_reads evs) (r_archive r) ∧
  sent (r_frames r') = sent (r_frames r) ++ (sample_of bus dir <$> rx).*2 ∧
  (∀ b s c, s ∈ drop (length (sent (r_frames r))) (sent (r_frames r')) → heard b s = Some c →
     b = bus ∧ ∃ x, x ∈ rx ∧ s = (sample_of bus dir x).2) ∧
  frames (r_status r') mod u64_modulus =
    (frames (r_status r) + Z.of_nat (length (all_reads evs))) mod u64_modulus.
Proof.
  intros r' rx. destruct (read_loop_published bus dir evs r) as [(Ha & Hs & _) Hc].
  split_and!; [done|done| |done]. intros b s c Hin Hh. unfold r' in Hin. rewrite Hs, drop_app_length in Hin.
  rewrite <-list_fmap_compose in Hin. apply list_elem_of_fmap in Hin as (x & -> & Hx).
  split; [|by exists x]. cbn in Hh. by destruct (Z.eqb_spec bus b).
Qed.

(** ** Serial lines *)

Definition is_serial_sample (s : Sample) : bool := match s with Serial _ => true | _ => false end.

Section SerialFacts.
Context `{TapLaws}.

(** What a run of a tap published: to each archive its kind, all of it to the
    broadcast, and counted. *)
Definition tapped_out (out : list (Z * Sample)) (t t' : Tap) : Prop :=
  t_raw_archive t' = offered (filter (λ x, is_serial_sample x.2 = true) out) (t_raw_archive t) ∧
  t_framed_archive t' = offered (filter (λ x, is_serial_sample x.2 = false) out) (t_framed_archive t) ∧
  sent (t_frames t') = sent (t_frames t) ++ out.*2 ∧
  frames (t_status t') mod u64_modulus = (frames (t_status t) + Z.of_nat (length out)) mod u64_modulus.

Lemma tapped_trans o1 o2 t1 t2 t3 : tapped_out o1 t1 t2 → tapped_out o2 t2 t3 → tapped_out (o1 ++ o2) t1 t3.
Proof.
  intros (Hr & Hf & Hs & Hc) (Hr' & Hf' & Hs' & Hc'). split_and!.
  - by rewrite Hr', Hr, filter_app, offered_app.
  - by rewrite Hf', Hf, filter_app, offered_app.
  - by rewrite Hs', Hs, fmap_app, app_assoc.
  - rewrite Hc', <-Zplus_mod_idemp_l, Hc, Zplus_mod_idemp_l, length_app, Nat2Z.inj_add. f_equal. symmetry. apply Z.add_assoc.
Qed.

Lemma tapped_none t t' :
  t_raw_archive t' = t_raw_archive t → t_framed_archive t' = t_framed_archive t →
  t_frames t' = t_frames t → frames (t_status t') = frames (t_status t) → tapped_out [] t t'.
Proof.
  intros Hr Hf Hs Hc. unfold tapped_out. rewrite Hr, Hf, Hs, Hc. cbn. by rewrite !offered_nil, app_nil_r, Z.add_0_r.
Qed.

Lemma tap_publish_out now t s :
  tapped_out [(now, s)] t (tap_publish now t s) ∧
  t_raw (tap_publish now t s) = t_raw t ∧ t_framed (tap_publish now t s) = t_framed t.
Proof.
  split; [|by destruct s]. unfold tapped_out. rewrite !filter_cons. cbn [snd].
  destruct s as [c|m|r]; cbn [is_serial_sample tap_publish publish];
    rewrite ?decide_True by done; rewrite ?decide_False by done; cbn; rewrite ?offered_nil, ?Zmod_mod; by split_and!.
Qed.

Lemma tap_publish_all now l : ∀ t,
  let t' := foldl (tap_publish now) t l in
  tapped_out ((now,.) <$> l) t t' ∧ t_raw t' = t_raw t ∧ t_framed t' = t_framed t.
Proof.
  induction l as [|s l IH]; intros t; cbn [foldl fmap list_fmap].
  { split; [by apply tapped_none|done]. }
  destruct (tap_publish_out now t s) as (H1' & Hr1 & Hf1). destruct (IH (tap_publish now t s)) as (H2' & Hr2 & Hf2).
  cbv zeta. split; [by apply (tapped_trans [(now, s)] _ _ _ _ H1' H2')|]. split; congruence.
Qed.

(** The bytes of the raw samples. *)
Definition raw_bytes (out : list (Z * Sample)) : list Z :=
  out ≫= λ x, match x.2 with Serial r => ser_data r | _ => [] end.
Lemma raw_bytes_app o1 o2 : raw_bytes (o1 ++ o2) = raw_bytes o1 ++ raw_bytes o2.
Proof. apply bind_app. Qed.
Lemma raw_bytes_modbus now (ms : list ModbusSample) : raw_bytes ((now,.) <$> (Modbus <$> ms)) = [].
Proof. induction ms as [|m ms IH]; [done|]. exact IH. Qed.

Definition bytes_read (evs : list SerialInput) : list Z :=
  evs ≫= λ '(_, _, ev), match ev with SRead bytes _ => bytes | _ => [] end.

(** The rules in force at a read are those on the line's channel and, once that is
    closed, the last read's; new ones reframe. *)
Definition heed (watch : option Line) (f : Framed) : Framed :=
  let rules := from_option l_rules (f_current f) watch in
  let seen := from_option l_ticks (f_seen f) watch in
  MkFramed (if (seen =? f_seen f)%nat then f_tap f else rtu_set_options (options (rules_catalogue rules)) (f_tap f)) seen rules.
Definition pushed (bus : SourceId) (bytes : list Z) (at_ : SystemTime) (f : Framed) : list ModbusSample * Framed :=
  let '(ms, rtu) := rtu_samples bus bytes at_ (f_tap f) in (ms, MkFramed rtu (f_seen f) (f_current f)).

(** What each read of a line comes to: the framer it is framed by, with the rules
    in force, and the samples, the raw tap's and then the framer's. A connection
    restarts the raw tap, a loss the framer. *)
Record LineRead := MkLineRead { lr_now : Z; lr_framer : option Framed; lr_samples : list Sample }.
Fixpoint line_reads (bus : SourceId) (raw : option Raw) (framer : option Framed) (evs : list SerialInput) : list LineRead :=
  match evs with
  | [] => []
  | (_, _, SConnected) :: evs => line_reads bus (raw_reset <$> raw) framer evs
  | (_, _, SDisconnected _ _) :: evs =>
      line_reads bus raw ((λ f, MkFramed (rtu_reset (f_tap f)) (f_seen f) (f_current f)) <$> framer) evs
  | (now, watch, SRead bytes at_) :: evs =>
      let chunks := raw_samples bus bytes at_ <$> raw in
      let messages := pushed bus bytes at_ <$> (heed watch <$> framer) in
      MkLineRead now (heed watch <$> framer)
        ((Serial <$> default [] (fst <$> chunks)) ++ (Modbus <$> default [] (fst <$> messages)))
      :: line_reads bus (snd <$> chunks) (snd <$> messages) evs
  end.
Definition line_output (rs : list LineRead) : list (Z * Sample) := rs ≫= λ r, (lr_now r,.) <$> lr_samples r.

Lemma push_raw_out now bus bytes at_ t :
  let t' := push_raw now bus bytes at_ t in
  let chunks := raw_samples bus bytes at_ <$> t_raw t in
  t_raw t' = snd <$> chunks ∧ t_framed t' = t_framed t ∧
  tapped_out ((now,.) <$> (Serial <$> default [] (fst <$> chunks))) t t'.
Proof.
  unfold push_raw. destruct (t_raw t) as [raw|] eqn:Hr; cbn; [|by split_and!; try apply tapped_none].
  destruct (raw_samples bus bytes at_ raw) as [cs raw']. cbn.
  destruct (tap_publish_all now (Serial <$> cs) (set_taps (t_framed t) (Some raw') t)) as (Ho & Hr' & Hf').
  cbv zeta in *. split_and!; [by rewrite Hr'|by rewrite Hf'|].
  by apply (tapped_trans [] _ _ _ _ (tapped_none t (set_taps (t_framed t) (Some raw') t) eq_refl eq_refl eq_refl eq_refl) Ho).
Qed.

Lemma push_framed_out now bus watch bytes at_ t :
  let t' := push_framed now bus watch bytes at_ t in
  let messages := pushed bus bytes at_ <$> (follow watch <$> t_framed t) in
  t_raw t' = t_raw t ∧ t_framed t' = snd <$> messages ∧
  tapped_out ((now,.) <$> (Modbus <$> default [] (fst <$> messages))) t t'.
Proof.
  unfold push_framed. destruct (t_framed t) as [f|] eqn:Hf; cbn; [|rewrite Hf; by split_and!; try apply tapped_none].
  unfold pushed. destruct (rtu_samples bus bytes at_ (f_tap (follow watch f))) as [ms rtu]. cbn. set (f1 := MkFramed _ _ _).
  destruct (tap_publish_all now (Modbus <$> ms) (set_taps (Some f1) (t_raw t) t)) as (Hp & Hr' & Hf').
  cbv zeta in *. rewrite Hf'. split_and!; try done.
Qed.

(** A framer that frames as its rules say. *)
Definition framer_ok (f : Framed) : Prop := rtu_options (f_tap f) = options (rules_catalogue (f_current f)).

(** The values of a line's watch channel: a count goes with one value. *)
Definition watch_values (evs : list SerialInput) : list (nat * Rules) :=
  filter_map (λ '(_, w, _), (λ l, (l_ticks l, l_rules l)) <$> w) evs.
Definition one_value_each (l : list (nat * Rules)) : Prop :=
  ∀ x y, x ∈ l → y ∈ l → x.1 = y.1 → x.2 = y.2.

(** What a framer keeps, over values [vs] of its channel. *)
Definition framed_in (vs : list (nat * Rules)) (o : option Framed) : Prop :=
  ∀ f, o = Some f → framer_ok f ∧ (f_seen f, f_current f) ∈ vs.

(** Following is heeding, the count of a value being its own. *)
Lemma follow_heeds vs w o :
  one_value_each vs → framed_in vs o → (∀ l, w = Some l → (l_ticks l, l_rules l) ∈ vs) →
  follow w <$> o = heed w <$> o ∧ framed_in vs (heed w <$> o).
Proof.
  intros Hone Ho Hw. destruct o as [f|]; [|done]. destruct (Ho f eq_refl) as [Hf Hin].
  unfold framed_in, follow, heed, framer_ok in *. destruct w as [l|]; cbn.
  2:{ rewrite Nat.eqb_refl. destruct f. split; [done|]. by intros ? [= <-]. }
  specialize (Hw l eq_refl). destruct (Nat.eqb_spec (l_ticks l) (f_seen f)) as [He|He].
  - pose proof (Hone _ _ Hin Hw (eq_sym He)) as Hr. cbn in Hr. destruct f as [tap seen cur]; cbn in *. subst.
    split; [done|]. by intros ? [= <-].
  - split; [done|]. intros ? [= <-]. cbn. split; [apply set_options|done].
Qed.
Lemma pushed_in vs bus bytes at_ o : framed_in vs o → framed_in vs (snd <$> (pushed bus bytes at_ <$> o)).
Proof.
  intros Ho f'. destruct o as [f|]; [|done]. destruct (Ho f eq_refl) as [Hf Hin]. cbn. unfold pushed, rtu_samples, framer_ok in *.
  pose proof (push_options bytes at_ (f_tap f)) as Hp. destruct (rtu_push _ _ _) as [ms rtu]. cbn in *. intros [= <-]. cbn.
  split; [congruence|done].
Qed.

Lemma raw_chunks bus bytes at_ now (raw : Raw) :
  raw_bytes ((now,.) <$> (Serial <$> (raw_samples bus bytes at_ raw).1)) = bytes.
Proof.
  pose proof (raw_lossless bytes at_ raw) as Hl. unfold raw_samples. destruct (raw_push bytes at_ raw) as [cs raw']. cbn in *.
  subst bytes. unfold raw_bytes. induction cs as [|[[x y] z] cs IH]; [done|]. cbn. by rewrite <- IH.
Qed.
Lemma raw_bytes_reads bus evs : ∀ raw framer,
  is_some raw = true → raw_bytes (line_output (line_reads bus raw framer evs)) = bytes_read evs.
Proof.
  induction evs as [|[[now w] [|bytes at_|e k]] evs IH]; intros raw framer Hr; [done| | |]; cbn.
  - apply IH. by destruct raw.
  - destruct raw as [raw|]; [|done]. cbn [fmap option_fmap option_map default]. rewrite fmap_app, !raw_bytes_app, raw_bytes_modbus, app_nil_r.
    cbn. rewrite raw_chunks. f_equal. by apply IH.
  - by apply IH.
Qed.

(** A run of a tap publishes what its reads come to. *)
Lemma drain_reads vs bus evs : one_value_each vs → ∀ t,
  framed_in vs (t_framed t) → (∀ x, x ∈ watch_values evs → x ∈ vs) →
  let rs := line_reads bus (t_raw t) (t_framed t) evs in
  tapped_out (line_output rs) t (drain bus evs t) ∧ Forall (λ r, framed_in vs (lr_framer r)) rs.
Proof.
  intros Hone. unfold drain. induction evs as [|[[now w] ev] evs IH]; intros t Hok Hw; cbn [foldl].
  { split_and!; [by apply tapped_none|constructor]. }
  assert (Hw1 : ∀ l, w = Some l → (l_ticks l, l_rules l) ∈ vs).
  { intros l ->. apply Hw. unfold watch_values, filter_map. cbn. by left. }
  assert (Hw2 : ∀ x, x ∈ watch_values evs → x ∈ vs).
  { intros x Hx. apply Hw. unfold watch_values, filter_map in *. cbn. destruct (_ <$> w); [by right|done]. }
  destruct ev as [|bytes at_|e k].
  - destruct (IH (drain_step bus now w SConnected t) Hok Hw2) as (Ho & Hf). split; [|exact Hf].
    by apply (tapped_trans [] _ _ _ _ (tapped_none t (drain_step bus now w SConnected t) eq_refl eq_refl eq_refl eq_refl)).
  - cbn [drain_step line_reads]. set (t0 := set_t_status _ t).
    destruct (push_raw_out now bus bytes at_ t0) as (Hr1 & Hf1 & Ho1).
    destruct (push_framed_out now bus w bytes at_ (push_raw now bus bytes at_ t0)) as (Hr2 & Ht2 & Ho2).
    destruct (follow_heeds vs w (t_framed t) Hone Hok Hw1) as [Hfh Hin]. cbv zeta in *.
    set (t1 := push_framed now bus w bytes at_ _) in *. rewrite Hf1 in Ht2, Ho2. rewrite Hr1 in Hr2.
    change (t_framed t0) with (t_framed t) in *. rewrite Hfh in Ht2, Ho2. change (t_raw t0) with (t_raw t) in *.
    pose proof (pushed_in vs bus bytes at_ _ Hin) as Hok1. rewrite <- Ht2 in Hok1. destruct (IH t1 Hok1 Hw2) as (Ho & Hf).
    rewrite Hr2, Ht2 in Ho, Hf. split; [|by constructor]. cbn. rewrite fmap_app, <- app_assoc.
    refine (tapped_trans [] _ t t0 _ (tapped_none t t0 eq_refl eq_refl eq_refl eq_refl) _).
    eapply tapped_trans; [exact Ho1|]. by eapply tapped_trans.
  - destruct (IH (drain_step bus now w (SDisconnected e k) t)) as (Ho & Hf); [|done|split; [|exact Hf]].
    + intros f'. cbn. destruct (t_framed t) as [f|]; [|done]. intros [= <-]. destruct (Hok f eq_refl). split; [|done].
      unfold framer_ok. cbn. by rewrite reset_options.
    + by apply (tapped_trans [] _ _ _ _ (tapped_none t (drain_step bus now w (SDisconnected e k) t) eq_refl eq_refl eq_refl eq_refl)).
Qed.
End SerialFacts.

(** C22: a tap publishes exactly what its reads come to, and frames by the rules of
    the moment. Over any run of a serial line's tap, the samples the raw tap and the
    framer make of each read, in that order, are what went to the broadcast, each
    to the archive of its kind too, counted; at every read the framer is set to
    the rules on the line's channel then, or the last read's once that is closed;
    and the data of the raw samples, joined, is every byte read. The channel is
    one whose count changes with its value, and the tap a new one or one a run
    has left. *)
Theorem serial_reads_published `{TapLaws} bus evs t :
  (∀ f, t_framed t = Some f → framer_ok f) →
  one_value_each (match t_framed t with Some f => [(f_seen f, f_current f)] | None => [] end ++ watch_values evs) →
  let rs := line_reads bus (t_raw t) (t_framed t) evs in
  tapped_out (line_output rs) t (drain bus evs t) ∧
  Forall (λ r, ∀ f, lr_framer r = Some f → rtu_options (f_tap f) = options (rules_catalogue (f_current f))) rs ∧
  (is_some (t_raw t) = true → raw_bytes (line_output rs) = bytes_read evs).
Proof.
  intros Hok Hone rs. set (vs := _ ++ watch_values evs) in Hone.
  destruct (drain_reads vs bus evs Hone t) as [Ho Hf].
  - intros f Hf. split; [by apply Hok|]. unfold vs. rewrite Hf. by left.
  - intros x Hx. unfold vs. apply elem_of_app. by right.
  - split_and!; [done| |apply raw_bytes_reads]. eapply Forall_impl; [exact Hf|]. intros r Hr f Hf'. by destruct (Hr f Hf').
Qed.

(** ** A bench *)

Module TapBench.
Import (hints) Catalogues.Bench Wire.Packed.

(** A framer that takes each read for a message, and a raw tap that cuts reads in
    two. *)
#[export] Instance tap_lib : TapLib := {
  allow_broadcast o := o;
  frame_any_function o := o;
  tapped := 0;
  Rtu := Z;
  rtu_new o _ _ := o;
  rtu_set_options o _ := o;
  rtu_push bytes at_ o := ([(at_, (1, o, true, bytes))], o);
  rtu_reset o := o;
  Raw := Z;
  raw_new _ _ := 0;
  raw_push bytes at_ n := ([(at_, n, take 1 bytes); (at_, n + 1, drop 1 bytes)], n + 2);
  raw_reset _ := 0
}.
#[export] Instance tap_laws : TapLaws.
Proof.
  refine (Build_TapLaws _ tap_lib (λ t : Z, t : Z) _ _ _ _ _); try done.
  intros bytes at_ t. cbn. by rewrite app_nil_r, take_drop.
Defined.
#[export] Instance pattern : TestPatternLib := {
  CAP_EXTENDED := 1; CAP_FD := 2;
  is_test_pattern_frame a x := a =? 291;
  Responder := nat;
  responder_new _ _ := 0%nat;
  on_frame a x fd d ts n := ([MkTpReply a x fd d], S n)
}.
End TapBench.

Import (hints) Catalogues.Bench Wire.Packed TapBench.

Definition plain_line : Line := MkLine "modbus" None NoRules 0.
Definition new_rules : Line := MkLine "modbus" None (Etc Bench.cat) 1.
Definition line_tap : Tap :=
  MkTap status_default false false (Some (framed_new 9600 11 plain_line)) (Some (raw_new 9600 11))
    (Some (producer_start 9)) (Some (producer_start 9)) (MkChannel [] FRAME_BACKLOG true) [].
Definition line_events : list SerialInput := [(0, Some plain_line, SConnected); (1, Some plain_line, SRead [1; 2; 3] 5)].

Definition both_reads : list SerialInput := line_events ++ [(2, Some new_rules, SRead [4; 5] 6)].

Lemma serial_reads_published_witness :
  let rs := line_reads 4 (t_raw line_tap) (t_framed line_tap) both_reads in
  lr_samples <$> rs =
    [[Serial (MkSerial 5 4 0 [1]); Serial (MkSerial 5 4 1 [2; 3]); Modbus (MkModbus 5 4 1 tapped true [1; 2; 3])];
     [Serial (MkSerial 6 4 2 [4]); Serial (MkSerial 6 4 3 [5]); Modbus (MkModbus 6 4 1 (lc_rtu Bench.cat) true [4; 5])]] ∧
  tapped_out (line_output rs) line_tap (drain 4 both_reads line_tap).
Proof.
  split; [vm_compute; reflexivity|].
  apply (serial_reads_published 4 both_reads line_tap).
  - by intros f [= <-].
  - intros x y Hx Hy. unfold both_reads, line_events, watch_values, filter_map in *. cbn in Hx, Hy. set_unfold. naive_solver.
Defined.

Definition own_and_other : list CanInput :=
  [(0, None, CanConnected);
   (1, None, CanReads [MkCanRead (cf_data_frame 0 291 false false false [1]) false 7;
                       MkCanRead (cf_data_frame 0 291 false false false [2]) true 8])].
Definition fresh_reader : Reader :=
  MkReader status_default false false false false 0 (Some (producer_start 9)) (MkChannel [] FRAME_BACKLOG true) [].
Example own_transmit_stays_private :
  let r := read_loop 3 Rx own_and_other fresh_reader in
  length (sent (r_frames r)) = 1%nat ∧ r_speed r = 500000 ∧
  (items ∘ queue <$> r_archive r) = Some ((λ s, s.2) <$> (sample_of 3 Rx <$> all_reads own_and_other)).
Proof. vm_compute. by split_and!. Qed.
