(* ===== verification/Console.v ===== *)
(** * The console echo ([console.rs], and [pipeline.rs] [echo_loop])

    With [--echo-console] every broadcast sample is a line: a CAN frame in the
    manner of candump, a Modbus message or a chunk of serial bytes beside it.
    Everything a sample holds but its timestamp and direction can be told from
    its line. *)

From S2P Require Import Prelude Model Source Wire Settings Capture.
Import Sample.
From Stdlib Require Import Ascii.
Local Open Scope Z_scope.

(** ** Formatting *)

(** [{:X}] of a digit; [{:0wX}] of a number below [16 ^ fuel]. *)
Definition upper_digit (n : Z) : ascii :=
  if n <? 10 then ascii_of_nat (48 + Z.to_nat n) else ascii_of_nat (55 + Z.to_nat n).
Fixpoint upper_hex_aux (fuel : nat) (w : nat) (n : Z) (acc : string) : string :=
  match fuel with
  | O => acc
  | S fuel =>
      let acc := String (upper_digit (n mod 16)) acc in
      if (n / 16 =? 0) && (w <=? 1)%nat then acc else upper_hex_aux fuel (w - 1) (n / 16) acc
  end.
Definition upper_hex (w : nat) (n : Z) : string := upper_hex_aux 8 w n EmptyString.
(** [{:03}] of a number below a thousand. *)
Definition three_digits (n : Z) : string :=
  String (upper_digit (n / 100)) (String (upper_digit (n / 10 mod 10)) (String (upper_digit (n mod 10)) EmptyString)).

Definition ESC : ascii := ascii_of_nat 27.
Definition RED : string := String ESC "[31m".
Definition YELLOW : string := String ESC "[33m".
Definition RESET : string := String ESC "[0m".
Definition CLASSIC_HEX_WIDTH : nat := 23.

Definition printable (b : Z) : bool := (32 <=? b) && (b <=? 126).
Definition lit (colour on : bool) (s : string) : string := if colour && on then RED +:+ s +:+ RESET else s.

Definition prefix (bus : SourceId) (colour : bool) (rel_us : Z) : string :=
  (if colour then YELLOW else EmptyString) +:+ "B" +:+ pretty bus +:+ " " +:+
  (if colour then RESET else EmptyString) +:+
  let sec := rel_us / 1000000 in
  let rem := rel_us mod 1000000 in
  "(" +:+ pretty sec +:+ "." +:+ three_digits (rem / 1000) +:+ "_" +:+ three_digits (rem mod 1000) +:+ ") ".

Definition tag (on : bool) (t : string) : string := if on then t else EmptyString.

(** Each byte, a space between two. *)
Fixpoint hex_column (colour : bool) (data : list Z) : string :=
  match data with
  | [] => EmptyString
  | [b] => lit colour (printable b) (upper_hex 2 b)
  | b :: data => lit colour (printable b) (upper_hex 2 b) +:+ " " +:+ hex_column colour data
  end.
Definition text_column (colour : bool) (data : list Z) : string :=
  String.concat EmptyString
    ((λ b, lit colour (printable b) (String (if printable b then ascii_of_nat (Z.to_nat b) else "."%char) EmptyString)) <$> data).
Definition spaces (n : nat) : string := String.concat EmptyString (replicate n " ").

Section Console.
(** [wslib_can::payload_dlc]. *)
Context (payload_dlc : nat → bool → Z).

Definition line_dlc (s : CanSample) : Z := default (payload_dlc (length (can_data s)) (can_is_fd s)) (can_rtr s).

Definition format_line (s : CanSample) (colour : bool) (rel_us : Z) : string :=
  let hex := hex_column colour (can_data s) in
  prefix (can_bus s) colour rel_us +:+
  (if can_extended s then upper_hex 8 (can_arb_id s) +:+ " E" else upper_hex 3 (can_arb_id s) +:+ " S") +:+
  tag (can_is_fd s) "F" +:+ tag (is_some (can_rtr s)) "R" +:+ tag (can_brs s) "B" +:+ tag (can_esi s) "E" +:+
  " [" +:+ pretty (line_dlc s) +:+ "] " +:+ hex +:+
  (if can_is_fd s then EmptyString else spaces (CLASSIC_HEX_WIDTH - String.length hex)) +:+
  " | " +:+ text_column colour (can_data s) +:+ newline.

Definition spaced_bytes (data : list Z) : string :=
  String.concat EmptyString ((λ b, " " +:+ upper_hex 2 b) <$> data).

Definition format_modbus_line (s : ModbusSample) (colour : bool) (rel_us : Z) : string :=
  prefix (mb_bus s) colour rel_us +:+
  upper_hex 2 (mb_unit s) +:+ "/" +:+ upper_hex 2 (mb_func s) +:+ " M [" +:+ pretty (Z.of_nat (length (mb_raw s))) +:+ "]" +:+
  spaced_bytes (mb_raw s) +:+ (if mb_crc_valid s then EmptyString else " CRC?") +:+ newline.

Definition format_serial_line (s : SerialSample) (colour : bool) (rel_us : Z) : string :=
  prefix (ser_bus s) colour rel_us +:+
  "#" +:+ pretty (ser_seq s) +:+ " R [" +:+ pretty (Z.of_nat (length (ser_data s))) +:+ "]" +:+ spaced_bytes (ser_data s) +:+ newline.

(** ** [echo_loop] *)

Definition echo_line (colour : bool) (rel_us : Z) (s : Sample) : string :=
  match s with
  | Can c => format_line c colour rel_us
  | Modbus m => format_modbus_line m colour rel_us
  | Serial r => format_serial_line r colour rel_us
  end.

(** What it writes and what it warns of, for what the channel hands it, each at
    its microseconds since the start. *)
Fixpoint echo_loop (colour : bool) (rs : list (Z * Received)) : list string * list string :=
  match rs with
  | [] => ([], [])
  | (t, RFrame s) :: rs => let '(out, warned) := echo_loop colour rs in (echo_line colour t s :: out, warned)
  | (_, RLagged n) :: rs =>
      let '(out, warned) := echo_loop colour rs in (out, ("console echo dropped " +:+ pretty n +:+ " frames") :: warned)
  | (_, REmpty) :: rs => echo_loop colour rs
  | (_, RClosed) :: _ => ([], [])
  end.
End Console.

(** ** A line tells its sample *)

Lemma cut_inj sep a a' b b' :
  str_free sep a = true → str_free sep a' = true → a +:+ String sep b = a' +:+ String sep b' → a = a' ∧ b = b'.
Proof.
  unfold str_free. revert a'. induction a as [|c a IH]; intros [|c' a']; cbn.
  - intros _ _ [= ->]. done.
  - intros _ [Hc _]%andb_true_iff [= <- _]. by apply bool_decide_eq_true in Hc.
  - intros [Hc _]%andb_true_iff _ [= -> _]. by apply bool_decide_eq_true in Hc.
  - intros [_ Ha]%andb_true_iff [_ Ha']%andb_true_iff [= <- He]. destruct (IH a' Ha Ha' He) as [-> ->]. done.
Qed.

Lemma tail_inj c (a b : string) : String c a = String c b → a = b.
Proof. by intros [= ->]. Qed.

(** *** Digits *)

Definition is_upper_hex (c : ascii) : bool :=
  let n := nat_of_ascii c in ((48 <=? n) && (n <=? 57) || (65 <=? n) && (n <=? 70))%nat.
Definition digit_value (c : ascii) : Z :=
  let n := Z.of_nat (nat_of_ascii c) in if n <? 65 then n - 48 else n - 55.
Fixpoint hex_value (v : Z) (s : string) : Z :=
  match s with EmptyString => v | String c s => hex_value (v * 16 + digit_value c) s end.

Lemma upper_digit_spec n : 0 ≤ n < 16 → digit_value (upper_digit n) = n ∧ is_upper_hex (upper_digit n) = true.
Proof.
  intros Hn. unfold upper_digit, digit_value, is_upper_hex.
  destruct (Z.ltb_spec n 10); rewrite nat_ascii_embedding by lia.
  - destruct (Z.ltb_spec (Z.of_nat (48 + Z.to_nat n)) 65); [|lia]. split; [lia|]. apply orb_true_iff. left.
    apply andb_true_iff. rewrite !Nat.leb_le. lia.
  - destruct (Z.ltb_spec (Z.of_nat (55 + Z.to_nat n)) 65); [lia|]. split; [lia|]. apply orb_true_iff. right.
    apply andb_true_iff. rewrite !Nat.leb_le. lia.
Qed.
Lemma upper_hex_aux_value fuel : ∀ w n acc,
  0 ≤ n < 16 ^ Z.of_nat fuel → hex_value 0 (upper_hex_aux fuel w n acc) = hex_value n acc.
Proof.
  induction fuel as [|fuel IH]; intros w n acc Hn; cbn [upper_hex_aux].
  - cbn in Hn. by replace n with 0 by lia.
  - pose proof (Z.mod_pos_bound n 16 ltac:(lia)) as Hm. pose proof (Z.div_mod n 16 ltac:(lia)) as Hd.
    pose proof (proj1 (upper_digit_spec _ Hm)) as Hv.
    destruct (Z.eqb_spec (n / 16) 0) as [H0|H0]; cbn [andb]; [destruct (w <=? 1)%nat|].
    + cbn [hex_value]. rewrite Hv. f_equal. lia.
    + rewrite IH; [cbn [hex_value]; rewrite Hv; f_equal; lia|]. rewrite H0. lia.
    + rewrite IH; [cbn [hex_value]; rewrite Hv; f_equal; lia|].
      rewrite Nat2Z.inj_succ, Z.pow_succ_r in Hn by lia. split; [apply Z.div_pos; lia|apply Z.div_lt_upper_bound; lia].
Qed.
Lemma upper_hex_aux_chars fuel : ∀ w n acc,
  str_all is_upper_hex acc = true → str_all is_upper_hex (upper_hex_aux fuel w n acc) = true.
Proof.
  induction fuel as [|fuel IH]; intros w n acc Hacc; cbn [upper_hex_aux]; [done|].
  assert (str_all is_upper_hex (String (upper_digit (n mod 16)) acc) = true) as Hs.
  { cbn [str_all]. rewrite Hacc, andb_true_r. apply upper_digit_spec, Z.mod_pos_bound. lia. }
  destruct (_ && _); [done|]. by apply IH.
Qed.
Lemma upper_hex_inj w n n' : is_u32 n → is_u32 n' → upper_hex w n = upper_hex w n' → n = n'.
Proof.
  unfold is_u32, u32_modulus, upper_hex. intros Hn Hn' He. apply (f_equal (hex_value 0)) in He.
  by rewrite !upper_hex_aux_value in He by (change (Z.of_nat 8) with 8; lia).
Qed.
Lemma upper_hex_chars w n : str_all is_upper_hex (upper_hex w n) = true.
Proof. by apply upper_hex_aux_chars. Qed.
Lemma hex_free sep s : is_upper_hex sep = false → str_all is_upper_hex s = true → str_free sep s = true.
Proof. intros Hs. apply str_all_impl. intros c Hc. apply bool_decide_eq_true. intros ->. congruence. Qed.
Lemma pretty_free sep (z : Z) : number_char sep = false → str_free sep (pretty z) = true.
Proof.
  intros Hs. eapply str_all_impl; [|apply pretty_number]. intros c Hc. apply bool_decide_eq_true. intros ->. congruence.
Qed.

Lemma upper_hex_byte b : is_u8 b →
  upper_hex 2 b = String (upper_digit (b / 16)) (String (upper_digit (b mod 16)) EmptyString).
Proof.
  intros Hb. unfold is_u8 in Hb. destruct (nibbles b ltac:(lia)) as [Hq _]. unfold upper_hex. cbn [upper_hex_aux].
  rewrite andb_false_r. rewrite (Z.div_small (b / 16)), (Z.mod_small (b / 16)) by done. done.
Qed.
Lemma upper_digit_inj a b : 0 ≤ a < 16 → 0 ≤ b < 16 → upper_digit a = upper_digit b → a = b.
Proof. intros Ha Hb He. apply (f_equal digit_value) in He. by rewrite (proj1 (upper_digit_spec a Ha)), (proj1 (upper_digit_spec b Hb)) in He. Qed.
Lemma byte_inj b b' u u' : is_u8 b → is_u8 b' → upper_hex 2 b +:+ u = upper_hex 2 b' +:+ u' → b = b' ∧ u = u'.
Proof.
  intros Hb Hb'. rewrite !upper_hex_byte by done. unfold is_u8 in *. destruct (nibbles b ltac:(lia)), (nibbles b' ltac:(lia)).
  cbn. intros [= E1 E2 E3]. apply upper_digit_inj in E1, E2; try done. split; [|done].
  rewrite (Z.div_mod b 16), (Z.div_mod b' 16) by lia. congruence.
Qed.
Lemma three_inj a b u u' : 0 ≤ a < 1000 → 0 ≤ b < 1000 → three_digits a +:+ u = three_digits b +:+ u' → a = b ∧ u = u'.
Proof.
  intros Ha Hb. unfold three_digits. cbn. intros [= E1 E2 E3 E4]. apply upper_digit_inj in E1, E2, E3; try lia;
    try (split; [|done]); pose proof (Z.div_mod a 10); pose proof (Z.div_mod b 10);
    pose proof (Z.div_mod (a / 10) 10); pose proof (Z.div_mod (b / 10) 10);
    pose proof (Z.mod_pos_bound a 10); pose proof (Z.mod_pos_bound b 10);
    pose proof (Z.mod_pos_bound (a / 10) 10); pose proof (Z.mod_pos_bound (b / 10) 10);
    rewrite ?Z.div_div in * by lia; change (10 * 10) with 100 in *; lia.
Qed.

(** *** The parts of a line *)

Lemma prefix_inj bus bus' colour t t' u u' :
  0 ≤ t → 0 ≤ t' → prefix bus colour t +:+ u = prefix bus' colour t' +:+ u' → bus = bus' ∧ t = t' ∧ u = u'.
Proof.
  intros Ht Ht'. unfold prefix. cbv zeta. intros He.
  assert (∀ v v' : string, pretty bus +:+ String " " ((if colour then RESET else "") +:+ v) =
    pretty bus' +:+ String " " ((if colour then RESET else "") +:+ v') → bus = bus' ∧ v = v') as Hbus.
  { intros v v' Hv. apply cut_inj in Hv as [Hb Hv]; [|by apply pretty_free..]. split; [by apply (inj pretty)|].
    destruct colour; [|done]. by injection Hv. }
  rewrite <- !str_app_assoc in He.
  assert (∀ x y : string, (if colour then YELLOW else "") +:+ x = (if colour then YELLOW else "") +:+ y → x = y) as Hy.
  { intros x y Hxy. destruct colour; [|done]. by injection Hxy. }
  apply Hy in He. cbn [String.append] in He. injection He as He. apply Hbus in He as [-> He]. split; [done|].
  injection He as He. apply cut_inj in He as [Hsec He]; [|by apply pretty_free..]. apply (inj pretty) in Hsec.
  pose proof (Z.mod_pos_bound t 1000000 ltac:(lia)). pose proof (Z.mod_pos_bound t' 1000000 ltac:(lia)).
  apply three_inj in He as [Hms He]; [|split; [apply Z.div_pos|apply Z.div_lt_upper_bound]; lia..].
  apply (tail_inj "_"%char) in He. apply three_inj in He as [Hus He]; [|apply Z.mod_pos_bound; lia..].
  cbn [String.append] in He. do 2 apply tail_inj in He. split; [|done].
  rewrite (Z.div_mod t 1000000), (Z.div_mod t' 1000000) by lia. rewrite Hsec. f_equal.
  rewrite (Z.div_mod (t mod 1000000) 1000), (Z.div_mod (t' mod 1000000) 1000) by lia. congruence.
Qed.

(** A byte of the hex column, and the bytes each after its space. *)
Notation cell colour b := (lit colour (printable b) (upper_hex 2 b)).
Fixpoint cells (colour : bool) (data : list Z) (u : string) : string :=
  match data with [] => u | b :: data => String " " (cell colour b +:+ cells colour data u) end.
(** What follows them: spaces or the bar. *)
Definition ends_cells (u : string) : Prop :=
  ∃ x v, u = String " " (String x v) ∧ (x = " "%char ∨ x = "|"%char).

Lemma cell_free colour b : str_free " " (cell colour b) = true.
Proof.
  assert (str_free " " (upper_hex 2 b) = true) as Hh by by apply hex_free, upper_hex_chars.
  unfold lit. destruct (colour && printable b); [|done]. unfold str_free in *. rewrite !str_all_app, Hh. done.
Qed.
Lemma cell_head colour b : is_u8 b → ∃ c s, cell colour b = String c s ∧ c ≠ " "%char ∧ c ≠ "|"%char.
Proof.
  intros Hb. rewrite upper_hex_byte by done. unfold lit. destruct (colour && printable b); [by eexists _, _|].
  eexists _, _. split; [done|]. unfold is_u8 in Hb. destruct (nibbles b ltac:(lia)) as [Hq _].
  pose proof (proj2 (upper_digit_spec _ Hq)) as Hd. split; intros Hc; by rewrite Hc in Hd.
Qed.
Lemma cell_inj colour b b' : is_u8 b → is_u8 b' → cell colour b = cell colour b' → b = b'.
Proof.
  intros Hb Hb'. assert (∀ x y : Z, RED +:+ upper_hex 2 x +:+ RESET ≠ upper_hex 2 y) as Hne.
  { intros x y He. pose proof (upper_hex_chars 2 y) as Hy. rewrite <- He in Hy. done. }
  unfold lit. destruct (colour && printable b), (colour && printable b'); intros He.
  - cbn [String.append RED] in He. do 5 apply tail_inj in He. by apply byte_inj in He as [? _].
  - by apply Hne in He.
  - symmetry in He. by apply Hne in He.
  - apply (f_equal (λ s, s +:+ "")) in He. by apply byte_inj in He as [? _].
Qed.
Lemma cells_space colour data u : ends_cells u → ∃ v, cells colour data u = String " " v.
Proof. intros (x & v & -> & _). destruct data; by eexists. Qed.
Lemma cells_inj colour data : ∀ data' u u',
  Forall is_u8 data → Forall is_u8 data' → ends_cells u → ends_cells u' → cells colour data u = cells colour data' u' → data = data'.
Proof.
  assert (∀ b d u v, is_u8 b → ends_cells u → u ≠ String " " (cell colour b +:+ cells colour d v)) as Hmix.
  { intros b d u v Hb (x & w & -> & Hx) He. destruct (cell_head colour b Hb) as (c & s & Hc & Hc1 & Hc2). rewrite Hc in He.
    injection He as He _. naive_solver. }
  induction data as [|b data IH]; intros [|b' data'] u u' Hd Hd' Hu Hu' He; cbn [cells] in He; [done| | |].
  - apply Forall_cons in Hd' as [Hb' _]. exfalso. by apply (Hmix b' data' u u').
  - apply Forall_cons in Hd as [Hb _]. exfalso. symmetry in He. by apply (Hmix b data u' u).
  - apply Forall_cons in Hd as [Hb Hd], Hd' as [Hb' Hd']. apply tail_inj in He.
    destruct (cells_space colour data u Hu) as [v Hv], (cells_space colour data' u' Hu') as [v' Hv'].
    rewrite Hv, Hv' in He. apply cut_inj in He as [Hc He]; [|apply cell_free..]. f_equal; [by eapply cell_inj|].
    eapply (IH data' u u'); try done. congruence.
Qed.

(** The column as such cells, with what follows it. *)
Lemma spaces_S n : spaces (S n) = String " " (spaces n).
Proof. unfold spaces. cbn [replicate]. by destruct n. Qed.
Lemma padded_ends n u : ∃ x v, spaces n +:+ String " " (String "|" u) = String " " (String x v) ∧ (x = " "%char ∨ x = "|"%char).
Proof.
  destruct n as [|[|n]]; [cbn; eauto 6| |]; rewrite !spaces_S; cbn; eauto 6.
Qed.
Lemma hex_column_cons colour b data :
  hex_column colour (b :: data) = cell colour b +:+ (match data with [] => "" | _ => " " +:+ hex_column colour data end).
Proof.
  destruct data as [|b' data]; [|done]. cbn [hex_column]. symmetry. apply str_app_nil_r.
Qed.
Lemma hex_cells colour data u :
  ends_cells u → ∃ u', ends_cells u' ∧ String " " (hex_column colour data +:+ u) = cells colour data u'.
Proof.
  intros Hu. destruct data as [|b data].
  - destruct Hu as (x & v & -> & Hx). exists (String " " (String " " (String x v))). split; [|done]. exists " "%char, (String x v). auto.
  - exists u. split; [done|]. clear Hu. revert b. induction data as [|b' data IH]; intros b.
    + cbn [hex_column cells]. done.
    + rewrite hex_column_cons. cbn [cells]. rewrite <- str_app_assoc. cbn [String.append]. do 2 f_equal. apply IH.
Qed.

Lemma concat_cons x l : String.concat EmptyString (x :: l) = x +:+ String.concat EmptyString l.
Proof. destruct l; [|done]. cbn. by rewrite str_app_nil_r. Qed.
Lemma spaced_inj data : ∀ data' u u',
  Forall is_u8 data → Forall is_u8 data' → length data = length data' →
  spaced_bytes data +:+ u = spaced_bytes data' +:+ u' → data = data' ∧ u = u'.
Proof.
  assert (∀ b l v, spaced_bytes (b :: l) +:+ v = String " " (upper_hex 2 b +:+ (spaced_bytes l +:+ v))) as Hcons.
  { intros b l v. unfold spaced_bytes. cbn [fmap list_fmap]. rewrite concat_cons, <- !str_app_assoc. done. }
  induction data as [|b data IH]; intros [|b' data'] u u' Hd Hd' Hl He; try done.
  apply Forall_cons in Hd as [Hb Hd], Hd' as [Hb' Hd']. rewrite !Hcons in He. apply tail_inj in He.
  apply byte_inj in He as [-> He]; [|done..]. destruct (IH data' u u' Hd Hd' ltac:(by injection Hl) He) as [-> ->]. done.
Qed.

(** *** Lines *)

(** A sample as the sources make it: bytes, a [u32] id, a bus and codes of a
    byte. *)
Definition sample_ok (x : Sample) : Prop :=
  match x with
  | Can c => is_u32 (can_arb_id c) ∧ Forall is_u8 (can_data c)
  | Modbus m => is_u8 (mb_unit m) ∧ is_u8 (mb_func m) ∧ Forall is_u8 (mb_raw m)
  | Serial r => Forall is_u8 (ser_data r)
  end.
(** The sample less its timestamp and direction. *)
Definition untimed (x : Sample) : Sample :=
  match x with
  | Can c => Can (MkCan 0 (can_arb_id c) (can_extended c) (can_is_fd c) (can_rtr c) (can_brs c) (can_esi c) (can_data c) (can_bus c) Rx)
  | Modbus m => Modbus (MkModbus 0 (mb_bus m) (mb_unit m) (mb_func m) (mb_crc_valid m) (mb_raw m))
  | Serial r => Serial (MkSerial 0 (ser_bus r) (ser_seq r) (ser_data r))
  end.

Section Lines.
Context (payload_dlc : nat → bool → Z).

(** What comes after the bus and the time: a word, a space and the rest. *)
Definition word (x : Sample) : string :=
  match x with
  | Can c => upper_hex (if can_extended c then 8 else 3) (can_arb_id c)
  | Modbus m => upper_hex 2 (mb_unit m) +:+ "/" +:+ upper_hex 2 (mb_func m)
  | Serial r => "#" +:+ pretty (ser_seq r)
  end.
Definition tags (c : CanSample) : string :=
  tag (can_is_fd c) "F" +:+ tag (is_some (can_rtr c)) "R" +:+ tag (can_brs c) "B" +:+ tag (can_esi c) "E".
Definition can_end (colour : bool) (c : CanSample) : string :=
  (if can_is_fd c then EmptyString else spaces (CLASSIC_HEX_WIDTH - String.length (hex_column colour (can_data c)))) +:+
  String " " (String "|" (String " " (text_column colour (can_data c) +:+ newline))).
Definition rest (colour : bool) (x : Sample) : string :=
  match x with
  | Can c => String (if can_extended c then "E" else "S")%char (tags c +:+
      String " " (String "[" (pretty (line_dlc payload_dlc c) +:+ String "]" (String " " (hex_column colour (can_data c) +:+ can_end colour c)))))
  | Modbus m => String "M" (String " " (String "[" (pretty (Z.of_nat (length (mb_raw m))) +:+ String "]"
      (spaced_bytes (mb_raw m) +:+ (if mb_crc_valid m then EmptyString else " CRC?") +:+ newline))))
  | Serial r => String "R" (String " " (String "[" (pretty (Z.of_nat (length (ser_data r))) +:+ String "]"
      (spaced_bytes (ser_data r) +:+ newline))))
  end.
Definition sample_bus (x : Sample) : SourceId :=
  match x with Can c => can_bus c | Modbus m => mb_bus m | Serial r => ser_bus r end.

Lemma echo_line_parts colour t x :
  echo_line payload_dlc colour t x = prefix (sample_bus x) colour t +:+ (word x +:+ String " " (rest colour x)).
Proof.
  destruct x as [c|m|r]; cbn [echo_line sample_bus word rest].
  - unfold format_line, tags, can_end. cbv zeta. f_equal. destruct (can_extended c); rewrite <- !str_app_assoc; done.
  - unfold format_modbus_line. by rewrite <- !str_app_assoc.
  - done.
Qed.

Lemma word_free x : str_free " " (word x) = true.
Proof.
  assert (∀ w n, str_free " " (upper_hex w n) = true) as Hh by (intros; by apply hex_free, upper_hex_chars).
  destruct x as [c|m|r]; cbn [word]; [done| |].
  - unfold str_free in *. by rewrite !str_all_app, !Hh.
  - exact (pretty_free " " (ser_seq r) eq_refl).
Qed.
Lemma tags_inj c c' : tags c = tags c' →
  can_is_fd c = can_is_fd c' ∧ is_some (can_rtr c) = is_some (can_rtr c') ∧ can_brs c = can_brs c' ∧ can_esi c = can_esi c'.
Proof.
  unfold tags. destruct (can_is_fd c), (can_is_fd c'), (is_some (can_rtr c)), (is_some (can_rtr c')),
    (can_brs c), (can_brs c'), (can_esi c), (can_esi c'); by intros [=].
Qed.
Lemma tags_free c : str_free " " (tags c) = true.
Proof. unfold tags. by destruct (can_is_fd c), (is_some (can_rtr c)), (can_brs c), (can_esi c). Qed.
Lemma can_end_ends colour c : ends_cells (can_end colour c).
Proof.
  unfold can_end. destruct (can_is_fd c); [by eexists _, _; eauto|]. apply padded_ends.
Qed.

Lemma can_inj colour c c' :
  sample_ok (Can c) → sample_ok (Can c') → can_bus c = can_bus c' → word (Can c) = word (Can c') →
  rest colour (Can c) = rest colour (Can c') → untimed (Can c) = untimed (Can c').
Proof.
  intros [Hid Hdata] [Hid' Hdata'] Hbus Hw Hr. cbn [word rest] in *. injection Hr as Hext Hr.
  assert (can_extended c = can_extended c') as Hx by (by destruct (can_extended c), (can_extended c')).
  rewrite Hx in Hw. apply upper_hex_inj in Hw; [|done..].
  apply cut_inj in Hr as [Ht Hr]; [|apply tags_free..]. apply tags_inj in Ht as (Hfd & Hrtr & Hbrs & Hesi).
  apply tail_inj in Hr. apply cut_inj in Hr as [Hdlc Hr]; [|by apply pretty_free..]. apply (inj pretty) in Hdlc.
  destruct (hex_cells colour (can_data c) _ (can_end_ends colour c)) as (u & Hu & Hc).
  destruct (hex_cells colour (can_data c') _ (can_end_ends colour c')) as (u' & Hu' & Hc').
  rewrite Hc, Hc' in Hr. apply cells_inj in Hr; [|done..].
  assert (can_rtr c = can_rtr c') as Hrt.
  { unfold line_dlc in Hdlc. destruct (can_rtr c), (can_rtr c'); try done. cbn in Hdlc. by rewrite Hdlc. }
  cbn [untimed]. by rewrite Hw, Hx, Hfd, Hrt, Hbrs, Hesi, Hr, Hbus.
Qed.
Lemma counted_inj data data' u u' :
  Forall is_u8 data → Forall is_u8 data' →
  pretty (Z.of_nat (length data)) +:+ String "]" (spaced_bytes data +:+ u) =
    pretty (Z.of_nat (length data')) +:+ String "]" (spaced_bytes data' +:+ u') → data = data' ∧ u = u'.
Proof.
  intros Hd Hd' He. apply cut_inj in He as [Hl He]; [|by apply pretty_free..]. apply (inj pretty), Nat2Z.inj in Hl.
  by apply spaced_inj in He.
Qed.

(** A line of the console tells its sample: for samples as the sources make
    them, two lines in the same colours are the same only if they were printed at
    the same microsecond of the daemon's life and the samples are the same but
    for their timestamp and direction. *)
Theorem echo_line_determines (colour : bool) (t t' : Z) (x y : Sample) :
  0 ≤ t → 0 ≤ t' → sample_ok x → sample_ok y →
  echo_line payload_dlc colour t x = echo_line payload_dlc colour t' y → t = t' ∧ untimed x = untimed y.
Proof.
  intros Ht Ht' Hx Hy. rewrite !echo_line_parts. intros (Hbus & -> & He)%prefix_inj; [|done..]. split; [done|].
  apply cut_inj in He as [Hw Hr]; [|apply word_free..].
  destruct x as [c|m|r], y as [c'|m'|r']; try (cbn [rest] in Hr; exfalso; revert Hr; repeat case_match; by intros [=]).
  - by eapply can_inj.
  - destruct Hx as (Hu & Hf & Hd), Hy as (Hu' & Hf' & Hd'). cbn [word rest sample_bus untimed] in *.
    apply byte_inj in Hw as [-> Hw]; [|done..]. apply tail_inj in Hw. apply (f_equal (λ s, s +:+ "")) in Hw.
    apply byte_inj in Hw as [-> _]; [|done..]. do 3 apply tail_inj in Hr. apply counted_inj in Hr as [-> Hr]; [|done..].
    rewrite Hbus. by destruct (mb_crc_valid m), (mb_crc_valid m').
  - cbn [word rest sample_bus untimed] in *. apply tail_inj in Hw. apply (inj pretty) in Hw as ->. do 3 apply tail_inj in Hr.
    apply counted_inj in Hr as [-> Hr]; [|done..]. by rewrite Hbus.
Qed.
End Lines.

(** ** Lines *)

Definition shown_can (bus arb_id : Z) (extended is_fd : bool) (data : list Z) : CanSample :=
  MkCan 0 arb_id extended is_fd None false false data bus Rx.
Definition code_of (n : nat) (is_fd : bool) : Z := if (n =? 12)%nat && is_fd then 9 else Z.of_nat n.
Notation shown x := (echo_line code_of false 1234567 x).
Notation coloured x := (echo_line code_of true 1234567 x).

(** The lines the repository's tests expect. *)
Example golden_lines :
  shown (Can (shown_can 0 0x123 false false [0x00; 0x41; 0x7E; 0x1F; 0x20; 0x7F; 0xFF; 0x42])) =
    "B0 (1.234_567) 123 S [8] 00 41 7E 1F 20 7F FF 42 | .A~. ..B" +:+ newline ∧
  shown (Can (shown_can 0 0x7FF false false [0x41; 0x42; 0x43])) =
    "B0 (1.234_567) 7FF S [3] 41 42 43                | ABC" +:+ newline ∧
  shown (Can (shown_can 7 0x100 false false [])) = "B7 (1.234_567) 100 S [0]                         | " +:+ newline ∧
  shown (Can (shown_can 1 0x18DAF110 true false [0xDE; 0xAD])) =
    "B1 (1.234_567) 18DAF110 E [2] DE AD                   | .." +:+ newline ∧
  shown (Can (shown_can 2 0x200 false true (Z.of_nat <$> seq 0x40 12))) =
    "B2 (1.234_567) 200 SF [9] 40 41 42 43 44 45 46 47 48 49 4A 4B | @ABCDEFGHIJK" +:+ newline ∧
  coloured (Can (shown_can 0 0x100 false false [0x41])) =
    YELLOW +:+ "B0 " +:+ RESET +:+ "(1.234_567) 100 S [1] " +:+ RED +:+ "41" +:+ RESET +:+ "             | " +:+
    RED +:+ "A" +:+ RESET +:+ newline ∧
  coloured (Modbus (MkModbus 0 2 1 0x65 false [0x01; 0x03; 0x13; 0x88; 0x00; 0x02; 0x40; 0xA5])) =
    YELLOW +:+ "B2 " +:+ RESET +:+ "(1.234_567) 01/65 M [8] 01 03 13 88 00 02 40 A5 CRC?" +:+ newline ∧
  shown (Serial (MkSerial 0 2 17 [0x01; 0x03; 0x13])) = "B2 (1.234_567) #17 R [3] 01 03 13" +:+ newline ∧
  prefix 0 false 3600000000 = "B0 (3600.000_000) " ∧ prefix 0 false 1020003 = "B0 (1.020_003) ".
Proof. split_and!; vm_compute; reflexivity. Qed.

Lemma echo_line_determines_witness :
  shown (Serial (MkSerial 0 2 17 [1])) ≠ shown (Serial (MkSerial 9 2 17 [2])) ∧
  untimed (Serial (MkSerial 0 2 17 [1])) = untimed (Serial (MkSerial 9 2 17 [1])).
Proof.
  split; [|by eapply (echo_line_determines code_of false 7 7); cbn; [lia|lia|repeat constructor; lia..|]].
  intros He. apply echo_line_determines in He as [_ He]; [discriminate|lia|lia|cbn; repeat constructor; lia..].
Defined.
