(* ===== verification/Gvret.v ===== *)
(** * The GVRET bridge ([gvret.rs], and [pipeline.rs]'s [transmit_loop])

    Who may connect, what a client's commands are answered with, how the
    broadcast reaches a client, and which of its transmits reach a bus. The codec
    is a class; a client's clock and the frames that arrive while its buffer is
    filled come with each receive. *)

From S2P Require Import Prelude F64 Model Source Wire Cache Archive Cidr Catalogues Settings Ui SettingsProofs Capture.
Import Sample.
Local Open Scope Z_scope.

Definition WRITE_COALESCE : nat := (8 * 1024)%nat.
Definition REFUSED_REMEMBERED : nat := 1024.

(** ** [wslib_can_gvret] *)

Inductive ClientCommand :=
  | DevInfo
  | CanbusParams
  | NumBuses
  | Timebase
  | Keepalive
  | TransmitCmd (bus arb_id : Z) (extended : bool) (data : list Z) (declared : Z).

Class GvretLib := {
  MAX_FRAME_BYTES : nat;
  encode_dev_info : list Z;
  encode_canbus_params : Z → list Z → list Z;
  encode_num_buses : Z → list Z;
  encode_timebase : Z → list Z;
  encode_keepalive : list Z;
  encode_frame : Z → Z → bool → Z → list Z → bool → list Z;
  Decoder : Type;
  decoder_new : Decoder;
  feed : list Z → Decoder → list ClientCommand * Decoder;
  is_binary : Decoder → bool
}.
(** A frame's encoding fits the size the codec names. *)
Class GvretLaws `{GvretLib} : Prop := {
  frame_fits : ∀ t a x b d fd, (length (encode_frame t a x b d fd) ≤ MAX_FRAME_BYTES)%nat
}.

(** ** The listener *)

Record BusInfo := MkBusInfo { bi_count : Z; bi_speeds : list Z }.
(** The index is one the server was built with. *)
Definition set_speed (interface : nat) (nominal : Z) (b : BusInfo) : BusInfo :=
  MkBusInfo (bi_count b) (<[interface := nominal]> (bi_speeds b)).

Definition allowed_peer (allowed : list Cidr) (peer : IpAddr) : bool := existsb (λ n, contains n peer) allowed.

(** [Server::run] on an accepted connection: whether it is served, whether its
    refusal is logged, and the addresses whose refusals were. *)
Definition accept (allowed : list Cidr) (peer : IpAddr) (refused : list IpAddr) : bool * bool * list IpAddr :=
  if allowed_peer allowed peer then (true, false, refused)
  else
    let refused := if (length refused =? REFUSED_REMEMBERED)%nat then [] else refused in
    if bool_decide (peer ∈ refused) then (false, false, refused) else (false, true, peer :: refused).

(** ** A client *)

Section Client.
Context `{GvretLib}.

(** [elapsed_us]: microseconds since the connection opened, as a [u32]. *)
Definition elapsed_us (t0 now : Z) : Z := (now - t0) mod u32_modulus.

(** The transmit queue: a bounded channel. *)
Record TxQueue := MkTxQueue { tx_items : list Transmit; tx_open : bool }.
Definition try_transmit (t : Transmit) (q : TxQueue) : option TxQueue :=
  if tx_open q && (length (tx_items q) <? TRANSMIT_QUEUE)%nat
  then Some (MkTxQueue (tx_items q ++ [t]) (tx_open q)) else None.

(** [Client::reply]: what is appended to the buffer, and the transmit queue. *)
Definition reply (t0 now : Z) (buses : BusInfo) (c : ClientCommand) (out : list Z) (q : TxQueue) : list Z * TxQueue :=
  match c with
  | DevInfo => (out ++ encode_dev_info, q)
  | CanbusParams => (out ++ encode_canbus_params (bi_count buses) (bi_speeds buses), q)
  | NumBuses => (out ++ encode_num_buses (bi_count buses), q)
  | Timebase => (out ++ encode_timebase (elapsed_us t0 now), q)
  | Keepalive => (out ++ encode_keepalive, q)
  | TransmitCmd bus arb_id extended data declared =>
      if Z.of_nat (length data) <? declared then (out, q)
      else match try_transmit (MkTransmit bus arb_id extended data) q with
           | Some q => (out, q)
           | None => (out, q)
           end
  end.

(** [encode_can]. *)
Definition encode_can (t0 now : Z) (s : Sample) (out : list Z) : list Z :=
  match s with
  | Can c =>
      match can_rtr c with
      | None => out ++ encode_frame (elapsed_us t0 now) (can_arb_id c) (can_extended c) (can_bus c)
                         (can_data c) (can_is_fd c)
      | Some _ => out
      end
  | _ => out
  end.

(** A receive: what was sent since the last one, and the clock. *)
Definition Arrival : Type := list Sample * Z.
Definition arrive (a : Arrival) (ch : Channel) : Channel :=
  MkChannel (sent ch ++ a.1) (backlog ch) (open ch).

(** [drain]'s state: the broadcast, the receiver's position, the buffer, and the
    frames dropped for this client. *)
Record Drain := MkDrain { d_ch : Channel; d_pos : nat; d_out : list Z; d_lagged : nat }.

(** One receive, with what comes of it; [None] when nothing more is there. *)
Definition drain_one (t0 : Z) (binary : bool) (a : Arrival) (d : Drain) : option Drain :=
  let ch := arrive a (d_ch d) in
  let '(r, pos) := try_recv_frame ch (d_pos d) in
  match r with
  | RFrame s => Some (MkDrain ch pos (if binary then encode_can t0 a.2 s (d_out d) else d_out d) (d_lagged d))
  | RLagged n => Some (MkDrain ch pos (d_out d) (d_lagged d + n))
  | REmpty | RClosed => None
  end.

(** The [try_recv] loop; past [arrivals] nothing more is sent, and the clock
    stands still. *)
Fixpoint drain_loop (fuel : nat) (t0 : Z) (binary : bool) (arrivals : list Arrival) (d : Drain) : Drain :=
  if (length (d_out d) <? WRITE_COALESCE)%nat then
    let a := default ([], 0) (head arrivals) in
    match drain_one t0 binary a d with
    | None => MkDrain (arrive a (d_ch d)) (d_pos d) (d_out d) (d_lagged d)
    | Some d' => match fuel with O => d' | S fuel => drain_loop fuel t0 binary (tail arrivals) d' end
    end
  else d.

Definition arriving (arrivals : list Arrival) : list Sample := arrivals ≫= fst.

(** The receives a drain can make: one for each frame not yet received, and one
    for a lag at each. *)
Definition drain_fuel (arrivals : list Arrival) (d : Drain) : nat :=
  (length (sent (d_ch d)) + length (arriving arrivals) - d_pos d)%nat.

(** [drain]: its first receive waits, so with nothing there the call is still
    suspended; [Gone] is its [None]. *)
Inductive Drained := Suspended | Gone | Drained_ (d : Drain).
Definition drain_client (t0 : Z) (binary : bool) (arrivals : list Arrival) (d : Drain) : Drained :=
  let a := default ([], 0) (head arrivals) in
  match drain_one t0 binary a d with
  | None => if open (d_ch d) then Suspended else Gone
  | Some d' => Drained_ (drain_loop (drain_fuel (tail arrivals) d') t0 binary (tail arrivals) d')
  end.

(** A client's task. Ghost: the commands it has sent. *)
Record GClient := MkGClient {
  g_peer : IpAddr;
  g_t0 : Z;
  g_decoder : Decoder;
  g_pos : nat;
  g_written : list Z;
  g_lags : list nat;
  g_live : bool;
  g_commands : list ClientCommand
}.

(** What [select!] finds, and whether the write that follows succeeds. An empty
    read is the end of the stream; [clock] gives the time at each command. *)
Inductive ClientEvent :=
  | CRead (bytes : list Z) (clock : nat → Z) (writes : bool)
  | CReadFailed
  | CDrain (arrivals : list Arrival) (writes : bool).

Fixpoint replies (t0 : Z) (clock : nat → Z) (k : nat) (buses : BusInfo) (cs : list ClientCommand)
    (out : list Z) (q : TxQueue) : list Z * TxQueue :=
  match cs with
  | [] => (out, q)
  | c :: cs => let '(out, q) := reply t0 (clock k) buses c out q in replies t0 clock (S k) buses cs out q
  end.

Definition disconnected (c : GClient) : GClient :=
  MkGClient (g_peer c) (g_t0 c) (g_decoder c) (g_pos c) (g_written c) (g_lags c) false (g_commands c).

(** The write at the end of [serve]'s loop. *)
Definition write_out (writes : bool) (out : list Z) (c : GClient) : GClient :=
  match out with
  | [] => c
  | _ => if writes
         then MkGClient (g_peer c) (g_t0 c) (g_decoder c) (g_pos c) (g_written c ++ out) (g_lags c) (g_live c) (g_commands c)
         else disconnected c
  end.

(** One turn of [serve]'s loop, over the broadcast and the transmit queue. *)
Definition serve_turn (buses : BusInfo) (ev : ClientEvent) (ch : Channel) (q : TxQueue) (c : GClient) :
    Channel * TxQueue * GClient :=
  match ev with
  | CReadFailed => (ch, q, disconnected c)
  | CRead bytes clock writes =>
      if bool_decide (bytes = []) then (ch, q, disconnected c)
      else
        let '(cs, dec) := feed bytes (g_decoder c) in
        let '(out, q) := replies (g_t0 c) clock 0 buses cs [] q in
        (ch, q, write_out writes out
                  (MkGClient (g_peer c) (g_t0 c) dec (g_pos c) (g_written c) (g_lags c) (g_live c) (g_commands c ++ cs)))
  | CDrain arrivals writes =>
      match drain_client (g_t0 c) (is_binary (g_decoder c)) arrivals (MkDrain ch (g_pos c) [] 0) with
      | Suspended => (ch, q, c)
      | Gone => (ch, q, disconnected c)
      | Drained_ d =>
          let lags := if (d_lagged d =? 0)%nat then g_lags c else g_lags c ++ [d_lagged d] in
          (d_ch d, q, write_out writes (d_out d)
                        (MkGClient (g_peer c) (g_t0 c) (g_decoder c) (d_pos d) (g_written c) lags (g_live c) (g_commands c)))
      end
  end.
End Client.

(** ** [transmit_loop] *)

Section TransmitLoop.
Context `{CanLib} `{CatalogueLib} `{SettingsLib}.

(** What a queued transmit puts on a bus: the interface's index, and the frame. *)
Definition transmit_one (opened : list Device) (bus_offset : Z) (t : Transmit) : option (nat * CanFrame) :=
  match index_for_bus (t_bus t) bus_offset (length opened) with
  | None => None
  | Some i =>
      match opened !! i with
      | None => None
      | Some d =>
          if bool_decide (d_mode d = Passive) then None
          else Some (i, cf_data_frame 0 (t_arb_id t) (t_extended t) false false (t_data t))
      end
  end.

(** ** The bridge: the listener, its clients and the transmits *)

Context `{GvretLib}.

(** [br_bus]: what was handed to the interfaces' writers, in order. *)
Record Bridge := MkBridge {
  br_refused : list IpAddr;
  br_count : Z;
  br_clients : list GClient;
  br_frames : Channel;
  br_tx : TxQueue;
  br_bus : list (nat * CanFrame)
}.

Definition bridge_new (backlog : nat) : Bridge :=
  MkBridge [] 0 [] (MkChannel [] backlog true) (MkTxQueue [] true) [].

(** A connection accepted at [now], a turn of a client's loop, and the transmit
    loop taking the next from its queue. *)
Inductive BridgeEvent :=
  | Connection (peer : IpAddr) (now : Z)
  | ClientTurn (k : nat) (ev : ClientEvent)
  | TransmitTurn.

Definition bridge_step (allowed : list Cidr) (buses : BusInfo) (opened : list Device) (bus_offset : Z)
    (b : Bridge) (ev : BridgeEvent) : Bridge :=
  match ev with
  | Connection peer now =>
      let '(served, _, refused) := accept allowed peer (br_refused b) in
      if served then
        let c := MkGClient peer now decoder_new (length (sent (br_frames b))) [] [] true [] in
        MkBridge refused (connected_new (br_count b)) (br_clients b ++ [c]) (br_frames b) (br_tx b) (br_bus b)
      else MkBridge refused (br_count b) (br_clients b) (br_frames b) (br_tx b) (br_bus b)
  | ClientTurn k ev =>
      match br_clients b !! k with
      | Some c =>
          if g_live c then
            let '(ch, q, c') := serve_turn buses ev (br_frames b) (br_tx b) c in
            let count := if g_live c' then br_count b else connected_drop (br_count b) in
            MkBridge (br_refused b) count (<[k := c']> (br_clients b)) ch q (br_bus b)
          else b
      | None => b
      end
  | TransmitTurn =>
      match tx_items (br_tx b) with
      | [] => b
      | t :: items =>
          MkBridge (br_refused b) (br_count b) (br_clients b) (br_frames b) (MkTxQueue items (tx_open (br_tx b)))
            (br_bus b ++ option_list (transmit_one opened bus_offset t))
      end
  end.

Definition bridge_run (allowed : list Cidr) (buses : BusInfo) (opened : list Device) (bus_offset : Z)
    (evs : list BridgeEvent) (b : Bridge) : Bridge := foldl (bridge_step allowed buses opened bus_offset) b evs.

End TransmitLoop.

(** ** A client's frames are sent, or counted *)

Section DrainFacts.
Context `{GvretLaws}.

Definition put_frame (t0 : Z) (binary : bool) (out : list Z) (x : Z * Sample) : list Z :=
  if binary then encode_can t0 x.1 x.2 out else out.

(** What a drain made of the broadcast from one state to the next: [got], each
    with the clock it was received at. *)
Definition drained_as (t0 : Z) (binary : bool) (got : list (Z * Sample)) (d d' : Drain) : Prop :=
  sent (d_ch d) `prefix_of` sent (d_ch d') ∧ backlog (d_ch d') = backlog (d_ch d) ∧
  (d_pos d ≤ d_pos d' ≤ length (sent (d_ch d')))%nat ∧
  sublist got.*2 (take (d_pos d' - d_pos d) (drop (d_pos d) (sent (d_ch d')))) ∧
  (d_pos d' + d_lagged d = d_pos d + d_lagged d' + length got)%nat ∧
  (length (sent (d_ch d')) - d_pos d ≤ backlog (d_ch d) → d_lagged d' = d_lagged d)%nat ∧
  d_out d' = foldl (put_frame t0 binary) (d_out d) got.

Lemma drained_trans t0 b g1 g2 d1 d2 d3 :
  drained_as t0 b g1 d1 d2 → drained_as t0 b g2 d2 d3 → drained_as t0 b (g1 ++ g2) d1 d3.
Proof.
  intros (Hp & Hb & Hpos & Hs & Hn & Hl & Ho) (Hp' & Hb' & Hpos' & Hs' & Hn' & Hl' & Ho').
  pose proof (prefix_length _ _ Hp'). split_and!; [by etrans|congruence|lia|lia| | | |].
  - rewrite fmap_app. destruct Hp' as [ext Hext]. rewrite Hext in *.
    replace (d_pos d3 - d_pos d1)%nat with ((d_pos d2 - d_pos d1) + (d_pos d3 - d_pos d2))%nat by lia.
    rewrite <-take_take_drop, drop_drop.
    replace (d_pos d1 + (d_pos d2 - d_pos d1))%nat with (d_pos d2) by lia.
    apply sublist_app; [|exact Hs']. rewrite drop_app_le, take_app_le; [exact Hs|rewrite length_drop; lia|lia].
  - rewrite length_app. lia.
  - rewrite Hb in Hl'. lia.
  - by rewrite Ho', Ho, foldl_app.
Qed.

Lemma drained_refl t0 b d : (d_pos d ≤ length (sent (d_ch d)))%nat → drained_as t0 b [] d d.
Proof. intros Hle. split_and!; [done|done|lia|lia|cbn; apply sublist_nil_l|cbn; lia|done|done]. Qed.

Lemma put_frame_bound t0 b out x : (length (put_frame t0 b out x) ≤ length out + MAX_FRAME_BYTES)%nat.
Proof.
  unfold put_frame, encode_can. destruct b; [|lia]. destruct x.2 as [c| |]; [|lia..].
  destruct (can_rtr c); [lia|]. rewrite length_app. pose proof (frame_fits (elapsed_us t0 x.1) (can_arb_id c)
    (can_extended c) (can_bus c) (can_data c) (can_is_fd c)). lia.
Qed.

Lemma drain_one_drained t0 b a d d' :
  (d_pos d ≤ length (sent (d_ch d)))%nat → drain_one t0 b a d = Some d' →
  (∃ got, drained_as t0 b got d d') ∧ (d_pos d < d_pos d')%nat ∧ sent (d_ch d') = sent (d_ch d) ++ a.1 ∧
  (length (d_out d') ≤ length (d_out d) + MAX_FRAME_BYTES)%nat.
Proof.
  intros Hle Hd. unfold drain_one, try_recv_frame in Hd. remember (arrive a (d_ch d)) as ch eqn:Hch.
  assert (Hsent : sent ch = sent (d_ch d) ++ a.1) by by subst.
  assert (Hback : backlog ch = backlog (d_ch d)) by by subst.
  assert (Hlen : length (sent ch) = (length (sent (d_ch d)) + length a.1)%nat) by (rewrite Hsent; by rewrite length_app).
  assert (Hpre : sent (d_ch d) `prefix_of` sent ch) by (rewrite Hsent; by eexists). clear Hch.
  destruct (Nat.ltb_spec (backlog ch) (length (sent ch) - d_pos d)) as [Hlag|Hlag].
  - injection Hd as <-. cbn [d_pos d_ch d_out]. split_and!; [|lia|done|lia]. exists [].
    unfold drained_as. cbn [d_ch d_pos d_lagged d_out].
    split_and!; [done|done|lia|lia|apply sublist_nil_l|cbn [length]; lia|lia|done].
  - destruct (sent ch !! d_pos d) as [s|] eqn:Hs; [|by destruct (open ch)]. injection Hd as <-.
    apply lookup_lt_Some in Hs as Hlt. cbn [d_pos d_ch d_out]. split_and!; [|lia|done|].
    + exists [(a.2, s)]. unfold drained_as. cbn [d_ch d_pos d_lagged d_out].
      split_and!; [done|done|lia|lia| |cbn; lia|done|by destruct b].
      replace (S (d_pos d) - d_pos d)%nat with 1%nat by lia. rewrite (drop_S _ _ _ Hs). done.
    + pose proof (put_frame_bound t0 b (d_out d) (a.2, s)) as Hb. unfold put_frame in Hb. by destruct b.
Qed.

Lemma drain_none t0 b a d :
  (d_pos d ≤ length (sent (d_ch d)))%nat → drain_one t0 b a d = None → d_pos d = length (sent (arrive a (d_ch d))).
Proof.
  intros Hle Hd. unfold drain_one, try_recv_frame in Hd. set (ch := arrive a (d_ch d)) in *.
  destruct (_ <? _)%nat; [done|]. destruct (sent ch !! d_pos d) as [s|] eqn:Hs; [done|].
  apply lookup_ge_None in Hs. unfold ch in *. cbn in *. rewrite length_app in *. lia.
Qed.

Lemma drain_loop_drained t0 b fuel : ∀ arrivals d,
  (d_pos d ≤ length (sent (d_ch d)))%nat → (drain_fuel arrivals d ≤ fuel)%nat →
  (length (d_out d) ≤ WRITE_COALESCE + MAX_FRAME_BYTES)%nat →
  let d' := drain_loop fuel t0 b arrivals d in
  (∃ got, drained_as t0 b got d d') ∧ (length (d_out d') ≤ WRITE_COALESCE + MAX_FRAME_BYTES)%nat ∧
  (d_pos d' = length (sent (d_ch d')) ∨ WRITE_COALESCE ≤ length (d_out d'))%nat.
Proof.
  induction fuel as [|fuel IH]; intros arrivals d Hle Hf Hb; cbn [drain_loop];
    (destruct (Nat.ltb_spec (length (d_out d)) WRITE_COALESCE) as [Hlt|Hge];
     [|cbv zeta; split_and!; [by exists []; apply drained_refl|done|by right]]);
    set (a := default ([], 0) (head arrivals));
    assert (Ha : (length a.1 + length (arriving (tail arrivals)) = length (arriving arrivals))%nat)
      by (unfold a, arriving; destruct arrivals; cbn; rewrite ?length_app; lia);
    (destruct (drain_one t0 b a d) as [d1|] eqn:Hd;
     [destruct (drain_one_drained _ _ _ _ _ Hle Hd) as ((g1 & Hg1) & Hpos & Hsent & Hout)|]).
  - pose proof Hg1 as (_ & _ & Hp & _). rewrite Hsent, length_app in Hp. unfold drain_fuel in Hf. lia.
  - apply drain_none in Hd as Hp; [|done]. cbv zeta. split_and!; [|done|by left]. exists [].
    split_and!; cbn; [by eexists|done|lia|rewrite length_app; lia|apply sublist_nil_l|lia|done|done].
  - destruct (IH (tail arrivals) d1) as ((g2 & Hg2) & Hb2 & Hend).
    + pose proof Hg1 as (_ & _ & Hp & _). lia.
    + unfold drain_fuel in *. rewrite Hsent, length_app. lia.
    + lia.
    + cbv zeta. split_and!; [|done|done]. exists (g1 ++ g2). by eapply drained_trans.
  - apply drain_none in Hd as Hp; [|done]. cbv zeta. split_and!; [|done|by left]. exists [].
    split_and!; cbn; [by eexists|done|lia|rewrite length_app; lia|apply sublist_nil_l|lia|done|done].
Qed.

(** A client's share of the broadcast. [drain] hands a client, in the order
    they were sent and encoded with the time each was received at, the frames
    from its position on; whatever it does not hand over it counts, exactly, and
    that is nothing while the client is within the backlog. It stops only when
    it has caught up or the buffer holds a write's worth, and the buffer never
    outgrows the capacity it was made with. It ends the connection only when
    the capture is gone and all it sent has been taken. *)
Theorem drain_accounts t0 b arrivals ch pos :
  (pos ≤ length (sent ch))%nat →
  match drain_client t0 b arrivals (MkDrain ch pos [] 0) with
  | Suspended => open ch = true ∧ pos = length (sent (arrive (default ([], 0) (head arrivals)) ch))
  | Gone => open ch = false ∧ pos = length (sent (arrive (default ([], 0) (head arrivals)) ch))
  | Drained_ d =>
      (∃ got, let slice := take (d_pos d - pos) (drop pos (sent (d_ch d))) in
        d_out d = foldl (put_frame t0 b) [] got ∧ sublist got.*2 slice ∧
        (d_lagged d + length got = length slice)%nat ∧
        ((length (sent (d_ch d)) - pos ≤ backlog ch)%nat → got.*2 = slice)) ∧
      (length (d_out d) ≤ WRITE_COALESCE + MAX_FRAME_BYTES)%nat ∧
      (d_pos d = length (sent (d_ch d)) ∨ WRITE_COALESCE ≤ length (d_out d))%nat
  end.
Proof.
  intros Hle. unfold drain_client. set (a := default _ _). set (d := MkDrain ch pos [] 0).
  destruct (drain_one t0 b a d) as [d1|] eqn:Hd.
  2:{ apply drain_none in Hd; [|done]. cbn in Hd |- *. by destruct (open ch). }
  destruct (drain_one_drained t0 b a d d1 Hle Hd) as ((g1 & Hg1) & _ & _ & Ho1).
  destruct (drain_loop_drained t0 b (drain_fuel (tail arrivals) d1) (tail arrivals) d1) as ((g2 & Hg2) & Hb & Hend);
    [apply Hg1|done|cbn in Ho1; lia|]. split; [|done]. set (d2 := drain_loop _ _ _ _ _) in *.
  destruct (drained_trans _ _ _ _ _ _ _ Hg1 Hg2) as (_ & _ & Hp & Hs & Hn & Hl & Ho). cbn in Hp, Hs, Hn, Hl, Ho.
  assert (Hlen : length (take (d_pos d2 - pos) (drop pos (sent (d_ch d2)))) = (d_pos d2 - pos)%nat)
    by (rewrite length_take, length_drop; lia).
  exists (g1 ++ g2). cbv zeta. split_and!; [done|done|lia|]. intros Hk. apply sublist_same_length; [done|].
  rewrite length_fmap. specialize (Hl Hk). lia.
Qed.
End DrainFacts.

(** ** Only what allowed clients asked for reaches a bus *)

Section BridgeFacts.
Context `{CanLib} `{CatalogueLib} `{SettingsLib} `{GvretLib}.
Context (allowed : list Cidr) (buses : BusInfo) (opened : list Device) (off : Z).

(** A transmit some client sent whole. *)
Definition asked (clients : list GClient) (t : Transmit) : Prop :=
  ∃ c declared, c ∈ clients ∧ TransmitCmd (t_bus t) (t_arb_id t) (t_extended t) (t_data t) declared ∈ g_commands c ∧
    declared ≤ Z.of_nat (length (t_data t)).

Definition bridge_ok (b : Bridge) : Prop :=
  Forall (λ c, allowed_peer allowed (g_peer c) = true) (br_clients b) ∧
  Forall (asked (br_clients b)) (tx_items (br_tx b)) ∧
  (length (tx_items (br_tx b)) ≤ TRANSMIT_QUEUE)%nat ∧
  (length (br_refused b) ≤ REFUSED_REMEMBERED)%nat ∧
  br_count b = Z.of_nat (length (filter (λ c, g_live c = true) (br_clients b))) mod u64_modulus ∧
  Forall (λ x, ∃ t, asked (br_clients b) t ∧ transmit_one opened off t = Some x) (br_bus b).

(** Every client of [l] is in [k], with what it sent and perhaps more. *)
Definition clients_grow (l k : list GClient) : Prop :=
  ∀ c, c ∈ l → ∃ c', c' ∈ k ∧ g_commands c ⊆ g_commands c'.

Lemma asked_mono l k t : clients_grow l k → asked l t → asked k t.
Proof. intros Hg (c & n & Hc & Ht & Hn). destruct (Hg c Hc) as (c' & Hc' & Hsub). exists c', n. auto. Qed.

Lemma reply_queue t0 now c out q out' q' :
  reply t0 now buses c out q = (out', q') →
  (length (tx_items q) ≤ TRANSMIT_QUEUE)%nat →
  (length (tx_items q') ≤ TRANSMIT_QUEUE)%nat ∧
  ∀ t, t ∈ tx_items q' → t ∈ tx_items q ∨
    ∃ n, c = TransmitCmd (t_bus t) (t_arb_id t) (t_extended t) (t_data t) n ∧ n ≤ Z.of_nat (length (t_data t)).
Proof.
  destruct c as [| | | | |bus arb x data n]; cbn; try by (intros [= <- <-]; auto).
  destruct (Z.ltb_spec (Z.of_nat (length data)) n) as [|Hn]; [by intros [= <- <-]; auto|]. unfold try_transmit.
  destruct (tx_open q); cbn [andb]; [|by intros [= <- <-]; auto].
  destruct (Nat.ltb_spec (length (tx_items q)) TRANSMIT_QUEUE) as [Hlt|]; [|by intros [= <- <-]; auto].
  intros [= <- <-] _. cbn. rewrite length_app. split; [cbn; lia|].
  intros t [Ht| ->%list_elem_of_singleton]%elem_of_app; [by left|]. right. by exists n.
Qed.

Lemma replies_queue t0 clock cs : ∀ k out q out' q',
  replies t0 clock k buses cs out q = (out', q') →
  (length (tx_items q) ≤ TRANSMIT_QUEUE)%nat →
  (length (tx_items q') ≤ TRANSMIT_QUEUE)%nat ∧
  ∀ t, t ∈ tx_items q' → t ∈ tx_items q ∨
    ∃ n, TransmitCmd (t_bus t) (t_arb_id t) (t_extended t) (t_data t) n ∈ cs ∧ n ≤ Z.of_nat (length (t_data t)).
Proof.
  induction cs as [|c cs IH]; cbn; intros k out q out' q' Hr Hq; [injection Hr as <- <-; auto|].
  destruct (reply t0 (clock k) buses c out q) as [o1 q1] eqn:Hre.
  destruct (reply_queue _ _ _ _ _ _ _ Hre Hq) as [Hq1 Ht1]. destruct (IH _ _ _ _ _ Hr Hq1) as [Hq2 Ht2].
  split; [done|]. intros t [Ht|(n & Hc & Hn)]%Ht2; [|right; exists n; rewrite elem_of_cons; auto].
  destruct (Ht1 t Ht) as [|(n & -> & Hn)]; [by left|]. right. exists n. rewrite elem_of_cons. auto.
Qed.

Lemma write_out_same writes out c :
  g_peer (write_out writes out c) = g_peer c ∧ g_commands (write_out writes out c) = g_commands c.
Proof. unfold write_out. destruct out; [done|]. by destruct writes. Qed.

(** A turn keeps who the client is and adds to what it has asked; what it queues
    it asked for. *)
Lemma serve_turn_queue ev ch q c ch' q' c' :
  serve_turn buses ev ch q c = (ch', q', c') → (length (tx_items q) ≤ TRANSMIT_QUEUE)%nat →
  g_peer c' = g_peer c ∧ g_commands c ⊆ g_commands c' ∧ (length (tx_items q') ≤ TRANSMIT_QUEUE)%nat ∧
  ∀ t, t ∈ tx_items q' → t ∈ tx_items q ∨
    ∃ n, TransmitCmd (t_bus t) (t_arb_id t) (t_extended t) (t_data t) n ∈ g_commands c' ∧ n ≤ Z.of_nat (length (t_data t)).
Proof.
  intros Hs Hq. destruct ev as [bytes clock w| |arr w]; cbn in Hs.
  - case_bool_decide; [simplify_eq; split_and!; auto; set_solver|]. destruct (feed bytes (g_decoder c)) as [cs dec].
    destruct (replies _ _ _ _ _ _ _) as [out q1] eqn:Hr. simplify_eq.
    destruct (replies_queue _ _ _ _ _ _ _ _ Hr Hq) as [Hq' Ht].
    destruct (write_out_same w out (MkGClient (g_peer c) (g_t0 c) dec (g_pos c) (g_written c) (g_lags c) (g_live c)
      (g_commands c ++ cs))) as [-> ->]. cbn [g_peer g_commands]. split_and!; [done|set_solver|done|].
    intros t [|(n & Hc & Hn)]%Ht; [by left|]. right. exists n. rewrite elem_of_app. auto.
  - simplify_eq. split_and!; auto; set_solver.
  - destruct (drain_client _ _ _ _) as [| |d]; simplify_eq; [split_and!; auto; set_solver..|].
    match goal with |- context[write_out w _ ?c2] => destruct (write_out_same w (d_out d) c2) as [-> ->] end.
    split_and!; auto; set_solver.
Qed.

Lemma accept_bound peer refused x y refused' :
  accept allowed peer refused = (x, y, refused') → (length refused ≤ REFUSED_REMEMBERED)%nat →
  (length refused' ≤ REFUSED_REMEMBERED)%nat ∧ (x = true → allowed_peer allowed peer = true).
Proof.
  unfold accept. destruct (allowed_peer allowed peer) eqn:Hp; [by intros [= <- <- <-]|].
  destruct (Nat.eqb_spec (length refused) REFUSED_REMEMBERED) as [He|He]; case_bool_decide;
    intros [= <- <- <-] Hle; split; try done; unfold REFUSED_REMEMBERED in *; cbn [length]; lia.
Qed.

Lemma insert_grow (l : list GClient) k c c' :
  l !! k = Some c → g_commands c ⊆ g_commands c' → clients_grow l (<[k := c']> l).
Proof.
  intros Hk Hsub x [j Hj]%list_elem_of_lookup. pose proof (lookup_lt_Some _ _ _ Hk).
  destruct (decide (j = k)) as [->|Hne].
  - simplify_eq. exists c'. split; [|done]. by apply list_elem_of_insert.
  - exists x. split; [|set_solver]. apply list_elem_of_lookup. exists j. by rewrite list_lookup_insert_ne.
Qed.

Lemma live_insert (l : list GClient) k c c' :
  l !! k = Some c → g_live c = true →
  (length (filter (λ x, g_live x = true) (<[k := c']> l)) + (if g_live c' then 0 else 1))%nat =
  length (filter (λ x, g_live x = true) l).
Proof.
  intros Hk Hc. rewrite <-(take_drop_middle l k c Hk) at 2.
  rewrite insert_take_drop by (by eapply lookup_lt_Some). rewrite !filter_app, !length_app, !filter_cons.
  destruct (decide (g_live c = true)) as [_|]; [|done].
  destruct (decide (g_live c' = true)) as [->|Hn]; [cbn [length]; lia|].
  apply not_true_is_false in Hn as ->. cbn [length]. lia.
Qed.

Lemma bridge_step_ok b ev : bridge_ok b → bridge_ok (bridge_step allowed buses opened off b ev).
Proof.
  intros (Hp & Ht & Hq & Hr & Hc & Hb). destruct ev as [peer now|k ev|]; cbn [bridge_step].
  - destruct (accept allowed peer (br_refused b)) as [[served log] refused] eqn:Ha.
    destruct (accept_bound _ _ _ _ _ Ha Hr) as [Hr' Hs]. destruct served; [|by split_and!].
    assert (Hg : ∀ c, clients_grow (br_clients b) (br_clients b ++ [c])) by (intros c x Hx; exists x; set_solver).
    unfold bridge_ok; cbn [br_clients br_tx br_refused br_count br_bus]. split_and!; [| |done|done| |].
    + apply Forall_app. split; [done|]. apply Forall_singleton. by apply Hs.
    + eapply Forall_impl; [done|]. intros t. by apply asked_mono.
    + rewrite filter_app, length_app, Hc, filter_cons_True by done. unfold connected_new.
      rewrite Zplus_mod_idemp_l. f_equal. rewrite Nat2Z.inj_add. done.
    + eapply Forall_impl; [done|]. intros x (t & Hx & Hy). exists t. split; [by eapply asked_mono|done].
  - destruct (br_clients b !! k) as [c|] eqn:Hk; [|done]. destruct (g_live c) eqn:Hl; [|done].
    destruct (serve_turn _ _ _ _ _) as [[ch q] c'] eqn:Hs.
    destruct (serve_turn_queue _ _ _ _ _ _ _ Hs Hq) as (Hpeer & Hsub & Hq' & Ht').
    pose proof (insert_grow _ _ _ _ Hk Hsub) as Hg. pose proof (live_insert _ _ _ c' Hk Hl) as Hn.
    unfold bridge_ok; cbn [br_clients br_tx br_refused br_count br_bus]. split_and!; [| |done|done| |].
    + apply Forall_insert; [done|]. rewrite Hpeer. by eapply (proj1 (Forall_lookup _ _) Hp).
    + apply Forall_forall. intros t [Hin|(n & Hin & Hle)]%Ht'.
      { eapply asked_mono; [done|]. by eapply (proj1 (Forall_forall _ _) Ht). }
      exists c', n. split; [|done]. apply list_elem_of_insert. by eapply lookup_lt_Some.
    + rewrite Hc, <-Hn. destruct (g_live c'); [by rewrite Nat.add_0_r|]. unfold connected_drop.
      rewrite Zminus_mod_idemp_l. f_equal. lia.
    + eapply Forall_impl; [done|]. intros x (t & Hx & Hy). exists t. split; [by eapply asked_mono|done].
  - destruct (tx_items (br_tx b)) as [|t items] eqn:Hi; [by unfold bridge_ok; rewrite Hi|].
    apply Forall_cons in Ht as [Ht Hts]. cbn in Hq.
    unfold bridge_ok; cbn [br_clients br_tx br_refused br_count br_bus tx_items].
    split_and!; [done|done|lia|done|done|]. apply Forall_app. split; [done|].
    destruct (transmit_one opened off t) as [x|] eqn:Hx; cbn; [|done]. apply Forall_singleton. by exists t.
Qed.

Lemma bridge_run_ok evs : ∀ b, bridge_ok b → bridge_ok (bridge_run allowed buses opened off evs b).
Proof. induction evs as [|ev evs IH]; intros b Hb; [done|]. by apply IH, bridge_step_ok. Qed.

Lemma bridge_new_ok n : bridge_ok (bridge_new n).
Proof. by unfold bridge_ok; cbn; split_and!; try apply Nat.le_0_l; try constructor. Qed.
End BridgeFacts.

(** C20: what the bridge puts on a bus. Over every interleaving of connections,
    client reads, drains and transmits, each frame written was sent, whole, by a
    client whose address is allowed, goes to the interface with the bus number
    that client named, and that interface is not passive; the transmit queue and
    the refused addresses stay within their bounds, and the client count is the
    number of clients still being served. *)
Theorem bridge_writes_are_asked `{CanLib} `{CatalogueLib} `{SettingsLib} `{GvretLib} c file ui env r buses backlog evs :
  resolve c file ui env = Ok r →
  let s := settings r in
  let b := bridge_run (allowed_clients s) buses (can_devices s) (bus_offset s) evs (bridge_new backlog) in
  (∀ i f, (i, f) ∈ br_bus b → ∃ cl d bus arb x data declared,
    cl ∈ br_clients b ∧ allowed_peer (allowed_clients s) (g_peer cl) = true ∧
    TransmitCmd bus arb x data declared ∈ g_commands cl ∧ declared ≤ Z.of_nat (length data) ∧
    can_devices s !! i = Some d ∧ d_bus d = bus ∧ d_mode d = Active ∧ f = cf_data_frame 0 arb x false false data) ∧
  (length (tx_items (br_tx b)) ≤ TRANSMIT_QUEUE)%nat ∧ (length (br_refused b) ≤ REFUSED_REMEMBERED)%nat ∧
  br_count b = Z.of_nat (length (filter (λ cl, g_live cl = true) (br_clients b))) mod u64_modulus.
Proof.
  intros Hr s b. destruct (bridge_run_ok (allowed_clients s) buses (can_devices s) (bus_offset s) evs _
    (bridge_new_ok _ _ _ backlog)) as (Hp & _ & Hq & Hre & Hc & Hb). fold b in Hp, Hq, Hre, Hc, Hb.
  split_and!; [|done|done|done]. intros i f Hin.
  destruct (proj1 (Forall_forall _ _) Hb _ Hin) as (t & (cl & n & Hcl & Hcmd & Hn) & Ht).
  unfold transmit_one in Ht. destruct (index_for_bus _ _ _) as [j|] eqn:Hj; [|done].
  destruct (can_devices s !! j) as [d|] eqn:Hd; [|done]. case_bool_decide as Hm; [done|]. simplify_eq.
  apply index_for_bus_Some in Hj as (Hoff & Hj & _).
  destruct (resolved_numbers _ _ _ _ _ i d Hr) as [Hbus _].
  { apply lookup_app_l_Some. by rewrite <-can_devices_of_kind. }
  exists cl, d, (t_bus t), (t_arb_id t), (t_extended t), (t_data t), n.
  split_and!; try done; [by eapply (proj1 (Forall_forall _ _) Hp)|rewrite Hbus; fold s; lia|by destruct (d_mode d)].
Qed.

Module GvretBench.
Import (hints) Catalogues.Bench Wire.Packed SettingsProofs.Site.

#[export] Instance codec : GvretLib := {
  MAX_FRAME_BYTES := 3;
  encode_dev_info := [1];
  encode_canbus_params n sp := n :: sp;
  encode_num_buses n := [n];
  encode_timebase t := [t];
  encode_keepalive := [222; 173];
  encode_frame t a x b d fd := [t; a; b];
  Decoder := unit;
  decoder_new := ();
  feed bs d := ((λ b, TransmitCmd b 291 false [7] 1) <$> bs, d);
  is_binary _ := true
}.
#[export] Instance codec_laws : GvretLaws.
Proof. constructor. intros. cbn. lia. Qed.

Definition peer : IpAddr := V4 2130706433.
Definition stranger : IpAddr := V4 134744072.
Definition bridge : Bridge :=
  bridge_run (allowed_clients (settings Site.site)) (MkBusInfo 4 []) (can_devices (settings Site.site))
    (bus_offset (settings Site.site))
    [Connection stranger 0; Connection peer 0; ClientTurn 0 (CRead [3] (λ _, 0) true);
     ClientTurn 0 (CRead [9] (λ _, 1) true); TransmitTurn; TransmitTurn] (bridge_new FRAME_BACKLOG).

(** A frame for bus 3 reaches the second interface, and one for bus 9 none. *)
Lemma bridge_writes_are_asked_witness :
  br_bus bridge = [(1%nat, cf_data_frame 0 291 false false false [7])] ∧
  (length (tx_items (br_tx bridge)) ≤ TRANSMIT_QUEUE)%nat ∧ length (br_clients bridge) = 1%nat.
Proof.
  destruct (bridge_writes_are_asked cli_default (Some Site.file) None Site.env Site.site (MkBusInfo 4 []) FRAME_BACKLOG
    [Connection stranger 0; Connection peer 0; ClientTurn 0 (CRead [3] (λ _, 0) true);
     ClientTurn 0 (CRead [9] (λ _, 1) true); TransmitTurn; TransmitTurn] Site.site_ok) as (_ & Hq & _).
  split_and!; [vm_compute; reflexivity|exact Hq|vm_compute; reflexivity].
Defined.

Definition heard (id : Z) : Sample := Can (MkCan 5 id false false None false false [1] 2 Rx).
Definition drain_run : Drained :=
  drain_client 0 true [([heard 10], 4); ([heard 11; heard 12], 5); ([], 6); ([], 7)]
    (MkDrain (MkChannel [heard 8; heard 9] 2 true) 0 [] 0).

(** Two frames behind a backlog of two, three more arriving: three are dropped. *)
Lemma drain_accounts_witness :
  match drain_run with
  | Drained_ d => (length (d_out d) ≤ WRITE_COALESCE + 3)%nat
  | _ => False
  end.
Proof.
  pose proof (drain_accounts 0 true [([heard 10], 4); ([heard 11; heard 12], 5); ([], 6); ([], 7)]
    (MkChannel [heard 8; heard 9] 2 true) 0 ltac:(cbn; lia)) as Hd.
  assert (Hsome : match drain_run with Drained_ d => true | _ => false end = true) by (vm_compute; reflexivity).
  unfold drain_run in *. destruct (drain_client _ _ _ _); [done|done|]. apply Hd.
Defined.
Example drained_example :
  match drain_run with Drained_ d => (d_lagged d, d_out d) | _ => (0%nat, []) end =
  (3%nat, [6; 11; 2; 7; 12; 2]).
Proof. vm_compute. reflexivity. Qed.
End GvretBench.
