(* ===== verification/Forward.v ===== *)
(** * Forwarding to a gateway ([forward.rs])

    [ForwardSink] is the sink the batcher writes to. The codec of the ingest
    protocol is a class; a TCP stream is the answers it will give, one per read
    and one per write, so that a run is a function of what the network does. A
    write or a read past the end of a script times out. *)

From S2P Require Import Prelude F64 Model Source Wire Cache CacheFifo Archive Catalogues.
Import Sample.
Local Open Scope Z_scope.

(** ** The protocol's messages *)

Record WireFrame := MkWireFrame { mtype : Z; body : list Z; crc_ok : bool }.
Record Ack := MkAck { ack_seq : Z; ack_status : Z }.
Record Device := MkDevice { d_bus : Z; d_name : string }.
Record Assignment := MkAssignment { a_bus : Z; a_blob_sha : list Z }.
Record HelloAck := MkHelloAck {
  ha_status : Z; accepted_version : Z; assignments : list Assignment
}.
Record Hello := MkHello {
  h_version : Z; h_token : string; h_database : string;
  h_daemon_id : string; h_devices : list Device
}.
Record CatalogueGet := MkCatalogueGet { get_sha : list Z; get_offset : Z }.
Record CatalogueChunk := MkCatalogueChunk {
  chunk_sha : list Z; chunk_offset : Z; chunk_status : Z; chunk_data : list Z
}.

(** [wslib_wiretap_protocol::ingest], as far as the client half uses it. *)
Class IngestLib `{ProtoLib} := {
  PROTO_VERSION : Z;
  MSG_ACK : Z; MSG_HELLO_ACK : Z; MSG_CATALOGUE : Z; MSG_CLOSE : Z; MSG_PING : Z; MSG_PONG : Z;
  ACK_OK : Z; ACK_OVERLOADED : Z; ACK_MALFORMED : Z;
  HELLO_OK : Z; HELLO_BAD_VERSION : Z; HELLO_UNAVAILABLE : Z; HELLO_BAD_DATABASE : Z;
  CATALOGUE_OK : Z; CATALOGUE_UNKNOWN : Z; CATALOGUE_UNAVAILABLE : Z;
  CLOSE_REASSIGNED : Z;
  take_frame : list Z → result string (option WireFrame) * list Z;
  encode_batch_from : Z → list (BatchRecord CanFields) → list Z * nat;
  parse_ack : list Z → result string Ack;
  encode_hello : Hello → result string (list Z);
  parse_hello_ack : list Z → result string HelloAck;
  parse_close : list Z → result string Z;
  encode_catalogue_get : CatalogueGet → list Z;
  parse_catalogue : list Z → result string CatalogueChunk;
  chunk_next : CatalogueChunk → option CatalogueGet;
  encode_catalogue_status : list (Z * ActiveCatalogue * option (list Z * Refusal)) → result string (list Z);
  encode_message : Z → list Z → list Z
}.

(** What the client relies on: this build speaks v3, a message taken is removed
    from the buffer, a batch carries at least one record of those it is given,
    and the acknowledgement statuses are told apart. *)
Class IngestLaws `{IngestLib} : Prop := {
  speaks_v3 : PROTO_VERSION = 3;
  take_frame_shrinks : ∀ rx f rx', take_frame rx = (Ok (Some f), rx') → (length rx' < length rx)%nat;
  take_frame_waits : ∀ rx rx', take_frame rx = (Ok None, rx') → rx' = rx;
  batch_carries : ∀ seq rs m n, rs ≠ [] → encode_batch_from seq rs = (m, n) → (1 ≤ n ≤ length rs)%nat;
  ack_ok_not_malformed : ACK_OK ≠ ACK_MALFORMED;
  ack_ok_not_overloaded : ACK_OK ≠ ACK_OVERLOADED
}.

(** ** The network *)

Record Stream := MkStream {
  reads : list (result string (list Z));
  writes : list bool;
  sent : list (list Z)
}.

Record Connection := MkConnection { stream : Stream; rx : list Z }.

Section Forward.
Context `{IngestLib} `{CatalogueLib} `{CacheLib} `{Sqlite}.

(** A method on a connection. *)
Definition conn_io (A : Type) : Type := io Connection SinkError A.

Definition send (bytes : list Z) : conn_io () := λ c,
  match writes (stream c) with
  | true :: ws => (Ok (), MkConnection (MkStream (reads (stream c)) ws (sent (stream c) ++ [bytes])) (rx c))
  | false :: ws => (Err (Failed "forward: write failed"),
                    MkConnection (MkStream (reads (stream c)) ws (sent (stream c))) (rx c))
  | [] => (Err (Failed "forward: timed out on write"), c)
  end.

(** One [read], within its timeout. *)
Definition read : conn_io (list Z) := λ c,
  match reads (stream c) with
  | Ok bytes :: rs => (Ok bytes, MkConnection (MkStream rs (writes (stream c)) (sent (stream c))) (rx c))
  | Err e :: rs => (Err (Failed ("forward: read failed: " +:+ e)),
                    MkConnection (MkStream rs (writes (stream c)) (sent (stream c))) (rx c))
  | [] => (Err (Failed "forward: timed out on read"), c)
  end.

Definition closed (body : list Z) : SinkError :=
  match parse_close body with
  | Ok reason =>
      if reason =? CLOSE_REASSIGNED then Closed "gateway closed the session: catalogue reassigned"
      else Closed ("gateway closed the session (reason " +:+ pretty reason +:+ ")")
  | Err e => Failed ("forward: malformed CLOSE: " +:+ e)
  end.

(** [recv_any]'s loop: every turn that goes round consumes a read. *)
Fixpoint recv_any_loop (fuel : nat) : conn_io WireFrame := λ c,
  let '(taken, rx') := take_frame (rx c) in
  let c := MkConnection (stream c) rx' in
  match taken with
  | Err e => (Err (Failed ("forward: " +:+ e)), c)
  | Ok (Some frame) =>
      if negb (crc_ok frame) then (Err (Failed "forward: bad CRC from gateway"), c)
      else if mtype frame =? MSG_CLOSE then (Err (closed (body frame)), c)
      else (Ok frame, c)
  | Ok None =>
      match read c with
      | (Err e, c) => (Err e, c)
      | (Ok [], c) => (Err (Failed "forward: gateway closed connection"), c)
      | (Ok bytes, c) =>
          match fuel with
          | O => (Err (Failed "stuck"), c)
          | S fuel => recv_any_loop fuel (MkConnection (stream c) (rx c ++ bytes))
          end
      end
  end.
Definition recv_any : conn_io WireFrame := λ c, recv_any_loop (length (reads (stream c))) c.

(** The bytes a connection may still give: each message taken uses some. *)
Definition pending_bytes (c : Connection) : nat :=
  (length (rx c) + sum_list ((λ r, match r with Ok b => length b | Err _ => 0%nat end) <$> reads (stream c)))%nat.

Fixpoint recv_loop (fuel : nat) : conn_io WireFrame :=
  frame ← recv_any;
  if negb (mtype frame =? MSG_CATALOGUE) then mret frame
  else match fuel with O => io_err (Failed "stuck") | S fuel => recv_loop fuel end.
Definition recv : conn_io WireFrame := λ c, recv_loop (pending_bytes c) c.

(** A method whose error is a [String]. *)
Definition to_string (e : SinkError) : string := match e with Failed w | Closed w => w end.
Definition stringly {A} (m : conn_io A) : io Connection string A :=
  λ c, let '(r, c') := m c in (map_err to_string r, c').

Fixpoint recv_catalog_loop (fuel : nat) (get : CatalogueGet) : io Connection string CatalogueChunk :=
  frame ← stringly recv_any;
  if negb (mtype frame =? MSG_CATALOGUE) then io_err ("a reply of type " +:+ pretty (mtype frame))
  else
    chunk ← io_lift (parse_catalogue (body frame));
    if bool_decide (chunk_sha chunk = get_sha get) && (chunk_offset chunk =? get_offset get)
    then mret chunk
    else match fuel with O => io_err "stuck" | S fuel => recv_catalog_loop fuel get end.
Definition recv_catalog (get : CatalogueGet) : io Connection string CatalogueChunk :=
  λ c, recv_catalog_loop (pending_bytes c) get c.

Definition check_status (status : Z) : result string () :=
  if status =? CATALOGUE_OK then Ok ()
  else if status =? CATALOGUE_UNKNOWN then Err "the gateway does not have it"
  else if status =? CATALOGUE_UNAVAILABLE then Err "the gateway cannot read it now"
  else Err ("CATALOGUE status=" +:+ pretty status).

Fixpoint fetch_loop (fuel : nat) (blob : list Z) (next : option CatalogueGet) :
    io Connection string (list Z) :=
  match next with
  | None => mret blob
  | Some get =>
      _ ← stringly (send (encode_catalogue_get get));
      chunk ← recv_catalog get;
      _ ← io_lift (check_status (chunk_status chunk));
      let blob := blob ++ chunk_data chunk in
      match fuel with
      | O => io_err "stuck"
      | S fuel => fetch_loop fuel blob (chunk_next chunk)
      end
  end.
Definition fetch (sha : list Z) : io Connection string (list Z) :=
  λ c, fetch_loop (pending_bytes c) [] (Some (MkCatalogueGet sha 0)) c.

(** ** The sink *)

Record ForwardSink := MkForwardSink {
  api_key : string;
  database : string;
  daemon_id : string;
  devices : list Device;
  version : Z;
  raw_serial : bool;
  seen_changes : nat;
  conn_ : option Connection;
  seq : Z;
  dead_letter : Cache.Path
}.

(** The sink with what it shares: the catalogues, the files they are kept in and
    whether the next writes to them succeed, the outcomes of the next connects
    ([None] is a failed one), the world the dead-letter cache lives in, and the
    history of the chunks that were answered: acknowledged, or refused and
    quarantined. *)
Inductive Fate := Acknowledged | Quarantined.
Record Session := MkSession {
  sink : ForwardSink;
  cats : Catalogues;
  files : Files;
  writable : list bool;
  connects : list (option Stream);
  world : World;
  answered : list (list Sample * Fate)
}.

Definition sink_io (A : Type) : Type := io Session SinkError A.

Definition with_sink (k : ForwardSink) (s : Session) : Session :=
  MkSession k (cats s) (files s) (writable s) (connects s) (world s) (answered s).
Definition with_world (w : World) (s : Session) : Session :=
  MkSession (sink s) (cats s) (files s) (writable s) (connects s) w (answered s).
Definition with_cats (c : Catalogues) (fs : Files) (ws : list bool) (s : Session) : Session :=
  MkSession (sink s) c fs ws (connects s) (world s) (answered s).
Definition with_connects (l : list (option Stream)) (s : Session) : Session :=
  MkSession (sink s) (cats s) (files s) (writable s) l (world s) (answered s).
Definition with_answer (c : list Sample) (f : Fate) (s : Session) : Session :=
  MkSession (sink s) (cats s) (files s) (writable s) (connects s) (world s) (answered s ++ [(c, f)]).
Definition set_conn (c : option Connection) (k : ForwardSink) : ForwardSink :=
  MkForwardSink (api_key k) (database k) (daemon_id k) (devices k) (version k) (raw_serial k)
    (seen_changes k) c (seq k) (dead_letter k).
Definition set_seq (n : Z) (k : ForwardSink) : ForwardSink :=
  MkForwardSink (api_key k) (database k) (daemon_id k) (devices k) (version k) (raw_serial k)
    (seen_changes k) (conn_ k) n (dead_letter k).
Definition set_version (v : Z) (k : ForwardSink) : ForwardSink :=
  MkForwardSink (api_key k) (database k) (daemon_id k) (devices k) v (raw_serial k)
    (seen_changes k) (conn_ k) (seq k) (dead_letter k).
Definition set_seen (n : nat) (k : ForwardSink) : ForwardSink :=
  MkForwardSink (api_key k) (database k) (daemon_id k) (devices k) (version k) (raw_serial k)
    n (conn_ k) (seq k) (dead_letter k).

(** [connection()?] and a method on what it gives. *)
Definition on_conn {A} (m : conn_io A) : sink_io A := λ s,
  match conn_ (sink s) with
  | None => (Err (Failed "forward: not connected"), s)
  | Some c => let '(r, c') := m c in (r, with_sink (set_conn (Some c') (sink s)) s)
  end.

Definition quarantine (chunk : list Sample) (n : Z) : sink_io () := λ s,
  let path := dead_letter (sink s) in
  let '(r, w) := match open_ path (u64_modulus - 1) (world s) with
                 | (Ok c, w) => let '(r, (_, w)) := sqlite_append chunk (c, w) in (r, w)
                 | (Err e, w) => (Err e, w)
                 end in
  match r with
  | Ok _ => (Ok (), with_world w s)
  | Err e => (Err (Failed ("forward: batch refused as malformed (seq=" +:+ pretty n +:+
                ") and not quarantined to " +:+ path +:+ ": " +:+ e)), with_world w s)
  end.

Definition send_chunk (samples : list Sample) : sink_io nat :=
  _ ← io_modify (λ s, with_sink (set_seq (wrapping_add_u32 (seq (sink s)) 1) (sink s)) s);
  st ← io_get;
  let n := seq (sink st) in
  let '(message, len) := encode_batch_from n (record <$> samples) in
  _ ← on_conn (send message);
  frame ← on_conn recv;
  if negb (mtype frame =? MSG_ACK) then io_err (Failed "forward: malformed ACK")
  else
    ack ← io_lift (map_err (λ _, Failed "forward: malformed ACK") (parse_ack (body frame)));
    let unread_seq := (ack_seq ack =? 0) && (ack_status ack =? ACK_MALFORMED) in
    if negb (ack_seq ack =? n) && negb unread_seq then
      io_err (Failed ("forward: ACK for seq=" +:+ pretty (ack_seq ack) +:+
                      " while awaiting seq=" +:+ pretty n))
    else if ack_status ack =? ACK_OK then
      _ ← io_modify (with_answer (take len samples) Acknowledged); mret len
    else if ack_status ack =? ACK_OVERLOADED then io_err (Failed "forward: gateway overloaded")
    else if ack_status ack =? ACK_MALFORMED then
      _ ← quarantine (take len samples) n;
      _ ← io_modify (with_answer (take len samples) Quarantined); mret len
    else io_err (Failed ("forward: batch nacked (seq=" +:+ pretty (ack_seq ack) +:+
                         " status=" +:+ pretty (ack_status ack) +:+ ")")).

(** [ForwardSink::new]. *)
Definition sink_new (key db daemon : string) (ds : list Device) (raw : bool) (c : Catalogues)
    (dead : Cache.Path) : ForwardSink :=
  MkForwardSink key db daemon ds PROTO_VERSION raw (changes c) None 0 dead.

(** ** The session *)

Definition hello_v2 (k : ForwardSink) : Hello := MkHello 2 (api_key k) (database k) "" [].
Definition hello (k : ForwardSink) : Hello :=
  if version k =? 2 then hello_v2 k
  else MkHello (version k) (h_token (hello_v2 k)) (h_database (hello_v2 k)) (daemon_id k) (devices k).

(** A [TcpStream::connect], within its timeout. *)
Definition tcp_connect : sink_io Stream := λ s,
  match connects s with
  | Some st :: l => (Ok st, with_connects l s)
  | None :: l => (Err (Failed "forward: connect failed"), with_connects l s)
  | [] => (Err (Failed "forward: timed out on connect"), s)
  end.

(** A new connection is a local until it has worked, so a failure drops it. *)
Definition handshake : sink_io (Connection * HelloAck) :=
  st ← tcp_connect;
  s ← io_get;
  bytes ← io_lift (map_err (λ e, Failed ("forward: cannot send HELLO: " +:+ e)) (encode_hello (hello (sink s))));
  io_lift (
    let '(r, conn) :=
      (_ ← send bytes;
       frame ← recv;
       if negb (mtype frame =? MSG_HELLO_ACK)
       then io_err (Failed "forward: no HELLO_ACK from gateway")
       else io_lift (map_err (λ e, Failed ("forward: " +:+ e)) (parse_hello_ack (body frame))))
      (MkConnection st []) in
    ack <-? r ;; Ok (conn, ack)).

Definition may_fall_back (k : ForwardSink) (ack : HelloAck) : bool :=
  (ha_status ack =? HELLO_BAD_VERSION) && (accepted_version ack =? 2) &&
  (version k =? 3) && negb (raw_serial k).

(** The catalogues and their files, as [pull] changes them. *)
Record Shared := MkShared { sh_files : Files; sh_writable : list bool; sh_conn : Connection }.

(** The next write to the state directory; past the script they succeed. *)
Definition next_write (ws : list bool) : bool * list bool :=
  match ws with [] => (true, []) | b :: ws => (b, ws) end.

Definition catalogue (c : Catalogues) (sha : list Z) (sh : Shared) :
    result Refused LineCatalogue * Shared :=
  let hex := blob_sha1_hex sha in
  match cached c hex (sh_files sh) with
  | Ok cat => (Ok cat, sh)
  | Err _ =>
      let '(r, conn) := fetch sha (sh_conn sh) in
      match r with
      | Err why => (Err (FetchFailed, why), MkShared (sh_files sh) (sh_writable sh) conn)
      | Ok blob =>
          let '(ok, ws) := next_write (sh_writable sh) in
          let '(r, fs) := store ok c hex blob (sh_files sh) in
          (r, MkShared fs ws conn)
      end
  end.

Definition assignment_of (k : ForwardSink) (l : list Assignment) (interface : string) : option Assignment :=
  match find (λ d, str_eqb (d_name d) interface) (devices k) with
  | None => None
  | Some d => find (λ a, a_bus a =? d_bus d) l
  end.

(** [pull]'s loop: the updates so far, newest last. *)
Definition pull_one (k : ForwardSink) (c : Catalogues) (l : list Assignment)
    (acc : list (string * Update) * Shared) (interface : string) : list (string * Update) * Shared :=
  let '(updates, sh) := acc in
  match assignment_of k l interface with
  | None => (updates ++ [(interface, UCleared)], sh)
  | Some a =>
      match catalogue c (a_blob_sha a) sh with
      | (Ok cat, sh) => (updates ++ [(interface, UAssigned (blob_sha1_hex (a_blob_sha a)) cat)], sh)
      | (Err (refusal, _), sh) => (updates ++ [(interface, URefused (a_blob_sha a) refusal)], sh)
      end
  end.

Definition pull (k : ForwardSink) (l : list Assignment) (c : Catalogues) (sh : Shared) :
    Catalogues * Shared :=
  let '(updates, sh) := foldl (pull_one k c l) ([], sh) (owned_by c (database k)) in
  let '(ok, ws) := next_write (sh_writable sh) in
  let '(c', fs) := apply ok updates c (sh_files sh) in
  (c', MkShared fs ws (sh_conn sh)).

(** [status_message]: mark the changes seen, and encode. *)
Definition status_message : io Session SinkError (option (list Z)) := λ s,
  let s := with_sink (set_seen (changes (cats s)) (sink s)) s in
  let st := status (cats s) ((λ d, (d_bus d, d_name d)) <$> devices (sink s)) in
  (Ok (match encode_catalogue_status st with Ok m => Some m | Err _ => None end), s).

Definition send_status_if_changed : sink_io () :=
  s ← io_get;
  if (version (sink s) =? 2) || (seen_changes (sink s) =? changes (cats s))%nat then mret ()
  else
    m ← status_message;
    match m with
    | Some message => on_conn (send message)
    | None => mret ()
    end.

(** ** [impl BatchSink for ForwardSink] *)

Definition hello_refused (k : ForwardSink) (ack : HelloAck) : SinkError :=
  let why :=
    if ha_status ack =? HELLO_BAD_VERSION then
      ": this server speaks protocol v" +:+ pretty (version k) +:+ ", the gateway v" +:+
      pretty (accepted_version ack) +:+ "; upgrade the gateway first"
    else if ha_status ack =? HELLO_UNAVAILABLE then ": the gateway's database is not available yet"
    else if ha_status ack =? HELLO_BAD_DATABASE then
      (if is_empty_str (database k)
       then ": this server names no database, and the gateway key is not pinned to a capture database; set [forward] database"
       else ": the gateway refused database " +:+ database k +:+
            ": not one of its capture databases, or missing while it does not create them")
    else "" in
  Failed ("forward: HELLO rejected (status=" +:+ pretty (ha_status ack) +:+ ")" +:+ why).

(** [connect]'s two handshakes: the second with v2, where the gateway predates v3. *)
Definition negotiate : sink_io (Connection * HelloAck) :=
  first ← handshake;
  s ← io_get;
  if may_fall_back (sink s) first.2 then
    _ ← io_modify (λ s, with_sink (set_version 2 (sink s)) s);
    handshake
  else mret first.

(** [connect] on a v3 session: pull what was assigned, and report. *)
Definition take_assignments (ack : HelloAck) (conn : Connection) : sink_io Connection :=
  conn ← (λ s, let '(c', sh) := pull (sink s) (assignments ack) (cats s)
                                  (MkShared (files s) (writable s) conn) in
               (Ok (sh_conn sh), with_cats c' (sh_files sh) (sh_writable sh) s));
  m ← status_message;
  match m with
  | Some bytes => io_lift (let '(r, conn') := send bytes conn in check r ;; Ok conn')
  | None => mret conn
  end.

Definition connect : sink_io () :=
  '(conn, ack) ← negotiate;
  s ← io_get;
  if negb (ha_status ack =? HELLO_OK) then io_err (hello_refused (sink s) ack)
  else
    conn ← (if version (sink s) =? 3 then take_assignments ack conn else mret conn);
    io_modify (λ s, with_sink (set_conn (Some conn) (sink s)) s).

(** [write_batch]'s loop: every turn delivers at least one frame. *)
Fixpoint write_loop (fuel : nat) (batch : list Sample) (n : nat) : io Session WriteError () :=
  if (n <? length batch)%nat then
    match fuel with
    | O => io_err (MkWriteError n (Failed "stuck"))
    | S fuel => λ s,
        match send_chunk (drop n batch) s with
        | (Ok len, s) => write_loop fuel batch (n + len) s
        | (Err e, s) => (Err (MkWriteError n e), s)
        end
    end
  else mret ().

Definition write_batch (batch : list Sample) : io Session WriteError () := λ s,
  match send_status_if_changed s with
  | (Err e, s) => (Err (MkWriteError 0 e), s)
  | (Ok _, s) => write_loop (length batch) batch 0 s
  end.

Definition keep_alive : sink_io () :=
  _ ← send_status_if_changed;
  _ ← on_conn (send (encode_message MSG_PING []));
  frame ← on_conn recv;
  if negb (mtype frame =? MSG_PONG) then io_err (Failed "forward: unexpected idle reply") else mret ().

Definition close (s : Session) : Session := with_sink (set_conn None (sink s)) s.
End Forward.
