(* ===== verification/ForwardProofs.v ===== *)
(** * Properties of the forward sink

    Its loops run to completion; a batch's answer is its own; what [write_batch]
    counts as delivered was acknowledged by the gateway or kept in the dead-letter
    cache; a link that carries raw serial never speaks v2; what a session pulls is
    what the catalogues may take. *)

From S2P Require Import Prelude F64 Model Source Wire Cache CacheFifo Archive Batcher Catalogues Forward.
Import Sample.
Local Open Scope Z_scope.

(** ** The receiving end *)

Section Receiving.
Context `{IngestLaws}.

Lemma read_spec c r c' :
  read c = (r, c') → rx c' = rx c ∧ sent (stream c') = sent (stream c) ∧ writes (stream c') = writes (stream c) ∧
  match r with
  | Ok b => (length (reads (stream c')) < length (reads (stream c)))%nat ∧
            (pending_bytes c' + length b = pending_bytes c)%nat
  | Err _ => (pending_bytes c' ≤ pending_bytes c)%nat
  end.
Proof.
  unfold read, pending_bytes. destruct (reads (stream c)) as [|[b|e] rs] eqn:Hr;
    intros [= <- <-]; cbn [rx stream reads sent writes]; rewrite ?Hr; cbn; split_and!; (done || lia).
Qed.

(** More fuel than reads left changes nothing. *)
Lemma recv_any_fuel f1 : ∀ f2 c,
  (length (reads (stream c)) ≤ f1)%nat → (length (reads (stream c)) ≤ f2)%nat →
  recv_any_loop f1 c = recv_any_loop f2 c.
Proof.
  induction f1 as [|f1 IH]; intros f2 c Hf1 Hf2; destruct f2 as [|f2]; try done; cbn [recv_any_loop];
    destruct (take_frame (rx c)) as [[[f|]|e] rx']; try done;
    destruct (read _) as [[[|b bs]|e] c'] eqn:Hr; try done;
    apply read_spec in Hr as (_ & _ & _ & Hlt & _); cbn [stream] in Hlt; [lia..|].
  apply IH; cbn [stream]; lia.
Qed.

Lemma recv_any_eq c :
  recv_any c =
    let '(taken, rx') := take_frame (rx c) in
    let c := MkConnection (stream c) rx' in
    match taken with
    | Err e => (Err (Failed ("forward: " +:+ e)), c)
    | Ok (Some frame) =>
        if negb (crc_ok frame) then (Err (Failed "forward: bad CRC from gateway"), c)
        else if mtype frame =? MSG_CLOSE then (Err (closed (body frame)), c)
        else (Ok frame, c)
    | Ok None =>
        match read c with
        | (Err e, c) => (Err e, c)
        | (Ok [], c) => (Err (Failed "forward: gateway closed connection"), c)
        | (Ok bytes, c) => recv_any (MkConnection (stream c) (rx c ++ bytes))
        end
    end.
Proof.
  unfold recv_any. destruct (length (reads (stream c))) as [|n] eqn:Hn; cbn [recv_any_loop];
    destruct (take_frame (rx c)) as [[[f|]|e] rx']; try done;
    destruct (read _) as [[[|b bs]|e] c'] eqn:Hr; try done;
    apply read_spec in Hr as (_ & _ & _ & Hlt & _); cbn [stream] in Hlt; [lia|].
  apply recv_any_fuel; cbn [stream]; lia.
Qed.

(** A message that arrived is intact, is not a [CLOSE], and used some bytes. *)
Lemma recv_any_spec c r c' :
  recv_any c = (r, c') →
  sent (stream c') = sent (stream c) ∧ writes (stream c') = writes (stream c) ∧
  match r with
  | Ok f => crc_ok f = true ∧ mtype f ≠ MSG_CLOSE ∧ (pending_bytes c' < pending_bytes c)%nat
  | Err _ => True
  end.
Proof.
  remember (length (reads (stream c))) as n eqn:Hn. revert c Hn.
  induction (lt_wf n) as [n _ IH]. intros c -> Hr. rewrite recv_any_eq in Hr.
  destruct (take_frame (rx c)) as [[[f|]|e] rx'] eqn:Ht; cbv zeta in Hr; [| |by injection Hr as <- <-].
  - destruct (crc_ok f) eqn:Hcrc; cbn [negb] in Hr; [|by injection Hr as <- <-].
    destruct (mtype f =? MSG_CLOSE) eqn:Hm; injection Hr as <- <-; [done|].
    apply take_frame_shrinks in Ht. unfold pending_bytes. cbn [rx stream]. split_and!; (done || lia).
  - apply take_frame_waits in Ht as ->.
    destruct (read _) as [[[|b bs]|e] c1] eqn:Hrd; pose proof (read_spec _ _ _ Hrd) as (Hx & Hs & Hw & Hrest);
      cbn [stream rx] in *; [by injection Hr as <- <-| |by injection Hr as <- <-].
    destruct Hrest as [Hlt Hp].
    destruct (IH (length (reads (stream c1))) ltac:(lia) (MkConnection (stream c1) (rx c1 ++ b :: bs)) eq_refl Hr)
      as (Hs' & Hw' & Hf). cbn [stream] in *. split_and!; [congruence..|].
    destruct r as [f|e]; [|done]. destruct Hf as (? & ? & Hlt'). split_and!; [done..|].
    unfold pending_bytes in *. cbn [stream rx] in *. rewrite Hx in *. rewrite length_app in Hlt'. lia.
Qed.

Lemma recv_fuel f1 : ∀ f2 c,
  (pending_bytes c ≤ f1)%nat → (pending_bytes c ≤ f2)%nat → recv_loop f1 c = recv_loop f2 c.
Proof.
  induction f1 as [|f1 IH]; intros f2 c Hf1 Hf2; destruct f2 as [|f2]; try done; cbn [recv_loop];
    unfold mbind, io_bind; destruct (recv_any c) as [[f|e] c1] eqn:Hr; try done;
    apply recv_any_spec in Hr as (_ & _ & _ & _ & Hlt); [lia..|].
  destruct (negb _); [done|]. apply IH; lia.
Qed.

Lemma recv_eq c :
  recv c = (frame ← recv_any; if negb (mtype frame =? MSG_CATALOGUE) then mret frame else recv) c.
Proof.
  unfold recv at 1. destruct (pending_bytes c) as [|n] eqn:Hn; cbn [recv_loop];
    unfold mbind, io_bind; destruct (recv_any c) as [[f|e] c1] eqn:Hr; try done;
    apply recv_any_spec in Hr as (_ & _ & _ & _ & Hlt); [lia..|].
  destruct (negb _); [done|]. apply recv_fuel; lia.
Qed.

Lemma recv_spec c r c' :
  recv c = (r, c') →
  sent (stream c') = sent (stream c) ∧ writes (stream c') = writes (stream c) ∧
  match r with
  | Ok f => crc_ok f = true ∧ mtype f ≠ MSG_CLOSE ∧ mtype f ≠ MSG_CATALOGUE
  | Err _ => True
  end.
Proof.
  remember (pending_bytes c) as n eqn:Hn. revert c Hn.
  induction (lt_wf n) as [n _ IH]. intros c -> Hr. rewrite recv_eq in Hr. unfold mbind, io_bind in Hr.
  destruct (recv_any c) as [[f|e] c1] eqn:Ha; apply recv_any_spec in Ha as (Hs & Hw & Hf);
    [|by injection Hr as <- <-].
  destruct Hf as (? & ? & Hlt). destruct (mtype f =? MSG_CATALOGUE) eqn:Hm; cbn [negb] in Hr.
  - destruct (IH _ Hlt c1 eq_refl Hr) as (? & ? & ?). split_and!; [congruence..|done].
  - injection Hr as <- <-. split_and!; (done || lia).
Qed.

(** *** A catalogue's chunks *)

Lemma send_spec m c r c' :
  send m c = (r, c') →
  pending_bytes c' = pending_bytes c ∧
  sent (stream c') = sent (stream c) ++ match r with Ok _ => [m] | Err _ => [] end.
Proof.
  unfold send, pending_bytes. destruct (writes (stream c)) as [|[] ws]; intros [= <- <-];
    cbn [rx stream reads sent]; by rewrite ?app_nil_r.
Qed.

Lemma recv_catalog_fuel get f1 : ∀ f2 c,
  (pending_bytes c ≤ f1)%nat → (pending_bytes c ≤ f2)%nat →
  recv_catalog_loop f1 get c = recv_catalog_loop f2 get c ∧
  match recv_catalog_loop f1 get c with
  | (Ok chunk, c') => (pending_bytes c' < pending_bytes c)%nat ∧
                      chunk_sha chunk = get_sha get ∧ chunk_offset chunk = get_offset get
  | _ => True
  end.
Proof.
  induction f1 as [|f1 IH]; intros f2 c Hf1 Hf2; destruct f2 as [|f2]; cbn [recv_catalog_loop];
    unfold mbind, io_bind, stringly, io_lift, io_err, mret, io_ret;
    destruct (recv_any c) as [[f|e] c1] eqn:Hr; cbn [map_err]; try done;
    apply recv_any_spec in Hr as (_ & _ & _ & _ & Hlt); [lia..|].
  destruct (negb _); [done|]. destruct (parse_catalogue (body f)) as [chunk|e]; [|done].
  destruct (bool_decide _ && _) eqn:Hm.
  - apply andb_true_iff in Hm as [Hm1 Hm2]. apply bool_decide_eq_true in Hm1.
    split_and!; (done || lia).
  - destruct (IH f2 c1) as [Heq Hm']; [lia..|]. rewrite Heq in *. split; [done|].
    destruct (recv_catalog_loop f2 get c1) as [[ch|e] c2]; [|done].
    destruct Hm' as (? & ? & ?). split_and!; (done || lia).
Qed.

Lemma recv_catalog_eq get c :
  recv_catalog get c =
    (frame ← stringly recv_any;
     if negb (mtype frame =? MSG_CATALOGUE) then io_err ("a reply of type " +:+ pretty (mtype frame))
     else
       chunk ← io_lift (parse_catalogue (body frame));
       if bool_decide (chunk_sha chunk = get_sha get) && (chunk_offset chunk =? get_offset get)
       then mret chunk else recv_catalog get) c.
Proof.
  unfold recv_catalog at 1. destruct (pending_bytes c) as [|n] eqn:Hn; cbn [recv_catalog_loop];
    unfold mbind, io_bind, stringly, io_lift, io_err, mret, io_ret;
    destruct (recv_any c) as [[f|e] c1] eqn:Hr; cbn [map_err]; try done;
    apply recv_any_spec in Hr as (_ & _ & _ & _ & Hlt); [lia..|].
  destruct (negb _); [done|]. destruct (parse_catalogue (body f)) as [chunk|e]; [|done].
  destruct (bool_decide _ && _); [done|]. apply recv_catalog_fuel; lia.
Qed.

Lemma fetch_fuel f1 : ∀ f2 blob next c,
  (pending_bytes c ≤ f1)%nat → (pending_bytes c ≤ f2)%nat →
  fetch_loop f1 blob next c = fetch_loop f2 blob next c.
Proof.
  induction f1 as [|f1 IH]; intros f2 blob [get|] c Hf1 Hf2; destruct f2 as [|f2]; try done; cbn [fetch_loop];
    unfold mbind, io_bind, stringly, io_lift;
    destruct (send _ c) as [[[]|e] c1] eqn:Hs; cbn [map_err]; try done;
    apply send_spec in Hs as [Hp _];
    pose proof (proj2 (recv_catalog_fuel get (pending_bytes c1) (pending_bytes c1) c1 ltac:(lia) ltac:(lia))) as Hr;
    unfold recv_catalog; destruct (recv_catalog_loop _ get c1) as [[ch|e] c2]; try done;
    destruct Hr as [Hlt _]; try lia.
  destruct (check_status _); [|done]. apply IH; lia.
Qed.

(** [fetch] as its [while let] reads: from the chunk it asks for next, with
    [blob] so far. *)
Definition fetch_from (blob : list Z) (next : option CatalogueGet) : io Connection string (list Z) :=
  λ c, fetch_loop (pending_bytes c) blob next c.
Lemma fetch_from_eq blob get c :
  fetch_from blob (Some get) c =
    (_ ← stringly (send (encode_catalogue_get get));
     chunk ← recv_catalog get;
     _ ← io_lift (check_status (chunk_status chunk));
     fetch_from (blob ++ chunk_data chunk) (chunk_next chunk)) c.
Proof.
  unfold fetch_from at 1. destruct (pending_bytes c) as [|n] eqn:Hn; cbn [fetch_loop];
    unfold mbind, io_bind, stringly, io_lift;
    destruct (send _ c) as [[[]|e] c1] eqn:Hs; cbn [map_err]; try done;
    apply send_spec in Hs as [Hp _];
    pose proof (proj2 (recv_catalog_fuel get (pending_bytes c1) (pending_bytes c1) c1 ltac:(lia) ltac:(lia))) as Hr;
    unfold recv_catalog; destruct (recv_catalog_loop _ get c1) as [[ch|e] c2]; try done;
    destruct Hr as [Hlt _]; try lia.
  destruct (check_status _); [|done]. apply fetch_fuel; lia.
Qed.
End Receiving.

(** ** Sending a batch *)

Section Sending.
Context `{IngestLaws} `{CatalogueLib} `{!CanLaws} `{CacheLib} `{SqliteLaws}.

(** A dead-letter file that can be read back. *)
Definition readable (w : World) (p : Cache.Path) : Prop := Forall row_ok (default [] (table w p)).

Definition dead_letters (s : Session) : list Sample := samples_at (world s) (dead_letter (sink s)).
Definition dead_letter_ok (s : Session) : Prop := readable (world s) (dead_letter (sink s)).

Lemma readable_opened w w' p : opened p w w' → readable w p → readable w' p.
Proof. intros [_ [Hp|Hp]]; unfold readable; rewrite Hp; [done|]. by destruct (table w p). Qed.

Lemma on_file_readable c w p : on_file c w → path c = p → readable w p.
Proof.
  intros [Hc Hok] <-. unfold readable, sqlite_ok in *. rewrite Hc in Hok.
  by destruct Hok as [_ (rs & -> & Hall & _)].
Qed.

(** A refused chunk is appended to the dead-letter file whole, or the file keeps
    what it had. *)
Lemma quarantine_spec chunk n s r s' :
  dead_letter_ok s → Forall (λ x, row_storable x = true) chunk → quarantine chunk n s = (r, s') →
  dead_letter_ok s' ∧ sink s' = sink s ∧ answered s' = answered s ∧
  dead_letters s' = dead_letters s ++ match r with Ok _ => chunk | Err _ => [] end.
Proof.
  intros Hok Hst Hq. unfold quarantine, dead_letter_ok, dead_letters in *.
  destruct (open_ _ _ (world s)) as [[c|e] w1] eqn:Ho; apply open_spec in Ho as [Hop Hc].
  2:{ injection Hq as <- <-. cbn. rewrite app_nil_r, (samples_at_opened _ _ _ _ Hop).
      split_and!; try done. by eapply readable_opened. }
  destruct Hc as (Hpath & _ & Hon). specialize (Hon Hok).
  destruct (sqlite_append chunk (c, w1)) as [r1 [c2 w2]] eqn:Ha.
  destruct (append_frame _ _ _ _ _ _ Ha (proj1 Hon)) as (Hc2 & Hp2 & _).
  destruct (sqlite_append_spec _ _ _ _ (proj2 Hon) Hst Ha) as [Hok2 Hr1].
  assert (Hon2 : on_file c2 w2) by (split; [|done]; destruct Hon; congruence).
  assert (Hdl : samples_at w2 (dead_letter (sink s)) =
    samples_at (world s) (dead_letter (sink s)) ++ match r1 with Ok _ => chunk | Err _ => [] end).
  { rewrite <-(samples_at_opened _ _ _ _ Hop), <-Hpath, <-(on_file_samples c w1 Hon), <-Hp2.
    rewrite <-(on_file_samples c2 w2 Hon2). destruct r1 as [k|e].
    - destruct Hr1 as (_ & new & -> & <-). by rewrite fmap_app.
    - by rewrite Hr1, app_nil_r. }
  assert (Hrd : readable w2 (dead_letter (sink s))) by (eapply on_file_readable; [done|congruence]).
  destruct r1; injection Hq as <- <-; by split_and!.
Qed.

Lemma on_conn_inv {A} (m : conn_io A) s r s' :
  on_conn m s = (r, s') →
  world s' = world s ∧ answered s' = answered s ∧ seq (sink s') = seq (sink s) ∧
  dead_letter (sink s') = dead_letter (sink s) ∧ cats s' = cats s ∧ files s' = files s ∧
  version (sink s') = version (sink s) ∧ raw_serial (sink s') = raw_serial (sink s) ∧
  ((conn_ (sink s) = None ∧ s' = s ∧ ∃ e, r = Err e) ∨
   ∃ c c', conn_ (sink s) = Some c ∧ conn_ (sink s') = Some c' ∧ m c = (r, c')).
Proof.
  unfold on_conn. destruct (conn_ (sink s)) as [c|] eqn:Hc.
  - destruct (m c) as [r1 c1] eqn:Hm. intros [= <- <-]. cbn. split_and!; try done. right. by exists c, c1.
  - intros [= <- <-]. split_and!; try done. left. split_and!; [done|done|by eexists].
Qed.

(** What one exchange of a chunk leaves, whatever its outcome. *)
Definition chunk_sent (samples : list Sample) (s : Session) (r : result SinkError nat) (s' : Session) : Prop :=
  let n := wrapping_add_u32 (seq (sink s)) 1 in
  dead_letter_ok s' ∧ dead_letter (sink s') = dead_letter (sink s) ∧ seq (sink s') = n ∧
  match r with
  | Ok len => ∃ m c0 c1 c2 frame ack fate,
      conn_ (sink s) = Some c0 ∧ encode_batch_from n (record <$> samples) = (m, len) ∧
      send m c0 = (Ok (), c1) ∧ recv c1 = (Ok frame, c2) ∧
      mtype frame = MSG_ACK ∧ parse_ack (body frame) = Ok ack ∧
      answered s' = answered s ++ [(take len samples, fate)] ∧
      match fate with
      | Acknowledged => ack_seq ack = n ∧ ack_status ack = ACK_OK ∧ dead_letters s' = dead_letters s
      | Quarantined => (ack_seq ack = n ∨ ack_seq ack = 0) ∧ ack_status ack = ACK_MALFORMED ∧
                       dead_letters s' = dead_letters s ++ take len samples
      end
  | Err _ => answered s' = answered s ∧ dead_letters s' = dead_letters s
  end.

(** A state that differs from [s] in the connection and the sequence number. *)
Definition same_but_conn (s s' : Session) : Prop :=
  world s' = world s ∧ answered s' = answered s ∧ dead_letter (sink s') = dead_letter (sink s) ∧
  seq (sink s') = wrapping_add_u32 (seq (sink s)) 1.

Lemma same_dead_letters s s' : same_but_conn s s' → dead_letters s' = dead_letters s.
Proof. intros (Hw & _ & Hd & _). unfold dead_letters. by rewrite Hw, Hd. Qed.
Lemma same_dead_letter_ok s s' : same_but_conn s s' → dead_letter_ok s → dead_letter_ok s'.
Proof. intros (Hw & _ & Hd & _). unfold dead_letter_ok. by rewrite Hw, Hd. Qed.

Lemma same_on_conn {A} (m : conn_io A) s s1 r s2 :
  same_but_conn s s1 → on_conn m s1 = (r, s2) → same_but_conn s s2.
Proof. intros (? & ? & ? & ?) (? & ? & ? & ? & _)%on_conn_inv. split_and!; congruence. Qed.

Lemma chunk_failed samples s s' e :
  dead_letter_ok s → same_but_conn s s' → chunk_sent samples s (Err e) s'.
Proof.
  intros Hok Hsame. split; [by eapply same_dead_letter_ok|]. rewrite (same_dead_letters _ _ Hsame).
  by destruct Hsame as (? & ? & ? & ?).
Qed.

Lemma on_conn_ok {A} (m : conn_io A) s a s' :
  on_conn m s = (Ok a, s') →
  ∃ c c', conn_ (sink s) = Some c ∧ conn_ (sink s') = Some c' ∧ m c = (Ok a, c').
Proof. intros (_ & _ & _ & _ & _ & _ & _ & _ & [(_ & _ & ? & ?)|Hc])%on_conn_inv; [done|exact Hc]. Qed.

Lemma send_chunk_spec samples s r s' :
  dead_letter_ok s → Forall (λ x, row_storable x = true) samples → send_chunk samples s = (r, s') →
  chunk_sent samples s r s'.
Proof.
  intros Hok Hst Hs. unfold send_chunk in Hs.
  io_step Hs as u s1 Hm; [|done]. injection Hm as _ Hs1.
  io_step Hs as st s1' Hm; [|done]. injection Hm as <- <-. cbv zeta in Hs.
  assert (Hsame1 : same_but_conn s s1 ∧ conn_ (sink s1) = conn_ (sink s)) by by rewrite <-Hs1.
  clear Hs1. destruct Hsame1 as [Hsame1 Hconn].
  assert (Hn : seq (sink s1) = wrapping_add_u32 (seq (sink s)) 1) by apply Hsame1. rewrite Hn in Hs.
  destruct (encode_batch_from _ (record <$> samples)) as [m len] eqn:He.
  io_step Hs as u1 s2 Hsend; pose proof (same_on_conn _ _ _ _ _ Hsame1 Hsend) as Hsame2;
    [|by apply chunk_failed].
  io_step Hs as frame s3 Hrecv; pose proof (same_on_conn _ _ _ _ _ Hsame2 Hrecv) as Hsame3;
    [|by apply chunk_failed].
  apply on_conn_ok in Hsend as (c0 & c1 & Hc0 & Hc1 & Hsend).
  destruct u1. apply on_conn_ok in Hrecv as (c1' & c2 & Hc1' & Hc2 & Hrecv). rewrite Hc1 in Hc1'. injection Hc1' as <-.
  destruct (mtype frame =? MSG_ACK) eqn:Hmt; cbn [negb] in Hs;
    [|injection Hs as <- <-; by apply chunk_failed].
  io_step Hs as ack s4 Hack; injection Hack as Hp <-; [|by apply chunk_failed].
  destruct (parse_ack (body frame)) as [ack'|] eqn:Hpa; [|done]. injection Hp as ->.
  destruct (negb _ && negb _) eqn:Hseq; [injection Hs as <- <-; by apply chunk_failed|].
  pose proof (same_dead_letters _ _ Hsame3) as Hdl3. destruct Hsame3 as (Hw3 & Ha3 & Hd3 & Hq3) eqn:Hx; clear Hx.
  destruct (ack_status ack =? ACK_OK) eqn:Hst1.
  { injection Hs as <- <-. pose proof ack_ok_not_malformed.
    split_and!; [by eapply (same_dead_letter_ok s s3)|done..|].
    exists m, c0, c1, c2, frame, ack, Acknowledged. cbn [with_answer answered].
    split_and!; (done || congruence || lia). }
  destruct (ack_status ack =? ACK_OVERLOADED); [injection Hs as <- <-; by apply chunk_failed|].
  destruct (ack_status ack =? ACK_MALFORMED) eqn:Hst2; [|injection Hs as <- <-; by apply chunk_failed].
  io_step Hs as u4 s4 Hq; apply (quarantine_spec _ _ _ _ _ (same_dead_letter_ok s s3 Hsame3 Hok) (Forall_take _ _ _ Hst)) in Hq
    as (Hok4 & Hsk4 & Ha4 & Hdl4).
  - injection Hs as <- <-. split_and!; [done|cbn; congruence..|].
    exists m, c0, c1, c2, frame, ack, Quarantined. cbn [with_answer answered].
    split_and!; try (done || congruence || lia).
    unfold dead_letters in *. cbn [with_answer world sink]. by rewrite Hdl4, Hdl3.
  - rewrite app_nil_r in Hdl4. split_and!; [done|congruence..].
Qed.

(** An exchange that succeeds carried a part of what it was given. *)
Lemma send_chunk_carries samples s r s' :
  samples ≠ [] → send_chunk samples s = (r, s') →
  match r with Ok len => (1 ≤ len ≤ length samples)%nat | Err _ => True end.
Proof.
  intros Hne Hs. unfold send_chunk in Hs.
  io_step Hs as u s1 Hm; [|done]. io_step Hs as st s1' Hm'; [|done]. cbv zeta in Hs.
  destruct (encode_batch_from _ (record <$> samples)) as [m len'] eqn:He.
  assert (Hlen : (1 ≤ len' ≤ length samples)%nat).
  { apply batch_carries in He; [by rewrite length_fmap in He|]. by destruct samples. }
  io_step Hs as u1 s2 Hm2; [|done]. io_step Hs as frame s3 Hm3; [|done].
  destruct (negb _); [by injection Hs as <- _|]. io_step Hs as ack s4 Hm4; [|done].
  destruct (negb _ && negb _); [by injection Hs as <- _|].
  destruct (_ =? ACK_OK); [by injection Hs as <- _|].
  destruct (_ =? ACK_OVERLOADED); [by injection Hs as <- _|].
  destruct (_ =? ACK_MALFORMED); [|by injection Hs as <- _].
  io_step Hs as u4 s5 Hm5; [|done]. by injection Hs as <- _.
Qed.
Lemma send_chunk_len samples s len s' :
  samples ≠ [] → send_chunk samples s = (Ok len, s') → (1 ≤ len ≤ length samples)%nat.
Proof. intros Hne Hs. exact (send_chunk_carries _ _ _ _ Hne Hs). Qed.

Lemma write_fuel batch f1 : ∀ f2 n s,
  (length batch - n ≤ f1)%nat → (length batch - n ≤ f2)%nat →
  write_loop f1 batch n s = write_loop f2 batch n s.
Proof.
  induction f1 as [|f1 IH]; intros f2 n s Hf1 Hf2; destruct f2 as [|f2]; try done; cbn [write_loop];
    destruct (Nat.ltb_spec n (length batch)) as [Hn|Hn]; try done; [lia..|].
  destruct (send_chunk _ s) as [[len|e] s1] eqn:Hs; [|done].
  apply send_chunk_len in Hs as [Hl _]; [apply IH; lia|].
  intros Hd. apply (f_equal length) in Hd. rewrite length_drop in Hd. cbn in Hd. lia.
Qed.

(** [write_batch]'s loop from the frame it has reached. *)
Definition write_from (batch : list Sample) (n : nat) : io Session WriteError () :=
  write_loop (length batch - n) batch n.
Lemma write_from_eq batch n s :
  write_from batch n s =
    if (n <? length batch)%nat then
      match send_chunk (drop n batch) s with
      | (Ok len, s) => write_from batch (n + len) s
      | (Err e, s) => (Err (MkWriteError n e), s)
      end
    else (Ok (), s).
Proof.
  unfold write_from at 1. destruct (length batch - n)%nat as [|k] eqn:Hk; cbn [write_loop];
    destruct (Nat.ltb_spec n (length batch)) as [Hn|Hn]; try done; [lia|].
  destruct (send_chunk _ s) as [[len|e] s1] eqn:Hs; [|done].
  apply send_chunk_len in Hs as [Hl _]; [apply write_fuel; lia|].
  intros Hd. apply (f_equal length) in Hd. rewrite length_drop in Hd. cbn in Hd. lia.
Qed.

(** What a chunk adds to the answers, whatever became of the dead letters. *)
Lemma send_chunk_answers samples s r s' :
  send_chunk samples s = (r, s') →
  concat (answered s').*1 = concat (answered s).*1 ++ match r with Ok len => take len samples | Err _ => [] end.
Proof.
  intros Hs. unfold send_chunk in Hs.
  assert (Hsame : ∀ x y : Session, answered y = answered x → concat (answered y).*1 = concat (answered x).*1 ++ [])
    by (intros x y ->; by rewrite app_nil_r).
  assert (Hadd : ∀ (x y : Session) l f, answered y = answered x → concat (answered (with_answer l f y)).*1 = concat (answered x).*1 ++ l).
  { intros x y l f Hxy. cbn [answered with_answer]. rewrite Hxy, fmap_app, concat_app. cbn. by rewrite app_nil_r. }
  io_step Hs as u s1 Hm; [|done]. injection Hm as _ Hs1. assert (Ha1 : answered s1 = answered s) by by rewrite <-Hs1.
  io_step Hs as st s1' Hm'; [|done]. injection Hm' as <- <-. cbv zeta in Hs.
  destruct (encode_batch_from _ (record <$> samples)) as [m len].
  io_step Hs as u1 s2 Hm2; apply on_conn_inv in Hm2 as (_ & Ha2 & _); [|apply Hsame; congruence].
  io_step Hs as frame s3 Hm3; apply on_conn_inv in Hm3 as (_ & Ha3 & _); [|apply Hsame; congruence].
  destruct (negb _); [injection Hs as <- <-; apply Hsame; congruence|].
  io_step Hs as ack s4 Hm4; injection Hm4 as _ <-; [|apply Hsame; congruence].
  destruct (negb _ && negb _); [injection Hs as <- <-; apply Hsame; congruence|].
  destruct (_ =? ACK_OK); [injection Hs as <- <-; apply Hadd; congruence|].
  destruct (_ =? ACK_OVERLOADED); [injection Hs as <- <-; apply Hsame; congruence|].
  destruct (_ =? ACK_MALFORMED); [|injection Hs as <- <-; apply Hsame; congruence].
  io_step Hs as u4 s5 Hm5; unfold quarantine in Hm5;
    destruct (match open_ _ _ _ with (Ok _, _) => _ | (Err _, _) => _ end) as [[x|e] w]; simplify_eq;
    [injection Hs as <- <-; apply Hadd; cbn; congruence|apply Hsame; cbn; congruence].
Qed.

Lemma status_same s r s' :
  send_status_if_changed s = (r, s') →
  world s' = world s ∧ answered s' = answered s ∧ dead_letter (sink s') = dead_letter (sink s) ∧
  seq (sink s') = seq (sink s) ∧ version (sink s') = version (sink s) ∧
  raw_serial (sink s') = raw_serial (sink s) ∧ cats s' = cats s ∧ files s' = files s.
Proof.
  unfold send_status_if_changed. intros Hs. io_step Hs as s1 s2 Hm; [|done]. injection Hm as <- <-.
  destruct (_ || _); [by injection Hs as <- <-|].
  io_step Hs as m s2 Hm; [|done]. injection Hm as _ <-.
  destruct m as [m|]; [|by injection Hs as <- <-].
  apply on_conn_inv in Hs as (? & ? & ? & ? & ? & ? & ? & ? & _). by split_and!.
Qed.

(** [write_batch] answers for the frames it counts, and no others. *)
Lemma write_batch_answers batch s r s' :
  write_batch batch s = (r, s') →
  (delivered_of (length batch) r ≤ length batch)%nat ∧
  concat (answered s').*1 = concat (answered s).*1 ++ take (delivered_of (length batch) r) batch.
Proof.
  assert (Hloop : ∀ fuel n s0 s r s', (n ≤ length batch)%nat →
    concat (answered s).*1 = concat (answered s0).*1 ++ take n batch →
    write_loop fuel batch n s = (r, s') →
    (delivered_of (length batch) r ≤ length batch)%nat ∧
    concat (answered s').*1 = concat (answered s0).*1 ++ take (delivered_of (length batch) r) batch).
  { clear s r s'. intros fuel. induction fuel as [|fuel IH]; intros n s0 s r s' Hn Hs Hw; cbn [write_loop] in Hw;
      destruct (Nat.ltb_spec n (length batch)) as [Hlt|Hlt].
    2,4: injection Hw as <- <-; cbn; split; [done|]; by replace (length batch) with n by lia.
    { injection Hw as <- <-. by cbn. }
    destruct (send_chunk (drop n batch) s) as [[len|e] s1] eqn:Hc;
      pose proof (send_chunk_answers _ _ _ _ Hc) as Ha.
    2:{ injection Hw as <- <-. cbn. split; [done|]. by rewrite Ha, app_nil_r. }
    apply send_chunk_len in Hc as [Hl1 Hl2].
    2:{ intros Hd. apply (f_equal length) in Hd. rewrite length_drop in Hd. cbn in Hd. lia. }
    rewrite length_drop in Hl2. apply (IH (n + len)%nat s0 s1 r s'); [lia| |exact Hw].
    by rewrite Ha, Hs, <-app_assoc, take_take_drop. }
  unfold write_batch. intros Hw. destruct (send_status_if_changed s) as [[u|e] s1] eqn:Hst;
    apply status_same in Hst as (_ & Ha & _).
  - apply (Hloop (length batch) 0%nat s s1 r s'); [lia|by rewrite Ha, app_nil_r|exact Hw].
  - injection Hw as <- <-. cbn. split; [lia|]. by rewrite Ha, app_nil_r.
Qed.

(** Chunks answered one way or the other, oldest first. *)
Definition quarantined (l : list (list Sample * Fate)) : list Sample :=
  concat ((λ x, match x.2 with Quarantined => x.1 | Acknowledged => [] end) <$> l).

Definition delivered_as (batch : list Sample) (n : nat) (chunks : list (list Sample * Fate)) (s s' : Session) : Prop :=
  concat chunks.*1 = take n batch ∧ answered s' = answered s ++ chunks ∧
  dead_letters s' = dead_letters s ++ quarantined chunks ∧ dead_letter_ok s' ∧
  dead_letter (sink s') = dead_letter (sink s).

Lemma write_loop_spec batch fuel : ∀ n chunks s0 s r s',
  (n ≤ length batch)%nat → Forall (λ x, row_storable x = true) batch → delivered_as batch n chunks s0 s →
  write_loop fuel batch n s = (r, s') →
  let k := delivered_of (length batch) r in
  (k ≤ length batch)%nat ∧ ∃ chunks', delivered_as batch k chunks' s0 s'.
Proof.
  induction fuel as [|fuel IH]; intros n chunks s0 s r s' Hn Hst Hd Hw; cbn [write_loop] in Hw;
    destruct (Nat.ltb_spec n (length batch)) as [Hlt|Hlt].
  2,4: injection Hw as <- <-; cbn; split; [done|]; exists chunks;
    replace (length batch) with n by lia; exact Hd.
  { injection Hw as <- <-. cbn. split; [done|]. by exists chunks. }
  destruct Hd as (Hc & Ha & Hq & Hok & Hdl).
  destruct (send_chunk (drop n batch) s) as [[len|e] s1] eqn:Hs;
    pose proof (send_chunk_spec _ _ _ _ Hok (Forall_drop _ _ _ Hst) Hs) as (Hok1 & Hdl1 & _ & Hr).
  2:{ injection Hw as <- <-. cbn. split; [done|]. exists chunks. destruct Hr as [Ha1 Hq1].
      split_and!; (done || congruence). }
  assert (Hne : drop n batch ≠ []).
  { intros Hd'. apply (f_equal length) in Hd'. rewrite length_drop in Hd'. cbn in Hd'. lia. }
  apply send_chunk_len in Hs as [Hl1 Hl2]; [|done]. rewrite length_drop in Hl2.
  destruct Hr as (m & c0 & c1 & c2 & frame & ack & fate & _ & _ & _ & _ & _ & _ & Ha1 & Hfate).
  eapply (IH (n + len)%nat (chunks ++ [(take len (drop n batch), fate)]) s0 s1 r s');
    [lia|exact Hst| |exact Hw].
  split_and!; [| | |done|congruence].
  - rewrite fmap_app, concat_app. cbn. rewrite Hc, app_nil_r, take_take_drop. done.
  - by rewrite Ha1, Ha, <-app_assoc.
  - unfold quarantined in *. rewrite fmap_app, concat_app. cbn. rewrite app_nil_r, app_assoc, <-Hq.
    destruct fate; destruct Hfate as (_ & _ & Hfate); by rewrite Hfate, ?app_nil_r.
Qed.

(** C5: What [write_batch] counts as delivered was delivered. The frames it
    reports, all of the batch or a prefix of it, are the frames of the chunks
    answered during the call, in order and whole; each chunk was acknowledged by
    the gateway, or refused as malformed and then appended, whole, to the
    dead-letter cache, which holds nothing else new. *)
Theorem write_batch_accounts batch s r s' :
  dead_letter_ok s → Forall (λ x, row_storable x = true) batch → write_batch batch s = (r, s') →
  let n := delivered_of (length batch) r in
  (n ≤ length batch)%nat ∧ ∃ chunks, delivered_as batch n chunks s s'.
Proof.
  intros Hok Hst Hw. unfold write_batch in Hw.
  destruct (send_status_if_changed s) as [[u|e] s1] eqn:Hs;
    apply status_same in Hs as (Hw1 & Ha1 & Hd1 & _).
  - apply (write_loop_spec batch (length batch) 0 [] s s1 r s'); [lia|done| |done].
    unfold delivered_as, dead_letters, dead_letter_ok, quarantined in *. cbn.
    rewrite Hw1, Hd1, Ha1, !app_nil_r. by split_and!.
  - injection Hw as <- <-. cbn. split; [lia|]. exists [].
    unfold delivered_as, dead_letters, dead_letter_ok, quarantined in *. cbn.
    rewrite Hw1, Hd1, Ha1, !app_nil_r. by split_and!.
Qed.

(** A chunk counts only on its own acknowledgement. When a chunk is counted,
    its message was sent whole on the connection under the next sequence number
    (modulo 2^32), the reply taken for it is intact and an [ACK], and that [ACK]
    either accepts this very sequence number, or refuses it (or an unread one) as
    malformed and the frames are in the dead-letter cache; whatever fails,
    nothing is counted and no dead letter is added. *)
Theorem chunk_counts_on_its_ack samples s r s' :
  dead_letter_ok s → Forall (λ x, row_storable x = true) samples → send_chunk samples s = (r, s') →
  chunk_sent samples s r s' ∧
  match r with
  | Ok len => ∃ m c0 c1 c2 frame, conn_ (sink s) = Some c0 ∧ send m c0 = (Ok (), c1) ∧
      sent (stream c1) = sent (stream c0) ++ [m] ∧ recv c1 = (Ok frame, c2) ∧ crc_ok frame = true
  | Err _ => True
  end.
Proof.
  intros Hok Hst Hs. pose proof (send_chunk_spec _ _ _ _ Hok Hst Hs) as Hc. split; [done|].
  destruct r as [len|e]; [|done].
  destruct Hc as (_ & _ & _ & m & c0 & c1 & c2 & frame & ack & fate & H1' & H2' & H3' & H4' & _).
  exists m, c0, c1, c2, frame. pose proof (send_spec _ _ _ _ H3') as [_ ?].
  pose proof (recv_spec _ _ _ H4') as (_ & _ & ? & _). by split_and!.
Qed.

(** The loops run to completion. The model bounds each loop of the sink by
    the bytes its connection may still give, or by the frames left to send; the
    bounds never cut a loop short: each function satisfies the equation of the
    unbounded loop in the source. *)
Theorem loops_complete :
  (∀ c, recv c = (frame ← recv_any; if negb (mtype frame =? MSG_CATALOGUE) then mret frame else recv) c) ∧
  (∀ get c, recv_catalog get c =
    (frame ← stringly recv_any;
     if negb (mtype frame =? MSG_CATALOGUE) then io_err ("a reply of type " +:+ pretty (mtype frame))
     else
       chunk ← io_lift (parse_catalogue (body frame));
       if bool_decide (chunk_sha chunk = get_sha get) && (chunk_offset chunk =? get_offset get)
       then mret chunk else recv_catalog get) c) ∧
  (∀ sha c, fetch sha c = fetch_from [] (Some (MkCatalogueGet sha 0)) c) ∧
  (∀ blob get c, fetch_from blob (Some get) c =
    (_ ← stringly (send (encode_catalogue_get get));
     chunk ← recv_catalog get;
     _ ← io_lift (check_status (chunk_status chunk));
     fetch_from (blob ++ chunk_data chunk) (chunk_next chunk)) c) ∧
  (∀ batch n s, write_from batch n s =
    if (n <? length batch)%nat then
      match send_chunk (drop n batch) s with
      | (Ok len, s) => write_from batch (n + len) s
      | (Err e, s) => (Err (MkWriteError n e), s)
      end
    else (Ok (), s)) ∧
  (∀ batch s u s1, send_status_if_changed s = (Ok u, s1) → write_batch batch s = write_from batch 0 s1).
Proof.
  split_and!; [apply recv_eq|apply recv_catalog_eq|done|apply fetch_from_eq|apply write_from_eq|].
  intros batch s u s1 Hs. unfold write_batch, write_from. by rewrite Hs, Nat.sub_0_r.
Qed.
End Sending.

(** ** Connecting *)

Section Connecting.
Context `{IngestLaws} `{CatalogueLib} `{CacheLib} `{Sqlite}.

Lemma handshake_inv s r s' :
  handshake s = (r, s') → ∃ l, s' = with_connects l s.
Proof.
  unfold handshake. intros Hs. io_step Hs as st s1 Hc.
  - assert (Hl : ∃ l, s1 = with_connects l s).
    { unfold tcp_connect in Hc. destruct (connects s) as [|[x|] l]; simplify_eq. by exists l. }
    destruct Hl as [l ->]. exists l.
    io_step Hs as s2 s3 Hg; [|done]. injection Hg as <- <-.
    io_step Hs as b s3 Hb; injection Hb as _ <-; [|done]. by injection Hs as _ <-.
  - unfold tcp_connect in Hc. destruct (connects s) as [|[x|] l] eqn:Hl; simplify_eq.
    + exists (connects s'). by destruct s'.
    + by exists l.
Qed.

(** What an operation leaves of the link: its settings and its connection, and
    what it speaks, or v2 where it spoke v3 and a gateway asked for v2. *)
Definition link_kept (k k' : ForwardSink) : Prop :=
  raw_serial k' = raw_serial k ∧ daemon_id k' = daemon_id k ∧ devices k' = devices k ∧
  database k' = database k ∧ api_key k' = api_key k ∧
  (version k' = version k ∨ version k = 3 ∧ version k' = 2 ∧ raw_serial k = false).

Lemma link_kept_refl k : link_kept k k.
Proof. by split_and!; auto. Qed.
Lemma link_kept_trans k1 k2 k3 : link_kept k1 k2 → link_kept k2 k3 → link_kept k1 k3.
Proof.
  intros (? & ? & ? & ? & ? & Hv1) (? & ? & ? & ? & ? & Hv2). split_and!; try congruence.
  destruct Hv1 as [Hv1|(? & ? & ?)], Hv2 as [Hv2|(? & ? & ?)]; [left|right|right|]; try split_and!; congruence || lia.
Qed.

Lemma negotiate_inv s r s' :
  negotiate s = (r, s') →
  link_kept (sink s) (sink s') ∧ conn_ (sink s') = conn_ (sink s) ∧ cats s' = cats s ∧
  files s' = files s ∧ writable s' = writable s.
Proof.
  unfold negotiate. intros Hs. io_step Hs as first s1 Hh; apply handshake_inv in Hh as [l1 ->].
  2:{ by split; [apply link_kept_refl|]. }
  io_step Hs as s1' s2 Hg; [|done]. injection Hg as <- <-.
  destruct (may_fall_back _ first.2) eqn:Hm; [|by injection Hs as _ <-; split; [apply link_kept_refl|]].
  io_step Hs as u s3 Hv; [|done]. injection Hv as _ <-. apply handshake_inv in Hs as [l2 ->].
  unfold may_fall_back in Hm. bool_prop. cbn in *. split; [|done].
  split_and!; try done. right. split_and!; (done || lia).
Qed.

Lemma take_assignments_inv ack conn s r s' :
  take_assignments ack conn s = (r, s') →
  link_kept (sink s) (sink s') ∧ conn_ (sink s') = conn_ (sink s) ∧
  ∃ c' sh, pull (sink s) (assignments ack) (cats s) (MkShared (files s) (writable s) conn) = (c', sh) ∧
    cats s' = c' ∧ files s' = sh_files sh ∧ writable s' = sh_writable sh.
Proof.
  unfold take_assignments. intros Hs.
  destruct (pull _ _ (cats s) _) as [c' sh] eqn:Hp.
  io_step Hs as c1 s5 Hc; rewrite Hp in Hc; [|done]. injection Hc as _ <-.
  io_step Hs as m s6 Hm; [|done]. injection Hm as _ <-.
  destruct m as [m|]; injection Hs as _ <-; (split; [by split_and!; auto|]); (split; [done|]); by exists c', sh.
Qed.

Lemma connect_inv s r s' :
  connect s = (r, s') →
  link_kept (sink s) (sink s') ∧
  match r with Ok _ => is_Some (conn_ (sink s')) | Err _ => conn_ (sink s') = conn_ (sink s) end ∧
  ((cats s' = cats s ∧ files s' = files s ∧ writable s' = writable s) ∨
   ∃ k l conn c' sh, pull k l (cats s) (MkShared (files s) (writable s) conn) = (c', sh) ∧
    cats s' = c' ∧ files s' = sh_files sh ∧ writable s' = sh_writable sh).
Proof.
  unfold connect. intros Hs. io_step Hs as session s1 Hn; apply negotiate_inv in Hn as (Hk & Hc & Hca & Hfi & Hwr);
    [|by split; [|split; [|left]]]. destruct session as [conn ack].
  io_step Hs as s1' s2 Hg; [|done]. injection Hg as <- <-.
  destruct (negb _); [injection Hs as <- <-; by split; [|split; [|left]]|].
  io_step Hs as conn' s4 Ht; (destruct (version (sink s1) =? 3);
    [apply take_assignments_inv in Ht as (Hk' & Hc' & c' & sh & Hp & Hca' & Hfi' & Hwr');
     rewrite Hca, Hfi, Hwr in Hp|]).
  - injection Hs as <- <-. split; [|split; [by eexists|right; by exists (sink s1), (assignments ack), conn, c', sh]].
    eapply link_kept_trans; [exact Hk|]. destruct Hk' as (? & ? & ? & ? & ? & ?). by split_and!.
  - injection Ht as _ <-. injection Hs as <- <-. split; [|split; [by eexists|by left]].
    destruct Hk as (? & ? & ? & ? & ? & ?). by split_and!.
  - split; [by eapply link_kept_trans|]. split; [congruence|]. right.
    by exists (sink s1), (assignments ack), conn, c', sh.
  - done.
Qed.

Lemma on_conn_kept {A} (m : conn_io A) s r s' :
  on_conn m s = (r, s') → link_kept (sink s) (sink s') ∧ cats s' = cats s ∧ files s' = files s.
Proof.
  unfold on_conn. destruct (conn_ (sink s)); [destruct (m _)|]; intros [= _ <-];
    (split; [|done]); by split_and!; auto.
Qed.

(** What keeps the link also keeps the catalogues and their files. *)
Definition idle (s s' : Session) : Prop := link_kept (sink s) (sink s') ∧ cats s' = cats s ∧ files s' = files s.
Lemma idle_trans s1 s2 s3 : idle s1 s2 → idle s2 s3 → idle s1 s3.
Proof. intros (? & ? & ?) (? & ? & ?). split; [by eapply link_kept_trans|]. split; congruence. Qed.
Lemma idle_refl s : idle s s.
Proof. split; [apply link_kept_refl|done]. Qed.

Lemma status_idle s r s' : send_status_if_changed s = (r, s') → idle s s'.
Proof.
  unfold send_status_if_changed. intros Hs. io_step Hs as s1 s2 Hm; [|done]. injection Hm as <- <-.
  destruct (_ || _); [injection Hs as _ <-; apply idle_refl|].
  io_step Hs as m s2 Hm; [|done]. injection Hm as _ <-.
  assert (Hi : idle s (with_sink (set_seen (changes (cats s)) (sink s)) s)) by (split; [by split_and!; auto|done]).
  destruct m as [m|]; [|by injection Hs as _ <-].
  eapply idle_trans; [exact Hi|]. by apply on_conn_kept in Hs.
Qed.

Lemma quarantine_idle chunk n s r s' : quarantine chunk n s = (r, s') → idle s s'.
Proof.
  unfold quarantine. intros Hq. destruct (match open_ _ _ _ with (Ok _, _) => _ | (Err _, _) => _ end) as [[u|e] w];
    injection Hq as _ <-; (split; [apply link_kept_refl|done]).
Qed.

Lemma send_chunk_idle samples s r s' : send_chunk samples s = (r, s') → idle s s'.
Proof.
  intros Hs. unfold send_chunk in Hs. io_step Hs as u s1 Hm; [|done]. injection Hm as _ Hs1.
  assert (Hi1 : idle s s1) by (rewrite <-Hs1; split; [by split_and!; auto|done]). clear Hs1.
  io_step Hs as st s1' Hm'; [|done]. injection Hm' as <- <-. cbv zeta in Hs.
  destruct (encode_batch_from _ _) as [m len].
  io_step Hs as u1 s2 Hm2; apply on_conn_kept in Hm2; pose proof (idle_trans _ _ _ Hi1 Hm2) as Hi2; [|done].
  io_step Hs as frame s3 Hm3; apply on_conn_kept in Hm3; pose proof (idle_trans _ _ _ Hi2 Hm3) as Hi3; [|done].
  destruct (negb _); [by injection Hs as _ <-|]. io_step Hs as ack s4 Hm4; injection Hm4 as _ <-; [|done].
  destruct (negb _ && negb _); [by injection Hs as _ <-|].
  destruct (_ =? ACK_OK); [by injection Hs as _ <-|].
  destruct (_ =? ACK_OVERLOADED); [by injection Hs as _ <-|].
  destruct (_ =? ACK_MALFORMED); [|by injection Hs as _ <-].
  io_step Hs as u4 s5 Hm5; apply quarantine_idle in Hm5; pose proof (idle_trans _ _ _ Hi3 Hm5) as Hi5; [|done].
  by injection Hs as _ <-.
Qed.

Lemma write_batch_idle batch s r s' : write_batch batch s = (r, s') → idle s s'.
Proof.
  assert (Hloop : ∀ fuel n s r s', write_loop fuel batch n s = (r, s') → idle s s').
  { clear. intros fuel. induction fuel as [|fuel IH]; intros n s r s' Hw; cbn [write_loop] in Hw;
      (destruct (n <? length batch)%nat; [|injection Hw as _ <-; apply idle_refl]).
    - injection Hw as _ <-. apply idle_refl.
    - destruct (send_chunk _ s) as [[len|e] s1] eqn:Hs; apply send_chunk_idle in Hs.
      + eapply idle_trans; [exact Hs|]. by eapply IH.
      + by injection Hw as _ <-. }
  unfold write_batch. intros Hw.
  destruct (send_status_if_changed s) as [[u|e] s1] eqn:Hs; apply status_idle in Hs.
  - eapply idle_trans; [exact Hs|]. by eapply Hloop.
  - by injection Hw as _ <-.
Qed.

Lemma keep_alive_idle s r s' : keep_alive s = (r, s') → idle s s'.
Proof.
  unfold keep_alive. intros Hs.
  io_step Hs as u s1 Hm1; apply status_idle in Hm1; [|done].
  io_step Hs as u1 s2 Hm2; apply on_conn_kept in Hm2; pose proof (idle_trans _ _ _ Hm1 Hm2) as Hi2; [|done].
  io_step Hs as f s3 Hm3; apply on_conn_kept in Hm3; pose proof (idle_trans _ _ _ Hi2 Hm3) as Hi3; [|done].
  by destruct (negb _); injection Hs as _ <-.
Qed.

(** *** The life of a link *)

(** What happens to a link: its own operations, and whatever the network, the
    catalogues and the disk do meanwhile. *)
Inductive link_step : Session → Session → Prop :=
  | L_connect s r s' : connect s = (r, s') → link_step s s'
  | L_write batch s r s' : write_batch batch s = (r, s') → link_step s s'
  | L_keep_alive s r s' : keep_alive s = (r, s') → link_step s s'
  | L_close s : link_step s (close s)
  | L_outside s s' : sink s' = sink s → link_step s s'.

Lemma link_step_kept s s' : link_step s s' → link_kept (sink s) (sink s').
Proof.
  intros [s1 r s2 Hs|batch s1 r s2 Hs|s1 r s2 Hs|s1|s1 s2 Hs].
  - by apply connect_inv in Hs as [? _].
  - by apply write_batch_idle in Hs as [? _].
  - by apply keep_alive_idle in Hs as [? _].
  - by split_and!; auto.
  - rewrite Hs. apply link_kept_refl.
Qed.

(** A link that carries raw serial never falls back. Whatever gateways
    answer, a link speaks v3, or v2 for good once it fell back; one that carries
    raw serial, which v2 cannot carry, greets every gateway with v3, its daemon
    and its devices. *)
Theorem raw_serial_stays_v3 key db daemon ds raw c dead s s' :
  sink s = sink_new key db daemon ds raw c dead → rtc link_step s s' →
  (version (sink s') = 3 ∨ version (sink s') = 2 ∧ raw = false ∧
     ∀ s'', rtc link_step s' s'' → version (sink s'') = 2) ∧
  (raw = true → hello (sink s') = MkHello 3 key db daemon ds).
Proof.
  intros Hnew Hst.
  assert (Hkept : ∀ s s', rtc link_step s s' → link_kept (sink s) (sink s')).
  { clear. induction 1 as [|x y z Hxy _ IH]; [apply link_kept_refl|].
    eapply link_kept_trans; [by apply link_step_kept|done]. }
  pose proof (Hkept _ _ Hst) as (Hr & Hd & Hds & Hdb & Hk & Hv). rewrite Hnew in *. cbn in *.
  rewrite speaks_v3 in *. split.
  - destruct Hv as [Hv|(_ & Hv & Hraw)]; [by left|right]. split_and!; [done..|].
    intros s'' Hst'. destruct (Hkept _ _ Hst') as (_ & _ & _ & _ & _ & Hv'). lia.
  - intros ->. destruct Hv as [Hv|(_ & _ & ?)]; [|done].
    unfold hello. rewrite Hv. cbn. by rewrite Hd, Hds, Hdb, Hk.
Qed.

(** *** What a session pulls *)

Lemma catalogue_inv c sha sh r sh' :
  catalogue c sha sh = (r, sh') →
  rtc step (c, sh_files sh) (c, sh_files sh') ∧
  (∀ x cat, cached c x (sh_files sh) = Ok cat → cached c x (sh_files sh') = Ok cat) ∧
  (Forall (λ b, b = true) (sh_writable sh) → Forall (λ b, b = true) (sh_writable sh')) ∧
  match r with Ok cat => cached c (blob_sha1_hex sha) (sh_files sh') = Ok cat | Err _ => True end.
Proof.
  unfold catalogue. destruct (cached c (blob_sha1_hex sha) (sh_files sh)) as [cat|e] eqn:Hc.
  { intros [= <- <-]. by split_and!. }
  destruct (fetch sha (sh_conn sh)) as [[blob|why] conn]; [|intros [= <- <-]; by split_and!].
  destruct (next_write (sh_writable sh)) as [ok ws] eqn:Hw.
  destruct (store ok c _ blob (sh_files sh)) as [r0 fs] eqn:Hst. intros [= <- <-]. cbn.
  assert (Hg : ∀ path old cat, blob_path c (blob_sha1_hex sha) = Some path → sh_files sh !! path = Some old →
    cached c (blob_sha1_hex sha) (sh_files sh) = Ok cat → old = blob) by by rewrite Hc.
  split_and!.
  - apply rtc_once. by eapply Step_store.
  - intros x cat. by eapply store_keeps_cached.
  - intros Hall. destruct (sh_writable sh); injection Hw as <- <-; [done|by apply Forall_cons in Hall as [_ ?]].
  - destruct r0 as [cat|]; [|done]. unfold store in Hst. destruct (blob_path _ _) as [path|] eqn:Hp; [|done].
    destruct (checked _ blob path) as [cat'|] eqn:Hck; [|done]. unfold write_atomically in Hst.
    destruct ok; [|done]. injection Hst as <- <-.
    apply (cached_intro _ _ _ _ path blob); [done|by rewrite lookup_insert_eq|done].
Qed.

Lemma pull_fold_inv k c l names : ∀ us sh us' sh',
  Forall (update_ok c (sh_files sh)) us →
  foldl (pull_one k c l) (us, sh) names = (us', sh') →
  rtc step (c, sh_files sh) (c, sh_files sh') ∧ Forall (update_ok c (sh_files sh')) us' ∧
  (Forall (λ b, b = true) (sh_writable sh) → Forall (λ b, b = true) (sh_writable sh')).
Proof.
  induction names as [|i names IH]; intros us sh us' sh' Hus Hf; [by injection Hf as <- <-|].
  cbn [foldl] in Hf. destruct (pull_one k c l (us, sh) i) as [us1 sh1] eqn:H1'.
  assert (Hone : rtc step (c, sh_files sh) (c, sh_files sh1) ∧ Forall (update_ok c (sh_files sh1)) us1 ∧
    (Forall (λ b, b = true) (sh_writable sh) → Forall (λ b, b = true) (sh_writable sh1))).
  { unfold pull_one in H1'. destruct (assignment_of k l i) as [a|].
    2:{ injection H1' as <- <-. split_and!; [done| |done]. apply Forall_app. by repeat constructor. }
    destruct (catalogue c (a_blob_sha a) sh) as [r sh2] eqn:Hc. apply catalogue_inv in Hc as (Hst & Hmono & Hw & Hr).
    assert (Hus2 : Forall (update_ok c (sh_files sh2)) us).
    { eapply Forall_impl; [exact Hus|]. intros [j [sha cat| |]]; try done. apply Hmono. }
    destruct r as [cat|[refusal why]]; injection H1' as <- <-; split_and!; try done;
      apply Forall_app; (split; [done|]); by repeat constructor. }
  destruct Hone as (Hst1 & Hus1 & Hw1). destruct (IH _ _ _ _ Hus1 Hf) as (Hst2 & Hus2 & Hw2).
  split_and!; [by etrans|done|auto].
Qed.

(** What a session pulls is what the catalogues' steps allow. *)
Lemma pull_steps k l c sh c' sh' :
  Forall (λ b, b = true) (sh_writable sh) → pull k l c sh = (c', sh') →
  rtc step (c, sh_files sh) (c', sh_files sh') ∧ Forall (λ b, b = true) (sh_writable sh').
Proof.
  intros Hall. unfold pull. destruct (foldl _ _ _) as [us sh1] eqn:Hf.
  apply pull_fold_inv in Hf as (Hst & Hus & Hw); [|constructor]. specialize (Hw Hall).
  destruct (next_write (sh_writable sh1)) as [ok ws] eqn:Hnw.
  destruct (apply ok us c (sh_files sh1)) as [c1 fs] eqn:Ha. intros [= <- <-]. cbn.
  assert (ok = true ∧ Forall (λ b, b = true) ws) as [-> Hws].
  { destruct (sh_writable sh1); injection Hnw as <- <-; [done|]. by apply Forall_cons in Hw. }
  split; [|done]. eapply rtc_r; [exact Hst|]. by eapply Step_apply.
Qed.

(** The life of a link whose state directory can be written, beside the other
    sessions' use of the same catalogues. *)
Inductive session_step : Session → Session → Prop :=
  | S_connect s r s' : Forall (λ b, b = true) (writable s) → connect s = (r, s') → session_step s s'
  | S_write batch s r s' : write_batch batch s = (r, s') → session_step s s'
  | S_keep_alive s r s' : keep_alive s = (r, s') → session_step s s'
  | S_close s : session_step s (close s)
  | S_others s s' : rtc step (cats s, files s) (cats s', files s') → session_step s s'.

Lemma session_step_catalogues s s' :
  session_step s s' → rtc step (cats s, files s) (cats s', files s').
Proof.
  intros [s1 r s2 Hw Hs|batch s1 r s2 Hs|s1 r s2 Hs|s1|s1 s2 Hs].
  - apply connect_inv in Hs as (_ & _ & [(-> & -> & _)|(k & l & conn & c' & sh & Hp & <- & -> & _)]); [done|].
    by apply (pull_steps k l _ (MkShared (files s1) (writable s1) conn)) in Hp as [? _].
  - apply write_batch_idle in Hs as (_ & -> & ->). done.
  - apply keep_alive_idle in Hs as (_ & -> & ->). done.
  - done.
  - done.
Qed.

(** C34: What a session was assigned survives a restart. Over any life of the
    sessions of a server, with any gateways answering anything, while the state
    directory can be written: a server started again over the files they left, no
    gateway in reach, frames every line that had a gateway's catalogue with that
    same catalogue, and every unassigned line with its own. *)
Theorem assignments_survive_restart d ls fs0 s s' i r :
  cats s = new (Some d) ls fs0 → files s = fs0 → rtc session_step s s' →
  effective (cats s') i = Some r → (∃ sha cat, r = Gateway sha cat) ∨ assigned (cats s') !! i = None →
  effective (new (Some d) ls (files s')) i = Some r.
Proof.
  intros Hc Hf Hst. apply (restart_frames d ls fs0 (cats s')). rewrite <-Hc, <-Hf. clear Hc Hf.
  induction Hst as [|x y z Hxy Hyz IH]; [done|]. etrans; [by apply session_step_catalogues|done].
Qed.
End Connecting.

(** ** A gateway to run against *)

(** Messages as a type, a length and a body; a batch of at most two records. *)
Module Toy.
Import (hints) Wire.Packed CacheFifo.Disk Catalogues.Bench.

Definition toy_take_frame (l : list Z) : result string (option WireFrame) * list Z :=
  match l with
  | t :: n :: rest =>
      if (Z.to_nat n <=? length rest)%nat
      then (Ok (Some (MkWireFrame t (take (Z.to_nat n) rest) true)), drop (Z.to_nat n) rest)
      else (Ok None, l)
  | _ => (Ok None, l)
  end.
Definition message (t : Z) (b : list Z) : list Z := t :: Z.of_nat (length b) :: b.
Definition toy_batch (n : Z) (rs : list (BatchRecord CanFields)) : list Z * nat :=
  (message 20 [n; Z.of_nat (2 `min` length rs)], (2 `min` length rs)%nat).

#[export] Instance ingest : IngestLib := {
  PROTO_VERSION := 3;
  MSG_ACK := 1; MSG_HELLO_ACK := 2; MSG_CATALOGUE := 3; MSG_CLOSE := 4; MSG_PING := 5; MSG_PONG := 6;
  ACK_OK := 0; ACK_OVERLOADED := 1; ACK_MALFORMED := 2;
  HELLO_OK := 0; HELLO_BAD_VERSION := 2; HELLO_UNAVAILABLE := 3; HELLO_BAD_DATABASE := 4;
  CATALOGUE_OK := 0; CATALOGUE_UNKNOWN := 1; CATALOGUE_UNAVAILABLE := 2;
  CLOSE_REASSIGNED := 1;
  take_frame := toy_take_frame;
  encode_batch_from := toy_batch;
  parse_ack b := match b with [n; st] => Ok (MkAck n st) | _ => Err "truncated" end;
  encode_hello h := Ok (message 21 [h_version h]);
  parse_hello_ack b := match b with
    | [st; v] => Ok (MkHelloAck st v [])
    | [st; v; b; x; y] => Ok (MkHelloAck st v [MkAssignment b [x; y]])
    | _ => Err "truncated"
    end;
  parse_close b := match b with [r] => Ok r | _ => Err "truncated" end;
  encode_catalogue_get g := message 22 (get_offset g :: get_sha g);
  parse_catalogue b := match b with
    | x :: y :: o :: st :: data => Ok (MkCatalogueChunk [x; y] o st data)
    | _ => Err "truncated"
    end;
  chunk_next c := None;
  encode_catalogue_status l := Ok (message 23 [Z.of_nat (length l)]);
  encode_message := message
}.

#[export] Instance ingest_laws : IngestLaws.
Proof.
  split; [done| | | |done|done].
  - intros [|t [|n rest]] f rx' Hf; try done. cbn [take_frame ingest] in Hf. unfold toy_take_frame in Hf.
    destruct (_ <=? _)%nat; [|done]. injection Hf as <- <-. rewrite length_drop. cbn [length]. lia.
  - intros [|t [|n rest]] rx' Hf; cbn [take_frame ingest] in Hf; unfold toy_take_frame in Hf; try by injection Hf.
    destruct (_ <=? _)%nat; [done|]. by injection Hf.
  - intros n rs m k Hne [= <- <-]. destruct rs as [|b [|b' rs]]; [done|..]; cbn [length]; lia.
Qed.

Definition stream_of (l : list (list Z)) : Stream :=
  MkStream (Ok <$> l) (replicate 9 true) [].
Definition up (k : ForwardSink) (l : list (list Z)) : ForwardSink :=
  set_conn (Some (MkConnection (stream_of l) [])) k.
Definition link : ForwardSink :=
  sink_new "key" "site" "bench" [MkDevice 1 Bench.tty] true Bench.start "dead.db".
Definition session_of (k : ForwardSink) (gateways : list (option Stream)) : Session :=
  MkSession k Bench.start ∅ [] gateways empty_disk [].

(** Three frames in two chunks: the first acknowledged, after a catalogue nobody
    waits for any more and in two reads; the second refused as malformed. *)
Definition frames : list Sample := [sample_frame; modbus_frame; sample_frame].
Definition refusing : Session :=
  session_of (up link [message 3 [7; 7; 0; 0]; [1; 2; 1]; [0]; message 1 [2; 2]]) [].

Lemma frames_storable : Forall (λ x, row_storable x = true) frames.
Proof. repeat constructor. Qed.
Lemma refusing_ok : dead_letter_ok refusing.
Proof. by apply Forall_nil. Qed.

Lemma write_batch_accounts_witness :
  is_ok (write_batch frames refusing).1 = true ∧
  ∃ chunks, delivered_as frames 3 chunks refusing (write_batch frames refusing).2.
Proof.
  destruct (write_batch frames refusing) as [r s'] eqn:Hw.
  assert (Hr : r = Ok ()) by (apply (f_equal fst) in Hw; vm_compute in Hw; by symmetry).
  split; [by rewrite Hr|].
  destruct (write_batch_accounts frames refusing r s' refusing_ok frames_storable Hw) as [_ Hc].
  by rewrite Hr in Hc.
Defined.

Lemma chunk_counts_on_its_ack_witness :
  chunk_sent frames refusing (Ok 2%nat) (send_chunk frames refusing).2.
Proof.
  destruct (send_chunk frames refusing) as [r s'] eqn:Hw.
  assert (Hr : r = Ok 2%nat) by (apply (f_equal fst) in Hw; vm_compute in Hw; by symmetry).
  rewrite Hr in Hw.
  exact (proj1 (chunk_counts_on_its_ack frames refusing (Ok 2%nat) s' refusing_ok frames_storable Hw)).
Defined.

(** A catalogue nobody waits for, then an acknowledgement in two reads. *)
Definition two_messages : Connection :=
  MkConnection (stream_of [message 3 [7; 7; 0; 0]; [1; 2; 1]; [0]]) [].
Lemma loops_complete_witness :
  is_ok (recv two_messages).1 = true ∧
  recv two_messages =
    (frame ← recv_any; if negb (mtype frame =? MSG_CATALOGUE) then mret frame else recv) two_messages.
Proof. split; [vm_compute; reflexivity|]. exact (proj1 loops_complete two_messages). Defined.

(** A gateway that predates v3, and a line that carries raw serial: refused. *)
Definition old_gateway : Session := session_of link [Some (stream_of [message 2 [2; 2]])].
Lemma raw_serial_stays_v3_witness :
  is_ok (connect old_gateway).1 = false ∧
  hello (sink (connect old_gateway).2) = MkHello 3 "key" "site" "bench" [MkDevice 1 Bench.tty].
Proof.
  split; [vm_compute; reflexivity|].
  destruct (connect old_gateway) as [r s'] eqn:Hc.
  apply (raw_serial_stays_v3 "key" "site" "bench" [MkDevice 1 Bench.tty] true Bench.start "dead.db" old_gateway s');
    [done| |done].
  apply rtc_once. by apply (L_connect _ r).
Defined.

(** A gateway that assigns the line a catalogue and serves it. *)
Definition assigning : Session :=
  session_of link [Some (stream_of [message 2 ([0; 3; 1] ++ blob_sha1 Bench.blob);
                                    message 3 (blob_sha1 Bench.blob ++ [0; 0] ++ Bench.blob)])].
Lemma assignments_survive_restart_witness :
  effective (new (Some "/var/lib/wiretap") Bench.spec (files (connect assigning).2)) Bench.tty
  = Some (Gateway Bench.sha Bench.cat).
Proof.
  destruct (connect assigning) as [r s'] eqn:Hc.
  assert (He : effective (cats s') Bench.tty = Some (Gateway Bench.sha Bench.cat)).
  { apply (f_equal (λ x, effective (cats x.2) Bench.tty)) in Hc. vm_compute in Hc. by symmetry. }
  apply (assignments_survive_restart "/var/lib/wiretap" Bench.spec ∅ assigning s'); [done|done| |exact He|].
  - apply rtc_once. by apply (S_connect _ r); [constructor|].
  - left. by exists Bench.sha, Bench.cat.
Defined.
End Toy.
