(* ===== verification/Listener.v ===== *)
(** * The ingest listener ([ingest.rs])

    Frames pushed to the daemon by devices too small to reach the gateway. The
    session's protocol is the library's [ServerSession], a machine that is fed
    bytes and polled for actions; this file's part is the answer to each action:
    who may speak, and whether a batch goes into the archive's queue. The queue is
    shared with the readers, the taps and the other sessions, which may step in
    before each of a session's operations on it. *)

From S2P Require Import Prelude F64 Model Source Wire Cache CacheFifo Archive Cidr Catalogues Settings Forward ForwardProofs.
Import Sample.
Local Open Scope Z_scope.

Definition REFUSE_ABOVE_PCT : Z := 99.
Definition IDLE_MULTIPLIER : Z := 3.

(** ** [ServerSession], [Attempts] and [Secret] *)

Inductive ShortBatch := ShortClose | ShortNack.

Record ServerConfig := MkServerConfig {
  versions : Z * Z;
  max_records : nat;
  short_batch : ShortBatch;
  idle_limit : option f64
}.

(** A [HELLO] as the machine read it: the token is bytes. *)
Record HelloIn := MkHelloIn { hi_token : list Z; hi_database : string }.

Inductive CloseReason := ClosedFraming | ClosedOther.

Section Actions.
Context (Batch : Type).
Inductive Action :=
  | AReply (bytes : list Z)
  | AHello (hello : HelloIn)
  | AHelloRefused (status : Z)
  | ABatch (batch : Batch) (time_relative : bool)
  | ANack (seq status : Z)
  | ACatalogueGet
  | ACatalogueStatus
  | AClose (why : CloseReason).
End Actions.
Arguments AReply {_}. Arguments AHello {_}. Arguments AHelloRefused {_}. Arguments ABatch {_}.
Arguments ANack {_}. Arguments ACatalogueGet {_}. Arguments ACatalogueStatus {_}. Arguments AClose {_}.

Class SessionLib := {
  HELLO_BAD_AUTH : Z;
  Batch : Type;
  batch_seq : Batch → Z;
  stamped : bool → Z → Batch → list (Z * WireRecord);
  Machine : Type;
  session_new : ServerConfig → Machine;
  receive_bytes : list Z → Machine → Machine;
  poll : Machine → option (Action Batch * Machine);
  answer_hello : Z → Z → Machine → result string (list Z) * Machine;
  ack : Z → Z → Z → Machine → list Z * Machine;
  answer_catalogue : Z → Machine → list Z * Machine;
  Attempts : Type;
  attempts_default : Attempts;
  admit_peer : IpAddr → Attempts → result string Attempts;
  succeeded : IpAddr → Attempts → Attempts;
  matches : string → string → bool
}.

(** What the listener relies on. Polling uses up what was received; an answer
    is made of the last action and adds none; a batch the machine hands over
    holds no more records than it was configured for; with no assignments an
    answer to a [HELLO] is made; a secret matches itself alone. *)
Class SessionLaws `{SessionLib} := {
  pending : Machine → nat;
  limit : Machine → nat;
  new_limit : ∀ c, limit (session_new c) = max_records c;
  receive_limit : ∀ b m, limit (receive_bytes b m) = limit m;
  poll_uses : ∀ m a m', poll m = Some (a, m') → (pending m' < pending m)%nat ∧ limit m' = limit m;
  poll_batch : ∀ m b rel m' now, poll m = Some (ABatch b rel, m') → (length (stamped rel now b) ≤ limit m)%nat;
  hello_answered : ∀ st now m, ∃ bytes m', answer_hello st now m = (Ok bytes, m') ∧
    (pending m' ≤ pending m)%nat ∧ limit m' = limit m;
  ack_kept : ∀ seq st pct m, let m' := (ack seq st pct m).2 in (pending m' ≤ pending m)%nat ∧ limit m' = limit m;
  catalogue_kept : ∀ st m, let m' := (answer_catalogue st m).2 in (pending m' ≤ pending m)%nat ∧ limit m' = limit m;
  matches_eq : ∀ a b, matches a b = true ↔ a = b
}.

(** ** The listener *)

Section Listener.
Context `{IngestLib} `{SessionLib}.

Record Config := MkConfig { token : string; session : ServerConfig; relays_raw_serial : bool }.

(** [Server::bind]'s configuration of its sessions. *)
Definition bind (i : Ingest) (relays : bool) : Config :=
  let keepalive := if f64_ge (i_keepalive_secs i) (of_Z 0) then i_keepalive_secs i else of_Z 0 in
  MkConfig (i_token i)
    (MkServerConfig (2, 3) (i_max_batch_frames i) ShortClose
       (Some (f64_mul keepalive (of_Z IDLE_MULTIPLIER))))
    relays.

(** What the others do to the queue: a producer puts a frame on it, or the worker
    takes some off and may close it. *)
Definition Other : Type := (Z * Sample) + (nat * bool).
Definition other (p : Producer) (o : Other) : Producer :=
  match o with inl (now, s) => enqueue now s p | inr (k, closes) => worker_took k closes p end.

(** The queue, and what the others will do to it before each of this session's
    next operations on it. *)
Definition Shared : Type := Producer * list (list Other).
Definition turn (s : Shared) : Shared :=
  match s.2 with [] => s | l :: o => (foldl other s.1 l, o) end.

(** A session, and what it shares: the queue and the count of wrong tokens. The
    ghost [answered_] is each batch with the status it was acknowledged with,
    which of its frames went on the queue, how many the others put there between
    its check and its last frame, and whether the queue was closed by then. *)
Record Answered := MkAnswered {
  an_samples : list Sample; an_status : Z; an_put : list Sample; an_others : nat; an_closed : bool
}.
Record Client := MkClient {
  machine : Machine;
  archive : Shared;
  wrong_tokens : Attempts;
  replies : list (list Z);
  answered_ : list Answered
}.

Definition with_machine (m : Machine) (c : Client) : Client :=
  MkClient m (archive c) (wrong_tokens c) (replies c) (answered_ c).

Definition hello_status (cf : Config) (peer : IpAddr) (h : HelloIn) (a : Attempts) : Z * Attempts :=
  if is_empty_str (token cf) then (HELLO_OK, a)
  else
    match admit_peer peer a with
    | Err _ => (HELLO_BAD_AUTH, a)
    | Ok a =>
        match from_utf8 (hi_token h) with
        | Some presented =>
            if matches presented (token cf) then (HELLO_OK, succeeded peer a) else (HELLO_BAD_AUTH, a)
        | None => (HELLO_BAD_AUTH, a)
        end
    end.

Definition is_serial (s : Sample) : bool := match s with Serial _ => true | _ => false end.

(** [None] is [decode]'s [expect]. *)
Definition batch_samples (now_us : Z) (b : Batch) (rel : bool) : option (list Sample) :=
  mapM (λ '(ts, r), decode (as_i64 ts) r) (stamped rel now_us b).

(** [Archive::enqueue] of each, and those the queue took. *)
Definition takes (q : Queue) : bool := negb (q_closed q) && (length (items q) <? max_capacity q)%nat.
Fixpoint enqueue_all (now : Z) (l : list Sample) (s : Shared) : list Sample * Shared :=
  match l with
  | [] => ([], s)
  | x :: l =>
      let '(p, o) := turn s in
      let '(put, s) := enqueue_all now l (enqueue now x p, o) in
      (if takes (queue p) then x :: put else put, s)
  end.

(** [Session::batch], on the samples: the status, and what it put on the queue. *)
Definition batch (cf : Config) (now : Z) (samples : list Sample) (s : Shared) : Z * list Sample * Shared :=
  if negb (relays_raw_serial cf) && existsb is_serial samples then (ACK_MALFORMED, [], s)
  else
    let s := turn s in
    if q_closed (queue s.1) then (ACK_OVERLOADED, [], s)
    else
      let s := turn s in
      if REFUSE_ABOVE_PCT <=? occupancy_pct (queue s.1) then (ACK_OVERLOADED, [], s)
      else let '(put, s) := enqueue_all now samples s in (ACK_OK, put, s).

Definition adds (e : Other) : bool := match e with inl _ => true | inr _ => false end.
(** The frames the others put on the queue before each of the next [n]
    operations. *)
Definition racing (n : nat) (o : list (list Other)) : nat :=
  length (filter (λ e, adds e = true) (concat (take n o))).
(** Those between a batch's check and its last frame. *)
Definition racing_batch (samples : list Sample) (s : Shared) : nat := racing (length samples) (drop 2 s.2).

(** What follows an action: the reply to write, nothing, or the session's end. *)
Inductive Next := Send (bytes : list Z) | NoReply | Return | Panic.

(** The clocks at an action: Unix microseconds, and the monotonic clock's
    milliseconds. *)
Record Now := MkNow { now_us : Z; now_ms : Z }.

Definition answer_hello_with (status : Z) (t : Now) (c : Client) : Next * Client :=
  let '(r, m) := answer_hello status (now_us t) (machine c) in
  (match r with Ok bytes => Send bytes | Err _ => Panic end, with_machine m c).

Definition ack_with (seq status : Z) (c : Client) : Next * Client :=
  let s := turn (archive c) in
  let '(bytes, m) := ack seq status (occupancy_pct (queue s.1)) (machine c) in
  (Send bytes, MkClient m s (wrong_tokens c) (replies c) (answered_ c)).

Definition act (cf : Config) (peer : IpAddr) (t : Now) (a : Action Batch) (c : Client) : Next * Client :=
  match a with
  | AReply bytes => (Send bytes, c)
  | AHello h =>
      let '(status, w) := hello_status cf peer h (wrong_tokens c) in
      answer_hello_with status t (MkClient (machine c) (archive c) w (replies c) (answered_ c))
  | AHelloRefused status => answer_hello_with status t c
  | ABatch b rel =>
      match batch_samples (now_us t) b rel with
      | None => (Panic, c)
      | Some samples =>
          let '(status, put, s) := batch cf (now_ms t) samples (archive c) in
          ack_with (batch_seq b) status
            (MkClient (machine c) s (wrong_tokens c) (replies c)
               (answered_ c ++ [MkAnswered samples status put (racing_batch samples (archive c)) (q_closed (queue s.1))]))
      end
  | ANack seq status => ack_with seq status c
  | ACatalogueGet =>
      let '(bytes, m) := answer_catalogue CATALOGUE_UNKNOWN (machine c) in (Send bytes, with_machine m c)
  | ACatalogueStatus => (NoReply, c)
  | AClose _ => (Return, c)
  end.

(** How a session stands: reading on, ended, or its task panicked; [Stuck] is a
    polling loop out of fuel. *)
Inductive Standing := Reading | Ended | Panicked | Stuck.

(** [serve]'s polling loop. [writes] says which of the next writes succeed. *)
Fixpoint poll_loop (fuel : nat) (cf : Config) (peer : IpAddr) (t : Now) (writes : list bool) (c : Client) :
    Standing * list bool * Client :=
  match poll (machine c) with
  | None => (Reading, writes, c)
  | Some (a, m) =>
      match fuel with
      | O => (Stuck, writes, c)
      | S fuel =>
          match act cf peer t a (with_machine m c) with
          | (Send bytes, c) =>
              match writes with
              | false :: ws => (Ended, ws, c)
              | _ => poll_loop fuel cf peer t (tail writes)
                       (MkClient (machine c) (archive c) (wrong_tokens c) (replies c ++ [bytes]) (answered_ c))
              end
          | (NoReply, c) => poll_loop fuel cf peer t writes c
          | (Return, c) => (Ended, writes, c)
          | (Panic, c) => (Panicked, writes, c)
          end
      end
  end.

(** What a read gives. *)
Inductive ReadEvent :=
  | ReadBytes (bytes : list Z) (t : Now)
  | ReadFailed
  | ReadTimeout.
End Listener.

Section Serve.
Context `{IngestLib} `{SessionLaws}.

Fixpoint serve (cf : Config) (peer : IpAddr) (reads : list ReadEvent) (writes : list bool) (c : Client) :
    Standing * Client :=
  match reads with
  | [] => (Reading, c)
  | (ReadFailed | ReadTimeout | ReadBytes [] _) :: _ => (Ended, c)
  | ReadBytes bytes t :: reads =>
      let c := with_machine (receive_bytes bytes (machine c)) c in
      match poll_loop (pending (machine c)) cf peer t writes c with
      | (Reading, writes, c) => serve cf peer reads writes c
      | (s, _, c) => (s, c)
      end
  end.

Definition client_new (cf : Config) (s : Shared) (w : Attempts) : Client :=
  MkClient (session_new (session cf)) s w [] [].
End Serve.

(** ** What an acknowledgement promises *)

Lemma decode_total `{ProtoLib} ts r : is_Some (decode ts r).
Proof.
  unfold decode. destruct (from_wire _ _ _) as [tx rest| |] eqn:Hf; [|by eexists..].
  destruct (to_can_of_variant tx rest (wr_bus r) (wr_payload r)) as [f ->]. by eexists.
Qed.

Lemma enqueue_takes now s p :
  let q := queue p in let q' := queue (enqueue now s p) in
  max_capacity q' = max_capacity q ∧ q_closed q' = q_closed q ∧
  items q' = items q ++ (if takes q then [s] else []).
Proof.
  assert (Hw : ∀ p, queue (warn_thresholds now p) = queue p)
    by (intros p'; unfold warn_thresholds, depth; by destruct (_ =? _)).
  assert (Hl : ∀ n p, queue (log_queue_full now n p) = queue p).
  { intros n p'. unfold log_queue_full. destruct (negb _); [done|].
    by destruct (match last_full_log p' with Some _ => _ | None => _ end). }
  unfold enqueue, try_send, report_closed, takes. cbv zeta.
  destruct (q_closed (queue p)) eqn:Hc; cbn [negb andb queue]; [by rewrite app_nil_r|].
  destruct (length (items (queue p)) <? max_capacity (queue p))%nat;
    rewrite ?Hw, ?Hl; cbn [queue items max_capacity q_closed]; by rewrite ?app_nil_r.
Qed.

(** The others keep the queue's bound, never open it again, and lengthen it by no
    more than the frames they put on it. *)
Definition queue_ok (K : nat) (q : Queue) : Prop := max_capacity q = K ∧ (length (items q) ≤ K)%nat.
Lemma enqueue_queue_ok K now s p : queue_ok K (queue p) →
  queue_ok K (queue (enqueue now s p)) ∧ q_closed (queue (enqueue now s p)) = q_closed (queue p) ∧
  (length (items (queue (enqueue now s p))) ≤ length (items (queue p)) + 1)%nat.
Proof.
  intros [Hm Hl]. destruct (enqueue_takes now s p) as (Hm' & Hc & Hi). cbv zeta in *.
  unfold queue_ok. rewrite Hm', Hm, Hc, Hi, length_app. unfold takes.
  destruct (negb _); cbn [andb]; [destruct (Nat.ltb_spec (length (items (queue p))) (max_capacity (queue p)))|]; cbn [length]; split_and!; lia || done.
Qed.
Lemma others_queue K l : ∀ p, queue_ok K (queue p) →
  let p' := foldl other p l in
  queue_ok K (queue p') ∧ (q_closed (queue p) = true → q_closed (queue p') = true) ∧
  (length (items (queue p')) ≤ length (items (queue p)) + length (filter (λ e, adds e = true) l))%nat.
Proof.
  induction l as [|[[now s]|[k closes]] l IH]; intros p Hok; cbn [foldl other]; [cbn; split_and!; try apply Hok; lia || done|..].
  - destruct (enqueue_queue_ok K now s p Hok) as (Hok1 & Hc & Hl). destruct (IH _ Hok1) as (Hok2 & Hc2 & Hl2). cbv zeta in *.
    rewrite filter_cons_True by done. cbn [length]. split_and!; [done|intros Hq; apply Hc2; congruence|lia].
  - assert (queue_ok K (queue (worker_took k closes p))) as Hok1.
    { destruct Hok as [Hm Hl]. split; cbn; [done|]. rewrite length_drop. lia. }
    destruct (IH _ Hok1) as (Hok2 & Hc2 & Hl2). cbv zeta in *. rewrite filter_cons_False by done. split_and!; [done| |].
    + intros Hq. apply Hc2. cbn. by rewrite Hq.
    + cbn in Hl2. rewrite length_drop in Hl2. lia.
Qed.

Lemma racing_cons n l o : racing (S n) (l :: o) = (length (filter (λ e, adds e = true) l) + racing n o)%nat.
Proof. unfold racing. cbn [take concat]. by rewrite filter_app, length_app. Qed.
Lemma racing_nil n : racing n [] = 0%nat.
Proof. unfold racing. by rewrite take_nil. Qed.

Lemma turn_queue K s : queue_ok K (queue s.1) →
  queue_ok K (queue (turn s).1) ∧ (q_closed (queue s.1) = true → q_closed (queue (turn s).1) = true) ∧
  (turn s).2 = drop 1 s.2 ∧
  ∀ n, (length (items (queue (turn s).1)) + racing n (turn s).2 ≤ length (items (queue s.1)) + racing (S n) s.2)%nat.
Proof.
  intros Hok. destruct s as [p [|l o]]; cbn [turn fst snd] in *.
  - split_and!; try apply Hok; try done. intros n. rewrite !racing_nil. lia.
  - destruct (others_queue K l p Hok) as (? & ? & ?). cbv zeta in *. split_and!; try done. intros n. rewrite racing_cons. lia.
Qed.

(** A batch's frames go on the queue in order, and all of them where there is room
    for them and for what the others put there meanwhile. *)
Lemma enqueue_all_spec K now l : ∀ s, queue_ok K (queue s.1) →
  let '(put, s') := enqueue_all now l s in
  queue_ok K (queue s'.1) ∧ (q_closed (queue s.1) = true → q_closed (queue s'.1) = true) ∧ put `sublist_of` l ∧
  (q_closed (queue s'.1) = false → (length (items (queue s.1)) + length l + racing (length l) s.2 ≤ K)%nat → put = l).
Proof.
  induction l as [|x l IH]; intros s Hok; cbn [enqueue_all]; [done|].
  destruct (turn_queue K s Hok) as (Hok1 & Hc1 & _ & Hl1). destruct (turn s) as [p o]. cbn [fst snd] in *.
  destruct (enqueue_queue_ok K now x p Hok1) as (Hok2 & Hc2 & Hl2). specialize (IH (enqueue now x p, o) Hok2). cbn [fst snd] in IH.
  destruct (enqueue_all now l (enqueue now x p, o)) as [put s']. destruct IH as (Hok3 & Hc3 & Hsub & Hall).
  split_and!; [done|intros Hq; apply Hc3; rewrite Hc2; auto|destruct (takes _); [by apply sublist_skip|by apply sublist_cons]|].
  intros Hopen Hroom. specialize (Hl1 (length l)). cbn [length] in Hroom.
  assert (takes (queue p) = true) as ->.
  { unfold takes. apply andb_true_iff. split.
    - apply negb_true_iff. destruct (q_closed (queue p)) eqn:Hq; [|done]. rewrite Hc3 in Hopen; [done|congruence].
    - apply Nat.ltb_lt. destruct Hok1 as [-> _]. lia. }
  f_equal. apply Hall; [done|]. lia.
Qed.

(** How many more frames a queue takes; and a batch alone at the queue. *)
Definition room (q : Queue) : nat := if q_closed q then 0%nat else (max_capacity q - length (items q))%nat.
Lemma enqueue_all_alone now l : ∀ p,
  let '(put, s') := enqueue_all now l (p, []) in
  put = take (room (queue p)) l ∧ s'.2 = [] ∧ items (queue s'.1) = items (queue p) ++ put ∧
  max_capacity (queue s'.1) = max_capacity (queue p) ∧ q_closed (queue s'.1) = q_closed (queue p) ∧
  s'.1 = foldl (λ p s, enqueue now s p) p l.
Proof.
  induction l as [|x l IH]; intros p; cbn [enqueue_all turn snd foldl]; [by rewrite take_nil, app_nil_r|].
  destruct (enqueue_takes now x p) as (Hm & Hc & Hi). cbv zeta in *. specialize (IH (enqueue now x p)).
  destruct (enqueue_all now l (enqueue now x p, [])) as [put s']. destruct IH as (-> & Ho & Hi' & Hm' & Hc' & Hf).
  assert ((if takes (queue p) then x :: take (room (queue (enqueue now x p))) l else take (room (queue (enqueue now x p))) l) =
    take (room (queue p)) (x :: l)) as Hput.
  { unfold room. rewrite Hc, Hm, Hi. unfold takes. destruct (q_closed (queue p)); cbn [negb andb]; [done|].
    destruct (Nat.ltb_spec (length (items (queue p))) (max_capacity (queue p))) as [Hlt|Hge].
    - rewrite length_app. cbn [length].
      by replace (max_capacity (queue p) - length (items (queue p)))%nat
        with (S (max_capacity (queue p) - (length (items (queue p)) + 1)))%nat by lia.
    - rewrite app_nil_r. by replace (max_capacity (queue p) - length (items (queue p)))%nat with 0%nat by lia. }
  split_and!; [done|done| |congruence|congruence|done].
  rewrite Hi', Hi. destruct (takes (queue p)); [by rewrite <- app_assoc|by rewrite app_nil_r].
Qed.

(** Below the refusal mark there is room for a hundredth of the queue, and one
    frame more. *)
Lemma occupancy_room q :
  (0 < max_capacity q)%nat → (length (items q) ≤ max_capacity q)%nat →
  (REFUSE_ABOVE_PCT <=? occupancy_pct q) = false ↔ (length (items q) * 100 < 99 * max_capacity q)%nat.
Proof.
  intros HK Hle. unfold occupancy_pct, depth, u8_try_from, u8_max, REFUSE_ABOVE_PCT.
  set (K := max_capacity q) in *. set (n := length (items q)) in *.
  assert (Hd : (n * 100 / K ≤ 100)%nat) by (apply Nat.Div0.div_le_upper_bound; lia).
  rewrite (proj2 (Z.leb_le (Z.of_nat (n * 100 / K)) 255)) by lia. rewrite Z.leb_gt. split; intros Hlt.
  - apply Nat.nle_gt. intros Hge. assert (99 ≤ n * 100 / K)%nat by (apply Nat.div_le_lower_bound; lia). lia.
  - assert (n * 100 / K < 99)%nat by (apply Nat.Div0.div_lt_upper_bound; lia). lia.
Qed.

Section Promises.
Context `{IngestLaws} `{SessionLaws}.

(** What a batch put on the queue, for the status it was answered with. *)
Definition entry_ok (K N : nat) (e : Answered) : Prop :=
  if an_status e =? ACK_OK
  then an_put e `sublist_of` an_samples e ∧
    (an_closed e = false → (N + an_others e ≤ K / 100 + 1)%nat → an_put e = an_samples e)
  else an_put e = [].

Lemma batch_puts K cf now samples s status put s' :
  (0 < K)%nat → queue_ok K (queue s.1) → batch cf now samples s = (status, put, s') →
  queue_ok K (queue s'.1) ∧
  (status ≠ ACK_OK → put = []) ∧
  (status = ACK_OK → put `sublist_of` samples ∧
     (q_closed (queue s'.1) = false → (length samples + racing_batch samples s ≤ K / 100 + 1)%nat → put = samples)).
Proof.
  intros HK Hok Hb. unfold batch in Hb.
  pose proof ack_ok_not_malformed. pose proof ack_ok_not_overloaded.
  destruct (negb _ && _); [injection Hb as <- <- <-; by split_and!|].
  destruct (turn_queue K s Hok) as (Hok1 & Hc1 & Ho1 & _). set (s1 := turn s) in *.
  destruct (q_closed (queue s1.1)); [injection Hb as <- <- <-; by split_and!|].
  destruct (turn_queue K s1 Hok1) as (Hok2 & Hc2 & Ho2 & _). set (s2 := turn s1) in *.
  destruct (REFUSE_ABOVE_PCT <=? _) eqn:Ho; [injection Hb as <- <- <-; by split_and!|].
  pose proof (enqueue_all_spec K now samples s2 Hok2) as Hs. destruct (enqueue_all now samples s2) as [put2 s3].
  injection Hb as <- <- <-. destruct Hs as (Hok3 & _ & Hsub & Hall). split_and!; [apply Hok3..|done|]. intros _. split; [done|].
  intros Hopen Hn. apply Hall; [done|].
  apply occupancy_room in Ho; [|destruct Hok2 as [-> ?]; lia..]. destruct Hok2 as [Hm Hl]. rewrite Hm in Ho.
  unfold racing_batch in Hn. rewrite Ho2, Ho1, drop_drop. change (1 + 1)%nat with 2%nat.
  pose proof (Nat.div_mod_eq K 100). pose proof (Nat.mod_upper_bound K 100). lia.
Qed.

(** A queue just below the mark, which the others fill before a batch's first frame. *)
Lemma overfull K N M cf : (0 < K)%nat → (0 < N)%nat → (K / 100 + 1 < N + M)%nat →
  ∃ s put s', max_capacity (queue s.1) = K ∧ (length (items (queue s.1)) ≤ K)%nat ∧
    (racing_batch (replicate N sample_frame) s ≤ M)%nat ∧
    batch cf 0 (replicate N sample_frame) s = (ACK_OK, put, s') ∧ q_closed (queue s'.1) = false ∧ put ≠ replicate N sample_frame.
Proof.
  intros HK HN Hlt. pose proof (Nat.div_mod_eq K 100) as Hdm. pose proof (Nat.mod_upper_bound K 100 ltac:(lia)) as Hmb.
  set (n := (K - K / 100 - 1)%nat).
  set (p := MkProducer (MkQueue (replicate n sample_frame) K false) counters_default (-1) None false []).
  set (others := replicate M (inl (0, sample_frame) : Other)). set (s := (p, [[]; []; others]) : Shared).
  assert (He : existsb is_serial (replicate N sample_frame) = false) by (clear; induction N; [done|]; cbn; by rewrite IHN).
  assert (Hp1 : foldl other p others = foldl (λ p s, enqueue 0 s p) p (replicate M sample_frame)).
  { unfold others. generalize p. clear. induction M as [|M IH]; intros p; [done|]. cbn. apply IH. }
  pose proof (enqueue_all_alone 0 (replicate M sample_frame) p) as Ha.
  destruct (enqueue_all 0 (replicate M sample_frame) (p, [])) as [put0 s0]. destruct Ha as (-> & _ & Hi0 & Hm0 & Hc0 & Hf0).
  pose proof (enqueue_all_alone 0 (replicate N sample_frame) s0.1) as Hb.
  destruct (enqueue_all 0 (replicate N sample_frame) (s0.1, [])) as [put s'] eqn:Hput. destruct Hb as (Hputs & _ & _ & _ & Hc1 & _).
  exists s, put, s'. split_and!.
  - done.
  - cbn. rewrite length_replicate. lia.
  - unfold racing_batch, racing. cbn [snd s drop]. rewrite length_replicate. destruct N; [lia|]. cbn [take]. rewrite take_nil. cbn [concat].
    rewrite app_nil_r. etransitivity; [apply length_filter|]. unfold others. by rewrite length_replicate.
  - unfold batch. rewrite He, andb_false_r. unfold s. cbn [turn fst snd foldl]. change (q_closed (queue p)) with false. cbn iota.
    rewrite (proj2 (occupancy_room (queue p) ltac:(done) ltac:(cbn; rewrite length_replicate; lia))).
    2:{ cbn. rewrite length_replicate. unfold n. lia. }
    destruct N as [|N]; [lia|]. cbn [replicate enqueue_all turn fst snd] in Hput |- *. rewrite Hp1, <- Hf0. by rewrite Hput.
  - by rewrite Hc1, Hc0.
  - rewrite Hputs. intros Heq%(f_equal length). rewrite length_take, !length_replicate in Heq.
    unfold room in Heq. rewrite Hc0 in Heq. cbn in Heq. rewrite Hm0, Hi0, length_app, length_take in Heq. cbn in Heq.
    rewrite !length_replicate in Heq. unfold n in Heq. lia.
Qed.

(** C23: the refusal mark is exactly wide enough for a hundredth of the queue and
    one frame. For a limit [N] on batches and [M] on the frames others put on the
    queue while a batch is being put there: every batch that is acknowledged goes
    on the queue whole, unless the queue is closed meanwhile, exactly where [N] and
    [M] together are no more than that; where they are more, there is a queue that
    acknowledges a batch and drops some of it. Alone at the queue, a batch's frames
    are what the queue grows by. *)
Theorem ack_margin_exact (K N M : nat) (cf : Config) :
  (0 < K)%nat →
  ((∀ now samples s put s', max_capacity (queue s.1) = K → (length (items (queue s.1)) ≤ K)%nat →
     (length samples ≤ N)%nat → (racing_batch samples s ≤ M)%nat → batch cf now samples s = (ACK_OK, put, s') →
     q_closed (queue s'.1) = false → put = samples) ↔
   (N = 0 ∨ N + M ≤ K / 100 + 1)%nat) ∧
  (∀ now samples p status put s', batch cf now samples (p, []) = (status, put, s') →
     items (queue s'.1) = items (queue p) ++ put).
Proof.
  intros HK. split; [split|].
  - intros Hall. destruct (decide (N = 0)%nat) as [|HN0]; [by left|]. right. apply Nat.nlt_ge. intros Hlt.
    pose proof (Nat.div_mod_eq K 100) as Hdm. pose proof (Nat.mod_upper_bound K 100 ltac:(lia)) as Hmb.
    destruct (overfull K N M cf HK ltac:(lia) Hlt) as (s & put & s' & Hm & Hl & Hr & Hb & Hopen & Hput).
    apply Hput, (Hall 0 (replicate N sample_frame) s put s'); try done. by rewrite length_replicate.
  - intros HNM now samples s put s' Hm Hl Hn Hr Hb Hopen.
    destruct (batch_puts K cf now samples s ACK_OK put s' HK (conj Hm Hl) Hb) as (_ & _ & Hput).
    destruct (Hput eq_refl) as [Hsub Hall]. destruct HNM as [->|HNM]; [|apply Hall; [done|lia]].
    destruct samples; [|cbn in Hn; lia]. by apply sublist_nil_r in Hsub.
  - intros now samples p status put s' Hb. unfold batch in Hb. destruct (negb _ && _); [injection Hb as <- <- <-; by rewrite app_nil_r|].
    cbn [turn fst snd] in Hb. destruct (q_closed _); [injection Hb as <- <- <-; by rewrite app_nil_r|].
    destruct (_ <=? _); [injection Hb as <- <- <-; by rewrite app_nil_r|].
    pose proof (enqueue_all_alone now samples p) as Ha. destruct (enqueue_all now samples (p, [])) as [put2 s2].
    injection Hb as <- <- <-. by destruct Ha as (_ & _ & ? & _).
Qed.

Definition client_ok (K N : nat) (c : Client) : Prop :=
  queue_ok K (queue (archive c).1) ∧ limit (machine c) = N ∧ Forall (entry_ok K N) (answered_ c).

Lemma batch_samples_total now b rel :
  ∃ samples, batch_samples now b rel = Some samples ∧ length samples = length (stamped rel now b).
Proof.
  unfold batch_samples. induction (stamped rel now b) as [|[ts r] l (ss & Hs & Hl)]; [by exists []|].
  destruct (decode_total (as_i64 ts) r) as [s Hd]. exists (s :: ss). cbn. by rewrite Hd; cbn; rewrite Hs; cbn; rewrite Hl.
Qed.

Lemma ack_with_ok K N seq status c n c' :
  client_ok K N c → ack_with seq status c = (n, c') →
  n ≠ Panic ∧ client_ok K N c' ∧ (pending (machine c') ≤ pending (machine c))%nat.
Proof.
  intros (Hq & Hn & He). unfold ack_with. destruct (turn_queue K (archive c) Hq) as (Hq' & _).
  pose proof (ack_kept seq status (occupancy_pct (queue (turn (archive c)).1)) (machine c)) as [Hp Hlim].
  destruct (ack _ _ _ _) as [bytes m]. intros [= <- <-]. cbn in *. split_and!; try done. split_and!; cbn; [apply Hq'..|congruence|done].
Qed.

Lemma answer_hello_ok K N status t c n c' :
  client_ok K N c → answer_hello_with status t c = (n, c') →
  n ≠ Panic ∧ client_ok K N c' ∧ (pending (machine c') ≤ pending (machine c))%nat.
Proof.
  intros (Hq & Hn & He). unfold answer_hello_with.
  destruct (hello_answered status (now_us t) (machine c)) as (bytes & m & -> & Hp & Hlim).
  intros [= <- <-]. cbn in *. split_and!; try done. split_and!; cbn; [apply Hq..|congruence|done].
Qed.

Lemma act_ok K N cf peer t a c n c' :
  (0 < K)%nat → client_ok K N c →
  match a with ABatch b rel => (length (stamped rel (now_us t) b) ≤ N)%nat | _ => True end →
  act cf peer t a c = (n, c') →
  n ≠ Panic ∧ client_ok K N c' ∧ (pending (machine c') ≤ pending (machine c))%nat.
Proof.
  intros HK Hok Hb Ha. destruct a as [bytes|h|st|b rel|seq st| | |why]; cbn [act] in Ha.
  - by injection Ha as <- <-.
  - destruct (hello_status _ _ _ _) as [status w]. by eapply answer_hello_ok in Ha.
  - by eapply answer_hello_ok.
  - destruct (batch_samples_total (now_us t) b rel) as (samples & Hs & Hl). rewrite Hs in Ha.
    destruct Hok as (Hq & Hn & He).
    destruct (batch cf (now_ms t) samples (archive c)) as [[status put] s] eqn:Hbt.
    destruct (batch_puts K cf (now_ms t) samples (archive c) status put s HK Hq Hbt) as (Hq' & Hnot & Hack).
    eapply (ack_with_ok K N) in Ha; [done|]. split_and!; cbn; [apply Hq'..|done|].
    apply Forall_app. split; [done|]. constructor; [|done]. unfold entry_ok; cbn [an_status an_put an_samples an_others an_closed].
    destruct (Z.eqb_spec status ACK_OK) as [Hst|Hst]; [|by apply Hnot]. destruct (Hack Hst) as [Hsub Hall].
    split; [done|]. intros Hopen Hfit. apply Hall; [done|lia].
  - by eapply ack_with_ok.
  - pose proof (catalogue_kept CATALOGUE_UNKNOWN (machine c)) as [Hp Hlim].
    destruct (answer_catalogue _ _) as [bytes m]. injection Ha as <- <-. destruct Hok as (? & ? & ?).
    cbn in *. split_and!; try done. split_and!; cbn; [by destruct_and!..|congruence|done].
  - by injection Ha as <- <-.
  - by injection Ha as <- <-.
Qed.

Lemma poll_loop_ok K N cf peer t fuel : ∀ writes c s ws c',
  (0 < K)%nat → client_ok K N c → (pending (machine c) ≤ fuel)%nat →
  poll_loop fuel cf peer t writes c = (s, ws, c') →
  s ≠ Panicked ∧ s ≠ Stuck ∧ client_ok K N c'.
Proof.
  induction fuel as [|fuel IH]; intros writes c s ws c' HK Hok Hf Hp; cbn [poll_loop] in Hp;
    (destruct (poll (machine c)) as [[a m]|] eqn:Hpo; [|by injection Hp as <- <- <-]);
    destruct (poll_uses _ _ _ Hpo) as [Hless Hlim]; [lia|].
  destruct (act cf peer t a (with_machine m c)) as [n c1] eqn:Ha.
  destruct (act_ok K N cf peer t a (with_machine m c) n c1) as (Hn & Hok1 & Hle); [done| | |done|].
  - destruct Hok as (? & ? & ?). split; [done|]. split; [cbn; congruence|done].
  - destruct a as [| | |b rel| | | |]; try done. destruct Hok as (_ & <- & _). by eapply poll_batch.
  - cbn in Hle. destruct n; [|by eapply (IH writes c1); try done; lia|by injection Hp as <- <- <-|done].
    assert (Hnext : ∀ ws0 out, poll_loop fuel cf peer t ws0
      (MkClient (machine c1) (archive c1) (wrong_tokens c1) out (answered_ c1)) = (s, ws, c') →
      s ≠ Panicked ∧ s ≠ Stuck ∧ client_ok K N c').
    { intros ws0 out Hx. eapply IH; [done| | |exact Hx]; [exact Hok1|cbn; lia]. }
    destruct writes as [|[] writes]; [by eapply Hnext..|by injection Hp as <- <- <-].
Qed.

Lemma serve_ok K N cf peer reads : ∀ writes c s c',
  (0 < K)%nat → client_ok K N c →
  serve cf peer reads writes c = (s, c') → s ≠ Panicked ∧ s ≠ Stuck ∧ client_ok K N c'.
Proof.
  induction reads as [|[bytes t| |] reads IH]; intros writes c s c' HK Hok Hs; cbn [serve] in Hs;
    try by injection Hs as <- <-.
  destruct bytes as [|b bytes]; [by injection Hs as <- <-|].
  set (c0 := with_machine _ c) in Hs.
  destruct (poll_loop (pending (machine c0)) cf peer t writes c0) as [[s1 ws] c1] eqn:Hp.
  eapply (poll_loop_ok K N) in Hp as (Hnp & Hns & Hok1); [|done| |done].
  - destruct s1; try by injection Hs as <- <-. by eapply IH.
  - destruct Hok as (? & ? & ?). split; [done|]. split; [cbn; by rewrite receive_limit|done].
Qed.

(** C19: what a device's acknowledgement is worth. Over a whole session, whatever
    the device sends, and whatever the readers, the other sessions and the worker
    do to the queue before each of the session's operations on it: the session's
    task never panics or spins; a batch that is refused put nothing on the queue;
    one acknowledged [ACK_OK] put frames of its own there, in order; and it put
    all of them there unless the queue was closed meanwhile, or the limit on
    batches and the frames the others put there meanwhile come to more than a
    hundredth of the queue and one frame. *)
Theorem acked_batches_are_queued (i : Ingest) relays peer reads writes (sh : Shared) w s c' :
  let K := max_capacity (queue sh.1) in
  (0 < K)%nat → (length (items (queue sh.1)) ≤ K)%nat →
  serve (bind i relays) peer reads writes (client_new (bind i relays) sh w) = (s, c') →
  s ≠ Panicked ∧ s ≠ Stuck ∧
  Forall (λ e, if an_status e =? ACK_OK
    then an_put e `sublist_of` an_samples e ∧
      (an_closed e = false → (i_max_batch_frames i + an_others e ≤ K / 100 + 1)%nat → an_put e = an_samples e)
    else an_put e = []) (answered_ c').
Proof.
  intros K HK Hle Hs.
  eapply (serve_ok K (i_max_batch_frames i)) in Hs as (? & ? & _ & _ & ?); [done|done|].
  split; [done|]. split; [cbn; by rewrite new_limit|done].
Qed.

(** Only the holder of the token is let in, and only it clears its wrong
    attempts. *)
Lemma hello_admits cf peer h a :
  token cf ≠ EmptyString → HELLO_OK ≠ HELLO_BAD_AUTH →
  (hello_status cf peer h a).1 = HELLO_OK ↔
    is_ok (admit_peer peer a) = true ∧ from_utf8 (hi_token h) = Some (token cf).
Proof.
  intros Ht Hd. unfold hello_status. destruct (token cf) as [|ch tk] eqn:Htk; [done|]. cbn [is_empty_str].
  destruct (admit_peer peer a) as [a1|e]; cbn [is_ok fst]; [|naive_solver].
  destruct (from_utf8 (hi_token h)) as [s|]; cbn; [|naive_solver].
  destruct (matches s (String ch tk)) eqn:Hm; cbn.
  - apply matches_eq in Hm as ->. naive_solver.
  - split; [by intros Hx; destruct Hd|]. intros [_ [= ->]]. rewrite (proj2 (matches_eq _ _) eq_refl) in Hm. done.
Qed.
End Promises.

(** ** A device *)

Module Door.
Import (hints) Wire.Packed CacheFifo.Disk Catalogues.Bench.

(** A message is a byte: [0] greets, [n] is a batch of [n] frames. *)
Definition door_poll (m : nat * list Z) : option (Action (Z * nat) * (nat * list Z)) :=
  match m.2 with
  | [] => None
  | b :: l =>
      let n := Z.to_nat b in
      Some (if b =? 0 then AHello (MkHelloIn [107] "")
            else if (n <=? m.1)%nat then ABatch (b, n) false else ANack b 1, (m.1, l))
  end.

#[export] Instance door : SessionLib := {
  HELLO_BAD_AUTH := 1;
  Batch := Z * nat;
  batch_seq b := b.1;
  stamped rel now b := replicate b.2 (now, on_the_wire (record sample_frame));
  Machine := nat * list Z;
  session_new c := (max_records c, []);
  receive_bytes b m := (m.1, m.2 ++ b);
  poll := door_poll;
  answer_hello st now m := (Ok [st], m);
  ack seq st pct m := ([seq; st; pct], m);
  answer_catalogue st m := ([st], m);
  Attempts := nat;
  attempts_default := 0%nat;
  admit_peer peer n := if (n <? 5)%nat then Ok (S n) else Err "too many";
  succeeded peer n := 0%nat;
  matches := str_eqb
}.

#[export] Instance door_laws : SessionLaws.
Proof.
  refine {| pending := λ m, length m.2; limit := λ m, m.1 |}; try done.
  - intros [k [|b l]] a m' Hp; [done|]. injection Hp as <- <-. cbn. split; [lia|done].
  - intros [k [|b l]] bt rel m' now Hp; [done|]. cbn in Hp. destruct (b =? 0); [done|].
    destruct (Nat.leb_spec (Z.to_nat b) k) as [Hle|]; [|done]. injection Hp as <- <- <-. cbn. by rewrite length_replicate.
  - intros st now m. by exists [st], m.
  - intros a b. apply str_eqb_eq.
Defined.
End Door.

Import (hints) Wire.Packed CacheFifo.Disk Catalogues.Bench ForwardProofs.Toy Door.

Definition listening : Ingest := MkIngest_ "0.0.0.0" 9323 "k" (of_Z 30) 2.
Definition sent_bytes : list ReadEvent := [ReadBytes [0; 2; 1; 3] (MkNow 7 7); ReadTimeout].
(** A reader puts a frame on the queue between the frames of the first batch. *)
Definition busy : Shared := (producer_start 100, [[]; []; []; [inl (7, modbus_frame)]]).
Notation visit sh := (serve (bind listening false) (V4 1) sent_bytes []
  (client_new (bind listening false) sh attempts_default)).

(** The token is checked, two batches are queued and one past the limit is
    refused, before the device goes quiet. *)
Lemma visit_replies :
  (visit (producer_start 100, [])).1 = Ended ∧
  replies (visit (producer_start 100, [])).2 = [[0]; [2; 0; 2]; [1; 0; 3]; [3; 1; 3]] ∧
  an_others <$> answered_ (visit busy).2 = [1; 0]%nat.
Proof. split_and!; vm_compute; reflexivity. Qed.

Lemma acked_batches_are_queued_witness :
  length ∘ an_put <$> answered_ (visit (producer_start 200, busy.2)).2 = [2; 1]%nat ∧
  Forall (λ e, if an_status e =? ACK_OK
    then an_put e `sublist_of` an_samples e ∧ (an_closed e = false → (2 + an_others e ≤ 3)%nat → an_put e = an_samples e)
    else an_put e = []) (answered_ (visit (producer_start 200, busy.2)).2).
Proof.
  split; [vm_compute; reflexivity|]. destruct (visit (producer_start 200, busy.2)) as [s c] eqn:Hv.
  apply (acked_batches_are_queued listening) in Hv as (_ & _ & Hf).
  - exact Hf.
  - apply Nat.ltb_lt. vm_compute. reflexivity.
  - apply Nat.leb_le. vm_compute. reflexivity.
Defined.

(** The default limits, 256 frames and a queue of 50000, leave 245 frames to the
    others. *)
Lemma ack_margin_exact_witness :
  (256 + 245 ≤ 50000 / 100 + 1)%nat ∧
  (∀ now samples s put s', max_capacity (queue s.1) = 600%nat → (length (items (queue s.1)) ≤ 600)%nat →
     (length samples ≤ 4)%nat → (racing_batch samples s ≤ 3)%nat → batch (bind listening false) now samples s = (ACK_OK, put, s') →
     q_closed (queue s'.1) = false → put = samples).
Proof.
  split; [apply Nat.leb_le; vm_compute; reflexivity|].
  apply (ack_margin_exact 600 4 3 (bind listening false)); [lia|right; vm_compute; lia].
Defined.
