(* ===== verification/Launch.v ===== *)
(** * Starting and stopping the daemon ([pipeline.rs] [run], [start_devices],
      [start_capture]; [archive.rs] [start], [Archives]; [main.rs])

    A start opens what the settings ask for, in order, and each part it starts
    is handed what it feeds: a reader or a tap its archives, the responder its
    interface, the ingest listener the default database's archive. What is
    started is a list of effects; the operating system's answers are a record.
    The disk caches are opened and adopted as [Cache] does it. A panic is an
    error of its own, so that there is none is a theorem. *)

From S2P Require Import Prelude F64 Model Source Wire Cache Archive Cidr Catalogues Forward Settings Ui UiDoc Control Report Capture Gvret CacheFifo ForwardProofs SettingsProofs.
Import Sample Config Source.Status.
Local Open Scope Z_scope.

(** ** [RunError] *)

(** An [io::Error]: its text, whether it is [PermissionDenied], and whether its
    code is [EAFNOSUPPORT]. *)
Record IoErr := MkIoErr { ie_text : string; ie_denied : bool; ie_no_family : bool }.

Inductive LaunchError :=
  | OpenCan (iface : string) (err : IoErr)
  | OpenSerial (path : string) (err : IoErr)
  | BindFailed (addr : string) (err : IoErr)
  | CacheFailed (path : string) (err : CacheError)
  | StartRefused (e : RunError)
  (** Not one of [RunError]'s: an [expect] or an index that fails. *)
  | LaunchPanic (why : string).

Definition hint (err : IoErr) (grant : string) : string := if ie_denied err then grant else EmptyString.
Definition launch_error_str (e : LaunchError) : string :=
  match e with
  | OpenCan iface err =>
      "cannot open " +:+ iface +:+ ": " +:+ ie_text err +:+
      (if ie_no_family err then
         ". Is the can_raw module loaded, and AF_CAN in the unit's RestrictAddressFamilies=?" else EmptyString)
  | OpenSerial path err =>
      "cannot open " +:+ path +:+ ": " +:+ ie_text err +:+
      hint err ". Add the user to dialout; under the packaged unit, DeviceAllow= names it"
  | BindFailed addr err => bind_error_str addr (ie_denied err, ie_text err)
  | CacheFailed path err => "cannot open the disk cache at " +:+ path +:+ ": " +:+ err
  | StartRefused e => run_error_str e
  | LaunchPanic why => why
  end.

(** ** What a start does *)

Section Launch.
Context `{CatalogueLib} `{SettingsLib} `{IngestLib} `{CacheLib} `{Sqlite}.

(** An archive's handle is known by the database of its pipeline. *)
Inductive Launched :=
  | LControl
  | LArchive (database : string)
  | LCanOpen (interface : string) (fd passive : bool)
  | LGvretBind (host : string) (port : Z) (allowed : list Cidr) (buses : BusInfo)
  | LReader (index : nat) (d : Settings.Device) (archive : option string)
  | LWarn (line : string)
  | LResponder (d : Settings.Device)
  | LTransmit (opened : list Settings.Device) (bus_offset : Z)
  | LGvretRun
  | LTap (d : Settings.Device) (framed : option (option string)) (raw : option (option string))
  | LEcho (colour : bool)
  | LIngest (addr : string) (archive : string) (relays_raw_serial : bool)
  | LReady
  | LStopReaders
  | LStopArchive (database : string).

(** What is at a socket's path, and how removing it, binding and [chmod] go. *)
Record SocketPath := MkSocketPath {
  sp_is_socket : bool; sp_remove : result IoErr (); sp_bind : result IoErr (); sp_chmod : result IoErr ()
}.
(** [Control::bind]: a socket left behind is removed, anything else is not. *)
Definition control_bind (path : string) (sp : SocketPath) : result (string * IoErr) () :=
  map_err (pair path)
    (check (if sp_is_socket sp then sp_remove sp else Ok ()) ;; check sp_bind sp ;; sp_chmod sp).

(** The operating system's answers: binding the control socket, opening an
    interface, the bitrates it has, binding the listeners, opening a line. *)
Record Platform := MkPlatform {
  pf_linux : bool;
  pf_control : SocketPath;
  pf_can : string → bool → bool → result IoErr ();
  pf_rates : string → Bitrates;
  pf_gvret : string → Z → result IoErr ();
  pf_serial : string → SerialSettings → result IoErr ();
  pf_ingest : string → Z → result IoErr ()
}.

Inductive Stopped := BySignal | ToApply.

(** ** The archives *)

(** [Running]: its sink, its label in the log, the cache it opened and the queue
    it takes from. *)
Record Running := MkRunning {
  rn_sink : ForwardSink; rn_label : option string; rn_cache : SqliteCache; rn_queue : Producer
}.

Definition forward_label (f : Settings.Forward) : string := label_of (f_database f).

(** [cache.adopt], a failure of which is logged. *)
Definition adopt_legacy (legacy : option string) (cache : SqliteCache) : io World CacheError SqliteCache := λ w,
  match legacy with
  | None => (Ok cache, w)
  | Some l => let '(_, (cache, w)) := adopt l (cache, w) in (Ok cache, w)
  end.

Definition forward_sink (f : Settings.Forward) (cats : Catalogues) : ForwardSink :=
  sink_new (f_api_key f) (f_database f) (f_daemon_id f) ((λ '(bus, name), Forward.MkDevice bus name) <$> f_devices f)
    (f_raw_serial f) cats (dead_letter_path (f_batching f)).

Definition start (f : Settings.Forward) (tagged : bool) (cats : Catalogues) : io World CacheError Running :=
  let b := f_batching f in
  cache ← open_ (b_cache_path b) (b_cache_max_mb b);
  cache ← adopt_legacy (b_legacy_cache_path b) cache;
  mret (MkRunning (forward_sink f cats) (if tagged then Some (forward_label f) else None) cache
          (producer_start (b_queue_size b `max` 1))).

(** The state of a start: the disk, and what has been done. *)
Definition launch : Type → Type := io (World * list Launched) LaunchError.
Definition launched (e : Launched) : launch () := λ '(w, es), (Ok (), (w, es ++ [e])).
Definition on_disk {A} (f : CacheError → LaunchError) (m : io World CacheError A) : launch A := λ '(w, es),
  let '(r, w) := m w in (map_err f r, (w, es)).
Definition os {A} (r : result LaunchError A) : launch A := io_lift r.

Fixpoint start_each (tagged : bool) (cats : Catalogues) (fs : list Settings.Forward) : launch (list (string * Running)) :=
  match fs with
  | [] => mret []
  | f :: fs =>
      r ← on_disk (CacheFailed (b_cache_path (f_batching f))) (start f tagged cats);
      _ ← launched (LArchive (f_database f));
      rest ← start_each tagged cats fs;
      mret ((f_database f, r) :: rest)
  end.
Definition start_all (fs : list Settings.Forward) (cats : Catalogues) : launch (list (string * Running)) :=
  start_each (1 <? length fs)%nat cats fs.

(** [Archives::handle]: the first pipeline of that database. *)
Definition handle (archives : list (string * Running)) (db : string) : option string :=
  fst <$> find_first (λ '(d, _), str_eqb d db) archives.

Fixpoint stop_each (archives : list (string * Running)) : launch () :=
  match archives with [] => mret () | (db, _) :: archives => _ ← launched (LStopArchive db); stop_each archives end.
(** [Archives::shutdown]: the readers are gone before a queue is flushed. *)
Definition shutdown (archives : list (string * Running)) : launch () :=
  _ ← launched LStopReaders; stop_each archives.

(** ** The catalogues *)

(** [Catalogues::open]: the framed serial lines. *)
Definition catalogues_open (s : Settings) (fs : Files) : Catalogues :=
  Catalogues.new (state_dir <$> s_forward s)
    (filter_map (λ '(d, x), if is_some (ss_framing x) then Some (d_interface d, d_database d, ss_catalogue x) else None)
       (serial_devices s)) fs.
(** [Catalogues::subscribe]: whether a line is framed. *)
Definition subscribed (cats : Catalogues) (interface : string) : bool := is_some (lines cats !! interface).

(** ** The devices *)

Section Devices.
Context (p : Platform).

(** [live.device]'s [expect]. *)
Definition device_status (s : Settings) (interface : string) : launch DeviceStatus :=
  os (ok_or (live_device interface (live_devices s)) (LaunchPanic "a device these settings name")).

Fixpoint open_each (ds : list Settings.Device) : launch () :=
  match ds with
  | [] => mret ()
  | d :: ds =>
      let passive := bool_decide (d_mode d = Passive) in
      _ ← os (map_err (OpenCan (d_interface d)) (pf_can p (d_interface d) (fd d) passive));
      _ ← launched (LCanOpen (d_interface d) (fd d) passive);
      open_each ds
  end.
Fixpoint read_each (s : Settings) (archives : list (string * Running)) (opened : list (nat * Settings.Device)) : launch () :=
  match opened with
  | [] => mret ()
  | (i, d) :: opened =>
      _ ← device_status s (d_interface d);
      _ ← launched (LReader i d (handle archives (d_database d)));
      read_each s archives opened
  end.
Fixpoint warn_each (ls : list string) : launch () :=
  match ls with [] => mret () | l :: ls => _ ← launched (LWarn l); warn_each ls end.
(** [&opened[i]]. *)
Fixpoint respond_each (opened : list Settings.Device) (armed : list nat) : launch () :=
  match armed with
  | [] => mret ()
  | i :: armed =>
      d ← os (ok_or (opened !! i) (LaunchPanic "index out of bounds"));
      _ ← launched (LResponder d);
      respond_each opened armed
  end.

Definition start_capture (s : Settings) (archives : list (string * Running)) : launch () :=
  let opened := can_devices s in
  _ ← open_each opened;
  let buses := MkBusInfo (bus_count (length opened) (bus_offset s)) ((λ d, br_nominal (pf_rates p (d_interface d))) <$> opened) in
  _ ← os (map_err (BindFailed (addr_str (host s) (port s))) (pf_gvret p (host s) (port s)));
  _ ← launched (LGvretBind (host s) (port s) (allowed_clients s) buses);
  _ ← read_each s archives (enumerate opened);
  _ ← match s_test_pattern s with
      | None => mret ()
      | Some tp => _ ← warn_each (test_pattern_warnings s tp); respond_each opened (armed_indices s tp)
      end;
  _ ← launched (LTransmit opened (bus_offset s));
  launched LGvretRun.

Fixpoint tap_each (s : Settings) (archives : list (string * Running)) (cats : Catalogues)
    (ds : list (Settings.Device * SerialSettings)) : launch () :=
  match ds with
  | [] => mret ()
  | (d, x) :: ds =>
      _ ← os (map_err (OpenSerial (d_interface d)) (pf_serial p (d_interface d) x));
      let framed_archive := handle archives (d_database d) in
      let raw_archive := db ← ss_raw_database x; handle archives db in
      _ ← device_status s (d_interface d);
      _ ← launched (LTap d (if subscribed cats (d_interface d) then Some framed_archive else None)
             (const raw_archive <$> ss_raw_database x));
      tap_each s archives cats ds
  end.

Definition start_devices (s : Settings) (archives : list (string * Running)) (cats : Catalogues) : launch () :=
  if negb (pf_linux p) then io_err (StartRefused NoDeviceCapture)
  else
    _ ← match can_devices s with [] => mret () | _ => start_capture s archives end;
    _ ← tap_each s archives cats (serial_devices s);
    if echo_console s then launched (LEcho (colour s)) else mret ().

Definition start_ingest (s : Settings) (archives : list (string * Running)) : launch () :=
  match s_ingest s with
  | None => mret ()
  | Some i =>
      archive ← os (ok_or (handle archives (default_database s)) (LaunchPanic "check refuses ingest without [forward]"));
      let addr := addr_str (i_host i) (i_port i) in
      _ ← os (map_err (BindFailed addr) (pf_ingest p (i_host i) (i_port i)));
      launched (LIngest addr archive (carries_raw_serial s (default_database s)))
  end.

(** ** [run] *)

(** [control] is where the control socket is, if there is one, [fs] the files the
    catalogues are kept in, and [why] what ended the wait. *)
Definition run (s : Settings) (control : option string) (fs : Files) (why : Stopped) : launch Stopped :=
  _ ← os (map_err StartRefused (check_start (pf_linux p) s));
  _ ← match control with
      | Some path => _ ← os (map_err (λ '(addr, err), BindFailed addr err) (control_bind path (pf_control p))); launched LControl
      | None => mret ()
      end;
  let cats := catalogues_open s fs in
  archives ← start_all (forwards s) cats;
  _ ← match devices s with [] => mret () | _ => start_devices s archives cats end;
  _ ← start_ingest s archives;
  _ ← launched LReady;
  _ ← shutdown archives;
  mret why.
End Devices.
End Launch.

(** ** [main] *)

Definition EXIT_TO_APPLY : Z := 75.
Inductive Exited := ExitCode (code : Z) | Reexecuted.

Section Main.
Context `{ReportLib} `{UiLib} `{IngestLib} `{CacheLib} `{Sqlite}.

(** [reexec]: an [exec] that comes back has failed. *)
Definition reexec (exec : option string) : Exited :=
  match exec with None => Reexecuted | Some _ => ExitCode EXIT_TO_APPLY end.
(** [serve]; [failure] is the exit code [wslib_service] makes of an error. *)
Definition exit_of (failure : LaunchError → Z) (exec : option string) (ran : result LaunchError Stopped) : Exited :=
  match ran with
  | Ok BySignal => ExitCode 0
  | Ok ToApply => reexec exec
  | Err e => ExitCode (failure e)
  end.

(** The process: [--config], [--check-config] and [--control-socket] of the
    command line beside the flags that settings are made of, the files it
    reads, the runtime directory, and what ends it. *)
Record Invoked := MkInvoked {
  in_config : option string; in_check_config : bool; in_control_socket : option string;
  in_read : string → FileRead; in_files : Files; in_runtime_dir : option string;
  in_why : Stopped; in_failure : LaunchError → Z; in_exec : option string
}.

(** [main]: what it prints, and how it ends. *)
Definition main (p : Platform) (c : Cli) (env : Env) (i : Invoked) : World * list Launched → string * Exited * list Launched := λ st,
  match match in_config i with Some path => config_load path (in_read i path) | None => Ok None end with
  | Err _ => (EmptyString, ExitCode 1, st.2)
  | Ok file =>
      let path := ui_path c env in
      match resolve_at_start (pf_linux p) c file path
              (match path with Some u => load u (in_read i u) | None => Ok ui_default end) env with
      | Err _ => (EmptyString, ExitCode 1, st.2)
      | Ok (resolved, ui) =>
          let s := settings resolved in
          let rows := listing c file ui env s in
          if in_check_config i then
            (report (effective (catalogues_open s (in_files i))) s +:+ newline +:+
             "settings a UI may change, and where each comes from:" +:+ newline +:+
             String.concat EmptyString (setting_row (in_config i) <$> rows), ExitCode 0, st.2)
          else
            let '(ran, (_, es)) := run p s (socket (in_control_socket i) (in_runtime_dir i)) (in_files i) (in_why i) st in
            (EmptyString, exit_of (in_failure i) (in_exec i) ran, es)
      end
  end.
End Main.

(** ** A start follows its plan *)

Section Plan.
Context `{CatalogueLib} `{SettingsLib} `{IngestLib} `{CacheLib} `{Sqlite}.

Definition no_panic (e : LaunchError) : Prop := match e with LaunchPanic _ => False | _ => True end.

(** It does a prefix of [l], all of it if it comes to something, and [Q] holds of
    that; it does not panic. *)
Definition runs {A} (Q : A → Prop) (l : list Launched) (m : launch A) : Prop :=
  ∀ w es, ∃ k w', (m (w, es)).2 = (w', es ++ take k l) ∧
    match (m (w, es)).1 with Ok a => take k l = l ∧ Q a | Err e => no_panic e end.

Lemma runs_ret {A} (Q : A → Prop) a : Q a → runs Q [] (mret a).
Proof. intros Ha w es. exists 0%nat, w. cbn. by rewrite app_nil_r. Qed.
Lemma runs_os {A} (Q : A → Prop) r :
  match r with Ok a => Q a | Err e => no_panic e end → runs Q [] (os r).
Proof. intros Hr w es. exists 0%nat, w. cbn. rewrite app_nil_r. by destruct r. Qed.
Lemma runs_err {A} (Q : A → Prop) l e : no_panic e → runs Q l (io_err e).
Proof. intros He w es. exists 0%nat, w. cbn. by rewrite app_nil_r. Qed.
Lemma runs_launched e : runs (λ _, True) [e] (launched e).
Proof. intros w es. by exists 1%nat, w. Qed.
Lemma runs_on_disk {A} f (m : io World CacheError A) : (∀ e, no_panic (f e)) → runs (λ _, True) [] (on_disk f m).
Proof.
  intros Hf w es. unfold on_disk. destruct (m w) as [r w']. exists 0%nat, w'. cbn. rewrite app_nil_r. by destruct r; cbn.
Qed.
Lemma runs_bind {A B} (Q : A → Prop) (Q' : B → Prop) l l' (m : launch A) (f : A → launch B) :
  runs Q l m → (∀ a, Q a → runs Q' l' (f a)) → runs Q' (l ++ l') (m ≫= f).
Proof.
  intros Hm Hf w es. unfold mbind, io_bind. destruct (Hm w es) as (k & w1 & Hs1 & Hr1).
  destruct (m (w, es)) as [[a|e] s1]; cbn in *; subst s1.
  - destruct Hr1 as [Hk Ha]. rewrite Hk. destruct (Hf a Ha w1 (es ++ l)) as (k' & w2 & -> & Hr2).
    exists (length l + k')%nat, w2. rewrite <- app_assoc, take_app_add. split; [done|].
    destruct (f a (w1, es ++ l)).1; [|done]. destruct Hr2 as [-> ?]. done.
  - exists (k `min` length l)%nat, w1. rewrite take_app_le by lia.
    rewrite <- take_take, (take_ge l (length l)) by lia. done.
Qed.

Lemma runs_weaken {A} (Q Q' : A → Prop) l m : runs Q l m → (∀ a, Q a → Q' a) → runs Q' l m.
Proof.
  intros Hm HQ w es. destruct (Hm w es) as (k & w' & Hs1 & Hr1). exists k, w'. split; [done|].
  destruct (m (w, es)).1; [|done]. naive_solver.
Qed.
(** A step that is followed by the rest. *)
Lemma runs_then {A B} (Q : B → Prop) e l (m : launch A) (f : launch B) :
  runs (λ _, True) [e] m → runs Q l f → runs Q (e :: l) (m ≫= λ _, f).
Proof. intros Hm Hf. apply (runs_bind (λ _, True) Q [e] l); auto. Qed.
Lemma runs_after {A B} (P : A → Prop) (Q : B → Prop) l (m : launch A) (f : A → launch B) :
  runs P [] m → (∀ a, P a → runs Q l (f a)) → runs Q l (m ≫= f).
Proof. apply (runs_bind P Q [] l). Qed.

(** ** The parts *)

Definition archive_for (s : Settings) (db : string) : option string :=
  if bool_decide (db ∈ f_database <$> forwards s) then Some db else None.

Lemma handle_by_name archives db :
  handle archives db = if bool_decide (db ∈ archives.*1) then Some db else None.
Proof.
  unfold handle, find_first. induction archives as [|[d r] l IH]; [done|]. cbn [List.find fmap list_fmap fst].
  destruct (str_eqb d db) eqn:He.
  - apply str_eqb_eq in He as ->. rewrite bool_decide_eq_true_2; [done|]. left.
  - rewrite IH. assert (d ≠ db) by (intros ->; by rewrite (proj2 (str_eqb_eq _ _)) in He).
    apply (f_equal (λ b : bool, if b then Some db else None)). apply bool_decide_ext. rewrite elem_of_cons. naive_solver.
Qed.

Lemma start_each_runs tagged cats fs :
  runs (λ archives, archives.*1 = f_database <$> fs) (LArchive <$> (f_database <$> fs)) (start_each tagged cats fs).
Proof.
  induction fs as [|f fs IH]; [by apply runs_ret|]. cbn [start_each fmap list_fmap].
  eapply runs_after; [by apply runs_on_disk|]. intros r _. apply runs_then; [apply runs_launched|].
  rewrite <- (app_nil_r (LArchive <$> _)). eapply runs_bind; [exact IH|]. intros rest Hr. apply runs_ret. cbn. by rewrite Hr.
Qed.
Lemma stop_each_runs archives : runs (λ _, True) (LStopArchive <$> archives.*1) (stop_each archives).
Proof.
  induction archives as [|[db r] l IH]; [by apply runs_ret|]. cbn. by apply runs_then; [apply runs_launched|].
Qed.

Context (p : Platform) (s : Settings) (archives : list (string * Running)) (cats : Catalogues).
Context (Hdbs : archives.*1 = f_database <$> forwards s).

Lemma handle_is db : handle archives db = archive_for s db.
Proof. by rewrite handle_by_name, Hdbs. Qed.

Lemma device_status_runs d : d ∈ devices s → runs (λ _, True) [] (device_status s (d_interface d)).
Proof.
  intros Hd. apply runs_os. unfold live_device. destruct (List.find _ _) as [d'|] eqn:Hf; [done|].
  assert (In (d_interface d, status_default) (live_devices s)) as Hin.
  { apply list_elem_of_In. unfold live_devices. apply list_elem_of_fmap. by exists d. }
  pose proof (find_none _ _ Hf _ Hin) as Hn. cbn in Hn. by rewrite str_eqb_refl in Hn.
Qed.

Definition opens (ds : list Settings.Device) : list Launched :=
  (λ d, LCanOpen (d_interface d) (fd d) (bool_decide (d_mode d = Passive))) <$> ds.
Lemma open_each_runs ds : runs (λ _, True) (opens ds) (open_each p ds).
Proof.
  induction ds as [|d ds IH]; [by apply runs_ret|]. cbn [open_each opens fmap list_fmap].
  eapply (runs_after (λ _, True)); [apply runs_os; by destruct (pf_can p _ _ _)|]. intros _ _.
  by apply runs_then; [apply runs_launched|].
Qed.

Definition reads (ds : list (nat * Settings.Device)) : list Launched :=
  (λ '(i, d), LReader i d (archive_for s (d_database d))) <$> ds.
Lemma read_each_runs ds : Forall (λ x, x.2 ∈ devices s) ds → runs (λ _, True) (reads ds) (read_each s archives ds).
Proof.
  induction ds as [|[i d] ds IH]; intros Hds; [by apply runs_ret|]. apply Forall_cons in Hds as [Hd Hds]. cbn [read_each].
  eapply runs_after; [by apply device_status_runs|]. intros _ _. rewrite handle_is. cbn [reads fmap list_fmap].
  apply runs_then; [apply runs_launched|]. by apply IH.
Qed.
Lemma warn_each_runs ls : runs (λ _, True) (LWarn <$> ls) (warn_each ls).
Proof. induction ls as [|l ls IH]; [by apply runs_ret|]. by apply runs_then; [apply runs_launched|]. Qed.

Definition responds (ds : list Settings.Device) (armed : list nat) : list Launched := LResponder <$> omap (ds !!.) armed.
Lemma respond_each_runs ds armed :
  Forall (λ i, is_Some (ds !! i)) armed → runs (λ _, True) (responds ds armed) (respond_each ds armed).
Proof.
  induction armed as [|i armed IH]; intros Ha; [by apply runs_ret|]. apply Forall_cons in Ha as [[d Hd] Ha].
  cbn [respond_each responds omap list_omap]. rewrite Hd. cbn [ok_or].
  eapply (runs_after (λ x, x = d)); [by apply runs_os|]. intros x ->.
  assert (responds ds (i :: armed) = LResponder d :: responds ds armed) as -> by (unfold responds; cbn; by rewrite Hd).
  apply runs_then; [apply runs_launched|]. by apply IH.
Qed.

Definition capture_plan : list Launched :=
  let ds := can_devices s in
  opens ds ++
  LGvretBind (host s) (port s) (allowed_clients s)
    (MkBusInfo (bus_count (length ds) (bus_offset s)) ((λ d, br_nominal (pf_rates p (d_interface d))) <$> ds)) ::
  reads (enumerate ds) ++
  match s_test_pattern s with
  | None => []
  | Some tp => (LWarn <$> test_pattern_warnings s tp) ++ responds ds (armed_indices s tp)
  end ++
  [LTransmit ds (bus_offset s); LGvretRun].
Lemma can_device_in d : d ∈ can_devices s → d ∈ devices s.
Proof. unfold can_devices. rewrite list_elem_of_filter. tauto. Qed.
Lemma start_capture_runs : runs (λ _, True) capture_plan (start_capture p s archives).
Proof.
  unfold start_capture, capture_plan. cbv zeta. eapply runs_bind; [apply open_each_runs|]. intros _ _.
  eapply (runs_after (λ _, True)); [apply runs_os; by destruct (pf_gvret p _ _)|]. intros _ _.
  apply runs_then; [apply runs_launched|]. eapply runs_bind; [apply read_each_runs|intros _ _].
  { apply Forall_forall. intros [i d] Hd. apply can_device_in. by apply elem_of_enumerate in Hd as Hd%list_elem_of_lookup_2. }
  eapply (runs_bind (λ _, True)); [|intros _ _; do 2 (apply runs_then || idtac); apply runs_launched].
  destruct (s_test_pattern s) as [tp|]; [|by apply runs_ret].
  eapply runs_bind; [apply warn_each_runs|]. intros _ _. apply respond_each_runs.
  apply Forall_forall. intros i (d & Hd & _)%armed_spec. by rewrite Hd.
Qed.

Definition taps (ds : list (Settings.Device * SerialSettings)) : list Launched :=
  (λ '(d, x), LTap d (if subscribed cats (d_interface d) then Some (archive_for s (d_database d)) else None)
                (archive_for s <$> ss_raw_database x)) <$> ds.
Lemma tap_each_runs ds : Forall (λ x, x.1 ∈ devices s) ds → runs (λ _, True) (taps ds) (tap_each p s archives cats ds).
Proof.
  induction ds as [|[d x] ds IH]; intros Hds; [by apply runs_ret|]. apply Forall_cons in Hds as [Hd Hds]. cbn [tap_each].
  eapply (runs_after (λ _, True)); [apply runs_os; by destruct (pf_serial p _ _)|]. intros _ _. cbv zeta.
  eapply runs_after; [by apply device_status_runs|]. intros _ _. cbn [taps fmap list_fmap]. rewrite handle_is.
  assert (const (db ← ss_raw_database x; handle archives db) <$> ss_raw_database x = archive_for s <$> ss_raw_database x) as ->.
  { destruct (ss_raw_database x); [|done]. cbn. by rewrite handle_is. }
  apply runs_then; [apply runs_launched|]. by apply IH.
Qed.

Definition devices_plan : list Launched :=
  match can_devices s with [] => [] | _ => capture_plan end ++ taps (serial_devices s) ++
  (if echo_console s then [LEcho (colour s)] else []).
Lemma serial_device_in d x : (d, x) ∈ serial_devices s → d ∈ devices s ∧ d_kind d = KSerial x.
Proof.
  unfold serial_devices, filter_map. rewrite list_elem_of_omap. intros (d' & Hd & Hk).
  destruct (d_kind d') eqn:Hkind; [done|]. by injection Hk as -> ->.
Qed.
Lemma start_devices_runs : runs (λ _, True) devices_plan (start_devices p s archives cats).
Proof.
  unfold start_devices, devices_plan. destruct (pf_linux p); cbn [negb]; [|by apply runs_err].
  eapply (runs_bind (λ _, True)); [|intros _ _; eapply runs_bind; [apply tap_each_runs|]].
  - destruct (can_devices s) eqn:Hc; [by apply runs_ret|]. apply start_capture_runs.
  - apply Forall_forall. intros [d x] Hd. by apply serial_device_in in Hd as [? _].
  - intros _ _. destruct (echo_console s); [apply runs_launched|by apply runs_ret].
Qed.

Definition ingest_plan : list Launched :=
  match s_ingest s with
  | None => []
  | Some i => [LIngest (addr_str (i_host i) (i_port i)) (default_database s) (carries_raw_serial s (default_database s))]
  end.
Lemma forwards_databases fwd : s_forward s = Some fwd → f_database <$> forwards s = databases s.
Proof.
  intros Hf. unfold forwards. rewrite Hf, <- list_fmap_compose. clear. induction (databases s) as [|db l IH]; [done|].
  rewrite fmap_cons, IH. cbn. by rewrite for_database_name.
Qed.
Lemma start_ingest_runs : check_start (pf_linux p) s = Ok () → runs (λ _, True) ingest_plan (start_ingest p s archives).
Proof.
  intros Hc. unfold start_ingest, ingest_plan. destruct (s_ingest s) as [i|] eqn:Hi; [|by apply runs_ret].
  assert (archive_for s (default_database s) = Some (default_database s)) as Ha.
  { unfold check_start in Hc. rewrite Hi in Hc. cbn [is_some negb andb] in Hc. rewrite andb_false_r in Hc.
    destruct (s_forward s) as [fwd|] eqn:Hf; [|done]. unfold archive_for. rewrite bool_decide_eq_true_2; [done|].
    rewrite (forwards_databases fwd Hf). apply databases_spec. rewrite Hi. by left. }
  rewrite handle_is, Ha. eapply (runs_after (λ x, x = default_database s)); [by apply runs_os|]. intros x ->. cbv zeta.
  eapply (runs_after (λ _, True)); [apply runs_os; by destruct (pf_ingest p _ _)|]. intros _ _. apply runs_launched.
Qed.
End Plan.

Section Soundness.
Context `{CatalogueLib} `{SettingsLib} `{IngestLib} `{CacheLib} `{Sqlite}.
Context (p : Platform) (s : Settings) (control : option string) (fs : Files) (why : Stopped).

Definition plan : list Launched :=
  (if control then [LControl] else []) ++ (LArchive <$> (f_database <$> forwards s)) ++
  match devices s with [] => [] | _ => devices_plan p s (catalogues_open s fs) end ++ ingest_plan s ++
  LReady :: LStopReaders :: (LStopArchive <$> (f_database <$> forwards s)).

Lemma run_runs : runs (λ x, x = why) plan (run p s control fs why).
Proof.
  unfold run, plan.
  eapply (runs_after (λ _, check_start (pf_linux p) s = Ok ())); [apply runs_os; by destruct (check_start _ _) as [[]|]|].
  intros _ Hc. eapply (runs_bind (λ _, True)).
  { destruct control; [|by apply runs_ret].
    eapply (runs_after (λ _, True)); [apply runs_os; by destruct (control_bind _ _) as [|[]]|]. intros _ _. apply runs_launched. }
  intros _ _. cbv zeta. eapply runs_bind; [apply start_each_runs|]. intros archives Ha.
  eapply (runs_bind (λ _, True)); [destruct (devices s); [by apply runs_ret|by apply start_devices_runs]|]. intros _ _.
  eapply runs_bind; [by apply start_ingest_runs|]. intros _ _. apply runs_then; [apply runs_launched|].
  rewrite <- (app_nil_r (LStopReaders :: _)). eapply (runs_bind (λ _, True)); [|by intros; apply runs_ret].
  apply runs_then; [apply runs_launched|]. rewrite <- Ha. apply stop_each_runs.
Qed.

(** ** What each part is fed *)

(** A stream's archive, where there is a gateway to forward to. *)
Definition gateway (db : string) : option string := if is_some (s_forward s) then Some db else None.

Definition feeds (e : Launched) : Prop :=
  match e with
  | LCanOpen interface fd_ passive =>
      ∃ d, d ∈ can_devices s ∧ interface = d_interface d ∧ fd_ = fd d ∧ (d_mode d = Passive → passive = true)
  | LReader i d a => can_devices s !! i = Some d ∧ a = gateway (d_database d)
  | LTap d framed raw =>
      ∃ x, (d, x) ∈ serial_devices s ∧ framed = (if ss_framing x then Some (gateway (d_database d)) else None) ∧
        raw = gateway <$> ss_raw_database x
  | LResponder d =>
      ∃ tp, s_test_pattern s = Some tp ∧ d ∈ can_devices s ∧ d_mode d = Active ∧
        (t_ifaces tp = [] ∨ d_interface d ∈ t_ifaces tp)
  | LIngest _ a _ => gateway (default_database s) = Some a
  | _ => True
  end.
(** The archives a part is handed, or that are stopped. *)
Definition archives_of (e : Launched) : list string :=
  match e with
  | LReader _ _ a => option_list a
  | LTap _ f r => option_list (a ← f; a) ++ option_list (a ← r; a)
  | LIngest _ a _ => [a]
  | LStopArchive a => [a]
  | _ => []
  end.

Lemma archive_for_device d db : d ∈ devices s → db ∈ device_databases d → archive_for s db = gateway db.
Proof.
  intros Hd Hdb. unfold archive_for, gateway. destruct (s_forward s) as [fwd|] eqn:Hf; cbn [is_some].
  - rewrite bool_decide_eq_true_2; [done|]. rewrite (forwards_databases s fwd Hf). apply databases_spec. right. eauto.
  - unfold forwards. rewrite Hf. by rewrite bool_decide_eq_false_2 by apply not_elem_of_nil.
Qed.

Lemma lines_new_exact dir ls files i :
  is_Some (lines (Catalogues.new dir ls files) !! i) ↔ i ∈ (λ x : string * string * option LineCatalogue, x.1.1) <$> ls.
Proof.
  unfold Catalogues.new. set (c0 := MkCatalogues _ _ _ _ _).
  assert (∀ c, is_Some (lines (foldl (λ c '(interface, database, etc),
      set_lines (<[interface := MkLine database etc (remembered_rules c interface etc files) 0]> (lines c)) c) c ls) !! i) ↔
    is_Some (lines c !! i) ∨ i ∈ (λ x : string * string * option LineCatalogue, x.1.1) <$> ls) as Hall.
  { induction ls as [|[[n db] etc] ls IH]; intros c; cbn [foldl fmap list_fmap fst]; [rewrite elem_of_nil; tauto|].
    rewrite IH, elem_of_cons. cbn [set_lines lines]. rewrite lookup_insert_is_Some'. naive_solver. }
  rewrite Hall. cbn. rewrite lookup_empty. split; [intros [[? ?]|?]|]; [done|done|by right].
Qed.
Lemma subscribed_exact d x :
  NoDup (d_interface <$> devices s) → (d, x) ∈ serial_devices s →
  subscribed (catalogues_open s fs) (d_interface d) = is_some (ss_framing x).
Proof.
  intros Hnd Hd. unfold subscribed, catalogues_open. set (ls := filter_map _ _).
  assert (d_interface d ∈ (λ x : string * string * option LineCatalogue, x.1.1) <$> ls ↔ is_some (ss_framing x) = true) as Hls.
  { unfold ls, filter_map. rewrite list_elem_of_fmap. split.
    - intros (y & Hi & ([d' x'] & Hd' & Hy)%list_elem_of_omap). destruct (is_some (ss_framing x')) eqn:Hf; [|done].
      injection Hy as <-. cbn in Hi.
      apply serial_device_in in Hd as [Hin Hk]. apply serial_device_in in Hd' as [Hin' Hk'].
      apply list_elem_of_lookup in Hin as [j Hj], Hin' as [j' Hj'].
      assert (j = j') as <-.
      { eapply NoDup_lookup; [exact Hnd| |]; rewrite list_lookup_fmap; [by rewrite Hj|]. rewrite Hj'. cbn. by rewrite Hi. }
      congruence.
    - intros Hf. eexists. split; [|apply list_elem_of_omap; exists (d, x); split; [done|]; cbn; by rewrite Hf]. done. }
  pose proof (lines_new_exact (state_dir <$> s_forward s) ls fs (d_interface d)) as Hl.
  destruct (lines _ !! d_interface d) as [l|], (is_some (ss_framing x)); try done; exfalso.
  - assert (false = true); [|done]. apply Hls, Hl. eauto.
  - destruct (proj2 Hl (proj2 Hls eq_refl)) as [? ?]. done.
Qed.

Lemma capture_feeds : Forall feeds (capture_plan p s).
Proof.
  unfold capture_plan. cbv zeta. rewrite !Forall_app, Forall_cons. split_and!; try done.
  - apply Forall_forall. intros e (d & -> & Hd)%list_elem_of_fmap. exists d. split_and!; [done..|]. by intros ->.
  - rewrite !Forall_app. split_and!.
    + apply Forall_forall. intros e ([i d] & -> & Hd%elem_of_enumerate)%list_elem_of_fmap. split; [done|].
      apply list_elem_of_lookup_2 in Hd. assert (is_can d = true) as Hk by (apply list_elem_of_filter in Hd; tauto).
      apply (archive_for_device d); [by apply can_device_in|]. unfold device_databases, is_can in *. destruct (d_kind d); [left|done].
    + destruct (s_test_pattern s) as [tp|] eqn:Htp; [|done]. rewrite Forall_app. split.
      * apply Forall_forall. by intros e (? & -> & ?)%list_elem_of_fmap.
      * apply Forall_forall. intros e (d & -> & (i & Hi & Hd)%list_elem_of_omap)%list_elem_of_fmap.
        apply armed_spec in Hi as (d' & Hd' & Hm & Hif). rewrite Hd in Hd'. injection Hd' as <-.
        exists tp. split_and!; [done|by eapply list_elem_of_lookup_2|done..].
    + by repeat constructor.
Qed.
Lemma taps_feed :
  NoDup (d_interface <$> devices s) → Forall feeds (taps s (catalogues_open s fs) (serial_devices s)).
Proof.
  intros Hnd. apply Forall_forall. intros e ([d x] & -> & Hd)%list_elem_of_fmap. exists x. split; [done|].
  rewrite (subscribed_exact d x Hnd Hd). destruct (serial_device_in _ _ _ Hd) as [Hin Hk].
  assert (∀ db, db ∈ (streams x (d_database d)).*2 → archive_for s db = gateway db) as Hdb.
  { intros db Hx. apply (archive_for_device d); [done|]. unfold device_databases. by rewrite Hk. }
  unfold streams in Hdb. split.
  - destruct (ss_framing x); [|done]. cbn. f_equal. apply Hdb. cbn. left.
  - destruct (ss_raw_database x) as [db|]; [|done]. cbn. f_equal. apply Hdb. rewrite fmap_app, elem_of_app. right. left.
Qed.
Lemma ingest_feeds : check_start (pf_linux p) s = Ok () → Forall feeds (ingest_plan s).
Proof.
  intros Hc. unfold ingest_plan. destruct (s_ingest s) as [i|] eqn:Hi; [|done]. constructor; [|done].
  unfold check_start in Hc. rewrite Hi in Hc. cbn [is_some negb andb] in Hc. rewrite andb_false_r in Hc.
  unfold feeds, gateway. by destruct (s_forward s).
Qed.
Lemma plan_feeds : NoDup (d_interface <$> devices s) → check_start (pf_linux p) s = Ok () → Forall feeds plan.
Proof.
  intros Hnd Hc. unfold plan. rewrite !Forall_app, !Forall_cons. split_and!; try done.
  - by destruct control; repeat constructor.
  - apply Forall_forall. by intros e (? & -> & ?)%list_elem_of_fmap.
  - destruct (devices s) eqn:Hd; [done|]. unfold devices_plan. rewrite !Forall_app. split_and!.
    + destruct (can_devices s); [done|]. apply capture_feeds.
    + apply taps_feed. by rewrite Hd.
    + by destruct (echo_console s); repeat constructor.
  - by apply ingest_feeds.
  - apply Forall_forall. by intros e (? & -> & ?)%list_elem_of_fmap.
Qed.

(** ** In which order *)

Definition preparation : list Launched :=
  (if control then [LControl] else []) ++ (LArchive <$> (f_database <$> forwards s)).
Definition service : list Launched :=
  match devices s with [] => [] | _ => devices_plan p s (catalogues_open s fs) end ++ ingest_plan s ++
  LReady :: LStopReaders :: (LStopArchive <$> (f_database <$> forwards s)).
Lemma plan_parts : plan = preparation ++ service.
Proof. unfold plan, preparation, service. by rewrite <- !app_assoc. Qed.

Lemma preparation_given : Forall (λ e, archives_of e = []) preparation.
Proof.
  unfold preparation. rewrite Forall_app. split; [by destruct control; repeat constructor|].
  apply Forall_forall. by intros e (? & -> & ?)%list_elem_of_fmap.
Qed.
Definition given_started (e : Launched) : Prop := Forall (λ db, db ∈ f_database <$> forwards s) (archives_of e).
Lemma archive_for_started db : Forall (λ db, db ∈ f_database <$> forwards s) (option_list (archive_for s db)).
Proof. unfold archive_for. case_bool_decide; cbn; by repeat constructor. Qed.
Lemma service_given : check_start (pf_linux p) s = Ok () → Forall given_started service.
Proof.
  intros Hc. assert (∀ l, Forall (λ e, archives_of e = []) l → Forall given_started l) as Hnone.
  { intros l Hl. eapply Forall_impl; [exact Hl|]. intros e He. unfold given_started. rewrite He. constructor. }
  unfold service. rewrite !Forall_app, !Forall_cons. split_and!; [|..|constructor|constructor|].
  - destruct (devices s) as [|d1 ds1]; [constructor|]. unfold devices_plan. rewrite !Forall_app. split_and!.
    + destruct (can_devices s) as [|d0 ds0] eqn:Hcan; [constructor|]. unfold capture_plan. cbv zeta.
      rewrite !Forall_app, Forall_cons, !Forall_app. split_and!.
      * apply Hnone, Forall_forall. by intros e (? & -> & ?)%list_elem_of_fmap.
      * constructor.
      * apply Forall_forall. intros e ([i d] & -> & _)%list_elem_of_fmap. apply archive_for_started.
      * apply Hnone. destruct (s_test_pattern s); [|done]. rewrite Forall_app.
        split; apply Forall_forall; by intros e (? & -> & ?)%list_elem_of_fmap.
      * apply Hnone. by repeat constructor.
    + apply Forall_forall. intros e ([d x] & -> & _)%list_elem_of_fmap. unfold given_started. cbn. rewrite Forall_app. split.
      * destruct (subscribed _ _); [apply archive_for_started|constructor].
      * destruct (ss_raw_database x); [apply archive_for_started|constructor].
    + apply Hnone. by destruct (echo_console s); repeat constructor.
  - pose proof (ingest_feeds Hc) as Hi. unfold ingest_plan in *. destruct (s_ingest s) as [i|] eqn:His; [|constructor].
    apply Forall_cons in Hi as [Hg _]. constructor; [|constructor]. unfold given_started. cbn. constructor; [|constructor].
    unfold feeds, gateway in Hg. destruct (s_forward s) as [fwd|] eqn:Hf; [|done]. rewrite (forwards_databases s fwd Hf).
    apply databases_spec. rewrite His. by left.
  - apply Forall_forall. intros e (db & -> & Hdb)%list_elem_of_fmap. unfold given_started. cbn. by repeat constructor.
Qed.

Definition device_read (e : Launched) : option Settings.Device :=
  match e with LReader _ d _ | LTap d _ _ => Some d | _ => None end.
Definition archive_started (e : Launched) : option string :=
  match e with LArchive db => Some db | _ => None end.

Lemma capture_reads : omap device_read (capture_plan p s) = can_devices s.
Proof.
  unfold capture_plan. cbv zeta. rewrite omap_app. unfold opens at 1. rewrite omap_fmap_none by done. cbn [app omap list_omap device_read].
  rewrite !omap_app. unfold reads. rewrite (omap_fmap_some _ _ snd) by by intros [].
  unfold enumerate. rewrite fmap_snd_enumerate_from.
  assert (omap device_read (match s_test_pattern s with
    | None => [] | Some tp => (LWarn <$> test_pattern_warnings s tp) ++ responds (can_devices s) (armed_indices s tp) end) = []) as ->.
  { destruct (s_test_pattern s); [|done]. rewrite omap_app. unfold responds. by rewrite !omap_fmap_none. }
  by rewrite app_nil_r.
Qed.
Lemma plan_reads :
  omap device_read plan = can_devices s ++ (serial_devices s).*1.
Proof.
  rewrite plan_parts. unfold preparation, service. rewrite !omap_app.
  assert (omap device_read (if control then [LControl] else []) = []) as -> by by destruct control.
  rewrite omap_fmap_none by done.
  assert (omap device_read (ingest_plan s) = []) as -> by (unfold ingest_plan; by destruct (s_ingest s)).
  cbn [omap list_omap device_read app]. rewrite omap_fmap_none by done. rewrite !app_nil_r.
  destruct (devices s) as [|d ds] eqn:Hd; [unfold can_devices, serial_devices; by rewrite Hd|]. unfold devices_plan. rewrite !omap_app.
  assert (omap device_read (match can_devices s with [] => [] | _ => capture_plan p s end) = can_devices s) as ->.
  { destruct (can_devices s) eqn:Hc; [done|]. rewrite <- Hc. apply capture_reads. }
  unfold taps. rewrite (omap_fmap_some _ _ fst) by by intros [].
  assert (omap device_read (if echo_console s then [LEcho (colour s)] else []) = []) as -> by by destruct (echo_console s).
  by rewrite app_nil_r.
Qed.
Lemma preparation_starts : omap archive_started preparation = f_database <$> forwards s.
Proof.
  unfold preparation. rewrite omap_app.
  assert (omap archive_started (if control then [LControl] else []) = []) as -> by by destruct control.
  rewrite (omap_fmap_some _ _ (λ x, x)) by done. by rewrite list_fmap_id.
Qed.

Lemma service_starts :
  omap archive_started (match devices s with [] => [] | _ => devices_plan p s (catalogues_open s fs) end ++ ingest_plan s) = [].
Proof.
  rewrite omap_app. assert (omap archive_started (ingest_plan s) = []) as -> by (unfold ingest_plan; by destruct (s_ingest s)).
  rewrite app_nil_r. destruct (devices s) as [|d ds]; [done|]. unfold devices_plan. rewrite !omap_app.
  unfold taps. rewrite omap_fmap_none by by intros [].
  assert (omap archive_started (if echo_console s then [LEcho (colour s)] else []) = []) as -> by by destruct (echo_console s).
  rewrite !app_nil_r. destruct (can_devices s) as [|d0 ds0] eqn:Hcan; [done|]. unfold capture_plan. cbv zeta.
  rewrite omap_app. cbn [omap list_omap archive_started]. rewrite !omap_app. unfold opens, reads.
  rewrite !omap_fmap_none by done || by intros []. destruct (s_test_pattern s); [|done].
  rewrite omap_app. unfold responds. by rewrite !omap_fmap_none.
Qed.

Lemma service_after i e db :
  check_start (pf_linux p) s = Ok () → plan !! i = Some e → db ∈ archives_of e →
  ∃ j, (j < i)%nat ∧ plan !! j = Some (LArchive db).
Proof.
  intros Hc He Hdb. rewrite plan_parts in He |- *.
  assert (length preparation ≤ i)%nat as Hi.
  { destruct (Nat.lt_ge_cases i (length preparation)) as [Hlt|]; [|done]. rewrite lookup_app_l in He by done.
    pose proof (Forall_lookup_1 _ _ _ _ preparation_given He) as Hn. cbn in Hn. rewrite Hn in Hdb. by apply elem_of_nil in Hdb. }
  rewrite lookup_app_r in He by done. pose proof (Forall_lookup_1 _ _ _ _ (service_given Hc) He) as Hg.
  unfold given_started in Hg. rewrite Forall_forall in Hg.
  assert (LArchive db ∈ preparation) as (j & Hj)%list_elem_of_lookup.
  { unfold preparation. rewrite elem_of_app. right. apply list_elem_of_fmap. eauto. }
  exists j. pose proof (lookup_lt_Some _ _ _ Hj). split; [lia|]. by rewrite lookup_app_l.
Qed.

Lemma run_checked w : check_start (pf_linux p) s ≠ Ok () → ∃ e, run p s control fs why (w, []) = (Err (StartRefused e), (w, [])).
Proof. intros Hc. unfold run, os, mbind, io_bind, io_lift. destruct (check_start _ _) as [[]|e]; [done|]. by exists e. Qed.
End Soundness.

Lemma resolved_interfaces `{CatalogueLib} `{SettingsLib} c file ui env r :
  resolve c file ui env = Ok r → NoDup (d_interface <$> devices (settings r)).
Proof.
  intros Hr. destruct (resolve_devices _ _ _ _ _ Hr) as (s2 & sugar & tables & _ & Hb & Hs).
  destruct (build_devices_spec _ _ _ _ _ Hb) as (ds0 & _ & Hnd & Hf & _). by rewrite (renumbered_interfaces _ _ Hf).
Qed.

Section Started.
Context `{CatalogueLib} `{SettingsLib} `{IngestLib} `{CacheLib} `{Sqlite}.

(** C13: a start puts every stream in its own archive, and never panics. Of the
    settings that any flags, file and UI layer resolve to, whatever the operating
    system and the disk answer: each interface that is read and each line that
    is tapped is one of the settings', and with a gateway to forward to it is
    handed the archive of the database it is configured for, a line's raw stream
    its own, and the ingest listener the default database's; every archive that
    anything is handed has been started before it, and is stopped only after the
    readers are. The responder is started only on active interfaces the settings
    name for it. A start that is not refused reads every device once. *)
Theorem start_feeds_archives (c : Cli) (file : option FileConfig) (ui : option UiConfig) (env : Env) (r : Resolved) (p : Platform)
    (control : option string) (fs : Files) (why : Stopped) (w w' : World) (res : result LaunchError Stopped) (es : list Launched)
    (Hr : resolve c file ui env = Ok r) (Hrun : run p (settings r) control fs why (w, []) = (res, (w', es))) :
  let s := settings r in
  (∀ x, res ≠ Err (LaunchPanic x)) ∧
  (∀ i e, es !! i = Some e → feeds s e ∧ ∀ db, db ∈ archives_of e → ∃ j, (j < i)%nat ∧ es !! j = Some (LArchive db)) ∧
  (∀ x, res = Ok x → x = why ∧ omap device_read es = can_devices s ++ (serial_devices s).*1 ∧
     ∃ before, es = before ++ LReady :: LStopReaders :: (LStopArchive <$> omap archive_started before) ∧
       omap archive_started before = f_database <$> forwards s).
Proof.
  intros s. fold s in Hrun. assert (check_start (pf_linux p) s = Ok () ∨ check_start (pf_linux p) s ≠ Ok ()) as [Hc|Hc].
  { destruct (check_start _ _) as [[]|]; [by left|by right]. }
  2:{ destruct (run_checked p s control fs why w Hc) as (e & He). rewrite He in Hrun. injection Hrun as <- <- <-. done. }
  destruct (run_runs p s control fs why w []) as (k & w1 & Hes & Hres). rewrite Hrun in Hes, Hres. cbn [fst snd app] in Hes, Hres.
  injection Hes as -> ->. split; [intros x ->; done|]. split.
  - intros i e Hi. apply lookup_take_Some in Hi as [Hi Hk]. split.
    + apply (Forall_lookup_1 _ _ _ _ (plan_feeds p s control fs (resolved_interfaces _ _ _ _ _ Hr) Hc) Hi).
    + intros db Hdb. destruct (service_after p s control fs i e db Hc Hi Hdb) as (j & Hj & Hl). exists j. split; [done|].
      by rewrite lookup_take_lt by lia.
  - intros x ->. destruct Hres as [Hk ->]. rewrite Hk. split; [done|]. split; [apply plan_reads|].
    exists (preparation s control ++ match devices s with [] => [] | _ => devices_plan p s (catalogues_open s fs) end ++ ingest_plan s).
    assert (omap archive_started (preparation s control ++ match devices s with [] => []
      | _ => devices_plan p s (catalogues_open s fs) end ++ ingest_plan s) = f_database <$> forwards s) as ->.
    { rewrite omap_app, preparation_starts, service_starts. apply app_nil_r. }
    split; [|done]. rewrite plan_parts. unfold service. by rewrite <- !app_assoc.
Qed.
End Started.

(** ** A start *)

Module Bench.
Import (hints) Wire.Packed CacheFifo.Disk Catalogues.Bench ForwardProofs.Toy SettingsProofs.Site.

Definition platform : Platform :=
  MkPlatform true (MkSocketPath true (Ok ()) (Ok ()) (Ok ())) (λ _ _ _, Ok ()) (λ _, MkBitrates 250000 0) (λ _ _, Ok ())
    (λ path _, Err (MkIoErr "busy" (str_eqb path "/dev/ttyS9") false)) (λ _ _, Ok ()).
Definition empty_disk : World := CacheFifo.Disk.MkDisk ∅ ∅.
Notation started p := (run p (settings Site.site) (Some "/run/control.sock") ∅ BySignal (empty_disk, [])).

(** Three archives, two interfaces and a line that will not open. *)
Lemma start_feeds_archives_witness :
  (started platform).1 = Err (OpenSerial "/dev/ttyUSB0" (MkIoErr "busy" false false)) ∧
  length (started platform).2.2 = 11%nat ∧
  ∃ j, (j < 7)%nat ∧ (started platform).2.2 !! j = Some (LArchive "site").
Proof.
  split; [vm_compute; reflexivity|]. split; [vm_compute; reflexivity|].
  assert (archives_of <$> (started platform).2.2 !! 7%nat = Some ["site"]) as Ha by (vm_compute; reflexivity).
  destruct (started platform) as [res [w' es]] eqn:Hrun. cbn [fst snd] in *.
  destruct (start_feeds_archives cli_default (Some Site.file) None Site.env Site.site platform (Some "/run/control.sock") ∅ BySignal _ w' res es Site.site_ok Hrun)
    as (_ & Hall & _).
  destruct (es !! 7%nat) as [e|] eqn:He; [|discriminate]. injection Ha as Ha. apply (Hall 7%nat e He). rewrite Ha. left.
Defined.
End Bench.
