(* ===== verification/Rows.v ===== *)
(** * The gateway's rows ([ingest/writer.rs], [ingest/mod.rs] [rows])

    What the gateway makes of a record and how it writes it: the row of
    [capture_frame], the text it is copied in, and the check the table holds a
    row to. *)

From S2P Require Import Prelude Model Source Wire.
From Stdlib Require Import Ascii.
Import Sample.
Local Open Scope Z_scope.

(** ** The libraries *)

Class RowLib `{ProtoLib} := {
  FLAG_TX : Z;
  ID_ARB_MASK : Z;
  protocol_str : Protocol → string;
  (** [DateTime::from_timestamp_micros], formatted; [None] out of its range. *)
  format_ts : Z → option string
}.

(** The six flags and their bits, the transmit flag the highest; an arbitration id
    is 29 bits, and a Modbus record's is its unit above its function; a data
    frame's length code is its payload's; the protocols are named as the table's check names them, and a
    timestamp prints to the microsecond, without the characters COPY gives a
    meaning to. *)
Definition plain_char (c : ascii) : bool :=
  bool_decide (c ≠ ascii_of_nat 9) && bool_decide (c ≠ ascii_of_nat 10) && bool_decide (c ≠ ascii_of_nat 92).
Class RowLaws `{RowLib} : Prop := {
  flag_tx : FLAG_TX = 32;
  arb_mask : ID_ARB_MASK = 2 ^ 29 - 1;
  flags_bits : ∀ f tx, flags_of f tx = Z.b2z (cf_rtr f) + 2 * Z.b2z (cf_fd f) + 4 * Z.b2z (cf_brs f) +
    8 * Z.b2z (cf_extended f) + 16 * Z.b2z (cf_esi f) + 32 * Z.b2z tx;
  data_code : ∀ b a x fd brs esi p, cf_dlc (cf_set_esi esi (cf_data_frame b a x fd brs p)) = length_code_of (length p);
  modbus_id : ∀ u f crc tx, is_u8 u → is_u8 f →
    let '(_, i, _) := to_wire (RfModbus u f crc tx) in Z.land i ID_ARB_MASK = u * 256 + f;
  protocol_names : protocol_str ProtoCan = "can" ∧ protocol_str ProtoModbusRtu = "modbus_rtu" ∧
    protocol_str ProtoSerial = "serial";
  ts_plain : ∀ t s, format_ts t = Some s → str_all plain_char s = true;
  ts_distinct : ∀ t u s, format_ts t = Some s → format_ts u = Some s → t = u
}.

(** ** [FrameRow] *)

Record FrameRow := MkRow {
  row_ts_us : Z;
  row_protocol : Protocol;
  row_id : Z;
  row_flags : Z;
  row_dlc : Z;
  row_data : list Z;
  row_bus : Z;
  row_unit : option Z;
  row_func : option Z;
  row_crc_valid : option bool
}.
#[global] Instance FrameRow_eq_dec : EqDecision FrameRow.
Proof. solve_decision. Defined.

Section Rows.
Context `{RowLib}.

(** [x as u16]. *)
Definition as_u16 (n : Z) : Z := n mod 2 ^ 16.

(** [FrameRow::new]; [None] is the [expect] on a CAN record. *)
Definition frame_row (ts_us : Z) (r : WireRecord) : option FrameRow :=
  let fields := from_wire (wr_kind r) (wr_id_flags r) (wr_flags r) in
  let data := wr_payload r in
  let tx (transmitted : bool) := if transmitted then FLAG_TX else 0 in
  match fields with
  | RfCan transmitted _ =>
      frame ← to_can fields (wr_bus r) data;
      Some (MkRow ts_us ProtoCan (cf_arb_id frame) (flags_of frame transmitted) (cf_dlc frame) (cf_data frame)
              (wr_bus r) None None None)
  | RfModbus unit func crc_valid transmitted =>
      Some (MkRow ts_us ProtoModbusRtu (Z.land (wr_id_flags r) ID_ARB_MASK) (tx transmitted)
              (as_u16 (Z.of_nat (length data))) data (wr_bus r) (Some unit) (Some func) (Some crc_valid))
  | RfRawSerial _ transmitted =>
      Some (MkRow ts_us ProtoSerial 0 (tx transmitted) (as_u16 (Z.of_nat (length data))) data (wr_bus r) None None None)
  end.

(** ** [copy_text] *)

(** An [SqlState]'s five characters, and what failed. *)
Record CopyError := MkCopyError { ce_code : option string; ce_message : string }.
Definition DATETIME_FIELD_OVERFLOW : string := "22008".

Definition refused_the_rows (code : option string) : bool :=
  match code with
  | Some (String a (String b _)) =>
      bool_decide (a = "2"%char) && (bool_decide (b = "2"%char) || bool_decide (b = "3"%char))
  | _ => false
  end.

Definition copy_bool (b : bool) : string := if b then "t" else "f".
Definition backslash : string := String (ascii_of_nat 92) EmptyString.
Definition tab : string := String (ascii_of_nat 9) EmptyString.
Definition lf : string := String (ascii_of_nat 10) EmptyString.
Definition nullable {A} (f : A → string) (o : option A) : string :=
  match o with Some v => f v | None => backslash +:+ "N" end.

Definition copy_columns (ts : string) (r : FrameRow) : list string :=
  [ts; protocol_str (row_protocol r); pretty (row_id r); pretty (row_flags r); pretty (row_dlc r);
   backslash +:+ backslash +:+ "x" +:+ hex_encode (row_data r); pretty (row_bus r);
   nullable pretty (row_unit r); nullable pretty (row_func r); nullable copy_bool (row_crc_valid r)].
Definition copy_line (ts : string) (r : FrameRow) : string := str_join tab (copy_columns ts r) +:+ lf.

Fixpoint copy_text (batch : list FrameRow) : result CopyError string :=
  match batch with
  | [] => Ok EmptyString
  | row :: batch =>
      ts <-? ok_or (format_ts (row_ts_us row))
               (MkCopyError (Some DATETIME_FIELD_OVERFLOW) ("timestamp out of range: " +:+ pretty (row_ts_us row))) ;;
      rest <-? copy_text batch ;;
      Ok (copy_line ts row +:+ rest)
  end.

(** ** The table's checks *)

(** [capture_frame]'s CHECKs and the widths of its columns. *)
Definition row_checks (r : FrameRow) : bool :=
  (- 2 ^ 31 <=? row_id r) && (row_id r <? 2 ^ 31) && (0 <=? row_dlc r) && (row_dlc r <=? 256) &&
  (- 2 ^ 15 <=? row_flags r) && (row_flags r <? 2 ^ 15) &&
  match row_protocol r with
  | ProtoCan => negb (bool_decide (is_Some (row_unit r))) && negb (bool_decide (is_Some (row_func r))) &&
      negb (bool_decide (is_Some (row_crc_valid r)))
  | ProtoModbusRtu => ((row_flags r =? 0) || (row_flags r =? 32)) && bool_decide (is_Some (row_unit r)) &&
      bool_decide (is_Some (row_func r)) && bool_decide (is_Some (row_crc_valid r))
  | ProtoSerial => ((row_flags r =? 0) || (row_flags r =? 32)) && negb (bool_decide (is_Some (row_unit r))) &&
      negb (bool_decide (is_Some (row_func r))) && negb (bool_decide (is_Some (row_crc_valid r)))
  end.
End Rows.

(** ** A sample's row *)

Definition payload_of (s : Sample) : list Z :=
  match s with Can c => can_data c | Modbus m => mb_raw m | Serial r => ser_data r end.

Section RowFacts.
Context `{RowLaws} `{!ProtoLaws} `{!CanLaws}.

Lemma can_frame_fields c :
  frame_ok c = true → cf_arb_id (can_frame c) = can_arb_id c ∧ cf_data (can_frame c) = can_data c.
Proof.
  intros Hc. pose proof (can_sample_frame c Hc) as He.
  split; [exact (f_equal can_arb_id He)|exact (f_equal can_data He)].
Qed.

Lemma length_code_range n : 0 ≤ length_code_of n ≤ 15.
Proof. unfold length_code_of. repeat (case_match; try lia). Qed.

(** The row that says of the sample what the table has columns for. *)
Definition sample_flags (c : CanSample) : Z :=
  Z.b2z (bool_decide (is_Some (can_rtr c))) + 2 * Z.b2z (can_is_fd c) + 4 * Z.b2z (can_brs c) +
  8 * Z.b2z (can_extended c) + 16 * Z.b2z (can_esi c) + 32 * Z.b2z (bool_decide (can_dir c = Tx)).
Definition sample_row (s : Sample) : FrameRow :=
  let row := MkRow (Z.max (ts_us s) 0) (protocol s) in
  match s with
  | Can c => row (can_arb_id c) (sample_flags c) (default (length_code_of (length (can_data c))) (can_rtr c))
      (can_data c) (can_bus c) None None None
  | Modbus m => row (mb_unit m * 256 + mb_func m) 0 (Z.of_nat (length (mb_raw m))) (mb_raw m) (mb_bus m)
      (Some (mb_unit m)) (Some (mb_func m)) (Some (mb_crc_valid m))
  | Serial r => row 0 0 (Z.of_nat (length (ser_data r))) (ser_data r) (ser_bus r) None None None
  end.

Lemma can_frame_row c :
  frame_ok c = true →
  flags_of (can_frame c) (bool_decide (can_dir c = Tx)) = sample_flags c ∧
  cf_dlc (can_frame c) = default (length_code_of (length (can_data c))) (can_rtr c).
Proof.
  intros Hc. pose proof (can_sample_frame c Hc) as He. split.
  - rewrite flags_bits. unfold sample_flags.
    rewrite <- (f_equal can_extended He), <- (f_equal can_is_fd He), <- (f_equal can_brs He), <- (f_equal can_esi He).
    rewrite <- (f_equal can_rtr He). cbn. by destruct (cf_rtr (can_frame c)).
  - unfold can_frame. destruct (can_rtr c) as [d|] eqn:Hd; [|apply data_code].
    unfold frame_ok in Hc. rewrite Hd in Hc. bool_prop. destruct (can_esi c); [done|].
    by destruct (remote_fields (can_bus c) (can_arb_id c) (can_extended c) d) as (_ & _ & _ & _ & _ & _ & _ & ->); [lia|].
Qed.

Lemma as_u16_len (l : list Z) : (length l ≤ 256)%nat → as_u16 (Z.of_nat (length l)) = Z.of_nat (length l).
Proof. intros. apply Z.mod_small. lia. Qed.

Lemma can_row_checks r :
  row_protocol r = ProtoCan → 0 ≤ row_id r < 2 ^ 29 → 0 ≤ row_dlc r ≤ 15 → 0 ≤ row_flags r < 64 →
  row_unit r = None → row_func r = None → row_crc_valid r = None → row_checks r = true.
Proof.
  intros Hp Hi Hd Hf Hu Hn Hc. unfold row_checks. rewrite Hp, Hu, Hn, Hc.
  rewrite !andb_true_iff, !Z.leb_le, !Z.ltb_lt. repeat split; try reflexivity; lia.
Qed.

Lemma off_can_row_checks r :
  row_protocol r ≠ ProtoCan → 0 ≤ row_id r < 2 ^ 16 → 0 ≤ row_dlc r ≤ 256 → row_flags r = 0 →
  (is_Some (row_unit r) ↔ row_protocol r = ProtoModbusRtu) →
  (is_Some (row_func r) ↔ row_protocol r = ProtoModbusRtu) →
  (is_Some (row_crc_valid r) ↔ row_protocol r = ProtoModbusRtu) → row_checks r = true.
Proof.
  intros Hp Hi Hd Hf Hu Hn Hc. unfold row_checks. rewrite Hf.
  rewrite !andb_true_iff, !Z.leb_le, !Z.ltb_lt.
  split_and!; try lia. destruct (row_protocol r); [done| |];
    repeat (first [rewrite bool_decide_eq_true_2 by tauto | rewrite bool_decide_eq_false_2 by (intros ?; intuition congruence)]);
    done.
Qed.

Lemma sample_row_checks s :
  sample_ok s → sample_carried s = true → (length (payload_of s) ≤ 256)%nat → row_checks (sample_row s) = true.
Proof.
  intros Hok Hc Hlen. destruct s as [c|m|r]; simpl in *.
  - apply can_row_checks; simpl; try done.
    + unfold frame_ok in Hc. bool_prop. destruct (can_extended c); lia.
    + unfold frame_ok in Hc. destruct (can_rtr c); cbn; [bool_prop; lia|apply length_code_range].
    + unfold sample_flags. destruct (bool_decide _), (can_is_fd c), (can_brs c), (can_extended c), (can_esi c), (bool_decide _); cbn; lia.
  - destruct Hok as (_ & _ & Hu & Hf & _). unfold is_u8 in *. apply off_can_row_checks; simpl; try done; lia.
  - apply off_can_row_checks; simpl; try done; try lia; split; (by intros [? ?]) || done.
Qed.

End RowFacts.

(** ** The text is the rows *)

(** Neither a tab nor a line feed. *)
Definition inline (s : string) : Prop :=
  str_free (ascii_of_nat 9) s = true ∧ str_free (ascii_of_nat 10) s = true.

Lemma inline_app a b : inline (a +:+ b) ↔ inline a ∧ inline b.
Proof. unfold inline, str_free. rewrite !str_all_app, !andb_true_iff. tauto. Qed.
Lemma inline_all p s :
  (∀ c, p c = true → plain_char c = true) → str_all p s = true → inline s.
Proof.
  intros Hp Hs. unfold inline, str_free.
  split; apply (str_all_impl p); try done; intros c Hc; apply Hp in Hc; unfold plain_char in Hc;
    rewrite !andb_true_iff in Hc; tauto.
Qed.

Lemma plain_of_code (p : ascii → bool) :
  (∀ c, p c = true → nat_of_ascii c ≠ 9%nat ∧ nat_of_ascii c ≠ 10%nat ∧ nat_of_ascii c ≠ 92%nat) →
  ∀ c, p c = true → plain_char c = true.
Proof.
  intros Hp c Hc. destruct (Hp c Hc) as (? & ? & ?). unfold plain_char.
  rewrite !andb_true_iff, !bool_decide_eq_true. split_and!; intros ->; done.
Qed.

Lemma number_plain c : number_char c = true → plain_char c = true.
Proof.
  apply plain_of_code. clear c. intros c. unfold number_char.
  destruct (bool_decide_reflect (c = "-"%char)) as [->|_]; [by cbn|]. cbn [orb].
  rewrite andb_true_iff, !Nat.leb_le. lia.
Qed.
Lemma pretty_inline (z : Z) : inline (pretty z).
Proof. exact (inline_all _ _ number_plain (pretty_number z)). Qed.

(** A byte's half prints as one of sixteen characters, all different. *)
Lemma nibble_cases n :
  0 ≤ n < 16 → In n [0; 1; 2; 3; 4; 5; 6; 7; 8; 9; 10; 11; 12; 13; 14; 15].
Proof. intros. cbn. lia. Qed.
Lemma hex_digit_plain n : 0 ≤ n < 16 → plain_char (hex_digit n) = true.
Proof. intros Hn. apply nibble_cases in Hn. cbn [In] in Hn. by destruct_or! Hn; subst. Qed.
Lemma bytes_range l : bytes_ok l → Forall (λ b, 0 ≤ b < 256) l.
Proof. intros Hl. eapply Forall_impl; [exact Hl|]. unfold is_u8. intros b. lia. Qed.
Lemma hex_encode_inline l : bytes_ok l → inline (hex_encode l).
Proof.
  intros Hl%bytes_range. apply (inline_all plain_char); [done|]. induction Hl as [|b l Hb Hl IH]; [done|].
  destruct (nibbles b Hb). cbn. by rewrite !hex_digit_plain.
Qed.
Lemma nullable_inline {A} (f : A → string) o : (∀ a, inline (f a)) → inline (nullable f o).
Proof. intros Hf. by destruct o; [apply Hf|]. Qed.
Lemma nullable_inj {A} (f : A → string) o o' :
  (∀ a, str_free (ascii_of_nat 92) (f a) = true) → (∀ a b, f a = f b → a = b) →
  nullable f o = nullable f o' → o = o'.
Proof.
  intros Hf Hinj. destruct o as [a|], o' as [b|]; cbn [nullable]; intros He; try done.
  - f_equal. by apply Hinj.
  - pose proof (Hf a) as Ha. by rewrite He in Ha.
  - pose proof (Hf b) as Hb. by rewrite <-He in Hb.
Qed.
Lemma pretty_unescaped (z : Z) : str_free (ascii_of_nat 92) (pretty z) = true.
Proof.
  apply (str_all_impl number_char); [|exact (pretty_number z)].
  intros c Hc. apply number_plain in Hc. unfold plain_char in Hc. rewrite !andb_true_iff in Hc. tauto.
Qed.

Section CopyText.
Context `{RowLaws}.

Lemma protocol_str_inline p : inline (protocol_str p).
Proof. destruct protocol_names as (Hc & Hm & Hs). by destruct p; rewrite ?Hc, ?Hm, ?Hs. Qed.
Lemma protocol_str_inj p q : protocol_str p = protocol_str q → p = q.
Proof. destruct protocol_names as (Hc & Hm & Hs). by destruct p, q; rewrite ?Hc, ?Hm, ?Hs. Qed.

Lemma columns_inline ts r :
  str_all plain_char ts = true → bytes_ok (row_data r) → Forall inline (copy_columns ts r).
Proof.
  intros Hts Hd. unfold copy_columns.
  repeat apply List.Forall_cons; try apply List.Forall_nil; auto using protocol_str_inline, pretty_inline.
  - by apply (inline_all plain_char).
  - rewrite !inline_app. split_and!; try done. by apply hex_encode_inline.
  - apply nullable_inline, pretty_inline.
  - apply nullable_inline, pretty_inline.
  - apply nullable_inline. by intros [].
Qed.

Lemma columns_inj ts ts' r r' :
  bytes_ok (row_data r) → bytes_ok (row_data r') →
  format_ts (row_ts_us r) = Some ts → format_ts (row_ts_us r') = Some ts' →
  copy_columns ts r = copy_columns ts' r' → r = r'.
Proof.
  intros Hd Hd' Hts Hts' He. unfold copy_columns in He.
  injection He as E1 E2 E3 E4 E5 E6 E7 E8 E9 E10. subst ts'.
  pose proof (ts_distinct _ _ _ Hts Hts').
  apply protocol_str_inj in E2. apply (inj pretty) in E3, E4, E5, E7.
  apply hex_encode_inj in E6; [|by apply bytes_range..].
  apply nullable_inj in E8; [|apply pretty_unescaped|apply (inj pretty)].
  apply nullable_inj in E9; [|apply pretty_unescaped|apply (inj pretty)].
  apply nullable_inj in E10; [|by intros []|by intros [] []].
  destruct r, r'. simpl in *. by subst.
Qed.

(** A line splits off the text of the rows after it, and into its columns. *)
Lemma line_splits ts r rest :
  str_all plain_char ts = true → bytes_ok (row_data r) →
  str_split (ascii_of_nat 10) (copy_line ts r +:+ rest) =
    str_join tab (copy_columns ts r) :: str_split (ascii_of_nat 10) rest ∧
  str_split (ascii_of_nat 9) (str_join tab (copy_columns ts r)) = copy_columns ts r.
Proof.
  intros Hts Hd. pose proof (columns_inline ts r Hts Hd) as Hf. split.
  - unfold copy_line, lf. rewrite <-str_app_assoc.
    change (String (ascii_of_nat 10) "" +:+ rest) with (String (ascii_of_nat 10) rest). apply str_split_app.
    generalize dependent (copy_columns ts r). intros l Hf.
    induction Hf as [|x l Hx Hl IH]; [done|]. destruct l as [|y l]; [apply Hx|].
    change (str_join tab (x :: y :: l)) with (x +:+ tab +:+ str_join tab (y :: l)).
    unfold str_free in *. rewrite !str_all_app, IH. destruct Hx as [_ Hx]. unfold str_free in Hx. by rewrite Hx.
  - apply str_split_join; [done|]. eapply Forall_impl; [exact Hf|]. by intros x [? _].
Qed.

Lemma copy_text_cons r a text :
  copy_text (r :: a) = Ok text →
  ∃ ts rest, format_ts (row_ts_us r) = Some ts ∧ copy_text a = Ok rest ∧ text = copy_line ts r +:+ rest.
Proof.
  cbn [copy_text]. unfold ok_or. destruct (format_ts (row_ts_us r)) as [ts|]; [|done].
  destruct (copy_text a) as [rest|]; [|done]. intros [= <-]. eauto.
Qed.

Lemma split_ne sep s : str_split sep s ≠ [].
Proof. destruct s; cbn; [done|]. case_bool_decide; [done|]. by destruct (str_split sep s). Qed.

Lemma copy_lines_inj (a b : list FrameRow) (ta tb : string) :
  Forall (λ r, bytes_ok (row_data r)) a → Forall (λ r, bytes_ok (row_data r)) b →
  copy_text a = Ok ta → copy_text b = Ok tb →
  str_split (ascii_of_nat 10) ta = str_split (ascii_of_nat 10) tb → a = b.
Proof.
  intros Ha. revert b ta tb.
  induction Ha as [|r a Hr Ha IH]; intros b ta tb Hb Ea Eb Hs; destruct Hb as [|r' b Hr' Hb]; [done| | |];
    try apply copy_text_cons in Ea as (ts & rest & Hts & Ea & ->);
    try apply copy_text_cons in Eb as (ts' & rest' & Hts' & Eb & ->).
  - injection Ea as <-. destruct (line_splits ts' r' rest') as [Hl _]; [by apply ts_plain in Hts'|done|].
    rewrite Hl in Hs. injection Hs as _ Hs. by destruct (split_ne (ascii_of_nat 10) rest').
  - injection Eb as <-. destruct (line_splits ts r rest) as [Hl _]; [by apply ts_plain in Hts|done|].
    rewrite Hl in Hs. injection Hs as _ Hs. by destruct (split_ne (ascii_of_nat 10) rest).
  - destruct (line_splits ts r rest) as [Hl Hc]; [by apply ts_plain in Hts|done|].
    destruct (line_splits ts' r' rest') as [Hl' Hc']; [by apply ts_plain in Hts'|done|].
    rewrite Hl, Hl' in Hs. apply (f_equal (List.hd "")) in Hs as Hj. apply (f_equal tail) in Hs.
    f_equal; [|by eapply IH]. change (str_join tab (copy_columns ts r) = str_join tab (copy_columns ts' r')) in Hj.
    apply (columns_inj ts ts'); try done. by rewrite <-Hc, <-Hc', Hj.
Qed.

End CopyText.

(** ** An instance *)

Module Stored.
Import Packed.

#[export] Instance row_lib : RowLib := {
  FLAG_TX := 32;
  ID_ARB_MASK := 2 ^ 29 - 1;
  protocol_str p := match p with ProtoCan => "can" | ProtoModbusRtu => "modbus_rtu" | ProtoSerial => "serial" end;
  format_ts t := if t <? 2 ^ 62 then Some (pretty t) else None
}.

#[export] Instance row_laws : RowLaws.
Proof.
  split; try done.
  - intros u f crc tx Hu Hf. cbn. unfold is_u8 in *. change (2 ^ 29 - 1) with (Z.ones 29).
    rewrite Z.land_ones by lia. apply Z.mod_small. lia.
  - intros t s. cbn. destruct (t <? 2 ^ 62); [|done]. intros [= <-].
    exact (str_all_impl _ _ _ number_plain (pretty_number t)).
  - intros t u s. cbn. destruct (t <? 2 ^ 62), (u <? 2 ^ 62); try done. intros [= <-] [= He]. by apply (inj pretty) in He.
Qed.

Definition meter : Sample := Modbus (MkModbus 5 2 1 32 true [1; 32; 1; 200; 3; 17; 26; 0; 2; 228; 202]).
Definition meter_row : FrameRow :=
  MkRow 5 ProtoModbusRtu (2 ^ 8 + 32) 0 11 [1; 32; 1; 200; 3; 17; 26; 0; 2; 228; 202] 2 (Some 1) (Some 32) (Some true).

(** A transmitted FD frame with an extended id, and a Modbus message. *)
Definition burst : Sample := Can (MkCan 7 417001744 true true None true true (repeat 170 12) 2 Tx).


End Stored.
