(* ===== verification/Store.v ===== *)
(** * The gateway's store ([db.rs], [ingest/writer.rs], [ingest/mod.rs] [handle_batch])

    How a batch reaches a capture database: the state the gateway keeps of a
    database's schema and the pools it caches by it, the route a batch takes,
    and the transactions that copy it into [capture_frame] or its buffer and
    drain the buffer, as they interleave.

    A transaction is modelled by the statements the source issues, one step
    each. What is taken of PostgreSQL: a statement sees what is committed and
    what its own transaction wrote; a transaction's writes appear when it
    commits, all of them or none; an advisory transaction lock is held until the
    transaction ends, shared with shared holders only, and a [try] for it fails
    where it would wait, behind a waiter too. *)

From S2P Require Import Prelude Model Source Wire Rows Forward ForwardProofs.
From stdpp Require Import sorting.
Local Open Scope Z_scope.

Definition SCHEMA_VERSION : Z := 5.

(** ** [DbSchemaState] *)

(** Instants are in microseconds. *)
Inductive DbSchemaState :=
  | Current (version : Z)
  | Pending (version : Z)
  | Migrating (since : Z)
  | Failed (version : Z) (error : string) (since : Z).
#[global] Instance DbSchemaState_eq_dec : EqDecision DbSchemaState.
Proof. solve_decision. Defined.

Definition FAILED_RETRY_INTERVAL : Z := 30 * 1000000.

Definition state_label (s : DbSchemaState) : string :=
  match s with
  | Current _ => "current" | Pending _ => "pending" | Migrating _ => "migrating" | Failed _ _ _ => "failed"
  end.
Definition state_version (s : DbSchemaState) : option Z :=
  match s with Current v | Pending v | Failed v _ _ => Some v | Migrating _ => None end.
Definition busy_secs (now : Z) (s : DbSchemaState) : option Z :=
  match s with Migrating since => Some ((now - since) / 1000000) | _ => None end.

Definition is_current (s : option DbSchemaState) : bool :=
  match s with Some (Current _) => true | _ => false end.

Inductive DbError := Refused (message : string) | Unavailable (message : string).
Inductive WriteError := WriteDb (e : DbError) | WriteCopy (e : CopyError).

(** Where a batch goes; the pool it is written through is not looked into. *)
Inductive Route := Live | Buffered | Held.
Inductive Written := WrittenBuffered | WrittenLive.

(** ** What the gateway decides by a database's state *)

Definition owes_migration (s : option DbSchemaState) (failed_too : bool) : bool :=
  match s with
  | Some (Pending _) | Some (Migrating _) => true
  | Some (Failed _ _ _) => failed_too
  | _ => false
  end.

(** [route]: whether an import holds the database, its state when asked, what
    [pool] answered, its state after, and what [buffer_pool] answered. *)
Definition route (auto_migrate held : bool) (at_first : option DbSchemaState) (pool : result DbError unit)
    (after : option DbSchemaState) (buffer_pool : result DbError unit) : result DbError Route :=
  if held then Ok Held
  else
    let to_buffer := (check buffer_pool ;; Ok Buffered) in
    if negb (owes_migration at_first (negb auto_migrate)) then
      match pool with
      | Ok _ => Ok Live
      | Err e => if negb (owes_migration after true) then Err e else to_buffer
      end
    else to_buffer.

(** [require_current]: its answer, the state it leaves and whether it starts a
    migration. *)
Definition require_current (auto_migrate : bool) (now : Z) (name : string) (s : option DbSchemaState)
    : result string unit * option DbSchemaState * bool :=
  let checked (starts : bool) (s : option DbSchemaState) :=
    if starts then (Err ("database '" +:+ name +:+ "' is being checked; retry shortly"), s, true)
    else (Err ("database '" +:+ name +:+ "' has not been checked and WIRETAP_AUTO_MIGRATE is off"), s, false) in
  match s with
  | Some (Current _) => (Ok tt, s, false)
  | Some (Failed _ _ since as st) =>
      if auto_migrate && (FAILED_RETRY_INTERVAL <=? now - since) then checked true (Some (Migrating now))
      else (Err ("database '" +:+ name +:+ "' is not ready: schema " +:+ state_label st), s, false)
  | Some (Pending version) =>
      (Err ("database '" +:+ name +:+ "' is at schema v" +:+ pretty version +:+
            " and waiting to be migrated to v" +:+ pretty SCHEMA_VERSION +:+
            ": Migrate now on the admin UI's Databases page, or POST /v1/databases/" +:+ name +:+ "/migrate"), s, false)
  | Some st => (Err ("database '" +:+ name +:+ "' is not ready: schema " +:+ state_label st), s, false)
  | None => checked auto_migrate s
  end.

(** [recheck_if_behind]'s test. *)
Definition behind (auto_migrate : bool) (now : Z) (s : option DbSchemaState) : bool :=
  match s with
  | Some (Pending _) => true
  | Some (Failed _ _ since) => negb auto_migrate && (FAILED_RETRY_INTERVAL <=? now - since)
  | None => negb auto_migrate
  | _ => false
  end.

(** [recheck_if_behind] past its first test: the state it settles on, if any. *)
Definition rechecked (probe : result string (option Z)) (drained : result string Z) : option DbSchemaState :=
  match probe with
  | Ok (Some version) =>
      if version =? SCHEMA_VERSION then
        match drained with Ok _ => Some (Current version) | Err _ => None end
      else Some (Pending version)
  | _ => None
  end.

(** [start_migration]'s [refuse_settled]. *)
Definition refuse_settled (s : option DbSchemaState) : bool :=
  match s with Some (Current _) | Some (Migrating _) => true | _ => false end.

(** ** The pools cached by it *)

(** One database's entries in [pools], [buffer_pools] and [schema_state]. *)
Record Entry := MkEntry { pooled : bool; buffer_pooled : bool; schema_state : option DbSchemaState }.
Definition unseen : Entry := MkEntry false false None.

(** The critical sections that change them. [Recheck] is the end of
    [recheck_if_behind], [Start] the claim of [start_migration]; [DropPool],
    [DropBufferPool] and [DropState] the removals of [swap_in] and
    [delete_database], which takes one lock after another. *)
Inductive Section_ :=
  | SetState (s : DbSchemaState)
  | PoolIfCurrent (now : Z)
  | Recheck (now : Z) (probe : result string (option Z)) (drained : result string Z)
  | Start (now : Z)
  | BufferPool
  | DropPool
  | DropBufferPool
  | DropState.

Definition set_state (s : DbSchemaState) (e : Entry) : Entry :=
  if is_current (Some s) then MkEntry (pooled e) false (Some s)
  else MkEntry false (buffer_pooled e) (Some s).

(** [pool_if_current], under the pools' lock from its check to its insert. *)
Definition pool_if_current (auto_migrate : bool) (now : Z) (name : string) (e : Entry)
    : result string unit * Entry :=
  let '(answer, s, _) := require_current auto_migrate now name (schema_state e) in
  match answer with
  | Ok _ => (Ok tt, MkEntry true (buffer_pooled e) s)
  | Err m => (Err m, MkEntry (pooled e) (buffer_pooled e) s)
  end.

(** [pool] of a database that exists and is not importing. *)
Definition pool (auto_migrate : bool) (now : Z) (name : string) (e : Entry) : result string unit :=
  if pooled e then Ok tt else (pool_if_current auto_migrate now name e).1.

Definition with_state (s : option DbSchemaState) (e : Entry) : Entry := MkEntry (pooled e) (buffer_pooled e) s.

Definition entry_step (auto_migrate : bool) (name : string) (e : Entry) (x : Section_) : Entry :=
  match x with
  | SetState s => set_state s e
  | PoolIfCurrent now => (pool_if_current auto_migrate now name e).2
  | Recheck now probe drained =>
      match rechecked probe drained with
      | Some s => if behind auto_migrate now (schema_state e) then with_state (Some s) e else e
      | None => e
      end
  | Start now => if refuse_settled (schema_state e) then e else with_state (Some (Migrating now)) e
  | BufferPool => MkEntry (pooled e) true (schema_state e)
  | DropPool => MkEntry false (buffer_pooled e) (schema_state e)
  | DropBufferPool => MkEntry (pooled e) false (schema_state e)
  | DropState => with_state None e
  end.

(** ** The tables *)

Import Sample.

Record Tables := MkTables {
  t_version : option Z;
  t_live : list FrameRow;
  (** [capture_frame_pending] and [capture_frame_drained], where they exist. *)
  t_pending : option (list FrameRow);
  t_drained : option (list (Z * Z))
}.

(** Where [copy_rows], [buffer_rows] and [drain_pending] stand between two
    statements. *)
Inductive Task :=
  | CopyRows (rows : list FrameRow)
  | BufferRows (rows : list FrameRow) (held : bool)
  | BufferLocked (rows : list FrameRow)
  | Behind (rows : list FrameRow)
  | Creating (rows : list FrameRow)
  | Create (rows : list FrameRow)
  | Into (rows : list FrameRow) (current creator : bool)
  | Copied (rows : list FrameRow) (current creator : bool)
  | Wrote (rows : list FrameRow) (answer : result CopyError Written)
  | DrainPending
  | DrainBegin
  | DrainWaiting
  | DrainLocked
  | DrainSpan
  | DrainInsert (span : option (Z * Z))
  | DrainDrop (span : option (Z * Z)) (rows : list FrameRow)
  | DrainCommit (span : option (Z * Z)) (rows : list FrameRow)
  | Drained (answer : result string Z).

(** [BUFFER_LOCK], shared and exclusive, and [CREATE_PENDING_LOCK]. *)
Definition holds_shared (t : Task) : bool :=
  match t with
  | BufferLocked _ | Behind _ | Creating _ | Create _ | Into _ _ _ | Copied _ _ _ => true
  | _ => false
  end.
Definition holds_exclusive (t : Task) : bool :=
  match t with
  | DrainLocked | DrainSpan | DrainInsert _ | DrainDrop _ _ | DrainCommit _ _ => true
  | _ => false
  end.
Definition waits_exclusive (t : Task) : bool := match t with DrainWaiting => true | _ => false end.
Definition holds_create (t : Task) : bool :=
  match t with Create _ | Into _ _ true | Copied _ _ true => true | _ => false end.

(** What the database answers: the statement works, fails and rolls its
    transaction back, or commits and the reply is lost. *)
Inductive Reply := Fine | Fails (e : CopyError) | Lost (e : CopyError).

Definition being_drained : CopyError := MkCopyError None "the buffer is being drained; retry shortly".
Definition no_buffer : CopyError := MkCopyError (Some "42P01") "copy_in: db error".

Definition has_pending (d : Tables) : bool := match t_pending d with Some _ => true | None => false end.
Definition add_live (rows : list FrameRow) (d : Tables) : Tables :=
  MkTables (t_version d) (t_live d ++ rows) (t_pending d) (t_drained d).
Definition add_pending (rows : list FrameRow) (d : Tables) : Tables :=
  MkTables (t_version d) (t_live d) (Some (default [] (t_pending d) ++ rows)) (t_drained d).

(** [min(ts), max(ts) … HAVING count( * ) > 0]. *)
Definition span_of (rows : list FrameRow) : option (Z * Z) :=
  match rows with
  | [] => None
  | r :: rest => Some (foldr (λ r, Z.min (row_ts_us r)) (row_ts_us r) rest,
                       foldr (λ r, Z.max (row_ts_us r)) (row_ts_us r) rest)
  end.

Section Steps.
Context `{RowLib}.

(** [copy_text] comes before anything is asked of the database. *)
Definition with_text (rows : list FrameRow) (d : Tables) (k : option (Tables * Task)) : option (Tables * Task) :=
  match copy_text rows with Err e => Some (d, Wrote rows (Err e)) | Ok _ => k end.

(** One statement of [copy_rows] or [buffer_rows], answered [r]; [None] waits. *)
Definition write_step (d : Tables) (others : list Task) (t : Task) (r : Reply) : option (Tables * Task) :=
  let fail rows e := Some (d, Wrote rows (Err e)) in
  let or_fail rows (k : option (Tables * Task)) :=
    match r with Fine => k | Fails e | Lost e => fail rows e end in
  let commit rows (d' : Tables) (w : Written) :=
    match r with
    | Fine => Some (d', Wrote rows (Ok w))
    | Fails e => fail rows e
    | Lost e => Some (d', Wrote rows (Err e))
    end in
  match t with
  | CopyRows rows => with_text rows d (commit rows (add_live rows d) WrittenLive)
  | BufferRows rows held =>
      with_text rows d (or_fail rows
        (let locked := negb (existsb holds_exclusive others || existsb waits_exclusive others) in
         if negb locked then fail rows being_drained
         else Some (d, if held then Behind rows else BufferLocked rows)))
  | BufferLocked rows =>
      or_fail rows (Some (d, if bool_decide (t_version d = Some SCHEMA_VERSION) then Into rows true false
                             else Behind rows))
  | Behind rows => or_fail rows (Some (d, if has_pending d then Into rows false false else Creating rows))
  | Creating rows => or_fail rows (if existsb holds_create others then None else Some (d, Create rows))
  | Create rows => or_fail rows (Some (d, Into rows false true))
  | Into rows current creator =>
      or_fail rows (if negb current && negb creator && negb (has_pending d)
                    then fail rows no_buffer else Some (d, Copied rows current creator))
  | Copied rows current _ =>
      commit rows (if current then add_live rows d else add_pending rows d)
        (if current then WrittenLive else WrittenBuffered)
  | _ => None
  end.

(** One statement of [drain_pending]. *)
Definition drain_step (d : Tables) (others : list Task) (t : Task) (r : Reply) : option (Tables * Task) :=
  let fail e := Some (d, Drained (Err (ce_message e))) in
  let or_fail (k : option (Tables * Task)) := match r with Fine => k | Fails e | Lost e => fail e end in
  let free := negb (existsb holds_shared others || existsb holds_exclusive others) in
  match t with
  | DrainPending => or_fail (Some (d, if has_pending d then DrainBegin else Drained (Ok 0)))
  | DrainBegin => or_fail (Some (d, if free then DrainLocked else DrainWaiting))
  | DrainWaiting => or_fail (if free then Some (d, DrainLocked) else None)
  | DrainLocked => or_fail (Some (d, if has_pending d then DrainSpan else Drained (Ok 0)))
  | DrainSpan => or_fail (Some (d, DrainInsert (span_of (default [] (t_pending d)))))
  | DrainInsert span => or_fail (Some (d, DrainDrop span (default [] (t_pending d))))
  | DrainDrop span rows => or_fail (Some (d, DrainCommit span rows))
  | DrainCommit span rows =>
      let d' := MkTables (t_version d) (t_live d ++ rows) None
                  (Some (default [] (t_drained d) ++ option_list span)) in
      match r with
      | Fine => Some (d', Drained (Ok (Z.of_nat (length rows))))
      | Fails e => fail e
      | Lost e => Some (d', Drained (Err (ce_message e)))
      end
  | _ => None
  end.

Definition is_drain (t : Task) : bool :=
  match t with
  | DrainPending | DrainBegin | DrainWaiting | DrainLocked | DrainSpan | DrainInsert _ | DrainDrop _ _
  | DrainCommit _ _ | Drained _ => true
  | _ => false
  end.
Definition task_step (d : Tables) (others : list Task) (t : Task) (r : Reply) : option (Tables * Task) :=
  if is_drain t then drain_step d others t r else write_step d others t r.

(** ** A database and its clients *)

Record Store := MkStore { tables : Tables; tasks : list Task }.
(** A call of [copy_rows], [buffer_rows] or [drain_pending]; the next statement
    of one; a migration's new version. *)
Inductive StoreEvent :=
  | CallCopy (rows : list FrameRow)
  | CallBuffer (rows : list FrameRow) (held : bool)
  | CallDrain
  | Statement (i : nat) (r : Reply)
  | Migrated (v : Z).

Definition call (t : Task) (s : Store) : Store := MkStore (tables s) (tasks s ++ [t]).
Definition store_step (s : Store) (e : StoreEvent) : option Store :=
  match e with
  | CallCopy rows => Some (call (CopyRows rows) s)
  | CallBuffer rows held => Some (call (BufferRows rows held) s)
  | CallDrain => Some (call DrainPending s)
  | Statement i r =>
      t ← tasks s !! i;
      '(d, t') ← task_step (tables s) (delete i (tasks s)) t r;
      Some (MkStore d (<[i := t']> (tasks s)))
  | Migrated v =>
      let d := tables s in
      Some (MkStore (MkTables (Some v) (t_live d) (t_pending d) (t_drained d)) (tasks s))
  end.
Fixpoint store_steps (s : Store) (es : list StoreEvent) : option Store :=
  match es with [] => Some s | e :: es => s' ← store_step s e; store_steps s' es end.

Definition empty_store (v : option Z) : Store := MkStore (MkTables v [] None None) [].
End Steps.

(** ** Answering the client *)

Section Answers.
Context `{IngestLib}.

Definition ack_for_copy_error (code : option string) : Z :=
  if refused_the_rows code then ACK_MALFORMED else ACK_OVERLOADED.

(** [handle_batch]: the ACK, and the session's [frames] and [batches]. *)
Definition handle_batch (count : Z) (stored : result WriteError unit) (info : Z * Z) : Z * (Z * Z) :=
  match stored with
  | Ok _ => (ACK_OK, (info.1 + count, info.2 + 1))
  | Err (WriteCopy e) => (ack_for_copy_error (ce_code e), info)
  | Err (WriteDb _) => (ACK_OVERLOADED, info)
  end.

(** [write_rows]: how the batch was routed, whether the gate of a held database
    says it is swapping, what [buffer_pool] and the writer answered, and the rows
    buffered so far. The last of the results is whether a recheck is started. *)
Definition write_rows (name : string) (routed : result DbError Route) (swapping : bool)
    (buffer_pool : result DbError unit) (answer : result CopyError Written) (count buffered : Z)
    : result WriteError unit * Z * bool :=
  match routed with
  | Err e => (Err (WriteDb e), buffered, false)
  | Ok Live => (check map_err WriteCopy answer ;; Ok tt, buffered, false)
  | Ok Held =>
      if swapping then
        (Err (WriteDb (Unavailable ("database '" +:+ name +:+
           "' is being swapped for an imported archive; retry shortly"))), buffered, false)
      else
        match buffer_pool, answer with
        | Err e, _ => (Err (WriteDb e), buffered, false)
        | Ok _, Err e => (Err (WriteCopy e), buffered, false)
        | Ok _, Ok _ => (Ok tt, buffered + count, false)
        end
  | Ok Buffered =>
      match answer with
      | Err e => (Err (WriteCopy e), buffered, false)
      | Ok WrittenBuffered => (Ok tt, buffered + count, false)
      | Ok WrittenLive => (Ok tt, buffered, true)
      end
  end.

(** The status a finished write is answered with, whichever way it was routed. *)
Definition answered (t : Task) : option Z :=
  match t with
  | Wrote rows answer =>
      let n := Z.of_nat (length rows) in
      Some (handle_batch n (write_rows "" (Ok Buffered) false (Ok tt) answer n 0).1.1 (0, 0)).1
  | _ => None
  end.

Lemma any_route name r answer n b m c info :
  (handle_batch n (write_rows name (Ok r) false (Ok tt) answer m b).1.1 info).1 =
  (handle_batch n (write_rows "" (Ok Buffered) false (Ok tt) answer m c).1.1 (0, 0)).1.
Proof. by destruct r, answer as [[]|]. Qed.
End Answers.

(** ** A pool is cached for a current database only *)

Lemma require_current_ok auto now name s :
  (require_current auto now name s).1.1 = Ok tt → is_current s = true.
Proof.
  unfold require_current. destruct s as [[v|v|since|v e since]|]; try done.
  - by case_match.
  - by destruct auto.
Qed.
Lemma require_current_keeps auto now name s :
  is_current s = true → (require_current auto now name s).1.2 = s.
Proof. by destruct s as [[]|]. Qed.

Definition keeps_state (x : Section_) : bool := match x with DropState => false | _ => true end.

Lemma entry_step_gate auto name e x :
  keeps_state x = true → (pooled e = true → is_current (schema_state e) = true) →
  pooled (entry_step auto name e x) = true → is_current (schema_state (entry_step auto name e x)) = true.
Proof.
  intros Hx He. destruct x as [s|now|now probe drained|now| | | |]; cbn; try done.
  - unfold set_state. by destruct (is_current (Some s)) eqn:Hs.
  - unfold pool_if_current. pose proof (require_current_ok auto now name (schema_state e)) as Hok.
    pose proof (require_current_keeps auto now name (schema_state e)) as Hk.
    destruct (require_current _ _ _ _) as [[[[]|m] s] b]; cbn in *.
    + intros _. specialize (Hok eq_refl). by rewrite Hk.
    + intros Hp. specialize (He Hp). by rewrite Hk.
  - destruct (rechecked probe drained); [|done]. destruct (behind _ _ _) eqn:Hb; [|done].
    cbn. intros Hp. specialize (He Hp). by destruct (schema_state e) as [[]|].
  - destruct (refuse_settled _) eqn:Hr; [done|]. cbn. intros Hp. specialize (He Hp).
    by destruct (schema_state e) as [[]|].
Qed.

(** C31: reads are served of a current database only. Whatever the order of state
    changes, pool requests, rechecks, migrations started and pools dropped,
    [pool] hands out a pool, cached or new, only while the database's state is
    [Current], as long as the database is not being deleted. *)
Theorem pool_only_current (auto : bool) (name : string) (xs : list Section_) (now : Z) :
  Forall (λ x, keeps_state x = true) xs →
  let e := fold_left (entry_step auto name) xs unseen in
  pool auto now name e = Ok tt → is_current (schema_state e) = true.
Proof.
  intros Hxs. cbv zeta.
  assert (∀ e0, (pooled e0 = true → is_current (schema_state e0) = true) →
    let e := fold_left (entry_step auto name) xs e0 in
    pooled e = true → is_current (schema_state e) = true) as Hinv.
  { induction Hxs as [|x xs Hx Hxs IH]; intros e0 He0; [done|]. apply IH. by apply entry_step_gate. }
  specialize (Hinv unseen ltac:(done)). cbv zeta in Hinv.
  generalize dependent (fold_left (entry_step auto name) xs unseen). intros e Hinv.
  unfold pool. destruct (pooled e); [auto|]. unfold pool_if_current.
  pose proof (require_current_ok auto now name (schema_state e)) as Hok.
  destruct (require_current _ _ _ _) as [[[[]|m] s] b]; cbn in *; [auto|done].
Qed.

(** The recheck of a database migrated by hand leaves its buffer pool cached,
    where [set_state] drops it. *)
Lemma recheck_keeps_buffer_pool :
  let xs := [SetState (Pending 4); BufferPool; Recheck 0 (Ok (Some SCHEMA_VERSION)) (Ok 0)] in
  let e := fold_left (entry_step true "archive") xs unseen in
  schema_state e = Some (Current SCHEMA_VERSION) ∧ buffer_pooled e = true.
Proof. vm_compute. done. Qed.

(** ** No acknowledged row is lost *)

Definition num (p : Task → bool) (l : list Task) : nat := length (filter (λ t, p t = true) l).

Lemma num_cons p t l : num p (t :: l) = (Nat.b2n (p t) + num p l)%nat.
Proof.
  unfold num. destruct (p t) eqn:Ht; [by rewrite filter_cons_True|]. rewrite filter_cons_False; [done|congruence].
Qed.
Lemma num_none p l : existsb p l = false → num p l = 0%nat.
Proof.
  induction l as [|t l IH]; [done|]. cbn [existsb]. rewrite orb_false_iff, num_cons. intros [-> Hl]. by rewrite IH.
Qed.
#[global] Instance num_perm p : Proper ((≡ₚ) ==> (=)) (num p).
Proof. intros l k Hlk. unfold num. by rewrite Hlk. Qed.

(** The rows of the writes answered well, and of the others. *)
Definition acked_of (t : Task) : list FrameRow := match t with Wrote rows (Ok _) => rows | _ => [] end.
Definition failed_of (t : Task) : list FrameRow := match t with Wrote rows (Err _) => rows | _ => [] end.
Definition acked (l : list Task) : list FrameRow := concat (acked_of <$> l).
Definition failed_rows (l : list Task) : list FrameRow := concat (failed_of <$> l).
Definition stored (d : Tables) : list FrameRow := t_live d ++ default [] (t_pending d).

#[global] Instance acked_perm : Proper ((≡ₚ) ==> (≡ₚ)) acked.
Proof. intros l k Hlk. unfold acked. by rewrite Hlk. Qed.
#[global] Instance failed_perm : Proper ((≡ₚ) ==> (≡ₚ)) failed_rows.
Proof. intros l k Hlk. unfold failed_rows. by rewrite Hlk. Qed.

(** A drain has read the buffer as it is. *)
Definition drain_sees (d : Tables) (t : Task) : Prop :=
  match t with DrainDrop _ rows | DrainCommit _ rows => t_pending d = Some rows | DrainSpan | DrainInsert _ => is_Some (t_pending d) | _ => True end.
Definition locks_ok (l : list Task) : Prop :=
  num holds_exclusive l = 0%nat ∨ (num holds_exclusive l = 1%nat ∧ num holds_shared l = 0%nat).
Definition rows_kept (d : Tables) (l : list Task) : Prop :=
  ∃ lost, stored d ≡ₚ acked l ++ lost ∧ lost ⊆+ failed_rows l.
Definition store_inv (d : Tables) (l : list Task) : Prop :=
  locks_ok l ∧ Forall (drain_sees d) l ∧ rows_kept d l.

Lemma drain_sees_other d d' t : holds_exclusive t = false → drain_sees d t → drain_sees d' t.
Proof. by destruct t. Qed.
Lemma drain_sees_others d d' l :
  num holds_exclusive l = 0%nat → Forall (drain_sees d) l → Forall (drain_sees d') l.
Proof.
  intros Hn Hl. induction Hl as [|t l Ht Hl IH]; [constructor|]. rewrite num_cons in Hn.
  destruct (holds_exclusive t) eqn:He; [cbn in Hn; lia|]. constructor; [by eapply drain_sees_other|by apply IH].
Qed.

(** What a step does: it stores nothing new, stores an acknowledged batch, or
    loses the reply of one it stored. *)
Inductive effect (d d' : Tables) (t t' : Task) : Prop :=
  | ENone : stored d' ≡ₚ stored d → acked_of t' = [] → effect d d' t t'
  | EAcked rows w : stored d' ≡ₚ stored d ++ rows → t' = Wrote rows (Ok w) → effect d d' t t'
  | ELost rows e : stored d' ≡ₚ stored d ++ rows → t' = Wrote rows (Err e) → effect d d' t t'.

Lemma rows_kept_step d d' t t' l :
  acked_of t = [] → failed_of t = [] → effect d d' t t' → rows_kept d (t :: l) → rows_kept d' (t' :: l).
Proof.
  intros Ha Hf He (lost & Hs & Hl). unfold rows_kept, acked, failed_rows in *. cbn [fmap list_fmap concat] in *.
  rewrite Ha in Hs. rewrite Hf in Hl. cbn [app] in *.
  destruct He as [Hd Ha'|rows w Hd ->|rows e Hd ->]; cbn [acked_of failed_of].
  - exists lost. rewrite Hd, Ha', Hs. split; [done|]. etrans; [exact Hl|]. apply submseteq_inserts_l. done.
  - exists lost. rewrite Hd, Hs. split; [solve_Permutation|done].
  - exists (rows ++ lost). rewrite Hd, Hs. split; [solve_Permutation|]. by apply submseteq_skips_l.
Qed.

(** What a statement of a task keeps to, as far as the others see it. *)
Record well_behaved (d d' : Tables) (l : list Task) (t t' : Task) : Prop := {
  wb_unfinished : acked_of t = [] ∧ failed_of t = [];
  wb_effect : effect d d' t t';
  wb_shared : holds_shared t' = true → holds_shared t = true ∨ num holds_exclusive l = 0%nat;
  wb_exclusive : holds_exclusive t' = true →
    holds_exclusive t = true ∨ (num holds_exclusive l = 0%nat ∧ num holds_shared l = 0%nat);
  wb_one_lock : holds_shared t' = true → holds_exclusive t' = true → False;
  wb_buffer : t_pending d' = t_pending d ∨ holds_shared t = true ∨ holds_exclusive t = true;
  wb_sees : drain_sees d' t'
}.

Lemma well_behaved_inv d d' l t t' :
  well_behaved d d' l t t' → store_inv d (t :: l) → store_inv d' (t' :: l).
Proof.
  intros [[Ha Hf] He Hsh Hex Hone Hb Hsee] (Hlk & Hall & Hkept).
  apply Forall_cons_1 in Hall as [Ht Hall]. unfold locks_ok in Hlk. rewrite !num_cons in Hlk.
  split; [|split; [|by eapply rows_kept_step]].
  - unfold locks_ok. rewrite !num_cons.
    destruct (holds_exclusive t'), (holds_shared t'), (holds_exclusive t), (holds_shared t); cbn in *;
      intuition (congruence || lia).
  - constructor; [done|]. destruct Hb as [Hb|Hb].
    + eapply Forall_impl; [exact Hall|]. intros u. unfold drain_sees. by rewrite Hb.
    + apply (drain_sees_others d); [|done].
      destruct (holds_exclusive t), (holds_shared t); cbn in *; intuition (congruence || lia).
Qed.

Lemma stored_live rows d : stored (add_live rows d) ≡ₚ stored d ++ rows.
Proof. unfold stored. cbn. solve_Permutation. Qed.
Lemma stored_pending rows d : stored (add_pending rows d) ≡ₚ stored d ++ rows.
Proof. unfold stored. cbn. by rewrite app_assoc. Qed.

(** A write that goes on, or ends without storing. *)
Lemma goes_on d l t t' :
  acked_of t = [] → failed_of t = [] → acked_of t' = [] → holds_exclusive t' = false →
  (holds_shared t' = true → holds_shared t = true ∨ num holds_exclusive l = 0%nat) →
  well_behaved d d l t t'.
Proof.
  intros Ha Hf Ha' He Hs. split; try done; try (by left); try congruence; [by constructor|by destruct t'].
Qed.
Lemma fails_on d l t rows e :
  acked_of t = [] → failed_of t = [] → well_behaved d d l t (Wrote rows (Err e)).
Proof. intros. by apply goes_on. Qed.
Lemma commits d d' l t rows answer :
  acked_of t = [] → failed_of t = [] → stored d' ≡ₚ stored d ++ rows →
  t_pending d' = t_pending d ∨ holds_shared t = true →
  well_behaved d d' l t (Wrote rows answer).
Proof.
  intros Ha Hf Hs Hp. split; try done; [|tauto].
  destruct answer as [w|e]; [by eapply EAcked|by eapply ELost].
Qed.

Section Kept.
Context `{RowLib}.

Lemma write_statement_ok d l t r d' t' :
  write_step d l t r = Some (d', t') → well_behaved d d' l t t'.
Proof.
  unfold write_step, with_text. intros Hw.
  destruct t as [rows|rows held|rows|rows|rows|rows|rows cur cr|rows cur cr|rows a| | | | | | | | |]; try done;
    repeat (case_match; simplify_eq/=; try done); try (by apply fails_on); try (by apply goes_on; auto);
    try (by apply commits; [| |first [apply stored_live|apply stored_pending]|auto]).
  all: apply goes_on; try done; intros _; right; apply num_none;
    match goal with
    | Hn : negb (negb (_ || _)) = false |- _ => by rewrite negb_involutive, orb_false_iff in Hn; destruct Hn
    end.
Qed.

Lemma drain_ends d l t a :
  acked_of t = [] → failed_of t = [] → well_behaved d d l t (Drained a).
Proof. intros. by apply goes_on. Qed.
Lemma drain_locks d l t t' :
  acked_of t = [] → failed_of t = [] → acked_of t' = [] → holds_shared t' = false →
  holds_exclusive t = true ∨ (existsb holds_shared l || existsb holds_exclusive l = false) →
  drain_sees d t' → well_behaved d d l t t'.
Proof.
  intros Ha Hf Ha' Hs He Hd. split; try done; try (by left); try congruence; [by constructor|].
  intros _. destruct He as [He|[Hl1 Hl2]%orb_false_iff]; [by left|]. right. by rewrite !num_none.
Qed.

Lemma has_pending_true d : has_pending d = true → is_Some (t_pending d).
Proof. unfold has_pending. destruct (t_pending d); [eauto|done]. Qed.

Lemma drain_statement_ok d l t r d' t' :
  drain_sees d t → drain_step d l t r = Some (d', t') → well_behaved d d' l t t'.
Proof.
  unfold drain_step. intros Hd Hw. destruct t; try done; cbn [drain_sees] in Hd;
    repeat (case_match; simplify_eq/=; try done); try (by apply drain_ends); try (by apply goes_on);
    try (apply drain_locks; cbn; try done; try (by left); eauto using has_pending_true; fail).
  1-2: apply drain_locks; try done; right; by apply negb_true_iff.
  1: by apply drain_locks; try done; [left|destruct Hd as [rows Hd]; cbn; by rewrite Hd].
  all: split; try done; [|by right; right].
  all: apply ENone; [|done]; unfold stored; cbn; by rewrite Hd, app_nil_r.
Qed.

Lemma task_step_ok d l t r d' t' :
  drain_sees d t → task_step d l t r = Some (d', t') → well_behaved d d' l t t'.
Proof.
  intros Hd. unfold task_step. destruct (is_drain t); [by apply drain_statement_ok|by apply write_statement_ok].
Qed.

#[global] Instance locks_perm : Proper ((≡ₚ) ==> iff) locks_ok.
Proof. intros l k Hlk. unfold locks_ok. by rewrite Hlk. Qed.
#[global] Instance store_inv_perm d : Proper ((≡ₚ) ==> iff) (store_inv d).
Proof.
  assert (∀ l k, l ≡ₚ k → store_inv d l → store_inv d k) as Hone.
  { intros l k Hlk (Hl & Hd & lost & Hs & Hlo). split; [by rewrite <-Hlk|]. split; [by rewrite <-Hlk|].
    exists lost. by rewrite <-Hlk. }
  intros l k Hlk. split; by apply Hone.
Qed.

Lemma insert_delete_perm {A} (l : list A) i (x y : A) :
  l !! i = Some x → l ≡ₚ x :: delete i l ∧ <[i := y]> l ≡ₚ y :: delete i l.
Proof.
  intros Hi. split; [by apply delete_Permutation|].
  assert (<[i := y]> l !! i = Some y) as Hy by (apply list_lookup_insert_eq; by eapply lookup_lt_Some).
  rewrite (delete_Permutation _ _ _ Hy). f_equiv.
  rewrite !delete_take_drop, take_insert_ge, drop_insert_lt by lia. done.
Qed.

Lemma store_step_inv s e s' :
  store_step s e = Some s' → store_inv (tables s) (tasks s) → store_inv (tables s') (tasks s').
Proof.
  intros Hs Hi. assert (∀ t, acked_of t = [] → failed_of t = [] → holds_shared t = false →
    holds_exclusive t = false → store_inv (tables s) (tasks s ++ [t])) as Hcall.
  { intros t Ha Hf Hsh Hex. rewrite Permutation_app_comm. destruct Hi as (Hl & Hd & lost & Hk & Hlo).
    split; [|split].
    - unfold locks_ok. cbn [app]. by rewrite !num_cons, Hsh, Hex.
    - constructor; [by destruct t|done].
    - exists lost. unfold acked, failed_rows in *. cbn. by rewrite Ha, Hf. }
  destruct e as [rows|rows held| |i r|v]; simpl in Hs; simplify_eq/=; try (by apply Hcall).
  - destruct (tasks s !! i) as [t|] eqn:Ht; [|done]. simpl in Hs.
    destruct (task_step _ _ _ _) as [[d t']|] eqn:Hstep; [|done]. simplify_eq/=.
    destruct (insert_delete_perm (tasks s) i t t' Ht) as [Hp ->]. rewrite Hp in Hi.
    eapply well_behaved_inv; [|exact Hi]. eapply task_step_ok; [|done].
    destruct Hi as (_ & Hd & _). by inversion Hd.
  - destruct Hi as (Hl & Hd & Hk). split_and!; done.
Qed.

Lemma store_steps_inv es s s' :
  store_steps s es = Some s' → store_inv (tables s) (tasks s) → store_inv (tables s') (tasks s').
Proof.
  revert s. induction es as [|e es IH]; intros s; cbn; [by intros [= ->]|].
  destruct (store_step s e) as [s1|] eqn:He; [|done]. intros Hs Hi. eapply IH; [exact Hs|]. by eapply store_step_inv.
Qed.

Lemma empty_inv v : store_inv (tables (empty_store v)) (tasks (empty_store v)).
Proof. split_and!; [by left|constructor|by exists []]. Qed.
End Kept.

Section Acknowledged.
Context `{RowLib} `{!IngestLib} `{!IngestLaws}.

Definition task_rows (t : Task) : list FrameRow := match t with Wrote rows _ => rows | _ => [] end.
Definition acknowledged (t : Task) : bool := bool_decide (answered t = Some ACK_OK).

Lemma acknowledged_ok rows answer : acknowledged (Wrote rows answer) = is_ok answer.
Proof.
  unfold acknowledged, answered. destruct answer as [[]|e]; cbn; try (by rewrite bool_decide_eq_true_2).
  apply bool_decide_eq_false_2. unfold ack_for_copy_error.
  destruct (refused_the_rows _); intros [= He]; [by apply ack_ok_not_malformed|by apply ack_ok_not_overloaded].
Qed.

Lemma acked_rows l :
  concat (task_rows <$> filter (λ t, acknowledged t = true) l) = acked l ∧
  concat (task_rows <$> filter (λ t, acknowledged t = false) l) = failed_rows l.
Proof.
  unfold acked, failed_rows. induction l as [|t l [IHa IHf]]; [done|].
  assert (task_rows t = if acknowledged t then acked_of t else failed_of t) as Hr.
  { destruct t as [| | | | | | | |rows a| | | | | | | | |]; try (by destruct (acknowledged _)).
    rewrite acknowledged_ok. by destruct a. }
  assert ((if acknowledged t then failed_of t else acked_of t) = []) as Ho.
  { destruct t as [| | | | | | | |rows a| | | | | | | | |]; try (by destruct (acknowledged _)).
    rewrite acknowledged_ok. by destruct a. }
  destruct (acknowledged t) eqn:Ht;
    (rewrite filter_cons_True by done; rewrite filter_cons_False by congruence) ||
    (rewrite filter_cons_False by congruence; rewrite filter_cons_True by done);
    cbn; rewrite Hr, Ho, IHa, IHf; done.
Qed.

(** C6: a row the gateway acknowledged is stored once. Over any interleaving of
    live and buffered writes, held ones, drains and migrations, with statements
    that fail and replies that are lost, what [capture_frame] and its buffer hold
    between them is every row of every batch answered [ACK_OK], and beyond those
    only rows of batches the client was told to send again or refused, none
    twice. *)
Theorem acked_rows_are_kept (v : option Z) (es : list StoreEvent) (s : Store) :
  store_steps (empty_store v) es = Some s →
  ∃ lost,
    t_live (tables s) ++ default [] (t_pending (tables s)) ≡ₚ
      concat (task_rows <$> filter (λ t, acknowledged t = true) (tasks s)) ++ lost ∧
    lost ⊆+ concat (task_rows <$> filter (λ t, acknowledged t = false) (tasks s)).
Proof.
  intros Hs. destruct (store_steps_inv es _ _ Hs (empty_inv v)) as (_ & _ & lost & Hk & Hl).
  exists lost. destruct (acked_rows (tasks s)) as [-> ->]. done.
Qed.
End Acknowledged.

(** ** After the drain *)

(** Not on its way into the buffer. *)
Definition calm (t : Task) : bool :=
  match t with
  | BufferRows _ true | Behind _ | Creating _ | Create _ | Into _ false _ | Copied _ false _ => false
  | DrainSpan | DrainInsert _ | DrainDrop _ _ | DrainCommit _ _ => false
  | _ => true
  end.
Definition calm_event (e : StoreEvent) : bool :=
  match e with CallBuffer _ true => false | Migrated v => v =? SCHEMA_VERSION | _ => true end.

Section Settled.
Context `{RowLib}.

Lemma task_step_calm d l t r d' t' :
  t_version d = Some SCHEMA_VERSION → t_pending d = None → calm t = true →
  task_step d l t r = Some (d', t') →
  t_version d' = Some SCHEMA_VERSION ∧ t_pending d' = None ∧ calm t' = true.
Proof.
  unfold task_step, write_step, drain_step, with_text, has_pending. intros Hv Hp Hc Hs. rewrite Hv, Hp in Hs.
  destruct t; try done; cbn in Hs; repeat (case_match; simplify_eq/=; try done).
Qed.

(** Once a drain has found the buffer gone, no write is on its way into it and
    none is held for an import, no buffer comes back: every batch after goes to
    [capture_frame]. *)
Lemma drained_stays_drained es s s' :
  t_version (tables s) = Some SCHEMA_VERSION → t_pending (tables s) = None →
  Forall (λ t, calm t = true) (tasks s) → Forall (λ e, calm_event e = true) es →
  store_steps s es = Some s' →
  t_version (tables s') = Some SCHEMA_VERSION ∧ t_pending (tables s') = None ∧
  Forall (λ t, calm t = true) (tasks s').
Proof.
  intros Hv Hp Hc Hes. revert s Hv Hp Hc. induction Hes as [|e es He Hes IH]; intros s Hv Hp Hc; cbn.
  { by intros [= <-]. }
  destruct (store_step s e) as [s1|] eqn:Hs; [|done]. simpl. revert Hs.
  destruct e as [rows|rows held| |i r|v]; cbn in He |- *.
  1-3: intros [= <-]; apply IH; cbn; try done; apply Forall_app; split; [done|]; repeat constructor; by destruct held || done.
  - destruct (tasks s !! i) as [t|] eqn:Ht; [|done]. simpl.
    destruct (task_step _ _ _ _) as [[d t']|] eqn:Hstep; [|done]. intros [= <-].
    eapply Forall_lookup_1 in Ht as Hct; [|exact Hc].
    destruct (task_step_calm _ _ _ _ _ _ Hv Hp Hct Hstep) as (Hv' & Hp' & Hc').
    apply IH; cbn; try done. by apply Forall_insert.
  - intros [= <-]. apply IH; cbn; try done. f_equal. lia.
Qed.
End Settled.

(** ** A run *)

Module Warehouse.
Import Packed Stored Toy.

Definition row (n : Z) : FrameRow := MkRow n ProtoCan n 0 1 [n] 0 None None None.

(** A batch whose transaction creates the buffer, open across the end of a
    migration: the drain asks before it commits. *)
Definition late_commit : list StoreEvent :=
  [CallBuffer [row 7] false] ++ repeat (Statement 0 Fine) 6 ++
  [Migrated SCHEMA_VERSION; CallDrain; Statement 1 Fine; Statement 0 Fine].

(** The drain's first look at the buffer is outside its lock, so it can miss
    a batch. A buffered write that read the old version and creates the buffer is
    still open when the migration ends; the drain finds no buffer, answers that
    it moved nothing, and the write then commits and is acknowledged. The
    database is at this build's version, nothing is running, and the batch is in
    the buffer, which readers of [capture_frame] do not see. *)
Theorem drain_misses_open_write :
  store_steps (empty_store (Some 4)) late_commit =
    Some (MkStore (MkTables (Some SCHEMA_VERSION) [] (Some [row 7]) None)
            [Wrote [row 7] (Ok WrittenBuffered); Drained (Ok 0)]).
Proof. vm_compute. reflexivity. Qed.

(** The same write committed before the drain asks is drained, with a reply lost
    on another write. *)
Definition in_order : list StoreEvent :=
  [CallBuffer [row 7; row 9] false] ++ repeat (Statement 0 Fine) 7 ++ [Migrated SCHEMA_VERSION; CallDrain] ++
  repeat (Statement 1 Fine) 7 ++ [CallCopy [row 8]; Statement 2 (Lost being_drained)].

Lemma acked_rows_are_kept_witness :
  ∃ s lost, store_steps (empty_store (Some 4)) in_order = Some s ∧
    t_live (tables s) = [row 7; row 9; row 8] ∧ t_drained (tables s) = Some [(7, 9)] ∧
    t_live (tables s) ++ default [] (t_pending (tables s)) ≡ₚ
      concat (task_rows <$> filter (λ t, acknowledged t = true) (tasks s)) ++ lost.
Proof.
  destruct (store_steps (empty_store (Some 4)) in_order) as [s|] eqn:Hs; [|by vm_compute in Hs].
  destruct (acked_rows_are_kept (Some 4) in_order s Hs) as (lost & Hk & _).
  exists s, lost. split; [done|]. split; [|split; [|exact Hk]]; revert Hs; clear; vm_compute; by intros [= <-].
Defined.

Lemma pool_only_current_witness :
  let e := fold_left (entry_step true "archive") [SetState (Current SCHEMA_VERSION); PoolIfCurrent 0] unseen in
  pooled e = true ∧ is_current (schema_state e) = true.
Proof.
  split; [reflexivity|].
  apply (pool_only_current true "archive" [SetState (Current SCHEMA_VERSION); PoolIfCurrent 0] 5).
  - repeat constructor.
  - reflexivity.
Defined.
End Warehouse.
