(* ===== verification/Keys.v ===== *)
(** * The gateway's keys ([keys.rs])

    The table of API keys and the cache a key is checked against, the operations
    on them as they interleave, and the history of bootstrap admin keys. A
    statement sees and changes the committed table; the bootstrap key's
    transactions hold one lock from start to commit and are one step each. *)

From S2P Require Import Prelude Catalogues.
Local Open Scope Z_scope.

(** [Sha256] and the console's identity. *)
Class KeyLib := { sha256 : list Z → list Z; ConsoleIdentity : Type }.

(** ** [Role] *)

Inductive Role := Read | Ingest | Admin.
#[global] Instance Role_eq_dec : EqDecision Role.
Proof. solve_decision. Defined.

Definition role_parse (s : string) : option Role :=
  if str_eqb s "read" then Some Read
  else if str_eqb s "ingest" then Some Ingest
  else if str_eqb s "admin" then Some Admin
  else None.
Definition role_str (r : Role) : string :=
  match r with Read => "read" | Ingest => "ingest" | Admin => "admin" end.
Definition allows_read (r : Role) : bool := match r with Read | Admin => true | _ => false end.
Definition allows_ingest (r : Role) : bool := match r with Ingest | Admin => true | _ => false end.
Definition allows_admin (r : Role) : bool := match r with Admin => true | _ => false end.

Lemma role_roundtrip r : role_parse (role_str r) = Some r.
Proof. by destruct r. Qed.

(** ** The table *)

(** A row of [wiretap_meta.api_keys], less its timestamps; [k_disabled] is
    [disabled_at IS NOT NULL]. *)
Record KeyRow := MkKeyRow {
  k_id : Z; k_name : string; k_hash : string; k_role : string; k_pin : option string; k_disabled : bool
}.
Record KeyTable := MkKeyTable { k_rows : list KeyRow; k_next : Z }.

Inductive KeyRotation := Rotated (plaintext : string) | NotFound | RotateDisabled.

(** An operation that changes the table and then reloads the cache; [plaintext]
    is the [new_key] it made. *)
Inductive Change :=
  | CCreate (name : string) (role : Role) (pin : option string) (plaintext : string)
  | CSetDisabled (id : Z) (disabled : bool)
  | CRotate (id : Z) (plaintext : string)
  | CEdit (id : Z) (name : option string) (pin : option (option string))
  | CDelete (id : Z).
Inductive Answer := Created (id : Z) (plaintext : string) | Changed (any : bool) | Rotation (r : KeyRotation).

Section Keys.
Context `{KeyLib}.

Definition hash_key (key : string) : string := hex_encode (sha256 (bytes_of_string key)).

Record KeyInfo := MkKeyInfo {
  ki_id : Z; ki_name : string; ki_role : Role; ki_database_pin : option string; ki_console : option ConsoleIdentity
}.

Definition hash_taken (h : string) (rows : list KeyRow) : bool := existsb (λ r, str_eqb (k_hash r) h) rows.
Definition update_rows (p : KeyRow → bool) (f : KeyRow → KeyRow) (t : KeyTable) : KeyTable :=
  MkKeyTable ((λ r, if p r then f r else r) <$> k_rows t) (k_next t).
Definition any_row (p : KeyRow → bool) (t : KeyTable) : bool := existsb p (k_rows t).

Definition unique_violation : string := "duplicate key value violates unique constraint".

(** The statement of each operation. *)
Definition change_table (c : Change) (t : KeyTable) : result string Answer * KeyTable :=
  match c with
  | CCreate name role pin plaintext =>
      let h := hash_key plaintext in
      if hash_taken h (k_rows t) then (Err unique_violation, MkKeyTable (k_rows t) (k_next t + 1))
      else (Ok (Created (k_next t) plaintext),
            MkKeyTable (k_rows t ++ [MkKeyRow (k_next t) name h (role_str role) pin false]) (k_next t + 1))
  | CSetDisabled id disabled =>
      let p r := (k_id r =? id) && Bool.eqb (negb (k_disabled r)) disabled in
      (Ok (Changed (any_row p t)),
       update_rows p (λ r, MkKeyRow (k_id r) (k_name r) (k_hash r) (k_role r) (k_pin r) disabled) t)
  | CRotate id plaintext =>
      let h := hash_key plaintext in
      let p r := (k_id r =? id) && negb (k_disabled r) in
      match find (λ r, k_id r =? id) (k_rows t) with
      | None => (Ok (Rotation NotFound), t)
      | Some r =>
          if k_disabled r then (Ok (Rotation RotateDisabled), t)
          else if hash_taken h (k_rows t) then (Err unique_violation, t)
          else (Ok (Rotation (Rotated plaintext)),
                update_rows p (λ r, MkKeyRow (k_id r) (k_name r) h (k_role r) (k_pin r) (k_disabled r)) t)
      end
  | CEdit id name pin =>
      let p r := k_id r =? id in
      (Ok (Changed (any_row p t)),
       update_rows p (λ r, MkKeyRow (k_id r) (default (k_name r) name) (k_hash r) (k_role r)
                             (default (k_pin r) pin) (k_disabled r)) t)
  | CDelete id =>
      (Ok (Changed (any_row (λ r, k_id r =? id) t)),
       MkKeyTable (filter (λ r, (k_id r =? id) = false) (k_rows t)) (k_next t))
  end.

(** ** The cache *)

Definition key_info (r : KeyRow) : KeyInfo :=
  MkKeyInfo (k_id r) (k_name r) (default Read (role_parse (k_role r))) (k_pin r) None.

(** [reload]'s map of what its query returned. *)
Definition enabled_keys (t : KeyTable) : gmap string KeyInfo :=
  foldl (λ m r, <[k_hash r := key_info r]> m) ∅ (filter (λ r, k_disabled r = false) (k_rows t)).

Record Bootstrap := MkBootstrap { configured : option string; current : option string }.

Definition stale_config (b : Bootstrap) : bool := bool_decide (is_Some (configured b)) && bool_decide (configured b ≠ current b).
Definition bootstrap_configured (b : Bootstrap) : bool := bool_decide (is_Some (configured b)).

Definition bootstrap_admin : KeyInfo := MkKeyInfo 0 "bootstrap-admin" Admin None None.

(** [validate]. *)
Definition validate (b : Bootstrap) (cache : gmap string KeyInfo) (key : string) : option KeyInfo :=
  let h := hash_key key in
  if bool_decide (current b = Some h) then Some bootstrap_admin else cache !! h.

(** ** Operations interleaved *)

(** Where an operation stands: before its statement, before the reload's query,
    before the cache is written, finished. *)
Inductive KeyTask :=
  | KChange (c : Change)
  | KQuery (a : Answer)
  | KWrite (a : Answer) (map : gmap string KeyInfo)
  | KDone (a : result string Answer).
(** What the database answers; a lost reply hides a statement that took. *)
Inductive KeyReply := KFine | KFails | KLost.

Record KeyWorld := MkKeyWorld { table : KeyTable; cache : gmap string KeyInfo; key_tasks : list KeyTask }.
Inductive KeyEvent := KCall (c : Change) | KStep (i : nat) (r : KeyReply).

Definition key_step (w : KeyWorld) (e : KeyEvent) : option KeyWorld :=
  match e with
  | KCall c => Some (MkKeyWorld (table w) (cache w) (key_tasks w ++ [KChange c]))
  | KStep i r =>
      t ← key_tasks w !! i;
      let next table cache task := Some (MkKeyWorld table cache (<[i := task]> (key_tasks w))) in
      match t with
      | KChange c =>
          let '(a, t') := change_table c (table w) in
          match r, a with
          | KFine, Ok a => next t' (cache w) (KQuery a)
          | KFine, Err m => next t' (cache w) (KDone (Err m))
          | KFails, _ => next (table w) (cache w) (KDone (Err "connection closed"))
          | KLost, _ => next t' (cache w) (KDone (Err "connection closed"))
          end
      | KQuery a =>
          match r with
          | KFine => next (table w) (cache w) (KWrite a (enabled_keys (table w)))
          | _ => next (table w) (cache w) (KDone (Err "key load failed: connection closed"))
          end
      | KWrite a m => next (table w) m (KDone (Ok a))
      | KDone _ => None
      end
  end.
Fixpoint key_steps (w : KeyWorld) (es : list KeyEvent) : option KeyWorld :=
  match es with [] => Some w | e :: es => w' ← key_step w e; key_steps w' es end.

Definition no_keys : KeyWorld := MkKeyWorld (MkKeyTable [] 1) ∅ [].
Definition idle (w : KeyWorld) : bool :=
  forallb (λ t, match t with KDone _ => true | _ => false end) (key_tasks w).
End Keys.

(** ** What the cache holds *)

(** The table's own constraints. *)
Definition table_ok (t : KeyTable) : Prop :=
  NoDup (k_id <$> k_rows t) ∧ NoDup (k_hash <$> k_rows t) ∧ Forall (λ r, k_id r < k_next t) (k_rows t).

Section KeyFacts.
Context `{KeyLib}.

Lemma hash_taken_spec h (rows : list KeyRow) : hash_taken h rows = false → h ∉ k_hash <$> rows.
Proof.
  unfold hash_taken. intros Hf (r & -> & Hr)%list_elem_of_fmap.
  assert (existsb (λ r', str_eqb (k_hash r') (k_hash r)) rows = true) as Ht; [|congruence].
  apply existsb_exists. exists r. split; [by apply list_elem_of_In|apply str_eqb_refl].
Qed.

(** A change of some columns, ids kept. *)
Lemma update_ids (p : KeyRow → bool) (f : KeyRow → KeyRow) (rows : list KeyRow) :
  (∀ r, k_id (f r) = k_id r) → k_id <$> ((λ r, if p r then f r else r) <$> rows) = k_id <$> rows.
Proof.
  intros Hf. rewrite <-list_fmap_compose. apply list_fmap_ext. intros i r _. cbn. destruct (p r); [apply Hf|done].
Qed.
Lemma update_hashes (p : KeyRow → bool) (f : KeyRow → KeyRow) (rows : list KeyRow) :
  (∀ r, k_hash (f r) = k_hash r) → k_hash <$> ((λ r, if p r then f r else r) <$> rows) = k_hash <$> rows.
Proof.
  intros Hf. rewrite <-list_fmap_compose. apply list_fmap_ext. intros i r _. cbn. destruct (p r); [apply Hf|done].
Qed.
Lemma update_below (p : KeyRow → bool) (f : KeyRow → KeyRow) (rows : list KeyRow) n :
  (∀ r, k_id (f r) = k_id r) → Forall (λ r, k_id r < n) rows →
  Forall (λ r, k_id r < n) ((λ r, if p r then f r else r) <$> rows).
Proof.
  intros Hf Hr. apply Forall_fmap. eapply Forall_impl; [exact Hr|]. intros r Hlt. cbn. destruct (p r); [by rewrite Hf|done].
Qed.

(** One row is given a hash no row has. *)
Lemma rotate_hashes n h (p : KeyRow → bool) (f : KeyRow → KeyRow) (rows : list KeyRow) :
  (∀ r, p r = true → k_id r = n) → (∀ r, k_hash (f r) = h) →
  NoDup (k_id <$> rows) → NoDup (k_hash <$> rows) → h ∉ k_hash <$> rows →
  NoDup (k_hash <$> ((λ r, if p r then f r else r) <$> rows)).
Proof.
  intros Hp Hf. induction rows as [|r rows IH]; [by intros; constructor|].
  cbn [fmap list_fmap]. rewrite !NoDup_cons. intros [Hi Hids] [Hh Hhs] [Hne Hnot]%not_elem_of_cons.
  destruct (p r) eqn:Hpr.
  - rewrite (list_fmap_ext (λ r, if p r then f r else r) id rows).
    + rewrite list_fmap_id. split; [by rewrite Hf|done].
    + intros i r' Hr'. destruct (p r') eqn:Hp'; [|done]. exfalso. apply Hi. rewrite (Hp r Hpr), <-(Hp r' Hp').
      apply list_elem_of_fmap_2, list_elem_of_lookup. eauto.
  - split; [|by apply IH]. intros (r' & He & Hr')%list_elem_of_fmap.
    apply list_elem_of_fmap in Hr' as (r0 & -> & Hr0). destruct (p r0); [rewrite Hf in He; congruence|].
    apply Hh. rewrite He. by apply list_elem_of_fmap_2.
Qed.

Lemma filter_sub (p : KeyRow → Prop) `{!∀ r, Decision (p r)} {A} (g : KeyRow → A) (rows : list KeyRow) :
  NoDup (g <$> rows) → NoDup (g <$> filter p rows).
Proof. intros Hn. eapply sublist_NoDup; [exact Hn|]. apply fmap_sublist, sublist_filter. Qed.

Lemma change_table_ok c t : table_ok t → table_ok (change_table c t).2.
Proof.
  intros (Hid & Hh & Hlt). destruct c as [name role pin pt|id dis|id pt|id name pin|id]; cbn.
  - destruct (hash_taken _ _) eqn:Ht; cbn.
    + split_and!; try done. eapply Forall_impl; [exact Hlt|]. intros r. cbn. lia.
    + apply hash_taken_spec in Ht. unfold table_ok. cbn. rewrite !fmap_app. cbn. split_and!.
      * apply NoDup_app. split; [done|]. split; [|apply NoDup_singleton].
        intros i (r & -> & Hr)%list_elem_of_fmap Hi%list_elem_of_singleton.
        rewrite Forall_forall in Hlt. specialize (Hlt r Hr). cbn in Hlt. lia.
      * apply NoDup_app. split; [done|]. split; [|apply NoDup_singleton]. intros h Hin ->%list_elem_of_singleton. by apply Ht.
      * apply Forall_app. split; [|constructor; [cbn; lia|done]]. eapply Forall_impl; [exact Hlt|]. intros r. cbn. lia.
  - unfold table_ok, update_rows. cbn. rewrite update_ids, update_hashes by done. split_and!; try done. by apply update_below.
  - destruct (find _ _) as [r|]; [|done]. destruct (k_disabled r); [done|].
    destruct (hash_taken _ _) eqn:Ht; [done|]. apply hash_taken_spec in Ht.
    unfold table_ok, update_rows. cbn. rewrite update_ids by done. split_and!; [done| |by apply update_below].
    apply (rotate_hashes id (hash_key pt)); try done. intros r' Hr'. apply andb_true_iff in Hr' as [?%Z.eqb_eq _]. done.
  - unfold table_ok, update_rows. cbn. rewrite update_ids, update_hashes by done. split_and!; try done. by apply update_below.
  - unfold table_ok. cbn. split_and!; [by apply filter_sub..|]. by apply Forall_filter.
Qed.

Lemma key_step_ok w e w' : key_step w e = Some w' → table_ok (table w) → table_ok (table w').
Proof.
  intros Hs Ht. destruct e as [c|i r]; cbn in Hs; [by injection Hs as <-|].
  destruct (key_tasks w !! i) as [t|]; [|done]. cbn in Hs. destruct t as [c|a|a m|a]; try done.
  - pose proof (change_table_ok c _ Ht) as Hc. destruct (change_table c (table w)) as [a t'].
    destruct r, a; by injection Hs as <-.
  - by destruct r; injection Hs as <-.
  - by injection Hs as <-.
Qed.
Lemma key_steps_ok es w w' : key_steps w es = Some w' → table_ok (table w) → table_ok (table w').
Proof.
  revert w. induction es as [|e es IH]; intros w; cbn; [by intros [= ->]|].
  destruct (key_step w e) as [w1|] eqn:He; [|done]. intros Hs Ht. eapply IH; [exact Hs|]. by eapply key_step_ok.
Qed.

(** The map [reload] makes holds each enabled row under its hash. *)
Lemma fold_rows_lookup (rows : list KeyRow) (m : gmap string KeyInfo) h i :
  NoDup (k_hash <$> rows) →
  (foldl (λ m r, <[k_hash r := key_info r]> m) m rows) !! h = Some i ↔
  (∃ r, r ∈ rows ∧ k_hash r = h ∧ i = key_info r) ∨ ((h ∉ (k_hash <$> rows)) ∧ m !! h = Some i).
Proof.
  revert m. induction rows as [|r rows IH]; intros m; cbn.
  { intros _. split; [intros Hm; right; split; [apply not_elem_of_nil|done]|].
    intros [(r & Hr & _)|[_ Hm]]; [by apply not_elem_of_nil in Hr|done]. }
  rewrite NoDup_cons. intros [Hr Hn]. rewrite IH by done. rewrite not_elem_of_cons. split.
  - intros [(r' & Hin & Hh & ->)|[Hh Hm]]; [left; exists r'; set_solver|].
    destruct (decide (k_hash r = h)) as [<-|Hne].
    + rewrite lookup_insert_eq in Hm. left. exists r. split; [set_solver|]. split; [done|congruence].
    + rewrite lookup_insert_ne in Hm by done. right. auto.
  - intros [(r' & [->|Hin]%elem_of_cons & <- & ->)|[[Hne Hh] Hm]].
    + right. split; [done|]. by rewrite lookup_insert_eq.
    + left. eauto.
    + right. split; [done|]. by rewrite lookup_insert_ne by congruence.
Qed.

Lemma enabled_keys_lookup t h i :
  table_ok t →
  enabled_keys t !! h = Some i ↔ ∃ r, r ∈ k_rows t ∧ k_disabled r = false ∧ k_hash r = h ∧ i = key_info r.
Proof.
  intros (_ & Hh & _). unfold enabled_keys. rewrite fold_rows_lookup by by apply filter_sub. split.
  - intros [(r & [Hd Hr]%list_elem_of_filter & Hk & ->)|[_ Hm]]; [eauto|]. by rewrite lookup_empty in Hm.
  - intros (r & Hr & Hd & Hk & ->). left. exists r. split; [by apply list_elem_of_filter|done].
Qed.

(** C32: after a key operation that no other one runs into, a key is accepted as
    the table says and no other way. From any history of operations, once one is
    made and finishes, [validate] gives the admin for the current bootstrap key,
    and for any other key the row whose hash it has, with that row's role and pin,
    when there is one and it is enabled. *)
Theorem validate_exact (es : list KeyEvent) (w w' : KeyWorld) (c : Change) (b : Bootstrap) (key : string)
    (info : KeyInfo) :
  key_steps no_keys es = Some w →
  key_steps w (KCall c :: repeat (KStep (length (key_tasks w)) KFine) 3) = Some w' →
  validate b (cache w') key = Some info ↔
    (current b = Some (hash_key key) ∧ info = bootstrap_admin) ∨
    (current b ≠ Some (hash_key key) ∧
     ∃ r, r ∈ k_rows (table w') ∧ k_disabled r = false ∧ k_hash r = hash_key key ∧ info = key_info r).
Proof.
  intros Hes Hs. assert (table_ok (table w')) as Hok.
  { eapply key_steps_ok; [exact Hs|]. eapply key_steps_ok; [exact Hes|]. split_and!; constructor. }
  assert (cache w' = enabled_keys (table w')) as Hc.
  { cbn in Hs. rewrite list_lookup_middle in Hs by done. cbn in Hs.
    destruct (change_table c (table w)) as [[a|m] t']; cbn in Hs;
      rewrite list_lookup_insert_eq in Hs by (rewrite length_app; cbn; lia); [|done].
    cbn in Hs. rewrite list_lookup_insert_eq in Hs by (rewrite length_insert, length_app; cbn; lia).
    by injection Hs as <-. }
  unfold validate. case_bool_decide as Hb.
  - split; [intros [= <-]; by left|]. intros [[_ ->]|[? _]]; done.
  - rewrite Hc, enabled_keys_lookup by done. split; [by right|]. intros [[? _]|[_ ?]]; done.
Qed.
End KeyFacts.

(** ** The bootstrap key's history *)

(** [wiretap_meta.bootstrap_keys]: a key's hash and when it was retired. *)
Definition BootRows : Type := list (string * option Z).

Inductive Standing := StandCurrent | StandRetired (at_ : Z) (now_current : option string) | StandUnknown.

Definition standing (configured : string) (rows : BootRows) : Standing :=
  match find (λ r, str_eqb r.1 configured) rows with
  | None => StandUnknown
  | Some (_, None) => StandCurrent
  | Some (_, Some at_) => StandRetired at_ (fst <$> find (λ r, bool_decide (r.2 = None)) rows)
  end.

(** [make_current]; [None] is a primary key violation. *)
Definition make_current (now : Z) (outgoing : option string) (hash : string) (rows : BootRows) : option BootRows :=
  let has h := existsb (λ r : string * option Z, str_eqb r.1 h) in
  let rows := (λ r : string * option Z, match r.2 with Some _ => r | None => (r.1, Some now) end) <$> rows in
  let rows :=
    match outgoing with
    | Some h => if has h rows then rows else rows ++ [(h, Some now)]
    | None => rows
    end in
  if has hash rows then None else Some (rows ++ [(hash, None)]).

(** The query of [bootstrap]. *)
Definition boot_query (configured : string) (rows : BootRows) : BootRows :=
  filter (λ r, str_eqb r.1 configured = true ∨ r.2 = None) rows.

(** [bootstrap]'s transaction, committed: the rows, and the key it honours. *)
Definition settle (now : Z) (configured : option string) (rows : BootRows) : option (BootRows * option string) :=
  match configured with
  | None => Some (rows, None)
  | Some c =>
      match standing c (boot_query c rows) with
      | StandCurrent => Some (rows, Some c)
      | StandRetired _ now_current => Some (rows, now_current)
      | StandUnknown => rows' ← make_current now None c rows; Some (rows', Some c)
      end
  end.

(** A gateway's starts, and the rotations of its key: [saved] is the key file's
    write, where there is one, and [fate] the commit's. *)
Inductive BootEvent :=
  | BStart (now : Z) (configured : option string)
  | BRotate (now : Z) (hash : string) (saved : option bool) (fate : KeyReply).
Record BootWorld := MkBootWorld { boot_rows : BootRows; gateway : option Bootstrap }.

(** [rotate_bootstrap_key] of a running gateway. *)
Definition rotate_bootstrap (now : Z) (hash : string) (saved : option bool) (fate : KeyReply)
    (b : Bootstrap) (rows : BootRows) : BootRows * Bootstrap :=
  match configured b with
  | None => (rows, b)
  | Some _ =>
      match make_current now (current b) hash rows with
      | None => (rows, b)
      | Some rows' =>
          if bool_decide (saved = Some false) then (rows, b)
          else match fate with
               | KFine => (rows', MkBootstrap (match saved with Some _ => Some hash | None => configured b end) (Some hash))
               | KFails => (rows, b)
               | KLost => (rows', b)
               end
      end
  end.

Definition boot_step (w : BootWorld) (e : BootEvent) : BootWorld :=
  match e with
  | BStart now c =>
      match settle now c (boot_rows w) with
      | Some (rows, honoured) => MkBootWorld rows (Some (MkBootstrap c honoured))
      | None => MkBootWorld (boot_rows w) None
      end
  | BRotate now hash saved fate =>
      match gateway w with
      | Some b => let '(rows, b) := rotate_bootstrap now hash saved fate b (boot_rows w) in MkBootWorld rows (Some b)
      | None => w
      end
  end.

(** *** One current key *)

Definition currents (rows : BootRows) : BootRows := filter (λ r, r.2 = None) rows.

(** What the table stands for: the keys that have been current, in the order they
    came to be, and whether the gateway that runs may rotate. A start with a key
    that never was current makes it so; a rotation whose transaction commits makes
    its key so, whether or not its reply arrives. *)
Record Reign := MkReign { reigned : list string; rotatable : bool }.
Definition reign_step (g : Reign) (e : BootEvent) : Reign :=
  match e with
  | BStart _ (Some c) => MkReign (if decide (c ∈ reigned g) then reigned g else reigned g ++ [c]) true
  | BStart _ None => MkReign (reigned g) false
  | BRotate _ hash saved fate =>
      if rotatable g && bool_decide (hash ∉ reigned g) && bool_decide (saved ≠ Some false) &&
        match fate with KFails => false | _ => true end
      then MkReign (reigned g ++ [hash]) true else g
  end.
Definition honoured_by (c : string) (keys : list string) : string :=
  if decide (c ∈ keys) then default c (last keys) else c.

(** The table and the gateway as the reigns describe them. *)
Definition boot_rows_are (keys : list string) (rows : BootRows) : Prop :=
  rows.*1 = keys ∧ currents rows = option_list ((λ h, (h, None)) <$> last keys).
Definition boot_is (w : BootWorld) (g : Reign) : Prop :=
  boot_rows_are (reigned g) (boot_rows w) ∧
  rotatable g = match gateway w with Some b => bool_decide (is_Some (configured b)) | None => false end ∧
  ∀ b h, gateway w = Some b → current b = Some h → h ∈ reigned g.

Definition retire (now : Z) (r : string * option Z) : string * option Z :=
  match r.2 with Some _ => r | None => (r.1, Some now) end.
Lemma retired_names now (rows : BootRows) : (retire now <$> rows).*1 = rows.*1.
Proof. rewrite <-list_fmap_compose. apply list_fmap_ext. intros i [h [z|]] _; done. Qed.
Lemma retired_none now (rows : BootRows) : currents (retire now <$> rows) = [].
Proof.
  apply filter_none, Forall_forall. intros r (r0 & -> & _)%list_elem_of_fmap. by destruct r0 as [h [z|]].
Qed.
Lemma has_false h (rows : BootRows) : existsb (λ r, str_eqb r.1 h) rows = false → h ∉ rows.*1.
Proof.
  intros Hf (r & -> & Hr)%list_elem_of_fmap.
  assert (existsb (λ r' : string * option Z, str_eqb r'.1 r.1) rows = true) as Ht; [|congruence].
  apply existsb_exists. exists r. split; [by apply list_elem_of_In|apply str_eqb_refl].
Qed.
Lemma currents_app a b : currents (a ++ b) = currents a ++ currents b.
Proof. apply filter_app. Qed.

Lemma has_true h (rows : BootRows) : h ∈ rows.*1 → existsb (λ r, str_eqb r.1 h) rows = true.
Proof.
  intros (r & -> & Hr)%list_elem_of_fmap. apply existsb_exists. exists r. split; [by apply list_elem_of_In|apply str_eqb_refl].
Qed.

(** A key that had no row is the current one; nothing else changes but that the
    one before it is retired. *)
Lemma make_current_spec now outgoing hash keys rows :
  boot_rows_are keys rows → (∀ h, outgoing = Some h → h ∈ keys) →
  match make_current now outgoing hash rows with
  | Some rows' => hash ∉ keys ∧ boot_rows_are (keys ++ [hash]) rows'
  | None => hash ∈ keys
  end.
Proof.
  intros [Hk _] Ho. unfold make_current. fold (retire now).
  pose proof (retired_names now rows) as Hn. rewrite Hk in Hn.
  assert ((match outgoing with
    | Some h => if existsb (λ r, str_eqb r.1 h) (retire now <$> rows) then retire now <$> rows
                else (retire now <$> rows) ++ [(h, Some now)]
    | None => retire now <$> rows end) = retire now <$> rows) as ->.
  { destruct outgoing as [h|]; [|done]. rewrite has_true; [done|]. rewrite Hn. by apply Ho. }
  destruct (existsb _ _) eqn:He.
  - apply existsb_exists in He as (r & Hr%list_elem_of_In & He%str_eqb_eq). rewrite <- Hn, <- He. by apply list_elem_of_fmap_2.
  - apply has_false in He. rewrite Hn in He. split; [done|]. split.
    + rewrite fmap_app, Hn. done.
    + by rewrite currents_app, retired_none, last_snoc.
Qed.

Lemma find_elem {A} (p : A → bool) l x : find p l = Some x → x ∈ l ∧ p x = true.
Proof. intros Hf. apply List.find_some in Hf as [Hin Hp]. split; [by apply list_elem_of_In|done]. Qed.
Lemma find_none_elem {A} (p : A → bool) l x : find p l = None → x ∈ l → p x = false.
Proof. intros Hf Hx. eapply List.find_none; [exact Hf|]. by apply list_elem_of_In. Qed.

Lemma boot_query_elem c rows r : r ∈ boot_query c rows ↔ r ∈ rows ∧ (r.1 = c ∨ r.2 = None).
Proof. unfold boot_query. rewrite list_elem_of_filter, str_eqb_eq. tauto. Qed.
Lemma currents_elem rows h : (h, None) ∈ rows → ∀ g, currents rows = [(g, None)] → g = h.
Proof.
  intros Hin g Hc. assert ((h, None) ∈ currents rows) as Hh by by apply list_elem_of_filter.
  rewrite Hc in Hh. apply list_elem_of_singleton in Hh. congruence.
Qed.

Lemma rows_current keys rows h :
  boot_rows_are keys rows → h ∈ keys →
  ∃ k, last keys = Some k ∧ (k, None) ∈ rows ∧ (h ≠ k → ∃ at_, (h, Some at_) ∈ rows) ∧
    ∀ g, (g, None) ∈ rows → g = k.
Proof.
  intros [Hk Hc] Hh. destruct (last keys) as [k|] eqn:Hl; [|apply last_None in Hl; subst keys; by rewrite Hl in Hh; apply not_elem_of_nil in Hh].
  assert (∀ g, (g, None) ∈ rows → g = k) as Hall by (intros g Hg; symmetry; by eapply currents_elem).
  exists k. split_and!; [done| | |done].
  - assert ((k, None) ∈ currents rows) as Hr by (rewrite Hc; by apply list_elem_of_singleton).
    by apply list_elem_of_filter in Hr as [_ ?].
  - intros Hne. rewrite <- Hk in Hh. apply list_elem_of_fmap in Hh as ([x [at_|]] & -> & Hx); [eauto|].
    destruct Hne. by apply Hall.
Qed.
Lemma find_current c rows k :
  (k, None) ∈ rows → (∀ g, (g, None) ∈ rows → g = k) →
  find (λ r, bool_decide (r.2 = None)) (boot_query c rows) = Some (k, None).
Proof.
  intros Hk Hall. destruct (find _ _) as [[g o]|] eqn:Hg.
  - apply find_elem in Hg as [[Hin _]%boot_query_elem Ho]. cbn in Ho. apply bool_decide_eq_true in Ho as ->. by rewrite (Hall g).
  - eapply find_none_elem in Hg; [|apply boot_query_elem; split; [exact Hk|by right]]. done.
Qed.

Lemma settle_spec now c keys rows :
  boot_rows_are keys rows →
  ∃ rows', settle now (Some c) rows = Some (rows', Some (honoured_by c keys)) ∧
    boot_rows_are (if decide (c ∈ keys) then keys else keys ++ [c]) rows'.
Proof.
  intros Hr. unfold settle, standing, honoured_by. destruct (find _ (boot_query c rows)) as [[x o]|] eqn:Hf.
  - apply find_elem in Hf as [[Hin _]%boot_query_elem Hx%str_eqb_eq]. cbn in Hx. subst x.
    assert (c ∈ keys) as Hc by (rewrite <- (proj1 Hr); exact (list_elem_of_fmap_2 fst _ _ Hin)).
    rewrite !decide_True by done. destruct (rows_current _ _ _ Hr Hc) as (k & -> & Hk & _ & Hall).
    exists rows. split; [|done]. destruct o as [at_|]; [by rewrite (find_current c rows k)|]. by rewrite (Hall c Hin).
  - assert (c ∉ keys) as Hc.
    { rewrite <- (proj1 Hr). intros ([x o] & -> & Hx)%list_elem_of_fmap. cbn in *.
      eapply find_none_elem in Hf; [|apply boot_query_elem; split; [exact Hx|by left]]. by rewrite str_eqb_refl in Hf. }
    rewrite !decide_False by done. pose proof (make_current_spec now None c keys rows Hr ltac:(done)) as Hm.
    destruct (make_current _ _ _ _) as [rows'|]; [|done]. exists rows'. by destruct Hm.
Qed.

Lemma honoured_in c keys : honoured_by c keys ∈ (if decide (c ∈ keys) then keys else keys ++ [c]).
Proof.
  unfold honoured_by. case_decide as Hc; [|set_solver]. destruct (last keys) as [k|] eqn:Hl; [|done].
  apply last_Some in Hl as [l ->]. set_solver.
Qed.

Lemma boot_step_is w g e : boot_is w g → boot_is (boot_step w e) (reign_step g e).
Proof.
  intros (Hr & Hb & Hcur). destruct e as [now [c|]|now hash saved fate]; cbn [boot_step reign_step].
  - destruct (settle_spec now c _ _ Hr) as (rows' & -> & Hr'). split_and!; [done|done|]. cbn. intros b h [= <-] [= <-]. apply honoured_in.
  - split_and!; [done|done|]. cbn. by intros b h [= <-].
  - destruct (gateway w) as [b|] eqn:Hg; [|rewrite Hb; by split_and!; rewrite ?Hg].
    assert (boot_is (MkBootWorld (boot_rows w) (Some b)) g) as Hw by by split_and!.
    unfold rotate_bootstrap. destruct (configured b) as [k|] eqn:Hk; rewrite Hb; [|done].
    pose proof (make_current_spec now (current b) hash _ _ Hr ltac:(eauto)) as Hm.
    rewrite (bool_decide_eq_true_2 (is_Some _)) by done. cbn [andb]. destruct (make_current _ _ _ _) as [rows'|].
    2:{ by rewrite (bool_decide_eq_false_2 (hash ∉ _)) by (intros Hno; by apply Hno). }
    destruct Hm as [Hno Hr']. rewrite (bool_decide_eq_true_2 (hash ∉ _)) by done. cbn [andb].
    destruct (decide (saved = Some false)) as [->|Hs]; [done|].
    rewrite (bool_decide_eq_false_2 (saved = _)), (bool_decide_eq_true_2 (saved ≠ _)) by done. cbn [andb].
    destruct fate; [|done|]; (split_and!; cbn; [done|by rewrite ?Hk; destruct saved|]); intros ? h [= <-]; cbn.
    + intros [= <-]. set_solver.
    + intros Hh. apply elem_of_app. left. by eapply Hcur.
Qed.

(** C33: the gateway can not lock itself out, and no rotated key comes back. After
    any history of starts and rotations, rotations that failed or whose reply was
    lost among them, a start with an admin key configured honours exactly one key:
    the newest of the keys that have been current, where the configured one has
    been current before, and the configured one where it never was; and the table
    then has that key alone as current. *)
Theorem bootstrap_never_locks_out (es : list BootEvent) (now : Z) (c : string) :
  let rows := boot_rows (fold_left boot_step es (MkBootWorld [] None)) in
  let keys := reigned (fold_left reign_step es (MkReign [] false)) in
  ∃ rows', settle now (Some c) rows = Some (rows', Some (honoured_by c keys)) ∧
    currents rows' = [(honoured_by c keys, None)] ∧ rows.*1 = keys.
Proof.
  cbv zeta. assert (boot_is (fold_left boot_step es (MkBootWorld [] None)) (fold_left reign_step es (MkReign [] false))) as (Hr & _).
  { assert (∀ w g, boot_is w g → boot_is (fold_left boot_step es w) (fold_left reign_step es g)) as Hall.
    { induction es as [|e es IH]; intros w g Hw; [done|]. by apply IH, boot_step_is. }
    by apply Hall. }
  destruct (settle_spec now c _ _ Hr) as (rows' & Hs & Hr'). exists rows'. split_and!; [done| |apply Hr].
  destruct Hr' as [_ ->]. unfold honoured_by. case_decide as Hc; [|by rewrite last_snoc].
  by destruct (rows_current _ _ _ Hr Hc) as (k & -> & _).
Qed.

(** ** A run *)

Module KeyRing.

#[export] Instance key_lib : KeyLib := { sha256 l := l; ConsoleIdentity := unit }.

(** Two keys; one renamed while the other is disabled. The rename's query is
    before the disabling, its write of the cache after. *)
Definition overlapped : list KeyEvent :=
  (KCall (CCreate "lab" Read None "wt_a") :: repeat (KStep 0 KFine) 3) ++
  (KCall (CCreate "van" Ingest None "wt_b") :: repeat (KStep 1 KFine) 3) ++
  [KCall (CEdit 1 (Some "bench") None); KStep 2 KFine; KStep 2 KFine] ++
  (KCall (CSetDisabled 2 true) :: repeat (KStep 3 KFine) 3) ++ [KStep 2 KFine].

(** Every operation has finished and answered well, the row is disabled, and its
    key is still accepted. *)
Lemma disabled_key_comes_back :
  ∃ w, key_steps no_keys overlapped = Some w ∧ idle w = true ∧
    key_tasks w !! 3%nat = Some (KDone (Ok (Changed true))) ∧
    (k_disabled <$> find (λ r, k_id r =? 2) (k_rows (table w))) = Some true ∧
    ki_name <$> validate (MkBootstrap None None) (cache w) "wt_b" = Some "van".
Proof. eexists. split; [vm_compute; reflexivity|]. vm_compute. done. Qed.

Definition ring : list KeyEvent := KCall (CCreate "van" Ingest (Some "fleet") "wt_b") :: repeat (KStep 0 KFine) 3.

Lemma validate_exact_witness :
  ∃ w w', key_steps no_keys ring = Some w ∧
    key_steps w (KCall (CSetDisabled 1 true) :: repeat (KStep (length (key_tasks w)) KFine) 3) = Some w' ∧
    validate (MkBootstrap None None) (cache w') "wt_b" ≠ Some (MkKeyInfo 1 "van" Ingest (Some "fleet") None).
Proof.
  destruct (key_steps no_keys ring) as [w|] eqn:Hw; [|by vm_compute in Hw].
  destruct (key_steps w (KCall (CSetDisabled 1 true) :: repeat (KStep (length (key_tasks w)) KFine) 3))
    as [w'|] eqn:Hw'; [|exfalso; vm_compute in Hw; injection Hw as <-; by vm_compute in Hw'].
  exists w, w'. split; [done|]. split; [done|]. intros Hv.
  apply (validate_exact ring w w' (CSetDisabled 1 true) _ _ _ Hw Hw') in Hv.
  assert (k_disabled <$> k_rows (table w') = [true]) as Hall.
  { clear Hv. vm_compute in Hw. injection Hw as <-. vm_compute in Hw'. by injection Hw' as <-. }
  destruct Hv as [[Hv _]|(_ & r & Hr & Hd & _)]; [done|].
  apply (list_elem_of_fmap_2 k_disabled) in Hr. rewrite Hall, Hd in Hr. by apply list_elem_of_singleton in Hr.
Defined.
End KeyRing.
