(* ===== verification/Gateway.v ===== *)
(** * The gateway's ingest sessions ([ingest/mod.rs], [db.rs] [ensure_database])

    Who may open a session and into which database, the listing of the live
    ones, and the connections that hold them, as connections, HELLOs, batches and
    changes of the keys interleave. A HELLO's granting, the opening of its session
    and the closing of the one it replaces are three steps, with others between
    them: the first awaits the keys and the databases, and the other two take the
    listing's lock one after the other. *)

From S2P Require Import Prelude Cidr Catalogues Settings Wire Forward Listener Rows Store Keys ForwardProofs SettingsProofs.
Local Open Scope Z_scope.

(** ** [ensure_database] *)

(** What the gateway's databases answer while a HELLO asks: whether an import
    holds or is making this one, whether it exists, how creating it went, and its
    route. *)
Record DbAnswers := MkDbAnswers {
  da_held : bool;
  da_importing : bool;
  da_exists : result string bool;
  da_created : result string unit;
  da_routed : result DbError Route
}.

Section Databases.
Context `{SettingsLib}.

Record GatewayConfig := MkGatewayConfig { default_database : string; auto_create_databases : bool }.

Definition is_gateway_database (cf : GatewayConfig) (name : string) : bool := str_eqb name (default_database cf).
Definition protected (name : string) : string :=
  "'" +:+ name +:+ "' is the gateway's own database (WIRETAP_DEFAULT_DB): it holds keys and " +:+
  "catalogues, and takes no captures".
Definition being_imported (name : string) : string :=
  "database '" +:+ name +:+ "' is being imported from an archive".

Definition ensure_database (cf : GatewayConfig) (name : string) (allow_create : bool) (a : DbAnswers)
    : result DbError unit :=
  if negb (valid_database_name name) then Err (Refused ("invalid database name '" +:+ name +:+ "'"))
  else if is_gateway_database cf name then Err (Refused (protected name))
  else if da_held a then Ok tt
  else if da_importing a then Err (Unavailable (being_imported name))
  else
    exists_ <-? map_err Unavailable (da_exists a) ;;
    check
      (if (exists_ : bool) then Ok tt
       else if negb (allow_create && auto_create_databases cf) then
         Err (Refused ("database '" +:+ name +:+ "' does not exist (auto-create disabled)"))
       else map_err Unavailable (da_created a)) ;;
    check da_routed a ;; Ok tt.
End Databases.

(** ** Sessions *)

(** [IngestSessionInfo], less the time; counts are [u64]. *)
Record SessionInfo := MkSessionInfo {
  si_peer : string; si_key_name : string; si_database : string; si_protocol_version : Z;
  si_frames : Z; si_batches : Z
}.
(** [Live]; [lv_conn] is the connection its [reassigned] wakes. *)
Record LiveSession := MkLive {
  lv_info : SessionInfo; lv_daemon_id : string; lv_interfaces : list string; lv_conn : nat
}.
Record Sessions := MkSessions { s_live : gmap Z LiveSession; s_next : Z }.

(** [Session], and a connection: the session it holds, the one a HELLO has
    replaced and not yet closed, and a HELLO granted whose session is not open
    yet. *)
Record GSession := MkGSession { gs_database : string; gs_id : Z; gs_daemon_id : string; gs_devices : list Device }.
Record Granted := MkGranted { gr_key_name : string; gr_database : string; gr_hello : Forward.Hello; gr_peer : string }.
Record GConn := MkGConn { authed : option GSession; closing : option Z; granted : option Granted }.
(** Between messages. *)
Definition at_rest (c : GConn) : bool :=
  match closing c, granted c with None, None => true | _, _ => false end.

Definition no_sessions : Sessions := MkSessions ∅ 0.
(** [fetch_add] wraps. *)
Definition open_session (l : LiveSession) (s : Sessions) : Z * Sessions :=
  (s_next s, MkSessions (<[s_next s := l]> (s_live s)) ((s_next s + 1) mod 2 ^ 64)).
Definition close_session (id : Z) (s : Sessions) : Sessions := MkSessions (delete id (s_live s)) (s_next s).

(** [reassign]: the connections told. *)
Definition reassign (daemon_id interface : string) (s : Sessions) : list nat :=
  omap (λ '(_, l), if str_eqb (lv_daemon_id l) daemon_id && existsb (λ i, str_eqb i interface) (lv_interfaces l)
                   then Some (lv_conn l) else None) (map_to_list (s_live s)).

(** [handle_batch]'s counting. *)
Definition count_batch (id count : Z) (s : Sessions) : Sessions :=
  MkSessions (alter (λ l, let i := lv_info l in
    MkLive (MkSessionInfo (si_peer i) (si_key_name i) (si_database i) (si_protocol_version i)
              (si_frames i + count) (si_batches i + 1))
      (lv_daemon_id l) (lv_interfaces l) (lv_conn l)) id (s_live s)) (s_next s).

(** ** HELLO *)

Section Hello.
Context `{SettingsLib} `{IngestLib} `{SessionLib} `{KeyLib}.

(** [validate_from]: a wrong key is counted against its peer. *)
Definition validate_from (b : Bootstrap) (cache : gmap string KeyInfo) (peer : IpAddr) (key : string) (a : Attempts)
    : result string (option KeyInfo) * Attempts :=
  match validate b cache key with
  | Some info => (Ok (Some info), a)
  | None => match admit_peer peer a with Ok a => (Ok None, a) | Err e => (Err e, a) end
  end.

(** The database a HELLO asks for, under its key's pin. *)
Definition hello_database (pin : option string) (requested : string) : result Z string :=
  match pin with
  | Some pin =>
      if is_empty_str requested then Ok pin
      else if negb (str_eqb requested pin) then Err HELLO_BAD_AUTH
      else Ok pin
  | None => if is_empty_str requested then Err HELLO_BAD_DATABASE else Ok requested
  end.

(** [handle_hello] up to the session it opens: the key, its role, the database. *)
Definition authorise (cf : GatewayConfig) (valid : result string (option KeyInfo)) (hello : Forward.Hello)
    (answers : string → DbAnswers) : result Z (KeyInfo * string) :=
  match valid with
  | Ok (Some info) =>
      if negb (allows_ingest (ki_role info)) then Err HELLO_BAD_AUTH
      else
        database <-? hello_database (ki_database_pin info) (h_database hello) ;;
        match ensure_database cf database true (answers database) with
        | Ok _ => Ok (info, database)
        | Err (Refused _) => Err HELLO_BAD_DATABASE
        | Err (Unavailable _) => Err HELLO_UNAVAILABLE
        end
  | _ => Err HELLO_BAD_AUTH
  end.
End Hello.

(** ** The server *)

Section Server.
Context `{SettingsLib} `{IngestLib} `{SessionLib} `{KeyLib}.

Record Gateway := MkGateway {
  g_bootstrap : Bootstrap;
  g_cache : gmap string KeyInfo;
  g_attempts : Attempts;
  g_sessions : Sessions;
  g_conns : list (option GConn)
}.
(** The keys change, a client connects; a connection says HELLO, opens the
    session it was granted, closes the one that HELLO replaced, has a batch stored
    or not, and ends. A HELLO carries the peer's text, the token as text, and the
    statuses it is answered by the databases. *)
Inductive GatewayEvent :=
  | GKeys (b : Bootstrap) (cache : gmap string KeyInfo)
  | GConnect
  | GHello (i : nat) (peer : IpAddr) (peer_text key : string) (hello : Forward.Hello) (answers : string → DbAnswers)
  | GOpen (i : nat)
  | GReplaced (i : nat)
  | GBatch (i : nat) (count : Z) (stored : result WriteError unit)
  | GDisconnect (i : nat).

Definition with_conn (i : nat) (c : option GConn) (a : Attempts) (s : Sessions) (g : Gateway) : Gateway :=
  MkGateway (g_bootstrap g) (g_cache g) a s (<[i := c]> (g_conns g)).

(** [Connection::hello] up to the opening of the session: a refused HELLO leaves
    the session there was. *)
Definition connection_hello (cf : GatewayConfig) (g : Gateway) (i : nat) (c : GConn) (peer : IpAddr)
    (peer_text key : string) (hello : Forward.Hello) (answers : string → DbAnswers) : Z * Gateway :=
  let '(valid, a) := validate_from (g_bootstrap g) (g_cache g) peer key (g_attempts g) in
  match authorise cf valid hello answers with
  | Err status => (status, with_conn i (Some c) a (g_sessions g) g)
  | Ok (info, database) =>
      (HELLO_OK, with_conn i (Some (MkGConn (authed c) None (Some (MkGranted (ki_name info) database hello peer_text)))) a (g_sessions g) g)
  end.
(** Its [sessions.open], and [authed.replace]. *)
Definition live_of (i : nat) (r : Granted) : LiveSession :=
  let hello := gr_hello r in
  MkLive (MkSessionInfo (gr_peer r) (gr_key_name r) (gr_database r) (h_version hello) 0 0)
    (h_daemon_id hello) (Forward.d_name <$> h_devices hello) i.
Definition connection_open (g : Gateway) (i : nat) (c : GConn) (r : Granted) : Gateway :=
  let hello := gr_hello r in
  let '(id, s) := open_session (live_of i r) (g_sessions g) in
  with_conn i (Some (MkGConn (Some (MkGSession (gr_database r) id (h_daemon_id hello) (h_devices hello)))
                       (gs_id <$> authed c) None)) (g_attempts g) s g.

(** One event; [None] where it can not happen: no such connection, a HELLO not
    yet done with, or a batch before an accepted HELLO, which the protocol's
    session never hands over. *)
Definition gateway_step (cf : GatewayConfig) (g : Gateway) (e : GatewayEvent) : option Gateway :=
  let conn i := c ← g_conns g !! i; c in
  match e with
  | GKeys b cache => Some (MkGateway b cache (g_attempts g) (g_sessions g) (g_conns g))
  | GConnect =>
      Some (MkGateway (g_bootstrap g) (g_cache g) (g_attempts g) (g_sessions g)
              (g_conns g ++ [Some (MkGConn None None None)]))
  | GHello i peer peer_text key hello answers =>
      c ← conn i;
      if at_rest c then Some (connection_hello cf g i c peer peer_text key hello answers).2 else None
  | GOpen i => c ← conn i; r ← granted c; Some (connection_open g i c r)
  | GReplaced i =>
      c ← conn i; id ← closing c;
      Some (with_conn i (Some (MkGConn (authed c) None (granted c))) (g_attempts g) (close_session id (g_sessions g)) g)
  | GBatch i count stored =>
      c ← conn i; s ← authed c;
      if at_rest c then
        Some (with_conn i (Some c) (g_attempts g)
                (if is_ok stored then count_batch (gs_id s) count (g_sessions g) else g_sessions g) g)
      else None
  | GDisconnect i =>
      c ← conn i;
      if at_rest c then
        Some (with_conn i None (g_attempts g)
                (match authed c with Some s => close_session (gs_id s) (g_sessions g) | None => g_sessions g end) g)
      else None
  end.
Fixpoint gateway_steps (cf : GatewayConfig) (g : Gateway) (es : list GatewayEvent) : option Gateway :=
  match es with [] => Some g | e :: es => g' ← gateway_step cf g e; gateway_steps cf g' es end.

Definition gateway_start (b : Bootstrap) (cache : gmap string KeyInfo) : Gateway :=
  MkGateway b cache attempts_default no_sessions [].

(** ** A connection's catalogues *)

(** [Connection::blob]: what was served last is kept; [fetched] is asked only of
    another blob. *)
Definition serve_blob (served : option (list Z * string)) (sha : list Z) (fetched : result string (option string))
    : result Z string * option (list Z * string) :=
  let keep := match served with Some (s, _) => bool_decide (s = sha) | None => false end in
  if keep then (Ok (match served with Some (_, c) => c | None => EmptyString end), served)
  else
    match fetched with
    | Ok (Some content) => (Ok content, Some (sha, content))
    | Ok None => (Err CATALOGUE_UNKNOWN, served)
    | Err _ => (Err CATALOGUE_UNAVAILABLE, served)
    end.

(** [daemon_hello]: [recorded] and [read] are the meta database's answers. *)
Definition daemon_hello (hello : Forward.Hello) (recorded : result string unit)
    (read : result string (list Assignment)) : list Assignment :=
  if is_empty_str (h_daemon_id hello) then []
  else match (check recorded ;; read) with Ok l => l | Err _ => [] end.

(** [catalog_status]: whether it is recorded, and for whom. *)
Definition status_recorded (c : GConn) : option (string * list Device) :=
  s ← authed c;
  if is_empty_str (gs_daemon_id s) then None else Some (gs_daemon_id s, gs_devices s).
End Server.

(** ** Every live session was authorised *)

(** The ids a connection holds. *)
Definition conn_ids (c : option GConn) : list Z :=
  match c with
  | Some c => option_list (gs_id <$> authed c) ++ option_list (closing c)
  | None => []
  end.
Definition held_ids (cs : list (option GConn)) : list Z := cs ≫= conn_ids.

Lemma held_insert cs i c c' :
  cs !! i = Some c → ∃ rest, held_ids cs ≡ₚ conn_ids c ++ rest ∧ held_ids (<[i := c']> cs) ≡ₚ conn_ids c' ++ rest.
Proof.
  intros Hi. destruct (insert_delete_perm cs i c c' Hi) as [Hp Hp']. exists (held_ids (delete i cs)).
  unfold held_ids. by rewrite Hp at 1; rewrite Hp'.
Qed.

Section Listing.
Context `{SettingsLib} `{IngestLib} `{SessionLib} `{KeyLib}.
Context (cf : GatewayConfig).

(** The listing holds the connections' sessions and nothing else. *)
Definition listing_ok (live : gmap Z LiveSession) (next : Z) (ids : list Z) : Prop :=
  NoDup ids ∧ (∀ id, is_Some (live !! id) ↔ id ∈ ids) ∧ Forall (λ id, 0 ≤ id < next) ids ∧ 0 ≤ next.

#[global] Instance listing_perm live next : Proper ((≡ₚ) ==> iff) (listing_ok live next).
Proof.
  assert (∀ l k, l ≡ₚ k → listing_ok live next l → listing_ok live next k) as Hone.
  { intros l k Hlk (Hn & Hd & Hf & Hz). unfold listing_ok. rewrite <-Hlk. split_and!; try done.
    intros id. by rewrite <-Hlk. }
  intros l k Hlk. split; by apply Hone.
Qed.

Lemma listing_opens live next ids l :
  listing_ok live next ids → listing_ok (<[next := l]> live) (next + 1) (next :: ids).
Proof.
  intros (Hn & Hd & Hf & Hz). split_and!; [|intros id| |lia].
  - constructor; [|done]. intros Hin. rewrite Forall_forall in Hf. specialize (Hf _ Hin). cbn in Hf. lia.
  - rewrite elem_of_cons, <-Hd. destruct (decide (id = next)) as [->|Hne].
    + rewrite lookup_insert_eq. split; eauto.
    + rewrite lookup_insert_ne by done. split; [by right|]. by intros [?|?].
  - constructor; [lia|]. eapply Forall_impl; [exact Hf|]. intros id. cbn. lia.
Qed.
Lemma listing_closes live next id ids :
  listing_ok live next (id :: ids) → listing_ok (delete id live) next ids.
Proof.
  intros ([Hni Hn]%NoDup_cons & Hd & [_ Hf]%Forall_cons & Hz). split_and!; try done. intros id'.
  destruct (decide (id' = id)) as [->|Hne].
  - rewrite lookup_delete_eq. split; [by intros [? ?]|done].
  - rewrite lookup_delete_ne by done. rewrite Hd, elem_of_cons. naive_solver.
Qed.

Lemma authorised_spec valid hello answers info db :
  authorise cf valid hello answers = Ok (info, db) →
  valid = Ok (Some info) ∧ allows_ingest (ki_role info) = true ∧
  db = default (h_database hello) (ki_database_pin info) ∧
  (∀ pin, ki_database_pin info = Some pin → h_database hello = EmptyString ∨ h_database hello = pin) ∧
  valid_database_name db = true ∧ db ≠ default_database cf.
Proof.
  unfold authorise. destruct valid as [[k|]|]; [|done..]. destruct (allows_ingest (ki_role k)) eqn:Ha; [|done]. cbn.
  destruct (hello_database _ _) as [d|] eqn:Hd; [|done]. unfold ensure_database.
  destruct (valid_database_name d) eqn:Hv; [|done]. destruct (is_gateway_database cf d) eqn:Hg; [done|]. cbn.
  intros Hr. assert (k = info ∧ d = db) as [-> ->] by (repeat case_match; by simplify_eq).
  apply str_eqb_neq in Hg. unfold hello_database in Hd.
  split_and!; try done; destruct (ki_database_pin info) as [pin|]; cbn;
    destruct (h_database hello) as [|x s] eqn:Hs; cbn in *; simplify_eq; try done;
    try (by intros ? [= <-]; left); destruct (str_eqb (String x s) pin) eqn:He; simplify_eq/=; try done.
  apply str_eqb_eq in He as <-. intros ? [= <-]. by right.
Qed.

(** A HELLO that is granted this database by this key. *)
Definition grants (g : Gateway) (e : GatewayEvent) (name db : string) : Prop :=
  match e with
  | GHello _ _ _ key hello _ =>
      ∃ info, validate (g_bootstrap g) (g_cache g) key = Some info ∧ allows_ingest (ki_role info) = true ∧
        name = ki_name info ∧ db = default (h_database hello) (ki_database_pin info) ∧
        (∀ pin, ki_database_pin info = Some pin → h_database hello = EmptyString ∨ h_database hello = pin) ∧
        valid_database_name db = true ∧ db ≠ default_database cf
  | _ => False
  end.
(** What has been granted: the sessions that are open, and those about to be. *)
Definition has (g : Gateway) (name db : string) : Prop :=
  (∃ id l, s_live (g_sessions g) !! id = Some l ∧ si_key_name (lv_info l) = name ∧ si_database (lv_info l) = db) ∨
  (∃ i c r, g_conns g !! i = Some (Some c) ∧ granted c = Some r ∧ gr_key_name r = name ∧ gr_database r = db).
Definition g_listed (g : Gateway) : Prop :=
  listing_ok (s_live (g_sessions g)) (s_next (g_sessions g)) (held_ids (g_conns g)) ∧
  ∀ i c, g_conns g !! i = Some (Some c) → is_Some (granted c) → closing c = None.

(** What an event does to the listing, and what it may have granted. *)
Definition explained (g : Gateway) (e : GatewayEvent) (g' : Gateway) : Prop :=
  ∀ name db, has g' name db → has g name db ∨ grants g e name db.

Lemma has_session g id l : s_live (g_sessions g) !! id = Some l → has g (si_key_name (lv_info l)) (si_database (lv_info l)).
Proof. left. by exists id, l. Qed.

(** Every session was there before, and every grant was, where the connection is
    not the one that moves. *)
Lemma explained_conn g e i x a s :
  (∀ id l', s_live s !! id = Some l' → has g (si_key_name (lv_info l')) (si_database (lv_info l'))) →
  (∀ c r, x = Some c → granted c = Some r →
    has g (gr_key_name r) (gr_database r) ∨ grants g e (gr_key_name r) (gr_database r)) →
  explained g e (with_conn i x a s g).
Proof.
  intros Hs Hx name db [(id & l & Hl & <- & <-)|(j & c & r & Hj & Hr & <- & <-)]; [left; by eapply Hs|].
  cbn in Hj. apply list_lookup_insert_Some in Hj as [(-> & -> & _)|(Hne & Hj)]; [by eapply Hx|].
  left. right. by exists j, c, r.
Qed.
(** A connection that moves to [c'], of the listing [s]. *)
Lemma listed_conn g i c c' a s :
  g_listed g → g_conns g !! i = Some c →
  (∀ rest, held_ids (g_conns g) ≡ₚ conn_ids c ++ rest → listing_ok (s_live s) (s_next s) (conn_ids c' ++ rest)) →
  (∀ k, c' = Some k → is_Some (granted k) → closing k = None) →
  g_listed (with_conn i c' a s g).
Proof.
  intros [_ Hg] Hi Hl Hk. split; cbn.
  - destruct (held_insert _ i _ c' Hi) as (rest & Hp & ->). by apply Hl.
  - intros j k Hj. apply list_lookup_insert_Some in Hj as [(_ & Hc & _)|(_ & Hj)]; [by apply Hk|by eapply Hg].
Qed.

Lemma conn_lookup g i c :
  (c' ← g_conns g !! i; c') = Some c → g_conns g !! i = Some (Some c).
Proof. destruct (g_conns g !! i) as [[c'|]|]; cbn; try done. by intros [= ->]. Qed.
Lemma at_rest_spec c : at_rest c = true → closing c = None ∧ granted c = None.
Proof. unfold at_rest. by destruct (closing c), (granted c). Qed.

(** A HELLO is granted what its key and database allow, or changes nothing. *)
Lemma hello_step g i c peer pt key hello answers :
  g_conns g !! i = Some (Some c) → at_rest c = true → g_listed g →
  let g' := (connection_hello cf g i c peer pt key hello answers).2 in
  g_listed g' ∧ g_sessions g' = g_sessions g ∧ explained g (GHello i peer pt key hello answers) g'.
Proof.
  intros Hi [Hc Hr]%at_rest_spec Hl. unfold connection_hello.
  destruct (validate_from _ _ _ _ _) as [valid a] eqn:Hv.
  destruct (authorise cf valid hello answers) as [[info db]|st] eqn:Ha; cbn [snd].
  - destruct (authorised_spec _ _ _ _ _ Ha) as (-> & Hrole & Hdb & Hpin & Hname & Hown).
    assert (validate (g_bootstrap g) (g_cache g) key = Some info) as Hval.
    { unfold validate_from in Hv. destruct (validate _ _ _) as [k|]; [by simplify_eq|].
      by destruct (admit_peer peer (g_attempts g)). }
    split; [|split; [done|]].
    + eapply (listed_conn g i (Some c) _ _ _); [done..| |].
      * intros rest Hp. destruct Hl as [Hl _]. rewrite Hp in Hl. cbn in *. by rewrite Hc in Hl.
      * by intros k [= <-].
    + apply explained_conn; [apply has_session|]. intros k r [= <-] [= <-]. right. exists info. by rewrite <-Hdb.
  - split; [|split; [done|]].
    + eapply (listed_conn g i (Some c) _ _ _); [done..| |].
      * intros rest Hp. destruct Hl as [Hl _]. by rewrite Hp in Hl.
      * intros k [= <-]. by rewrite Hr; intros [? ?].
    + apply explained_conn; [apply has_session|]. intros k r [= <-]. by rewrite Hr.
Qed.

(** A granted session is opened under its own number. *)
Lemma open_step g i c r :
  g_conns g !! i = Some (Some c) → granted c = Some r → g_listed g → s_next (g_sessions g) + 1 < 2 ^ 64 →
  let g' := connection_open g i c r in
  g_listed g' ∧ s_next (g_sessions g') ≤ s_next (g_sessions g) + 1 ∧ explained g (GOpen i) g'.
Proof.
  intros Hi Hr Hl Hn g'. pose proof (proj2 Hl i c Hi (mk_is_Some _ _ Hr)) as Hc.
  assert ((s_next (g_sessions g) + 1) mod 2 ^ 64 = s_next (g_sessions g) + 1) as Hmod
    by (apply Z.mod_small; destruct Hl as [(_ & _ & _ & ?) _]; lia).
  unfold g', connection_open. cbn [open_session]. rewrite Hmod. split; [|split; [cbn; lia|]].
  - eapply (listed_conn g i (Some c)); [done..| |intros k [= <-]; by intros [? ?]]. intros rest Hp. destruct Hl as [Hl _]. rewrite Hp in Hl.
    cbn in *. rewrite Hc, app_nil_r in Hl. by apply listing_opens.
  - apply explained_conn; [|by intros k ? [= <-]]. intros id l' Hl'. cbn in Hl'.
    apply lookup_insert_Some in Hl' as [[_ <-]|[_ Hl']]; [|by eapply has_session]. right. by exists i, c, r.
Qed.

Lemma gateway_step_listed g e g' :
  gateway_step cf g e = Some g' → g_listed g → s_next (g_sessions g) + 1 < 2 ^ 64 →
  g_listed g' ∧ s_next (g_sessions g') ≤ s_next (g_sessions g) + 1 ∧ explained g e g'.
Proof.
  intros Hs Hl Hn. destruct e as [b cache| |i peer pt key hello answers|i|i|i count stored|i]; cbn in Hs;
    try (destruct (c' ← g_conns g !! i; c') as [c|] eqn:Hi; [|done]; cbn in Hs; apply conn_lookup in Hi).
  - injection Hs as <-. split; [done|split; [cbn; lia|by left]].
  - injection Hs as <-. split; [|split; [cbn; lia|]].
    + destruct Hl as [Hl Hg]. split; [unfold held_ids in *; cbn; rewrite bind_app; cbn; by rewrite app_nil_r|].
      intros j k Hj. cbn in Hj. apply lookup_app_Some in Hj as [Hj|[_ Hj]]; [by eapply Hg|].
      apply list_lookup_singleton_Some in Hj as [_ [= <-]]. by intros [? ?].
    + intros name db [Hx|(j & k & r & Hj & Hr & Hx)]; [left; by left|]. cbn in Hj.
      apply lookup_app_Some in Hj as [Hj|[_ Hj]]; [left; right; by exists j, k, r|].
      apply list_lookup_singleton_Some in Hj as [_ [= <-]]. done.
  - destruct (at_rest c) eqn:Hc; [|done]. injection Hs as <-.
    destruct (hello_step g i c peer pt key hello answers Hi Hc Hl) as (? & -> & ?). split_and!; [done|lia|done].
  - destruct (granted c) as [r|] eqn:Hr; [|done]. cbn in Hs. injection Hs as <-. by apply open_step.
  - destruct (closing c) as [id|] eqn:Hc; [|done]. cbn in Hs. injection Hs as <-.
    assert (granted c = None) as Hr.
    { destruct (granted c) eqn:Hr; [|done]. by rewrite (proj2 Hl i c Hi (mk_is_Some _ _ Hr)) in Hc. }
    split; [|split; [cbn; lia|]].
    + eapply (listed_conn g i (Some c)); [done..| |by intros k [= <-]]. intros rest Hp. destruct Hl as [Hl _]. rewrite Hp in Hl.
      cbn in *. rewrite Hc in Hl. cbn in Hl. apply listing_closes. eapply listing_perm; [|exact Hl]. solve_Permutation.
    + apply explained_conn; [|intros k r [= <-]; cbn; by rewrite Hr]. intros id' l' Hl'. cbn in Hl'.
      apply lookup_delete_Some in Hl' as [_ Hl']. by eapply has_session.
  - destruct (authed c) as [s|]; [|done]. cbn in Hs. destruct (at_rest c) eqn:Hc; [|done]. injection Hs as <-.
    apply at_rest_spec in Hc as [Hc Hr]. split; [|split].
    + eapply (listed_conn g i (Some c)); [done..| |by intros k [= <-]]. intros rest Hp. destruct Hl as [Hl _]. rewrite Hp in Hl.
      destruct (is_ok stored); [|done]. destruct Hl as (Hnd & Hd & Hf & Hz). split_and!; try done. intros id. rewrite <-Hd. cbn.
      destruct (decide (id = gs_id s)) as [->|Hne]; [rewrite lookup_alter_eq|by rewrite lookup_alter_ne].
      by rewrite fmap_is_Some.
    + cbn. destruct (is_ok stored); cbn; lia.
    + apply explained_conn; [|intros k r [= <-]; by rewrite Hr]. destruct (is_ok stored); [|apply has_session].
      intros id l' Hl'. cbn in Hl'. destruct (decide (id = gs_id s)) as [->|Hne].
      * rewrite lookup_alter_eq in Hl'. apply fmap_Some in Hl' as (l & Hl0 & ->). cbn. by eapply (has_session g).
      * rewrite lookup_alter_ne in Hl' by done. by eapply has_session.
  - destruct (at_rest c) eqn:Hc; [|done]. injection Hs as <-. apply at_rest_spec in Hc as [Hc Hr].
    split; [|split; [by destruct (authed c); cbn; lia|]].
    + eapply (listed_conn g i (Some c)); [done..| |done]. intros rest Hp. destruct Hl as [Hl _]. rewrite Hp in Hl.
      cbn in *. rewrite Hc in Hl. destruct (authed c); cbn in *; [by apply listing_closes|done].
    + apply explained_conn; [|done]. destruct (authed c); [|apply has_session]. intros id l' Hl'. cbn in Hl'.
      apply lookup_delete_Some in Hl' as [_ Hl']. by eapply has_session.
Qed.

Lemma gateway_steps_app g es es' :
  gateway_steps cf g (es ++ es') = (g' ← gateway_steps cf g es; gateway_steps cf g' es').
Proof.
  revert g. induction es as [|e es IH]; intros g; [done|]. cbn. destruct (gateway_step cf g e); [apply IH|done].
Qed.

(** A session of this key's in this database was granted by a HELLO of the run,
    by a key that was then accepted. *)
Definition authorised (g0 : Gateway) (es : list GatewayEvent) (name db : string) : Prop :=
  ∃ es1 e es2 g1, es = es1 ++ e :: es2 ∧ gateway_steps cf g0 es1 = Some g1 ∧ grants g1 e name db.

Lemma run_listed b cache es g :
  gateway_steps cf (gateway_start b cache) es = Some g → Z.of_nat (length es) < 2 ^ 64 →
  g_listed g ∧ s_next (g_sessions g) ≤ Z.of_nat (length es) ∧
  ∀ name db, has g name db → authorised (gateway_start b cache) es name db.
Proof.
  revert g. induction es as [|e es IH] using rev_ind; intros g.
  { intros [= <-] _. split; [|split; [done|]].
    - split; [|done]. split_and!; try constructor; try done; [by intros [? ?]|by intros ?%not_elem_of_nil].
    - intros name db [(id & l & Hl & _)|(i & c & r & Hi & _)]; cbn in *; [by rewrite lookup_empty in Hl|done]. }
  rewrite gateway_steps_app, length_app. destruct (gateway_steps cf _ es) as [g1|] eqn:Hes; [|done]. cbn.
  destruct (gateway_step cf g1 e) as [g2|] eqn:He; [|done]. intros [= <-] Hlen.
  destruct (IH g1 eq_refl ltac:(lia)) as (Hl & Hnext & Hauth).
  destruct (gateway_step_listed g1 e g2 He Hl ltac:(lia)) as (Hl2 & Hn2 & Hex).
  split; [done|]. split; [lia|]. intros name db Hx. destruct (Hex name db Hx) as [Hold|Hop].
  - destruct (Hauth name db Hold) as (es1 & e1 & es2 & g0 & -> & Hrun & Hop). exists es1, e1, (es2 ++ [e]), g0.
    split; [by rewrite <-app_assoc|done].
  - exists es, e, [], g1. by split_and!.
Qed.

(** C21: only an authorised client has a session. Over any interleaving of
    connections, HELLOs, batches, disconnections and key changes, others coming
    between a HELLO's grant and the opening of its session, the sessions listed are exactly those the open connections hold or are about to give up,
    and each was opened by a HELLO whose key the store then accepted with a role
    that may ingest, into the key's pinned database, or the one it named when the
    key has no pin, which a pin never lets it choose, and which is a valid name and
    not the gateway's own. *)
Theorem sessions_are_authorised (b : Bootstrap) (cache : gmap string KeyInfo) (es : list GatewayEvent) (g : Gateway) :
  gateway_steps cf (gateway_start b cache) es = Some g → Z.of_nat (length es) < 2 ^ 64 →
  (∀ id, is_Some (s_live (g_sessions g) !! id) ↔ id ∈ held_ids (g_conns g)) ∧
  ∀ id l, s_live (g_sessions g) !! id = Some l →
    ∃ es1 i peer pt key hello answers es2 g1 info,
      es = es1 ++ GHello i peer pt key hello answers :: es2 ∧
      gateway_steps cf (gateway_start b cache) es1 = Some g1 ∧
      validate (g_bootstrap g1) (g_cache g1) key = Some info ∧ allows_ingest (ki_role info) = true ∧
      si_key_name (lv_info l) = ki_name info ∧
      si_database (lv_info l) = default (h_database hello) (ki_database_pin info) ∧
      (∀ pin, ki_database_pin info = Some pin → h_database hello = EmptyString ∨ h_database hello = pin) ∧
      valid_database_name (si_database (lv_info l)) = true ∧ si_database (lv_info l) ≠ default_database cf.
Proof.
  intros Hs Hlen. destruct (run_listed b cache es g Hs Hlen) as (((_ & Hd & _) & _) & _ & Hauth). split; [done|].
  intros id l Hl. destruct (Hauth _ _ (has_session g id l Hl)) as (es1 & e & es2 & g1 & -> & Hrun & Hop).
  destruct e as [| |i peer pt key hello answers| | | |]; try done. destruct Hop as (info & Hop).
  by exists es1, i, peer, pt, key, hello, answers, es2, g1, info.
Qed.
End Listing.

(** ** A run *)

Module FrontDesk.
Import (hints) Wire.Packed ForwardProofs.Toy SettingsProofs.Site Listener.Door Keys.KeyRing.

Definition cf : GatewayConfig := MkGatewayConfig "wiretap" true.
Definition ready (_ : string) : DbAnswers := MkDbAnswers false false (Ok true) (Ok tt) (Ok Live).
Definition van : KeyInfo := MkKeyInfo 1 "van" Ingest (Some "fleet") None.
Definition greeting (database : string) : Forward.Hello := Forward.MkHello 3 "wt_b" database "bench" [Forward.MkDevice 0 "can0"].

(** A session, another of the same connection that replaces it, and one refused
    for naming another database than the pin. *)
Definition visits : list GatewayEvent :=
  [GConnect; GHello 0 (V4 1) "192.0.2.1:4000" "wt_b" (greeting "") ready; GOpen 0; GBatch 0 5 (Ok tt);
   GHello 0 (V4 1) "192.0.2.1:4000" "wt_b" (greeting "fleet") ready; GConnect; GOpen 0; GReplaced 0;
   GHello 1 (V4 2) "192.0.2.2:4000" "wt_b" (greeting "other") ready].

Lemma sessions_are_authorised_witness :
  ∃ g l, gateway_steps cf (gateway_start (MkBootstrap None None) {[hash_key "wt_b" := van]}) visits = Some g ∧
    s_live (g_sessions g) !! 1 = Some l ∧ size (s_live (g_sessions g)) = 1%nat ∧
    si_database (lv_info l) ≠ "wiretap".
Proof.
  destruct (gateway_steps cf (gateway_start (MkBootstrap None None) {[hash_key "wt_b" := van]}) visits)
    as [g|] eqn:Hg; [|by vm_compute in Hg].
  assert (length visits = 9%nat) as Hlen by done.
  destruct (sessions_are_authorised cf _ _ visits g Hg ltac:(rewrite Hlen; lia)) as [_ Hall].
  destruct (s_live (g_sessions g) !! 1) as [l|] eqn:Hl;
    [|exfalso; vm_compute in Hg; injection Hg as <-; by vm_compute in Hl].
  exists g, l. split; [done|]. split; [done|]. split; [vm_compute in Hg; injection Hg as <-; by vm_compute|].
  destruct (Hall 1 l Hl) as (? & ? & ? & ? & ? & ? & ? & ? & ? & ? & _ & _ & _ & _ & _ & _ & _ & _ & Hown). exact Hown.
Defined.
End FrontDesk.
