(* ===== verification/Assignments.v ===== *)
(** * Catalogue assignments of the gateway ([catalogs.rs])

    The catalogues assigned to the interfaces of the daemons, kept in
    [wiretap_meta] beside the keys. An assignment or its clearing is a transaction
    of several statements under an advisory lock; a task stands between two of
    them, and a run is any interleaving of tasks. PostgreSQL keeps a transaction's
    writes to itself until it commits, drops them when a statement fails, and holds
    an advisory lock to the transaction's end. *)

From S2P Require Import Prelude Catalogues Settings Forward Gateway.
Local Open Scope Z_scope.

(** ** Requests *)

(** [Provenance]: the SHA it claims, and the rest of it. *)
Record Provenance := MkProvenance { pv_blob_sha : option string; pv_rest : string }.
(** [AssignCatalogue] and [UnassignParams]. *)
Record Assign := MkAssign {
  as_daemon_id : string; as_interface : string; as_content : string; as_provenance : Provenance; as_expected : option string
}.
Record Unassign := MkUnassign { un_daemon_id : string; un_interface : string; un_expected : option string }.

(** A finding is its field and its message. *)
Inductive AssignError := ARejected (findings : list (string * string)) | AConflict (current : option string) | ADatabase (e : string).
Definition rejected (field message : string) : AssignError := ARejected [(field, message)].

(** The catalogue validator, PostgreSQL's [hashtextextended(_, 0)], and what is
    read back of a provenance stored as [jsonb]. *)
Class AssignLib := {
  validate_catalogue : string → list (string * string);
  lock_hash : string → Z;
  reread : Provenance → Provenance
}.

(** [guard]: the empty string expects none, and absent expects nothing. *)
Definition guard (expected current : option string) : result AssignError unit :=
  match expected with
  | Some e => if negb (eq_ignore_ascii_case e (default EmptyString current)) then Err (AConflict current) else Ok tt
  | None => Ok tt
  end.

Section Checks.
Context `{SettingsLib} `{CatalogueLib} `{AssignLib}.

Definition check_key (daemon_id interface : string) : result AssignError unit :=
  if negb (valid_daemon_id daemon_id) then Err (rejected "daemon_id" (debug_str daemon_id +:+ " is not a daemon id"))
  else if is_empty_str interface || (255 <? String.length interface)%nat then
    Err (rejected "interface" ("an interface is 1 to 255 bytes, not " +:+ pretty (String.length interface)))
  else Ok tt.

(** The blob's SHA-1 and name. *)
Definition checked_blob (content : string) (provenance : Provenance) : result AssignError (list Z * string) :=
  let sha := blob_sha1 (bytes_of_string content) in
  check match pv_blob_sha provenance with
        | Some claimed =>
            let hex := blob_sha1_hex sha in
            if negb (eq_ignore_ascii_case claimed hex) then
              Err (rejected "provenance.blob_sha" (claimed +:+ ", but the content hashes to " +:+ hex))
            else Ok tt
        | None => Ok tt
        end ;;
  match validate_catalogue content with
  | [] =>
      rules <-? map_err (λ e, rejected "catalogue" ("the capture daemon would refuse it: " +:+ e)) (rtu_rules (bytes_of_string content)) ;;
      if is_empty_str rules.1 then Err (rejected "meta.name" "Catalogue name must not be empty") else Ok (sha, rules.1)
  | findings => Err (ARejected findings)
  end.
End Checks.

(** ** The tables *)

(** A daemon's interface. *)
Notation Key := (string * string)%type.
Record Blob := MkBlob { b_content : string; b_provenance : Provenance; b_created : Z }.
Record Assigned := MkAssigned { ag_sha : list Z; ag_at : Z; ag_by : string }.
Record HistoryRow := MkHistoryRow { hr_key : Key; hr_sha : option (list Z); hr_from : Z; hr_by : string }.
Record DeviceRow := MkDeviceRow { dv_bus : Z; dv_database : string; dv_last_seen : Z }.
Record ActiveRow := MkActiveRow { ac_source : string; ac_sha : option (list Z); ac_refused : option (list Z * string); ac_since : Z }.
Record Meta := MkMeta {
  mt_blobs : gmap (list Z) Blob;
  mt_assigned : gmap Key Assigned;
  mt_history : list HistoryRow;
  mt_devices : gmap Key DeviceRow;
  mt_active : gmap Key ActiveRow
}.
Definition no_meta : Meta := MkMeta ∅ ∅ [] ∅ ∅.

(** The SHA assigned. *)
Definition sha_at (m : Meta) (k : Key) : option (list Z) := ag_sha <$> mt_assigned m !! k.

(** ** Assigning and clearing *)

(** What a transaction has written. *)
Record Tx := MkTx {
  tx_start : Z;
  tx_blob : option (list Z * Blob);
  tx_assigned : option (option Assigned);
  tx_history : option HistoryRow
}.
(** What is to be assigned: the SHA, the name and the blob. *)
Record Job := MkJob {
  j_key : Key; j_by : string; j_expected : option string;
  j_what : option (list Z * string * string * Provenance)
}.
Definition assigns (j : Job) : bool := match j_what j with Some _ => true | None => false end.
Definition j_sha (j : Job) : option (list Z) := match j_what j with Some (sha, _, _, _) => Some sha | None => None end.

(** The rest of an answered assignment: when, by whom, and its provenance. *)
Record AssignmentInfo := MkInfo { in_sha : string; in_name : string; in_at : Z; in_by : string; in_provenance : Provenance }.

(** Before the connection, before each statement, and before the sessions are told. *)
Inductive At :=
  | AtConnect | AtBegin | AtLock | AtRead | AtBlob | AtWrite | AtHistory | AtRow | AtCommit | AtTell
  | AtEnd (a : result AssignError (option AssignmentInfo)).
Record Task := MkTask { t_job : Job; t_at : At; t_tx : Tx; t_changed : bool; t_info : option AssignmentInfo }.
Definition no_tx : Tx := MkTx 0 None None None.
Definition at_ (t : Task) (a : At) : Task := MkTask (t_job t) a (t_tx t) (t_changed t) (t_info t).
Definition ends (t : Task) (e : AssignError) : Task := at_ t (AtEnd (Err e)).

(** A statement that takes, fails, or takes with its reply lost, and the error. *)
Inductive Reply := RFine | RFails (e : string) | RLost (e : string).

(** The lock is held from [AtRead] to the commit. *)
Definition holding (t : Task) : bool :=
  match t_at t with AtRead | AtBlob | AtWrite | AtHistory | AtRow | AtCommit => true | _ => false end.
(** A blob a transaction has inserted and not committed. *)
Definition inserting (t : Task) : option (list Z) := if holding t then fst <$> tx_blob (t_tx t) else None.

(** A commit. A conflicting blob was waited for, and is kept. *)
Definition commit (k : Key) (tx : Tx) (m : Meta) : Meta :=
  MkMeta
    (match tx_blob tx with
     | Some (sha, b) => match mt_blobs m !! sha with Some _ => mt_blobs m | None => <[sha := b]> (mt_blobs m) end
     | None => mt_blobs m
     end)
    (match tx_assigned tx with
     | Some (Some a) => <[k := a]> (mt_assigned m)
     | Some None => delete k (mt_assigned m)
     | None => mt_assigned m
     end)
    (mt_history m ++ option_list (tx_history tx)) (mt_devices m) (mt_active m).

(** What a request comes to, in the order the requests took effect: a write, or a
    conflict seen; read by no operation. *)
Inductive Op := OWrite (k : Key) (expected : option string) (sha : option (list Z))
  | OConflict (k : Key) (expected current : option string).

Record AWorld := MkAWorld {
  a_meta : Meta; a_tasks : list Task;
  (** The calls of [sessions.reassign]. *)
  a_told : list Key;
  a_log : list (nat * Op)
}.
Inductive Call := CAssign (r : Assign) | CClear (p : Unassign).
Inductive AEvent := ACall (c : Call) (by_ : string) | AStep (i : nat) (r : Reply) (now : Z).

Section Run.
Context `{SettingsLib} `{CatalogueLib} `{AssignLib}.

(** [assign] and [clear] up to their connection. *)
Definition called (c : Call) (by_ : string) : Task :=
  let refused (k : Key) e := MkTask (MkJob k by_ None None) (AtEnd (Err e)) no_tx false None in
  match c with
  | CAssign r =>
      let k := (as_daemon_id r, as_interface r) in
      match check check_key (as_daemon_id r) (as_interface r) ;; checked_blob (as_content r) (as_provenance r) with
      | Err e => refused k e
      | Ok (sha, name) =>
          MkTask (MkJob k by_ (as_expected r) (Some (sha, name, as_content r, as_provenance r))) AtConnect no_tx false None
      end
  | CClear p => MkTask (MkJob (un_daemon_id p, un_interface p) by_ (un_expected p) None) AtConnect no_tx false None
  end.

(** The name of the lock. *)
Definition lock_of (k : Key) : Z := lock_hash (k.1 +:+ "/" +:+ k.2).
Definition db_failed (t : Task) (e : string) : AssignError :=
  ADatabase (match t_at t with
             | AtConnect => e
             | _ => (if assigns (t_job t) then "assign failed: " else "clear failed: ") +:+ e
             end).
Definition shown (sha : option (list Z)) : option string := hex_encode <$> sha.

(** A statement, where it takes: the task after it, the tables, the calls of
    [reassign] and what is logged. [others] are the other tasks; [None] where the
    statement waits. *)
Definition statement (others : list Task) (now : Z) (m : Meta) (t : Task) : option (Task * option Op) :=
  let j := t_job t in let k := j_key j in let tx := t_tx t in
  match t_at t with
  | AtConnect => Some (at_ t AtBegin, None)
  | AtBegin => Some (MkTask j AtLock (MkTx now None None None) false None, None)
  | AtLock =>
      if existsb (λ o, holding o && (lock_of (j_key (t_job o)) =? lock_of k)) others then None
      else Some (at_ t AtRead, None)
  | AtRead =>
      let current := shown (sha_at m k) in
      Some (match guard (j_expected j) current with
            | Err e => (ends t e, Some (OConflict k (j_expected j) current))
            | Ok _ => (at_ t (if assigns j then AtBlob else AtWrite), None)
            end)
  | AtBlob =>
      match j_what j with
      | None => None
      | Some (sha, _, content, provenance) =>
          if existsb (λ o, bool_decide (inserting o = Some sha)) others then None
          else
            let blob := match mt_blobs m !! sha with
                        | Some _ => None
                        | None => Some (sha, MkBlob content provenance (tx_start tx))
                        end in
            Some (MkTask j AtWrite (MkTx (tx_start tx) blob None None) false None, None)
      end
  | AtWrite =>
      match j_what j with
      | Some (sha, _, _, _) =>
          let changed := bool_decide (sha_at m k ≠ Some sha) in
          let row := if changed then Some (Some (MkAssigned sha (tx_start tx) (j_by j))) else None in
          Some (MkTask j (if changed then AtHistory else AtRow) (MkTx (tx_start tx) (tx_blob tx) row None) changed None, None)
      | None =>
          let cleared := bool_decide (is_Some (sha_at m k)) in
          let row := if cleared then Some None else None in
          Some (MkTask j (if cleared then AtHistory else AtCommit) (MkTx (tx_start tx) (tx_blob tx) row None) cleared None, None)
      end
  | AtHistory =>
      let row := MkHistoryRow k (j_sha j) (tx_start tx) (j_by j) in
      Some (MkTask j (if assigns j then AtRow else AtCommit)
              (MkTx (tx_start tx) (tx_blob tx) (tx_assigned tx) (Some row)) (t_changed t) None, None)
  | AtRow =>
      (** The transaction's own view. *)
      let after := commit k tx m in
      Some (match j_what j with
            | Some (sha, name, _, _) =>
                match mt_assigned after !! k with
                | Some a =>
                    match mt_blobs after !! ag_sha a with
                    | Some b =>
                        (MkTask j AtCommit tx (t_changed t)
                           (Some (MkInfo (blob_sha1_hex sha) name (ag_at a) (ag_by a) (reread (b_provenance b)))), None)
                    | None => (ends t (ADatabase "assign failed: query returned an unexpected number of rows"), None)
                    end
                | None => (ends t (ADatabase "assign failed: query returned an unexpected number of rows"), None)
                end
            | None => (at_ t AtCommit, None)
            end)
  | AtCommit => Some (at_ t AtTell, Some (OWrite k (j_expected j) (j_sha j)))
  | AtTell => Some (at_ t (AtEnd (Ok (t_info t))), None)
  | AtEnd _ => None
  end.

Definition logged (i : nat) (o : option Op) : list (nat * Op) := match o with Some o => [(i, o)] | None => [] end.
Definition assign_step (w : AWorld) (e : AEvent) : option AWorld :=
  match e with
  | ACall c by_ => Some (MkAWorld (a_meta w) (a_tasks w ++ [called c by_]) (a_told w) (a_log w))
  | AStep i r now =>
      t ← a_tasks w !! i;
      let others := delete i (a_tasks w) in
      let put t := <[i := t]> (a_tasks w) in
      '(t', op) ← statement others now (a_meta w) t;
      let done m := Some (MkAWorld m (put t') (a_told w) (a_log w ++ logged i op)) in
      match t_at t, r with
      | AtTell, _ =>
          Some (MkAWorld (a_meta w) (put t') (a_told w ++ if t_changed t then [j_key (t_job t)] else []) (a_log w))
      | AtCommit, RFine => done (commit (j_key (t_job t)) (t_tx t) (a_meta w))
      | AtCommit, RLost e =>
          Some (MkAWorld (commit (j_key (t_job t)) (t_tx t) (a_meta w)) (put (ends t (db_failed t e))) (a_told w)
                  (a_log w ++ logged i op))
      | _, RFine => done (a_meta w)
      | _, (RFails e | RLost e) => Some (MkAWorld (a_meta w) (put (ends t (db_failed t e))) (a_told w) (a_log w))
      end
  end.
Fixpoint assign_steps (w : AWorld) (es : list AEvent) : option AWorld :=
  match es with [] => Some w | e :: es => w' ← assign_step w e; assign_steps w' es end.
Definition assign_start : AWorld := MkAWorld no_meta [] [] [].
End Run.

(** ** One register per interface *)

(** The promise: each interface is a register, written by requests one at a time,
    each only where it holds what the request expects. *)
Section Spec.
Notation Registers := (gmap Key (list Z)).

Definition spec_step (m : Registers) (o : Op) : option Registers :=
  match o with
  | OWrite k expected sha =>
      match guard expected (shown (m !! k)) with Ok _ => Some (partial_alter (λ _, sha) k m) | Err _ => None end
  | OConflict k expected current =>
      match guard expected (shown (m !! k)) with
      | Err _ => if bool_decide (shown (m !! k) = current) then Some m else None
      | Ok _ => None
      end
  end.
Fixpoint spec_run (m : Registers) (os : list Op) : option Registers :=
  match os with [] => Some m | o :: os => m' ← spec_step m o; spec_run m' os end.

(** The writes that change a register, in order. *)
Fixpoint spec_changes (m : Registers) (os : list Op) : list (Key * option (list Z)) :=
  match os with
  | [] => []
  | OWrite k _ sha :: os =>
      (if bool_decide (m !! k = sha) then [] else [(k, sha)]) ++ spec_changes (partial_alter (λ _, sha) k m) os
  | OConflict _ _ _ :: os => spec_changes m os
  end.

Lemma spec_run_snoc os m m1 o : spec_run m os = Some m1 → spec_run m (os ++ [o]) = spec_step m1 o.
Proof.
  revert m. induction os as [|o' os IH]; intros m; cbn [spec_run app].
  - intros [= ->]. by destruct (spec_step m1 o).
  - destruct (spec_step m o') as [m2|]; [|done]. cbn. apply IH.
Qed.
Lemma spec_changes_snoc os m m1 o : spec_run m os = Some m1 → spec_changes m (os ++ [o]) = spec_changes m os ++ spec_changes m1 [o].
Proof.
  revert m. induction os as [|o' os IH]; intros m; cbn [spec_run app]; [by intros [= ->]|].
  destruct (spec_step m o') as [m2|] eqn:Ho; [|done]. cbn. intros Hr. destruct o' as [k e sha|k e c]; cbn in Ho |- *.
  - destruct (guard e _); [|done]. injection Ho as <-. by rewrite (IH _ Hr), app_assoc.
  - destruct (guard e _); [done|]. case_bool_decide; [|done]. injection Ho as <-. by apply IH.
Qed.
End Spec.

(** ** The transactions are the registers *)

Section Linear.
Context `{SettingsLib} `{CatalogueLib} `{AssignLib}.

(** A stored blob is a catalogue the checks passed, under its hash. *)
Definition blob_ok (sha : list Z) (b : Blob) : Prop :=
  ∃ name provenance, checked_blob (b_content b) provenance = Ok (sha, name).
Definition stored_ok (m : Meta) (sha : list Z) : Prop := is_Some (mt_blobs m !! sha).
Definition job_ok (j : Job) : Prop :=
  match j_what j with Some (sha, name, content, provenance) => checked_blob content provenance = Ok (sha, name) | None => True end.
Definition blob_ready (m : Meta) (t : Task) : Prop :=
  match j_sha (t_job t) with
  | Some sha => stored_ok m sha ∨ (fst <$> tx_blob (t_tx t)) = Some sha
  | None => True
  end.
Definition tx_blob_ok (tx : Tx) : Prop := match tx_blob tx with Some (sha, b) => blob_ok sha b | None => True end.
(** The row the write leaves. *)
Definition written (m : Meta) (t : Task) : Prop :=
  let j := t_job t in
  tx_assigned (t_tx t) = (if t_changed t then Some ((λ sha, MkAssigned sha (tx_start (t_tx t)) (j_by j)) <$> j_sha j) else None) ∧
  t_changed t = bool_decide (sha_at m (j_key j) ≠ j_sha j).
Definition recorded (t : Task) : Prop :=
  (λ r, (hr_key r, hr_sha r)) <$> tx_history (t_tx t) = (if t_changed t then Some (j_key (t_job t), j_sha (t_job t)) else None).
Definition guarded_ (m : Meta) (t : Task) : Prop :=
  guard (j_expected (t_job t)) (shown (sha_at m (j_key (t_job t)))) = Ok tt ∧ tx_blob_ok (t_tx t).
Definition write_of (t : Task) : Op := OWrite (j_key (t_job t)) (j_expected (t_job t)) (j_sha (t_job t)).

Definition at_ok (m : Meta) (l : list (nat * Op)) (i : nat) (t : Task) : Prop :=
  match t_at t with
  | AtConnect | AtBegin | AtLock | AtRead => (i ∉ l.*1) ∧ tx_blob (t_tx t) = None
  | AtBlob => (i ∉ l.*1) ∧ guarded_ m t
  | AtWrite => (i ∉ l.*1) ∧ guarded_ m t ∧ blob_ready m t
  | AtHistory => (i ∉ l.*1) ∧ guarded_ m t ∧ blob_ready m t ∧ written m t ∧ t_changed t = true
  | AtRow => (i ∉ l.*1) ∧ guarded_ m t ∧ blob_ready m t ∧ written m t ∧ recorded t
  | AtCommit => (i ∉ l.*1) ∧ guarded_ m t ∧ blob_ready m t ∧ written m t ∧ recorded t
  | AtTell | AtEnd (Ok _) => (i, write_of t) ∈ l
  | AtEnd (Err (AConflict c)) => (i, OConflict (j_key (t_job t)) (j_expected (t_job t)) c) ∈ l
  | AtEnd (Err (ARejected _)) => i ∉ l.*1
  | AtEnd (Err (ADatabase _)) => True
  end.
Definition task_ok (m : Meta) (l : list (nat * Op)) (i : nat) (t : Task) : Prop := job_ok (t_job t) ∧ at_ok m l i t.

Definition apart (ts : list Task) : Prop :=
  ∀ i j ti tj, ts !! i = Some ti → ts !! j = Some tj → i ≠ j → holding ti = true → holding tj = true →
    lock_of (j_key (t_job ti)) ≠ lock_of (j_key (t_job tj)).

Record linear (w : AWorld) : Prop := MkLinear {
  ln_run : spec_run ∅ (snd <$> a_log w) = Some (ag_sha <$> mt_assigned (a_meta w));
  ln_history : (λ r, (hr_key r, hr_sha r)) <$> mt_history (a_meta w) = spec_changes ∅ (snd <$> a_log w);
  ln_blobs : ∀ sha b, mt_blobs (a_meta w) !! sha = Some b → blob_ok sha b;
  ln_stored : ∀ k a, mt_assigned (a_meta w) !! k = Some a → stored_ok (a_meta w) (ag_sha a);
  ln_tasks : ∀ i t, a_tasks w !! i = Some t → task_ok (a_meta w) (a_log w) i t;
  ln_apart : apart (a_tasks w);
  ln_ids : NoDup (a_log w).*1 ∧ Forall (λ i, (i < length (a_tasks w))%nat) (a_log w).*1
}.

(** What another task does leaves a task as it stands. *)
Lemma task_ok_stable m m' l l' i t :
  task_ok m l i t → (holding t = true → sha_at m' (j_key (t_job t)) = sha_at m (j_key (t_job t))) →
  (∀ sha, stored_ok m sha → stored_ok m' sha) → (∀ x, x ∈ l → x ∈ l') → (i ∉ l.*1 → i ∉ l'.*1) → task_ok m' l' i t.
Proof.
  intros [Hj Ht] Hsha Hstore Hin Hout. split; [done|]. unfold at_ok, guarded_, written, holding, blob_ready in *.
  destruct (t_at t) as [| | | | | | | | | |[[]|[]]]; try (rewrite Hsha by done); try (by eauto);
    destruct_and?; split_and?; eauto; destruct (j_sha (t_job t)); intuition eauto.
Qed.

Lemma commit_sha k tx m k' : k' ≠ k → sha_at (commit k tx m) k' = sha_at m k'.
Proof.
  intros Hne. unfold sha_at, commit. cbn. destruct (tx_assigned tx) as [[a|]|]; [|by rewrite lookup_delete_ne|done].
  by rewrite lookup_insert_ne.
Qed.
Lemma commit_stored k tx m sha : stored_ok m sha → stored_ok (commit k tx m) sha.
Proof.
  unfold stored_ok, commit. cbn. destruct (tx_blob tx) as [[s b]|]; [|done]. destruct (mt_blobs m !! s) eqn:Hs; [done|].
  intros Hm. rewrite lookup_insert_is_Some'. by right.
Qed.

(** A commit is the register's write. *)
Lemma commit_registers m t : guarded_ m t → written m t →
  spec_step (ag_sha <$> mt_assigned m) (write_of t) = Some (ag_sha <$> mt_assigned (commit (j_key (t_job t)) (t_tx t) m)).
Proof.
  intros [Hg _] [Hw Hc]. unfold spec_step, write_of. rewrite lookup_fmap. unfold sha_at in Hg, Hc. rewrite Hg. f_equal.
  apply map_eq. intros k. unfold commit. cbn [mt_assigned]. rewrite Hw, lookup_fmap.
  destruct (decide (k = j_key (t_job t))) as [->|Hk].
  - rewrite lookup_partial_alter_eq. destruct (t_changed t).
    + destruct (j_sha (t_job t)) as [sha|]; cbn; [by rewrite lookup_insert_eq|by rewrite lookup_delete_eq].
    + symmetry in Hc. apply bool_decide_eq_false, dec_stable in Hc. done.
  - rewrite lookup_partial_alter_ne, lookup_fmap by done. destruct (t_changed t); [|done].
    destruct (j_sha (t_job t)) as [sha|]; cbn; [by rewrite lookup_insert_ne|by rewrite lookup_delete_ne].
Qed.
Lemma commit_history m t : written m t → recorded t →
  (λ r, (hr_key r, hr_sha r)) <$> option_list (tx_history (t_tx t)) = spec_changes (ag_sha <$> mt_assigned m) [write_of t].
Proof.
  intros [_ Hc] Hr. cbn. rewrite lookup_fmap, app_nil_r. unfold recorded, sha_at in *. rewrite Hc in Hr.
  case_bool_decide as Hd; case_bool_decide as He; try done; destruct (tx_history (t_tx t)); cbn in *; congruence.
Qed.
Lemma commit_blobs m t : (∀ sha b, mt_blobs m !! sha = Some b → blob_ok sha b) → tx_blob_ok (t_tx t) →
  ∀ sha b, mt_blobs (commit (j_key (t_job t)) (t_tx t) m) !! sha = Some b → blob_ok sha b.
Proof.
  intros Hm Ht sha b. unfold commit, tx_blob_ok in *. cbn. destruct (tx_blob (t_tx t)) as [[s x]|]; [|apply Hm].
  destruct (mt_blobs m !! s); [apply Hm|]. destruct (decide (sha = s)) as [->|Hne].
  - rewrite lookup_insert_eq. by intros [= <-].
  - rewrite lookup_insert_ne by done. apply Hm.
Qed.
Lemma blob_ready_commit m t sha : blob_ready m t → j_sha (t_job t) = Some sha → stored_ok (commit (j_key (t_job t)) (t_tx t) m) sha.
Proof.
  unfold blob_ready. intros Hb Hs. rewrite Hs in Hb. destruct Hb as [Hb|Hb]; [by apply commit_stored|].
  unfold stored_ok, commit. cbn. destruct (tx_blob (t_tx t)) as [[s x]|]; [|done]. cbn in Hb. injection Hb as ->.
  destruct (mt_blobs m !! sha) eqn:He; [by rewrite He|]. rewrite lookup_insert_eq. by eexists.
Qed.
Lemma commit_assigned m t : (∀ k a, mt_assigned m !! k = Some a → stored_ok m (ag_sha a)) → blob_ready m t → written m t →
  let m' := commit (j_key (t_job t)) (t_tx t) m in ∀ k a, mt_assigned m' !! k = Some a → stored_ok m' (ag_sha a).
Proof.
  intros Hm Hb [Hw _] m' k a Ha. assert (Hold : mt_assigned m !! k = Some a → stored_ok m' (ag_sha a)) by (intros; eapply commit_stored, Hm; done).
  unfold m' in Ha. unfold commit in Ha. cbn [mt_assigned] in Ha. rewrite Hw in Ha. destruct (t_changed t); [|by apply Hold].
  destruct (j_sha (t_job t)) as [sha|] eqn:Hs; cbn in Ha.
  - destruct (decide (k = j_key (t_job t))) as [->|Hne].
    + rewrite lookup_insert_eq in Ha. injection Ha as <-. by eapply blob_ready_commit.
    + rewrite lookup_insert_ne in Ha by done. auto.
  - apply lookup_delete_Some in Ha as [_ Ha]. auto.
Qed.

(** A step of one task, what it did to the tables and the log being in order. *)
Lemma step_linear w i t t' m' op told :
  linear w → a_tasks w !! i = Some t →
  m' = a_meta w ∨ (holding t = true ∧ (∀ k, k ≠ j_key (t_job t) → sha_at m' k = sha_at (a_meta w) k) ∧
                    ∀ sha, stored_ok (a_meta w) sha → stored_ok m' sha) →
  let l' := a_log w ++ logged i op in
  spec_run ∅ (snd <$> l') = Some (ag_sha <$> mt_assigned m') →
  (λ r, (hr_key r, hr_sha r)) <$> mt_history m' = spec_changes ∅ (snd <$> l') →
  (∀ sha b, mt_blobs m' !! sha = Some b → blob_ok sha b) →
  (∀ k a, mt_assigned m' !! k = Some a → stored_ok m' (ag_sha a)) →
  task_ok m' l' i t' → (is_Some op → i ∉ (a_log w).*1) →
  (holding t' = true → t_job t' = t_job t ∧
     (holding t = true ∨ Forall (λ o, holding o = true → lock_of (j_key (t_job o)) ≠ lock_of (j_key (t_job t))) (delete i (a_tasks w)))) →
  linear (MkAWorld m' (<[i := t']> (a_tasks w)) told l').
Proof.
  intros [Hr Hh Hbl Hst Hts Hap [Hnd Hlt]] Hi Hm l' Hr' Hh' Hbl' Hst' Ht' Hop Hhold.
  assert (Hfree : ∀ j tj, a_tasks w !! j = Some tj → i ≠ j → holding tj = true → holding t' = true →
    lock_of (j_key (t_job t')) ≠ lock_of (j_key (t_job tj))).
  { intros j tj Hj Hne Hhj Ht''. destruct (Hhold Ht'') as [-> [Hheld|Hall]]; [by eapply Hap|].
    rewrite Forall_forall in Hall. intros He. refine (Hall tj _ Hhj (eq_sym He)).
    rewrite list_elem_of_lookup. destruct (decide (j < i)%nat).
    - exists j. by rewrite list_lookup_delete_lt.
    - exists (pred j). rewrite list_lookup_delete_ge by lia. by replace (S (pred j)) with j by lia. }
  constructor; cbn [a_meta a_tasks a_log]; try done.
  - intros j tj Hj. destruct (decide (i = j)) as [<-|Hne].
    { rewrite list_lookup_insert_eq in Hj by by eapply lookup_lt_Some. by injection Hj as <-. }
    rewrite list_lookup_insert_ne in Hj by done. eapply task_ok_stable; [by apply Hts| | | |].
    + intros Hhj. destruct Hm as [->|(Hheld & Hsha & _)]; [done|]. apply Hsha. intros He.
      apply (Hap i j t tj Hi Hj Hne Hheld Hhj). by rewrite He.
    + destruct Hm as [->|(_ & _ & Hs)]; [done|exact Hs].
    + intros x Hx. apply elem_of_app. by left.
    + intros Hj'. unfold l'. rewrite fmap_app, elem_of_app. intros [Hin|Hin]; [done|].
      destruct op; cbn in Hin; [by apply list_elem_of_singleton in Hin|by apply not_elem_of_nil in Hin].
  - intros j1 j2 t1 t2 Hl1 Hl2 Hne. destruct (decide (i = j1)) as [<-|Hn1], (decide (i = j2)) as [<-|Hn2]; [done| | |].
    + rewrite list_lookup_insert_eq in Hl1 by by eapply lookup_lt_Some. injection Hl1 as <-.
      rewrite list_lookup_insert_ne in Hl2 by done. intros Hh1 Hh2. by eapply Hfree.
    + rewrite list_lookup_insert_eq in Hl2 by by eapply lookup_lt_Some. injection Hl2 as <-.
      rewrite list_lookup_insert_ne in Hl1 by done. intros Hh1 Hh2 He. by eapply (Hfree j1 t1).
    + rewrite list_lookup_insert_ne in Hl1, Hl2 by done. by eapply Hap.
  - unfold l'. rewrite fmap_app, length_insert. apply lookup_lt_Some in Hi. destruct op as [o|]; cbn; [|by rewrite app_nil_r].
    split; [|apply Forall_app; split; [done|by repeat constructor]].
    apply NoDup_app. split; [done|]. split; [|apply NoDup_singleton].
    intros j Hj ->%list_elem_of_singleton. by apply Hop.
Qed.

Lemma checked_rejects content provenance e : checked_blob content provenance = Err e → ∃ fs, e = ARejected fs.
Proof.
  unfold checked_blob, rejected. destruct (pv_blob_sha provenance) as [c|]; [destruct (negb _)|]; cbn; try (by intros [= <-]; eauto);
    (destruct (validate_catalogue content); cbn; [|by intros [= <-]; eauto]);
    (destruct (rtu_rules _) as [[nm o]|]; cbn; [|by intros [= <-]; eauto]); (destruct (is_empty_str nm); [by intros [= <-]; eauto|done]).
Qed.
Lemma called_ok c by_ m l i : i ∉ l.*1 → task_ok m l i (called c by_) ∧ holding (called c by_) = false.
Proof.
  intros Hi. destruct c as [r|p]; cbn [called]; [|done].
  destruct (check_key (as_daemon_id r) (as_interface r)) as [[]|e] eqn:Hk; cbn.
  - destruct (checked_blob (as_content r) (as_provenance r)) as [[sha name]|e] eqn:Hb.
    + split; [|done]. split; [exact Hb|done].
    + split; [|done]. destruct (checked_rejects _ _ _ Hb) as [fs ->]. done.
  - split; [|done]. unfold check_key, rejected in Hk. destruct (negb _); [by injection Hk as <-|]. destruct (_ || _); [by injection Hk as <-|done].
Qed.

Lemma call_linear w c by_ : linear w → linear (MkAWorld (a_meta w) (a_tasks w ++ [called c by_]) (a_told w) (a_log w)).
Proof.
  intros [Hr Hh Hbl Hst Hts Hap [Hnd Hlt]].
  assert (Hnew : length (a_tasks w) ∉ (a_log w).*1).
  { rewrite Forall_forall in Hlt. intros Hin. specialize (Hlt _ Hin). cbn in Hlt. lia. }
  destruct (called_ok c by_ (a_meta w) (a_log w) _ Hnew) as [Hok Hfree].
  constructor; cbn [a_meta a_tasks a_log]; try done.
  - intros i t [Ht|[Hi Ht]]%lookup_app_Some; [by apply Hts|]. apply list_lookup_singleton_Some in Ht as [Ht <-].
    by replace i with (length (a_tasks w)) by lia.
  - intros i j ti tj [Hti|[_ Hti]]%lookup_app_Some [Htj|[_ Htj]]%lookup_app_Some Hne;
      try (apply list_lookup_singleton_Some in Hti as [_ <-]); try (apply list_lookup_singleton_Some in Htj as [_ <-]); try congruence.
    by eapply Hap.
  - split; [done|]. eapply Forall_impl; [exact Hlt|]. cbn. intros i Hi. rewrite length_app. lia.
Qed.

(** A statement that changes nothing that is committed. *)
Lemma statement_ok w i t now t' op :
  linear w → a_tasks w !! i = Some t → t_at t ≠ AtCommit → statement (delete i (a_tasks w)) now (a_meta w) t = Some (t', op) →
  t_job t' = t_job t ∧ job_ok (t_job t') ∧ at_ok (a_meta w) (a_log w ++ logged i op) i t' ∧
  (holding t' = true → holding t = true ∨
     Forall (λ o, holding o = true → lock_of (j_key (t_job o)) ≠ lock_of (j_key (t_job t))) (delete i (a_tasks w))) ∧
  match op with
  | None => True
  | Some o => (i ∉ (a_log w).*1) ∧ spec_step (ag_sha <$> mt_assigned (a_meta w)) o = Some (ag_sha <$> mt_assigned (a_meta w)) ∧
              ∃ k e c, o = OConflict k e c
  end.
Proof.
  intros Hw Hi Hne Hs. destruct (ln_tasks w Hw i t Hi) as [Hj Ht]. unfold statement, assigns in Hs. unfold at_ok in Ht.
  destruct t as [j at_ tx ch info]. cbn [t_job t_at t_tx t_changed] in *. destruct at_ as [| | | | | | | | | |a]; try done.
  - injection Hs as <- <-. cbn [t_job at_ logged]. rewrite app_nil_r. split_and!; [done|done|exact Ht|by intros|done].
  - injection Hs as <- <-. cbn [t_job at_ logged]. rewrite app_nil_r. split_and!; [done|done|by destruct Ht|by intros|done].
  - destruct (existsb _ _) eqn:He; [done|]. injection Hs as <- <-. cbn [t_job at_ logged]. rewrite app_nil_r.
    split_and!; [done|done|exact Ht| |done]. intros _. right. apply Forall_forall. intros o Ho Hho Heq.
    rewrite (proj2 (existsb_exists _ _)) in He; [done|]. exists o. split; [by apply list_elem_of_In|].
    rewrite Hho. cbn. by apply Z.eqb_eq.
  - injection Hs as Hs. destruct Ht as [Hout Htx]. destruct (guard _ _) as [[]|e] eqn:Hg; injection Hs as <- <-; cbn [t_job at_ ends logged].
    + rewrite app_nil_r. split_and!; try done; [|by left]. unfold at_ok, at_. cbn [t_at].
      assert (guarded_ (a_meta w) (MkTask j (match j_what j with Some _ => AtBlob | None => AtWrite end) tx ch info)).
      { split; [exact Hg|]. unfold tx_blob_ok. cbn. by rewrite Htx. }
      unfold blob_ready. cbn [t_job t_tx]. unfold j_sha. destruct (j_what j); split_and!; done.
    + split_and!; try done.
      * unfold at_ok. cbn. destruct (j_expected j) as [ex|] eqn:Hex; [|done]. cbn in Hg. destruct (negb _); [|done].
        injection Hg as <-. apply elem_of_app. right. apply list_elem_of_singleton. done.
      * unfold spec_step. rewrite lookup_fmap. unfold sha_at in Hg |- *. rewrite Hg. by rewrite bool_decide_true.
      * eauto.
  - destruct Ht as [Hout [Hg Hb]]. destruct (j_what j) as [[[[sha name] content] prov]|] eqn:Hw'; [|done].
    destruct (existsb _ _); [done|]. injection Hs as <- <-. cbn [t_job logged]. rewrite app_nil_r. split_and!; try done; [|by left].
    unfold at_ok. cbn [t_at]. split; [done|]. split; [split; [exact Hg|]|].
    + unfold tx_blob_ok. cbn. destruct (mt_blobs _ !! sha); [done|]. unfold job_ok in Hj. rewrite Hw' in Hj. by exists name, prov.
    + unfold blob_ready, j_sha. cbn. rewrite Hw'. destruct (mt_blobs _ !! sha) eqn:Hsha; [|by right].
      left. unfold stored_ok. by rewrite Hsha.
  - destruct Ht as (Hout & [Hg Hb] & Hready). unfold job_ok in *. unfold blob_ready, j_sha in Hready. cbn in Hready.
    destruct (j_what j) as [[[[sha name] content] prov]|] eqn:Hw'; injection Hs as <- <-; cbn [t_job logged]; rewrite app_nil_r;
      (split_and!; [done|by rewrite Hw'| |by left|done]); unfold at_ok, blob_ready, written, recorded, j_sha; cbn; rewrite Hw';
      case_bool_decide as Hc; cbn; rewrite ?Hw'; split_and!; try done.
    + symmetry. by apply bool_decide_eq_true, not_eq_None_Some.
    + symmetry. apply bool_decide_eq_false. by rewrite not_eq_None_Some.
  - destruct Ht as (Hout & Hg & Hready & [Hwr Hc] & Hch). injection Hs as <- <-. cbn [t_job logged]. rewrite app_nil_r.
    cbn in Hwr, Hch. rewrite Hch in *. (split_and!; [done|done| |by left|done]).
    unfold at_ok, recorded, written. cbn. destruct (j_what j); split_and!; done.
  - destruct Ht as (Hout & Hg & Hready & Hwr & Hrec). apply (inj Some) in Hs. destruct (j_what j) as [[[[sha name] content] prov]|] eqn:Hw'.
    + destruct (mt_assigned _ !! _) as [a|]; [destruct (mt_blobs _ !! _) as [b|]|]; injection Hs as <- <-; cbn [t_job at_ ends logged];
        rewrite app_nil_r; (split_and!; [done|done| |by left|done]); [|done..]. unfold at_ok. cbn. by split_and!.
    + injection Hs as <- <-. cbn [t_job at_ logged]. rewrite app_nil_r. (split_and!; [done|done| |by left|done]). unfold at_ok. cbn. by split_and!.
  - injection Hs as <- <-. cbn [t_job at_ logged]. rewrite app_nil_r. split_and!; [done|done|exact Ht|by intros|done].
Qed.

Lemma assign_step_linear w e w' : linear w → assign_step w e = Some w' → linear w'.
Proof.
  intros Hw. destruct e as [c by_|i r now]; cbn [assign_step]; [intros [= <-]; by apply call_linear|].
  destruct (a_tasks w !! i) as [t|] eqn:Hi; [|done]. cbn. destruct (ln_tasks w Hw i t Hi) as [Hj Ht].
  destruct (statement _ now (a_meta w) t) as [[t' op]|] eqn:Hs; [|done]. cbn.
  assert (Hquiet : ∀ t'' told, t_job t'' = t_job t → task_ok (a_meta w) (a_log w) i t'' →
    (holding t'' = true → holding t = true ∨
       Forall (λ o, holding o = true → lock_of (j_key (t_job o)) ≠ lock_of (j_key (t_job t))) (delete i (a_tasks w))) →
    linear (MkAWorld (a_meta w) (<[i := t'']> (a_tasks w)) told (a_log w))).
  { intros t'' told Hjob Hok Hhold. pose proof Hw as [Hr Hh Hbl Hst Hts Hap Hid].
    rewrite <- (app_nil_r (a_log w)). change [] with (logged i None).
    apply (step_linear w i t); cbn [logged]; rewrite ?app_nil_r; try done; [by left|].
    intros Hh'. split; [done|]. by apply Hhold. }
  assert (Hfail : ∀ e told, linear (MkAWorld (a_meta w) (<[i := ends t (db_failed t e)]> (a_tasks w)) told (a_log w))).
  { intros e told. apply Hquiet; [done|split; [done|]|by intros]. unfold at_ok, ends, db_failed. cbn. by destruct (t_at t). }
  assert (t_at t = AtCommit ∨ t_at t ≠ AtCommit) as [Hat|Hat] by (destruct (t_at t); by auto).
  - unfold statement in Hs. rewrite Hat in Hs |- *. injection Hs as <- <-. unfold at_ok in Ht. rewrite Hat in Ht.
    destruct Ht as (Hout & Hg & Hready & Hwr & Hrec). pose proof Hg as [_ Hb].
    assert (Hcommit : ∀ t'' told, t_job t'' = t_job t → holding t'' = false →
      (at_ok (commit (j_key (t_job t)) (t_tx t) (a_meta w)) (a_log w ++ [(i, write_of t)]) i t'') →
      linear (MkAWorld (commit (j_key (t_job t)) (t_tx t) (a_meta w)) (<[i := t'']> (a_tasks w)) told (a_log w ++ logged i (Some (write_of t))))).
    { intros t'' told Hjob Hno Hok. apply (step_linear w i t); try done.
      - right. split; [unfold holding; by rewrite Hat|]. split; [intros k; apply commit_sha|intros sha; apply commit_stored].
      - cbn [logged]. rewrite fmap_app. cbn. rewrite (spec_run_snoc _ _ _ _ (ln_run w Hw)). by apply commit_registers.
      - cbn [logged]. rewrite fmap_app. cbn [fmap list_fmap snd]. rewrite (spec_changes_snoc _ _ _ _ (ln_run w Hw)), <- (ln_history w Hw).
        unfold commit. cbn [mt_history]. by rewrite fmap_app, (commit_history (a_meta w) t Hwr Hrec).
      - apply commit_blobs; [apply (ln_blobs w Hw)|done].
      - apply commit_assigned; [apply (ln_stored w Hw)|done..].
      - split; [by rewrite Hjob|exact Hok].
      - congruence. }
    assert (Hin : (i, write_of t) ∈ a_log w ++ [(i, write_of t)]) by (apply elem_of_app; right; by apply list_elem_of_singleton).
    destruct r as [|e|e]; intros [= <-]; [by apply Hcommit|apply Hfail|].
    apply Hcommit; [done|done|]. exact I.
  - destruct (statement_ok w i t now t' op Hw Hi Hat Hs) as (Hjob & Hj' & Hok & Hhold & Hop).
    assert (Hdone : ∀ told, linear (MkAWorld (a_meta w) (<[i := t']> (a_tasks w)) told (a_log w ++ logged i op))).
    { intros told. destruct op as [o|]; [|cbn; rewrite app_nil_r in *; apply Hquiet; auto; by split].
      destruct Hop as (Hout & Hstep & k & ex & c & ->). pose proof Hw as [Hr Hh Hbl Hst Hts Hap Hid].
      apply (step_linear w i t); try done; [by left| | |].
      - cbn [logged]. rewrite fmap_app. cbn. by rewrite (spec_run_snoc _ _ _ _ Hr).
      - cbn [logged]. rewrite fmap_app. cbn [fmap list_fmap snd]. by rewrite (spec_changes_snoc _ _ _ _ Hr), app_nil_r.
      - intros Hh'. split; [done|]. by apply Hhold. }
    destruct (t_at t) eqn:Hat'; try done; destruct r as [|e|e]; intros [= <-]; try apply Hdone; try apply Hfail.
    all: unfold statement in Hs; rewrite Hat' in Hs; injection Hs as <- <-; specialize (Hdone (a_told w ++ if t_changed t then [j_key (t_job t)] else []));
      cbn [logged] in Hdone; rewrite app_nil_r in Hdone; exact Hdone.
Qed.

Lemma start_linear : linear assign_start.
Proof. constructor; cbn; try done. split; [apply NoDup_nil_2|done]. Qed.
Lemma assign_steps_linear es w w' : linear w → assign_steps w es = Some w' → linear w'.
Proof.
  revert w. induction es as [|e es IH]; intros w Hw; cbn; [by intros [= <-]|].
  destruct (assign_step w e) as [w1|] eqn:He; [|done]. cbn. apply IH. by eapply assign_step_linear.
Qed.

(** C9: whatever requests run into each other, and whatever fails, the
    assignments are as if each interface were a register that takes one request at
    a time: every request answered well wrote it where it held what the request
    expected, every conflict names what it held then, the history is the writes
    that changed it, in order, and what is assigned is stored whole, as a catalogue
    a daemon would take. *)
Theorem assignments_linearise (es : list AEvent) (w : AWorld) :
  assign_steps assign_start es = Some w →
  spec_run ∅ (snd <$> a_log w) = Some (ag_sha <$> mt_assigned (a_meta w)) ∧
  (λ r, (hr_key r, hr_sha r)) <$> mt_history (a_meta w) = spec_changes ∅ (snd <$> a_log w) ∧
  (∀ k a, mt_assigned (a_meta w) !! k = Some a → ∃ b name provenance,
     mt_blobs (a_meta w) !! ag_sha a = Some b ∧ checked_blob (b_content b) provenance = Ok (ag_sha a, name)) ∧
  NoDup (a_log w).*1 ∧
  ∀ i t a, a_tasks w !! i = Some t → t_at t = AtEnd a →
    match a with
    | Ok _ => (i, OWrite (j_key (t_job t)) (j_expected (t_job t)) (j_sha (t_job t))) ∈ a_log w
    | Err (AConflict current) => (i, OConflict (j_key (t_job t)) (j_expected (t_job t)) current) ∈ a_log w
    | Err (ARejected _) => i ∉ (a_log w).*1
    | Err (ADatabase _) => True
    end.
Proof.
  intros Hs. destruct (assign_steps_linear es _ _ start_linear Hs) as [Hr Hh Hbl Hst Hts _ [Hnd _]]. split_and!; try done.
  - intros k a Ha. destruct (Hst k a Ha) as [b Hb]. destruct (Hbl _ _ Hb) as (name & provenance & Hc). by exists b, name, provenance.
  - intros i t a Hi Ha. destruct (Hts i t Hi) as [_ Hok]. unfold at_ok in Hok. rewrite Ha in Hok. by destruct a as [|[]].
Qed.
End Linear.

(** ** What sessions read and report *)

(** [ON CONFLICT DO UPDATE] refuses two rows of one key. *)
Definition SECOND_TIME : string := "ON CONFLICT DO UPDATE command cannot affect row a second time".

Section Reads.
Context `{CatalogueLib} `{AssignLib}.

Definition record_hello (daemon_id database : string) (devices : list Device) (now : Z) (m : Meta) : result string Meta :=
  if negb (bool_decide (NoDup (d_name <$> devices))) then
    Err ("recording " +:+ daemon_id +:+ "'s devices failed: " +:+ SECOND_TIME)
  else
    Ok (MkMeta (mt_blobs m) (mt_assigned m) (mt_history m)
          (foldl (λ ds d, <[(daemon_id, d_name d) := MkDeviceRow (d_bus d) database now]> ds) (mt_devices m) devices) (mt_active m)).

Definition through_device_map (assigned : list (string * list Z)) (devices : list Device) : list Assignment :=
  omap (λ d, row ← find (λ x, str_eqb x.1 (d_name d)) assigned;
             if (length row.2 =? 20)%nat then Some (MkAssignment (d_bus d) row.2) else None) devices.
(** The rows of the query. *)
Definition assigned_rows (daemon_id : string) (interfaces : list string) (m : Meta) : list (string * list Z) :=
  omap (λ '(k, a), if str_eqb k.1 daemon_id && existsb (str_eqb k.2) interfaces then Some (k.2, ag_sha a) else None)
    (map_to_list (mt_assigned m)).
Definition assignments_for (daemon_id : string) (devices : list Device) (m : Meta) : list Assignment :=
  through_device_map (assigned_rows daemon_id (d_name <$> devices) m) devices.

(** The protocol's reasons, those this build does not name included. *)
Inductive Reason := Named (r : Refusal) | OtherReason.
Definition reason_str (r : Reason) : string :=
  match r with
  | Named HashMismatch => "hash_mismatch" | Named DidNotParse => "did_not_parse" | Named FetchFailed => "fetch_failed"
  | OtherReason => "other"
  end.
Record StatusEntry := MkStatusEntry { se_bus : Z; se_active : ActiveCatalogue; se_refused : option (list Z * Reason) }.
Definition active_rows (devices : list Device) (status : list StatusEntry) (now : Z) : list (string * ActiveRow) :=
  omap (λ e, device ← find (λ d, d_bus d =? se_bus e) devices;
    let '(source, sha) := match se_active e with
                          | ActiveNone => ("none", None) | Local_ sha => ("local", Some sha) | Assigned_ sha => ("assigned", Some sha)
                          end in
    Some (d_name device, MkActiveRow source sha ((λ r, (r.1, reason_str r.2)) <$> se_refused e) now)) status.

(** [since] moves only when the catalogue itself changes. *)
Definition upsert_active (daemon_id : string) (active : gmap (string * string) ActiveRow) (row : string * ActiveRow) : gmap (string * string) ActiveRow :=
  let '(interface, r) := row in
  let since := match active !! (daemon_id, interface) with
               | Some old => if bool_decide (ac_source old = ac_source r ∧ ac_sha old = ac_sha r) then ac_since old else ac_since r
               | None => ac_since r
               end in
  <[(daemon_id, interface) := MkActiveRow (ac_source r) (ac_sha r) (ac_refused r) since]> active.
Definition record_status (daemon_id : string) (devices : list Device) (status : list StatusEntry) (now : Z) (m : Meta) : result string Meta :=
  let rows := active_rows devices status now in
  if negb (bool_decide (NoDup rows.*1)) then Err ("recording " +:+ daemon_id +:+ "'s catalogues failed: " +:+ SECOND_TIME)
  else
    let active := foldl (upsert_active daemon_id) (mt_active m) rows in
    Ok (MkMeta (mt_blobs m) (mt_assigned m) (mt_history m) (mt_devices m)
          (filter (λ kv, ¬ (kv.1.1 = daemon_id ∧ kv.1.2 ∈ (d_name <$> devices) ∧ kv.1.2 ∉ rows.*1)) active)).

Definition blob (sha : list Z) (m : Meta) : option string := b_content <$> mt_blobs m !! sha.
Record StoredCatalogue := MkStored { st_blob_sha : string; st_content : string; st_provenance : Provenance; st_created_at_us : Z }.
Definition stored (sha : list Z) (m : Meta) : option StoredCatalogue :=
  (λ b, MkStored (blob_sha1_hex sha) (b_content b) (reread (b_provenance b)) (b_created b)) <$> mt_blobs m !! sha.

(** A row of [daemons]' query. *)
Record DaemonRow := MkDaemonRow {
  dw_daemon_id : string; dw_interface : string; dw_bus : option Z; dw_database : option string; dw_last_seen : option Z;
  dw_assigned : option (list Z); dw_assigned_at : option Z; dw_assigned_by : option string;
  dw_content : option string; dw_provenance : option Provenance;
  dw_source : option string; dw_active : option (list Z); dw_since : option Z; dw_active_content : option string;
  dw_refused : option (list Z); dw_refusal : option string
}.
Definition catalogue_name (content : string) : option string :=
  match rtu_rules (bytes_of_string content) with Ok r => Some r.1 | Err _ => None end.
Definition no_provenance : Provenance := MkProvenance None EmptyString.
Record DaemonDevice := MkDaemonDevice {
  dd_interface : string; dd_bus : option Z; dd_database : option string; dd_last_seen_us : option Z;
  (** SHA, name, when, by whom, provenance. *)
  dd_assignment : option (string * option string * Z * option string * Provenance);
  (** Source, SHA, name, since, refused. *)
  dd_active : option (string * option string * option string * Z * option (string * string))
}.
Definition daemon_device (r : DaemonRow) : DaemonDevice :=
  let assignment := (λ sha, (hex_encode sha, dw_content r ≫= catalogue_name, default 0 (dw_assigned_at r), dw_assigned_by r,
                             default no_provenance (dw_provenance r))) <$> dw_assigned r in
  let refused := match dw_refused r, dw_refusal r with Some sha, Some reason => Some (hex_encode sha, reason) | _, _ => None end in
  let active := (λ source, (source, hex_encode <$> dw_active r, dw_active_content r ≫= catalogue_name, default 0 (dw_since r), refused))
                  <$> dw_source r in
  MkDaemonDevice (dw_interface r) (b ← dw_bus r; if (0 <=? b) && (b <? 256) then Some b else None) (dw_database r) (dw_last_seen r)
    assignment active.
(** The rows come by daemon: each joins the last one's devices, or begins another. *)
Definition add_device (ds : list (string * list DaemonDevice)) (r : DaemonRow) : list (string * list DaemonDevice) :=
  match rev ds with
  | (id, devices) :: before =>
      if str_eqb id (dw_daemon_id r) then rev before ++ [(id, devices ++ [daemon_device r])]
      else ds ++ [(dw_daemon_id r, [daemon_device r])]
  | [] => [(dw_daemon_id r, [daemon_device r])]
  end.
Definition daemons (rows : list DaemonRow) : list (string * list DaemonDevice) := foldl add_device [] rows.

(** A session is sent what is assigned to each interface it names, on the bus it
    names it on. *)
Lemma assigned_rows_find daemon_id interfaces m name : name ∈ interfaces →
  find (λ x, str_eqb x.1 name) (assigned_rows daemon_id interfaces m) = (λ sha, (name, sha)) <$> sha_at m (daemon_id, name).
Proof.
  intros Hn. unfold assigned_rows, sha_at. rewrite <- (list_to_map_to_list (mt_assigned m)) at 2.
  induction (map_to_list (mt_assigned m)) as [|[k a] l IH]; [done|]. cbn [omap list_omap list_to_map foldr fst snd].
  destruct (decide (k = (daemon_id, name))) as [->|Hk].
  - cbn [fst snd]. rewrite str_eqb_refl, lookup_insert_eq. cbn [andb].
    rewrite (proj2 (existsb_exists _ _)) by (exists name; split; [by apply list_elem_of_In|apply str_eqb_refl]). cbn. by rewrite str_eqb_refl.
  - rewrite lookup_insert_ne by done. destruct (str_eqb k.1 daemon_id && existsb (str_eqb k.2) interfaces) eqn:Hb; [|exact IH].
    cbn [find fst]. assert (str_eqb k.2 name = false) as ->; [|exact IH]. apply str_eqb_neq. intros He. apply Hk.
    apply andb_true_iff in Hb as [Hb%str_eqb_eq _]. destruct k. cbn in *. by subst.
Qed.
Lemma assignments_for_exact daemon_id devices m :
  assignments_for daemon_id devices m =
  omap (λ d, sha ← sha_at m (daemon_id, d_name d); if (length sha =? 20)%nat then Some (MkAssignment (d_bus d) sha) else None) devices.
Proof.
  unfold assignments_for, through_device_map.
  assert (Hall : ∀ ds, ds ⊆ devices → omap (λ d, row ← find (λ x, str_eqb x.1 (d_name d)) (assigned_rows daemon_id (d_name <$> devices) m);
      if (length row.2 =? 20)%nat then Some (MkAssignment (d_bus d) row.2) else None) ds =
    omap (λ d, sha ← sha_at m (daemon_id, d_name d); if (length sha =? 20)%nat then Some (MkAssignment (d_bus d) sha) else None) ds); [|by apply Hall].
  intros ds. induction ds as [|d ds IH]; [done|]. intros Hsub. cbn [omap list_omap].
  rewrite (assigned_rows_find daemon_id (d_name <$> devices) m (d_name d)) by (apply list_elem_of_fmap_2, Hsub; by left).
  rewrite IH by (intros x Hx; apply Hsub; by right). by destruct (sha_at m (daemon_id, d_name d)).
Qed.

(** The list shows every row, under its daemon. *)
Lemma daemons_rows rows :
  (daemons rows ≫= λ d, (λ dev, (d.1, dev)) <$> d.2) = (λ r, (dw_daemon_id r, daemon_device r)) <$> rows.
Proof.
  induction rows as [|r rows IH] using rev_ind; [done|]. unfold daemons in *. rewrite foldl_app, fmap_app, <- IH. cbn [foldl].
  generalize (foldl add_device [] rows). intros ds. unfold add_device. destruct ds as [|d ds _] using rev_ind; [done|]. rewrite rev_app_distr. cbn [rev app]. destruct d as [id devices].
  destruct (str_eqb id (dw_daemon_id r)) eqn:Hid; rewrite ?rev_involutive, !bind_app; cbn; rewrite ?app_nil_r; [|done].
  apply str_eqb_eq in Hid as ->. by rewrite fmap_app, app_assoc.
Qed.
End Reads.

(** ** A race *)

Module Registry.
Import (hints) Catalogues.Bench SettingsProofs.Site.

#[export] Instance assign_lib : AssignLib := {
  validate_catalogue := λ c, if str_eqb c "?" then [("meta", "unreadable")] else [];
  lock_hash := λ s, Z.of_nat (String.length s);
  reread := λ p, p
}.

Definition putting (content : string) (expected : option string) : Call :=
  CAssign (MkAssign "bench" "can0" content (MkProvenance None "{}") expected).
Definition steps (i n : nat) : list AEvent := repeat (AStep i RFine 5) n.
(** Two requests that expect nothing assigned: the second waits for the lock, then
    finds the first's; a third clears it and its commit's reply is lost. *)
Definition race : list AEvent :=
  [ACall (putting "a" (Some "")) "jo"; ACall (putting "b" (Some "")) "al"; ACall (CClear (MkUnassign "bench" "can0" None)) "jo";
   ACall (putting "?" None) "jo"] ++
  steps 1 2 ++ steps 0 10 ++ steps 1 2 ++ steps 2 5 ++ [AStep 2 RFine 6; AStep 2 (RLost "connection closed") 6].

Lemma assignments_linearise_witness :
  ∃ w, assign_steps assign_start race = Some w ∧
    mt_assigned (a_meta w) = ∅ ∧ hr_sha <$> mt_history (a_meta w) = [Some (blob_sha1 (bytes_of_string "a")); None] ∧
    (∃ current, (1%nat, OConflict ("bench", "can0") (Some "") current) ∈ a_log w) ∧ a_told w = [("bench", "can0")].
Proof.
  destruct (assign_steps assign_start race) as [w|] eqn:Hw; [|by vm_compute in Hw].
  exists w. split; [done|]. destruct (assignments_linearise race w Hw) as (_ & _ & _ & _ & Hall).
  destruct (a_tasks w !! 1%nat) as [t|] eqn:Ht; [|exfalso; vm_compute in Hw; injection Hw as <-; by vm_compute in Ht].
  destruct (t_at t) as [| | | | | | | | | |[|[f|c|d]]] eqn:Ha;
    try (exfalso; vm_compute in Hw; injection Hw as <-; vm_compute in Ht; injection Ht as <-; by vm_compute in Ha).
  specialize (Hall 1%nat t _ Ht Ha). cbn in Hall.
  vm_compute in Hw. injection Hw as <-. vm_compute in Ht. injection Ht as <-. split_and!; try by vm_compute.
  exists c. exact Hall.
Defined.
End Registry.
