(* ===== verification/ServeLoop.v ===== *)
(** * Serving an ingest connection ([ingest/mod.rs]: [serve], [handle_client],
      [Gateway], [Connection])

    The loop of one connection: it reads, feeds the protocol's [ServerSession],
    answers each action in turn through the trait [Gateway], and ends. The trait
    is the class [GatewayOps], against whose laws the loop is proved not to
    panic or spin; [Connection], which is the gateway itself, implements it, on
    the state of [Gateway] that it shares with the other connections. What those
    do meanwhile is any sequence of [Gateway]'s events between two of this one's
    steps, and a whole connection is shown to be such a sequence too. *)

From S2P Require Import Prelude F64 Cidr Catalogues Settings Wire Forward Listener Rows Store Keys Gateway Assignments ForwardProofs SettingsProofs Environment.
Local Open Scope Z_scope.

(** ** [ServerSession], as the gateway uses it *)

Definition Report : Type := list StatusEntry.

Inductive GClose := CloseRefused | CloseReassigned | CloseFor (reason : string).

Section Actions.
Context (Batch : Type).
(** [Action]; a [HELLO] has its token as text here. *)
Inductive GAction :=
  | GReply (bytes : list Z)
  | GHelloIn (hello : Forward.Hello)
  | GHelloRefused (status : Z)
  | GBatchIn (batch : Batch) (time_relative : bool)
  | GNack (seq status : Z)
  | GCatalogueGet (sha : list Z)
  | GCatalogueStatus (status : Report)
  | GCloseIn (why : GClose).
End Actions.
Arguments GReply {_}. Arguments GHelloIn {_}. Arguments GHelloRefused {_}. Arguments GBatchIn {_}.
Arguments GNack {_}. Arguments GCatalogueGet {_}. Arguments GCatalogueStatus {_}. Arguments GCloseIn {_}.

Class GatewaySession `{IngestLib} `{SessionLib} := {
  GMachine : Type;
  g_new : ServerConfig → GMachine;
  g_receive : list Z → GMachine → GMachine;
  close_reassigned : GMachine → GMachine;
  g_poll : GMachine → option (GAction Batch * GMachine);
  g_answer_hello : Z → Z → list Assignment → GMachine → result string (list Z) * GMachine;
  g_ack : Z → Z → Z → GMachine → list Z * GMachine;
  g_answer_catalogue : result Z string → GMachine → list Z * GMachine
}.

(** What the loop relies on: polling uses up what was received and an answer
    adds nothing; a [HELLO] names at most 255 devices, and its answer has room
    for as many assignments; a batch is handed over after a [HELLO] answered
    [HELLO_OK], and the protocol refuses one with another status; the statuses
    of a refusal are not [HELLO_OK]. *)
Class GatewaySessionLaws `{GatewaySession} := {
  g_pending : GMachine → nat;
  greeted : GMachine → bool;
  g_new_greeted : ∀ c, greeted (g_new c) = false;
  g_receive_greeted : ∀ b m, greeted (g_receive b m) = greeted m;
  close_greeted : ∀ m, greeted (close_reassigned m) = greeted m;
  g_poll_uses : ∀ m a m', g_poll m = Some (a, m') → (g_pending m' < g_pending m)%nat ∧ greeted m' = greeted m;
  g_poll_hello : ∀ m h m', g_poll m = Some (GHelloIn h, m') → (length (h_devices h) ≤ 255)%nat;
  g_poll_refused : ∀ m st m', g_poll m = Some (GHelloRefused st, m') → st ≠ HELLO_OK;
  g_poll_batch : ∀ m b rel m', g_poll m = Some (GBatchIn b rel, m') → greeted m = true;
  g_hello_answered : ∀ st now l m, (length l ≤ 255)%nat →
    ∃ bytes m', g_answer_hello st now l m = (Ok bytes, m') ∧ (g_pending m' ≤ g_pending m)%nat ∧
      (greeted m' = true → greeted m = true ∨ st = HELLO_OK);
  g_ack_kept : ∀ seq st pct m, let m' := (g_ack seq st pct m).2 in
    (g_pending m' ≤ g_pending m)%nat ∧ greeted m' = greeted m;
  g_catalogue_kept : ∀ r m, let m' := (g_answer_catalogue r m).2 in
    (g_pending m' ≤ g_pending m)%nat ∧ greeted m' = greeted m;
  hello_statuses : HELLO_BAD_AUTH ≠ HELLO_OK ∧ HELLO_BAD_DATABASE ≠ HELLO_OK ∧ HELLO_UNAVAILABLE ≠ HELLO_OK
}.

(** ** The trait [Gateway] *)

Section Serve.
Context `{GatewaySession}.

Class GatewayOps (G : Type) := {
  op_hello : Forward.Hello → G → Z * list Assignment * G;
  (** [None] is its [expect]. *)
  op_batch : Z → Batch → bool → G → option Z * G;
  op_blob : list Z → G → result Z string * G;
  op_status : Report → G → G
}.

(** Its laws: a [HELLO] it accepts makes it ready, it is never unready after, it
    gives at most one assignment for a device, and when ready it takes a batch. *)
Class GatewayOpsLaws (G : Type) `{GatewayOps G} (ready : G → Prop) : Prop := {
  op_hello_ready : ∀ h g st l g', op_hello h g = (st, l, g') →
    (length l ≤ length (h_devices h))%nat ∧ (ready g → ready g') ∧ (st = HELLO_OK → ready g');
  op_batch_ready : ∀ now b rel g, ready g → ∃ st g', op_batch now b rel g = (Some st, g') ∧ ready g';
  op_blob_ready : ∀ sha g, ready g → ready (op_blob sha g).2;
  op_status_ready : ∀ s g, ready g → ready (op_status s g)
}.

(** ** [serve] *)

Section Loop.
Context {G : Type} `{!GatewayOps G}.

Inductive GNext := GSend (bytes : list Z) | GContinue | GReturn (r : result string ()) | GPanic.

Definition hello_reply (st now : Z) (l : list Assignment) (m : GMachine) : GNext * GMachine :=
  let '(r, m) := g_answer_hello st now l m in (match r with Ok bytes => GSend bytes | Err _ => GPanic end, m).

Definition g_act (now : Z) (a : GAction Batch) (m : GMachine) (g : G) : GNext * GMachine * G :=
  match a with
  | GReply bytes => (GSend bytes, m, g)
  | GHelloIn h =>
      let '(st, l, g) := op_hello h g in
      (hello_reply st now l m, g)
  | GHelloRefused st => (hello_reply st now [] m, g)
  | GBatchIn b rel =>
      match op_batch now b rel g with
      | (Some st, g) => let '(bytes, m) := g_ack (batch_seq b) st 0 m in (GSend bytes, m, g)
      | (None, g) => (GPanic, m, g)
      end
  | GNack seq st => let '(bytes, m) := g_ack seq st 0 m in (GSend bytes, m, g)
  | GCatalogueGet sha =>
      let '(r, g) := op_blob sha g in
      let '(bytes, m) := g_answer_catalogue r m in (GSend bytes, m, g)
  | GCatalogueStatus s => (GContinue, m, op_status s g)
  | GCloseIn (CloseRefused | CloseReassigned) => (GReturn (Ok tt), m, g)
  | GCloseIn (CloseFor reason) => (GReturn (Err ("closed: " +:+ reason)), m, g)
  end.

(** The connection: the machine, the gateway, what was written; and how it
    stands, [GStuck] being a polling loop out of fuel. *)
Record Conn := MkConn { c_machine : GMachine; c_gateway : G; c_written : list (list Z) }.
Inductive GStanding := GReading | GReturned (r : result string ()) | GPanicked | GStuck.

(** [while let Some(action) = machine.poll()]; [writes] says how the next writes
    go. *)
Fixpoint g_poll_loop (fuel : nat) (now : Z) (writes : list (option string)) (c : Conn)
    : GStanding * list (option string) * Conn :=
  match g_poll (c_machine c) with
  | None => (GReading, writes, c)
  | Some (a, m) =>
      match fuel with
      | O => (GStuck, writes, c)
      | S fuel =>
          let '(next, m, g) := g_act now a m (c_gateway c) in
          let c := MkConn m g (c_written c) in
          match next with
          | GSend bytes =>
              match writes with
              | Some e :: ws => (GReturned (Err ("write: " +:+ e)), ws, c)
              | _ => g_poll_loop fuel now (tail writes) (MkConn m g (c_written c ++ [bytes]))
              end
          | GContinue => g_poll_loop fuel now writes c
          | GReturn r => (GReturned r, writes, c)
          | GPanic => (GPanicked, writes, c)
          end
      end
  end.

(** What the [select!] wakes for. *)
Inductive Wake := WRead (bytes : list Z) | WReadFailed (e : string) | WIdle | WReassigned.

Definition waken (x : Wake) (m : GMachine) : result string (option GMachine) :=
  match x with
  | WRead [] => Ok None
  | WRead bytes => Ok (Some (g_receive bytes m))
  | WReadFailed e => Err ("read: " +:+ e)
  | WIdle => Err "idle timeout"
  | WReassigned => Ok (Some (close_reassigned m))
  end.
End Loop.
End Serve.

Section Served.
Context `{GatewaySessionLaws} {G : Type} `{!GatewayOps G}.

(** The loop: every wake is a time and what woke it. *)
Fixpoint g_serve (wakes : list (Z * Wake)) (writes : list (option string)) (c : Conn (G := G)) : GStanding * Conn (G := G) :=
  match wakes with
  | [] => (GReading, c)
  | (now, x) :: wakes =>
      match waken x (c_machine c) with
      | Err e => (GReturned (Err e), c)
      | Ok None => (GReturned (Ok tt), c)
      | Ok (Some m) =>
          match g_poll_loop (g_pending m) now writes (MkConn m (c_gateway c) (c_written c)) with
          | (GReading, writes, c) => g_serve wakes writes c
          | (s, _, c) => (s, c)
          end
      end
  end.

Context (ready : G → Prop) `{!GatewayOpsLaws G ready}.

Definition conn_ok (c : Conn (G := G)) : Prop := greeted (c_machine c) = true → ready (c_gateway c).

Lemma hello_reply_ok st now l m :
  (length l ≤ 255)%nat → ∃ bytes m', hello_reply st now l m = (GSend bytes, m') ∧ (g_pending m' ≤ g_pending m)%nat ∧
    (greeted m' = true → greeted m = true ∨ st = HELLO_OK).
Proof.
  intros Hl. unfold hello_reply. destruct (g_hello_answered st now l m Hl) as (bytes & m' & -> & Hp & Hg). eauto.
Qed.

Lemma g_act_ok now a m0 m g next m' g' :
  g_poll m0 = Some (a, m) → (greeted m = true → ready g) → g_act now a m g = (next, m', g') →
  next ≠ GPanic ∧ (g_pending m' ≤ g_pending m)%nat ∧ (greeted m' = true → ready g').
Proof.
  intros Hpoll Hr Ha. destruct (g_poll_uses _ _ _ Hpoll) as [_ Hgr].
  destruct a as [bytes|h|st|b rel|seq st|sha|s|[| |reason]]; cbn [g_act] in Ha; try by injection Ha as <- <- <-.
  - destruct (op_hello h g) as [[st l] g1] eqn:Ho. destruct (op_hello_ready h g st l g1 Ho) as (Hl & Hkeep & Hok).
    pose proof (g_poll_hello _ _ _ Hpoll).
    destruct (hello_reply_ok st now l m ltac:(lia)) as (bytes & m1 & Hb & Hp & Hg). rewrite Hb in Ha. injection Ha as <- <- <-.
    split_and!; try done. intros [Hx|Hx]%Hg; auto.
  - destruct (hello_reply_ok st now [] m ltac:(cbn; lia)) as (bytes & m1 & Hb & Hp & Hg). rewrite Hb in Ha.
    injection Ha as <- <- <-. split_and!; try done. intros [Hx|Hx]%Hg; [auto|]. by destruct (g_poll_refused _ _ _ Hpoll).
  - apply g_poll_batch in Hpoll. destruct (op_batch_ready now b rel g) as (st & g1 & Hb & Hg1); [apply Hr; congruence|].
    rewrite Hb in Ha. destruct (g_ack_kept (batch_seq b) st 0 m) as [Hp Hg].
    destruct (g_ack _ _ _ _) as [bytes m1]. injection Ha as <- <- <-. done.
  - destruct (g_ack_kept seq st 0 m) as [Hp Hg]. destruct (g_ack _ _ _ _) as [bytes m1]. injection Ha as <- <- <-.
    cbn in *. rewrite Hg. done.
  - pose proof (op_blob_ready sha g) as Hb. destruct (op_blob sha g) as [r g1].
    destruct (g_catalogue_kept r m) as [Hp Hg]. destruct (g_answer_catalogue _ _) as [bytes m1]. injection Ha as <- <- <-.
    cbn in *. rewrite Hg. auto.
  - injection Ha as <- <- <-. split_and!; try done. intros Hx. by apply op_status_ready, Hr.
Qed.

Lemma g_poll_loop_ok now fuel : ∀ writes c s ws c',
  conn_ok c → (g_pending (c_machine c) ≤ fuel)%nat → g_poll_loop fuel now writes c = (s, ws, c') →
  s ≠ GPanicked ∧ s ≠ GStuck ∧ conn_ok c'.
Proof.
  induction fuel as [|fuel IH]; intros writes c s ws c' Hok Hf Hp; cbn [g_poll_loop] in Hp;
    (destruct (g_poll (c_machine c)) as [[a m]|] eqn:Hpo; [|by injection Hp as <- <- <-]);
    destruct (g_poll_uses _ _ _ Hpo) as [Hless Hgr]; [lia|].
  destruct (g_act now a m (c_gateway c)) as [[next m1] g1] eqn:Ha.
  destruct (g_act_ok now a (c_machine c) m (c_gateway c) next m1 g1) as (Hn & Hle & Hr); [done| |done|].
  { intros Hx. apply Hok. congruence. }
  destruct next as [bytes| |r|]; [|by eapply (IH writes (MkConn m1 g1 (c_written c))); [|cbn; lia|]|by injection Hp as <- <- <-|done].
  assert (∀ ws0, g_poll_loop fuel now ws0 (MkConn m1 g1 (c_written c ++ [bytes])) = (s, ws, c') →
    s ≠ GPanicked ∧ s ≠ GStuck ∧ conn_ok c') as Hnext.
  { intros ws0 Hx. eapply IH; [|  |exact Hx]; [exact Hr|cbn; lia]. }
  destruct writes as [|[e|] writes]; [by eapply Hnext|by injection Hp as <- <- <-|by eapply Hnext].
Qed.

Lemma g_serve_ok wakes : ∀ writes c s c',
  conn_ok c → g_serve wakes writes c = (s, c') → s ≠ GPanicked ∧ s ≠ GStuck ∧ conn_ok c'.
Proof.
  induction wakes as [|[now x] wakes IH]; intros writes c s c' Hok Hs; cbn [g_serve] in Hs; [by injection Hs as <- <-|].
  destruct (waken x (c_machine c)) as [[m|]|e] eqn:Hw; try by injection Hs as <- <-.
  assert (greeted m = greeted (c_machine c)) as Hg.
  { destruct x as [[|b bytes]| | |]; try done; injection Hw as <-; [apply g_receive_greeted|apply close_greeted]. }
  destruct (g_poll_loop _ _ _ _) as [[s1 ws] c1] eqn:Hp.
  eapply g_poll_loop_ok in Hp as (Hnp & Hns & Hok1); [| |done].
  - destruct s1; try by injection Hs as <- <-. by eapply IH.
  - intros Hx. apply Hok. cbn in Hx. congruence.
Qed.
End Served.

(** ** [Connection] *)

Section Connection.
Context `{SettingsLib} `{KeyLib} `{CatalogueLib} `{AssignLib} `{GatewaySession} `{!RowLib}.

(** What the rest answers at a moment: the events of other connections before
    it, a HELLO's databases, the meta database's writes and reads, how a batch
    was stored, a blob. *)
Record Moment := MkMoment {
  mo_others : list GatewayEvent;
  mo_answers : string → DbAnswers;
  mo_recorded : result string unit;
  mo_meta : result string Meta;
  mo_stored : list FrameRow → result WriteError unit;
  mo_fetched : result string (option string)
}.

(** The connection's own state, and the gateway it shares: of [Gateway]'s
    connections its own entry is not read. No operation reads the last two: what
    the meta database was asked to [record_status], and the events there have
    been. *)
Record ConnState := MkConnState {
  cn_gateway : Gateway;
  cn_authed : option GSession;
  cn_served : option (list Z * string);
  cn_tick : nat;
  cn_reports : list (string * list Device * Report);
  cn_log : list GatewayEvent
}.

Context (cf : GatewayConfig) (i : nat) (peer : IpAddr) (peer_text : string) (moments : nat → Moment).

(** An event that is not this connection's. *)
Definition foreign (e : GatewayEvent) : bool :=
  match e with
  | GKeys _ _ | GConnect => true
  | GHello j _ _ _ _ _ | GOpen j | GReplaced j | GBatch j _ _ | GDisconnect j => negb (j =? i)%nat
  end.
Definition apply_event (st : Gateway * list GatewayEvent) (e : GatewayEvent) : Gateway * list GatewayEvent :=
  if foreign e then
    match gateway_step cf st.1 e with Some g => (g, st.2 ++ [e]) | None => st end
  else st.

(** A moment passes: the others move. *)
Definition passes (c : ConnState) : Moment * ConnState :=
  let m := moments (cn_tick c) in
  let '(g, log) := foldl apply_event (cn_gateway c, cn_log c) (mo_others m) in
  (m, MkConnState g (cn_authed c) (cn_served c) (S (cn_tick c)) (cn_reports c) log).

Definition with_shared (a : Attempts) (s : Sessions) (g : Gateway) : Gateway :=
  MkGateway (g_bootstrap g) (g_cache g) a s (g_conns g).

Definition logged (g : Gateway) (e : GatewayEvent) (c : ConnState) : ConnState :=
  MkConnState g (cn_authed c) (cn_served c) (cn_tick c) (cn_reports c) (cn_log c ++ [e]).
Definition with_session (s : GSession) (c : ConnState) : ConnState :=
  MkConnState (cn_gateway c) (Some s) (cn_served c) (cn_tick c) (cn_reports c) (cn_log c).

(** [Connection::hello] and [handle_hello]; the token is text already. Others
    move before the key is looked up, before the session is opened, and before
    the one it replaces is closed. *)
Definition conn_hello (hello : Forward.Hello) (c : ConnState) : Z * list Assignment * ConnState :=
  let '(m, c) := passes c in
  let g := cn_gateway c in
  let key := h_token hello in
  let '(valid, a) := validate_from (g_bootstrap g) (g_cache g) peer key (g_attempts g) in
  let c := logged (with_shared a (g_sessions g) g) (GHello i peer peer_text key hello (mo_answers m)) c in
  match authorise cf valid hello (mo_answers m) with
  | Err status => (status, [], c)
  | Ok (info, database) =>
      let '(m, c) := passes c in
      let g := cn_gateway c in
      let assignments := daemon_hello hello (mo_recorded m)
        (meta <-? mo_meta m ;; Ok (assignments_for (h_daemon_id hello) (h_devices hello) meta)) in
      let '(id, s) := open_session (live_of i (MkGranted (ki_name info) database hello peer_text)) (g_sessions g) in
      let c := logged (with_shared (g_attempts g) s g) (GOpen i) c in
      let session := MkGSession database id (h_daemon_id hello) (h_devices hello) in
      match cn_authed c with
      | None => (HELLO_OK, assignments, with_session session c)
      | Some previous =>
          let '(_, c) := passes (with_session session c) in
          let g := cn_gateway c in
          (HELLO_OK, assignments,
           logged (with_shared (g_attempts g) (close_session (gs_id previous) (g_sessions g)) g) (GReplaced i) c)
      end
  end.

(** [rows]: [FrameRow::new] of each record, at its own time. *)
Definition batch_rows (now : Z) (b : Batch) (rel : bool) : option (list FrameRow) :=
  mapM (λ '(ts, r), frame_row (as_i64 ts) r) (stamped rel now b).

(** [Connection::batch] and [handle_batch]. *)
Definition conn_batch (now : Z) (b : Batch) (rel : bool) (c : ConnState) : option Z * ConnState :=
  let '(m, c) := passes c in
  match cn_authed c, batch_rows now b rel with
  | Some session, Some rows =>
      let stored := mo_stored m rows in
      let count := Z.of_nat (length rows) in
      let g := cn_gateway c in
      let s := if is_ok stored then count_batch (gs_id session) count (g_sessions g) else g_sessions g in
      (Some (handle_batch count stored (0, 0)).1,
       MkConnState (with_shared (g_attempts g) s g) (cn_authed c) (cn_served c) (cn_tick c) (cn_reports c) (cn_log c ++ [GBatch i count stored]))
  | _, _ => (None, c)
  end.

Definition conn_blob (sha : list Z) (c : ConnState) : result Z string * ConnState :=
  let '(m, c) := passes c in
  let '(r, served) := serve_blob (cn_served c) sha (mo_fetched m) in
  (r, MkConnState (cn_gateway c) (cn_authed c) served (cn_tick c) (cn_reports c) (cn_log c)).
(** [catalog_status]: recorded for a daemon that says which it is, and a failure
    to is only logged. *)
Definition conn_status (r : Report) (c : ConnState) : ConnState :=
  let '(_, c) := passes c in
  match cn_authed c with
  | Some s =>
      if is_empty_str (gs_daemon_id s) then c
      else MkConnState (cn_gateway c) (cn_authed c) (cn_served c) (cn_tick c)
             (cn_reports c ++ [(gs_daemon_id s, gs_devices s, r)]) (cn_log c)
  | None => c
  end.

#[local] Instance connection_ops : GatewayOps ConnState := {
  op_hello := conn_hello; op_batch := conn_batch; op_blob := conn_blob; op_status := conn_status
}.

(** ** [handle_client] *)

(** Its [ServerConfig]; [None] where the keepalive makes no [Duration]. *)
Definition gateway_session_config (c : Environment.Config) : option ServerConfig :=
  (λ ns, MkServerConfig (2, 3) (Z.to_nat (cf_ingest_max_batch_frames c)) ShortNack (Some (of_ratio ns (10 ^ 9))))
  <$> ingest_idle_limit c.
Definition conn_start (g : Gateway) : ConnState := MkConnState g None None 0 [] [].
Definition disconnect (c : ConnState) : ConnState :=
  let '(_, c) := passes c in
  let g := cn_gateway c in
  MkConnState (with_shared (g_attempts g)
      (match cn_authed c with Some s => close_session (gs_id s) (g_sessions g) | None => g_sessions g end) g)
    None (cn_served c) (cn_tick c) (cn_reports c) (cn_log c ++ [GDisconnect i]).
End Connection.

(** ** A connection is a sequence of the gateway's events *)

Lemma frame_row_total `{RowLib} ts r : is_Some (frame_row ts r).
Proof.
  unfold frame_row. destruct (from_wire _ _ _) as [tx rest| |]; [|by eexists..].
  destruct (to_can_of_variant tx rest (wr_bus r) (wr_payload r)) as [f ->]. by eexists.
Qed.

Section Refines.
Context `{SettingsLib} `{KeyLib} `{CatalogueLib} `{AssignLib} `{GatewaySessionLaws} `{!RowLib}.
Context (cf : GatewayConfig) (i : nat) (peer : IpAddr) (peer_text : string) (moments : nat → Moment).
#[local] Instance ops : GatewayOps ConnState := connection_ops cf i peer peer_text moments.
Notation pass := (passes cf i moments).

Lemma batch_rows_total now b rel : is_Some (batch_rows now b rel).
Proof.
  unfold batch_rows. induction (stamped rel now b) as [|[ts r] l [ss Hs]]; [by eexists|].
  destruct (frame_row_total (as_i64 ts) r) as [s Hd]. cbn. rewrite Hd. cbn. rewrite Hs. by eexists.
Qed.

Lemma passes_keeps c : let c' := (pass c).2 in cn_authed c' = cn_authed c ∧ cn_served c' = cn_served c.
Proof. unfold passes. by destruct (foldl _ _ _). Qed.

Lemma assignments_length hello recorded meta :
  (length (daemon_hello hello recorded (m <-? meta ;; Ok (assignments_for (h_daemon_id hello) (h_devices hello) m)))
    ≤ length (h_devices hello))%nat.
Proof.
  unfold daemon_hello. destruct (is_empty_str _); [cbn; lia|]. destruct recorded; [|cbn; lia]. destruct meta as [m|]; cbn; [|lia].
  unfold assignments_for, through_device_map. generalize (assigned_rows (h_daemon_id hello) (d_name <$> h_devices hello) m).
  intros rows. induction (h_devices hello) as [|d ds IH]; [done|]. cbn [omap list_omap length].
  destruct (_ ≫= _); cbn; lia.
Qed.

#[local] Instance connection_laws : GatewayOpsLaws ConnState (λ c, is_Some (cn_authed c)).
Proof.
  destruct hello_statuses as (Hauth & Hdb & Hun). constructor.
  - intros h c st l c'. cbn [op_hello ops connection_ops]. unfold conn_hello.
    pose proof (passes_keeps c) as [Hk _]. destruct (pass c) as [m c1]. cbn in Hk.
    destruct (validate_from _ _ _ _ _) as [valid a]. cbv zeta. set (c2 := logged _ _ c1).
    assert (cn_authed c2 = cn_authed c) as Hk2 by done.
    destruct (authorise cf valid h _) as [[info db]|status] eqn:Ha.
    + clearbody c2. destruct (pass c2) as [m3 c3]. destruct (open_session _ _) as [id s].
      pose proof (assignments_length h (mo_recorded m3) (mo_meta m3)). destruct (cn_authed (logged _ _ c3)) as [prev|].
      * set (c5 := with_session _ _). pose proof (passes_keeps c5) as [Hk5 _]. destruct (pass c5) as [m6 c6]. cbn in Hk5.
        intros [= <- <- <-]. cbn. rewrite Hk5. eauto.
      * intros [= <- <- <-]. cbn. eauto.
    + intros [= <- <- <-]. split_and!; [cbn; lia|cbn; by rewrite Hk|]. intros ->. exfalso. revert Ha. unfold authorise, hello_database.
      destruct valid as [[info|]|]; try congruence. destruct (negb _); [congruence|].
      repeat case_match; cbn; congruence.
  - intros now b rel c [s Hs]. cbn [op_batch ops connection_ops]. unfold conn_batch.
    pose proof (passes_keeps c) as [Hk _]. destruct (pass c) as [m c1]. cbn in Hk. rewrite Hk, Hs.
    destruct (batch_rows_total now b rel) as [rows ->]. eexists _, _. split; [done|]. by eexists.
  - intros sha c Hc. cbn [op_blob ops connection_ops]. unfold conn_blob.
    pose proof (passes_keeps c) as [Hk _]. destruct (pass c) as [m c1]. cbn in Hk. destruct (serve_blob _ _ _). cbn. by rewrite Hk.
  - intros r c Hc. cbn [op_status ops connection_ops]. unfold conn_status.
    pose proof (passes_keeps c) as [Hk _]. destruct (pass c) as [m c1]. cbn in Hk. rewrite <- Hk in Hc.
    by repeat case_match.
Qed.

(** Its entry among the gateway's connections. *)
Definition set_conn (x : option GConn) (g : Gateway) : Gateway :=
  MkGateway (g_bootstrap g) (g_cache g) (g_attempts g) (g_sessions g) (<[i := x]> (g_conns g)).

Lemma foreign_commutes x g e g' :
  foreign i e = true → (i < length (g_conns g))%nat → gateway_step cf g e = Some g' →
  gateway_step cf (set_conn x g) e = Some (set_conn x g') ∧ (i < length (g_conns g'))%nat.
Proof.
  intros Hf Hi Hs. assert (∀ j, negb (j =? i)%nat = true → (c ← g_conns (set_conn x g) !! j; c) = (c ← g_conns g !! j; c)) as Hj.
  { intros j Hj%negb_true_iff%Nat.eqb_neq. cbn. by rewrite list_lookup_insert_ne. }
  assert (∀ j y a s, negb (j =? i)%nat = true → with_conn j y a s (set_conn x g) = set_conn x (with_conn j y a s g)) as Hw.
  { intros j y a s Hj0%negb_true_iff%Nat.eqb_neq. unfold with_conn, set_conn. cbn. f_equal. by rewrite list_insert_insert_ne. }
  destruct e as [b cache| |j pe pt key hello answers|j|j|j count stored|j]; cbn [gateway_step] in *; cbn [foreign] in Hf.
  - by injection Hs as <-.
  - injection Hs as <-. cbn. split; [|rewrite length_app; cbn; lia]. unfold set_conn. cbn. by rewrite insert_app_l.
  - rewrite Hj by done. destruct (c ← g_conns g !! j; c) as [c|]; [|done]. cbn in *. destruct (at_rest c); [|done].
    injection Hs as <-. unfold connection_hello. cbn [set_conn g_bootstrap g_cache g_attempts g_sessions].
    destruct (validate_from _ _ _ _ _) as [valid a]. destruct (authorise cf valid hello answers) as [[info db]|st]; cbn.
    + split; [f_equal; by apply Hw|by rewrite length_insert].
    + split; [f_equal; by apply Hw|by rewrite length_insert].
  - rewrite Hj by done. destruct (c ← g_conns g !! j; c) as [c|]; [|done]. cbn in *. destruct (granted c); [|done]. cbn in *.
    injection Hs as <-. unfold connection_open. cbn [set_conn g_sessions g_attempts].
    cbn [open_session]. split; [f_equal; by apply Hw|cbn; by rewrite length_insert].
  - rewrite Hj by done. destruct (c ← g_conns g !! j; c) as [c|]; [|done]. cbn in *. destruct (closing c); [|done]. cbn in *.
    injection Hs as <-. split; [f_equal; by apply Hw|cbn; by rewrite length_insert].
  - rewrite Hj by done. destruct (c ← g_conns g !! j; c) as [c|]; [|done]. cbn in *. destruct (authed c); [|done]. cbn in *.
    destruct (at_rest c); [|done]. injection Hs as <-. split; [f_equal; by apply Hw|cbn; by rewrite length_insert].
  - rewrite Hj by done. destruct (c ← g_conns g !! j; c) as [c|]; [|done]. cbn in *. destruct (at_rest c); [|done].
    injection Hs as <-. split; [f_equal; by apply Hw|cbn; by rewrite length_insert].
Qed.

Section Simulation.
Context (g0 : Gateway).

(** The events so far take the gateway to where the connection has it, with
    that entry for the connection. *)
Definition simulates (x : option GConn) (g : Gateway) (log : list GatewayEvent) : Prop :=
  gateway_steps cf g0 log = Some (set_conn x g) ∧ (i < length (g_conns g))%nat.

Lemma simulates_event x g log e g' x' :
  simulates x g log → gateway_step cf (set_conn x g) e = Some (set_conn x' g') → length (g_conns g') = length (g_conns g) →
  simulates x' g' (log ++ [e]).
Proof.
  intros [Hs Hi] He Hl. split; [|by rewrite Hl]. rewrite gateway_steps_app, Hs. cbn [mbind option_bind gateway_steps].
  by rewrite He.
Qed.
Lemma simulates_others x es : ∀ g log g' log',
  simulates x g log → foldl (apply_event cf i) (g, log) es = (g', log') → simulates x g' log'.
Proof.
  induction es as [|e es IH]; intros g log g' log' Hs; cbn [foldl]; [by intros [= <- <-]|]. unfold apply_event at 2. cbn [fst snd].
  destruct (foreign i e) eqn:Hf; [|by apply IH]. destruct (gateway_step cf g e) as [g1|] eqn:He; [|by apply IH].
  apply IH. destruct Hs as [Hs Hi]. destruct (foreign_commutes x g e g1 Hf Hi He) as [Hc Hi1]. split; [|done].
  rewrite gateway_steps_app, Hs. cbn [mbind option_bind gateway_steps]. by rewrite Hc.
Qed.
Lemma simulates_passes x c : simulates x (cn_gateway c) (cn_log c) →
  simulates x (cn_gateway (pass c).2) (cn_log (pass c).2).
Proof.
  unfold passes. destruct (foldl _ _ _) as [g log] eqn:Hf. cbn. intros Hs. by eapply simulates_others.
Qed.
Lemma lookup_set_conn x g : (i < length (g_conns g))%nat → g_conns (set_conn x g) !! i = Some x.
Proof. intros Hi. cbn. by rewrite list_lookup_insert_eq. Qed.

Definition sim (c : ConnState) : Prop := simulates (Some (MkGConn (cn_authed c) None None)) (cn_gateway c) (cn_log c).

(** The connection between its messages, and in the middle of a HELLO. *)
Lemma sim_granted x r c c' id s :
  simulates (Some (MkGConn x None (Some r))) (cn_gateway c) (cn_log c) →
  open_session (live_of i r) (g_sessions (cn_gateway c)) = (id, s) →
  c' = logged (with_shared (g_attempts (cn_gateway c)) s (cn_gateway c)) (GOpen i) c →
  simulates (Some (MkGConn (Some (MkGSession (gr_database r) id (h_daemon_id (gr_hello r)) (h_devices (gr_hello r))))
    (gs_id <$> x) None)) (cn_gateway c') (cn_log c').
Proof.
  intros Hs Ho ->. eapply simulates_event; [exact Hs| |done]. cbn [gateway_step]. rewrite lookup_set_conn by apply Hs.
  cbn [mbind option_bind granted]. unfold connection_open. cbn [set_conn g_sessions]. rewrite Ho.
  unfold with_conn, set_conn, with_shared. cbn. by rewrite list_insert_insert_eq.
Qed.
Lemma sim_replaced x id c c' :
  simulates (Some (MkGConn x (Some id) None)) (cn_gateway c) (cn_log c) →
  c' = logged (with_shared (g_attempts (cn_gateway c)) (close_session id (g_sessions (cn_gateway c))) (cn_gateway c)) (GReplaced i) c →
  simulates (Some (MkGConn x None None)) (cn_gateway c') (cn_log c').
Proof.
  intros Hs ->. eapply simulates_event; [exact Hs| |done]. cbn [gateway_step]. rewrite lookup_set_conn by apply Hs.
  cbn. unfold with_conn, set_conn, with_shared. cbn. by rewrite list_insert_insert_eq.
Qed.

Lemma sim_hello h c st l c' : sim c → conn_hello cf i peer peer_text moments h c = (st, l, c') → sim c'.
Proof.
  intros Hc. unfold conn_hello. pose proof (simulates_passes _ c Hc) as Hs. pose proof (passes_keeps c) as [Hk _].
  destruct (pass c) as [m c1]. cbn [snd] in *. rewrite <- Hk in Hs. destruct (validate_from _ _ _ _ _) as [valid a] eqn:Hv.
  set (event := GHello i peer peer_text (h_token h) h (mo_answers m)). cbv zeta.
  set (c2 := logged _ event c1). pose proof (proj2 Hs) as Hi.
  assert (∀ x, (∀ g, connection_hello cf (set_conn (Some (MkGConn (cn_authed c1) None None)) (cn_gateway c1)) i
      (MkGConn (cn_authed c1) None None) peer peer_text (h_token h) h (mo_answers m) = g → g.2 = set_conn x (cn_gateway c2)) →
    simulates x (cn_gateway c2) (cn_log c2)) as Hev.
  { intros x Hx. eapply simulates_event; [exact Hs| |done]. cbn [gateway_step event]. rewrite lookup_set_conn by done.
    cbn [mbind option_bind at_rest closing granted]. f_equal. by apply Hx. }
  assert (cn_authed c2 = cn_authed c1) as Hk2 by done.
  destruct (authorise cf valid h (mo_answers m)) as [[info db]|status] eqn:Ha.
  - set (r := MkGranted (ki_name info) db h peer_text).
    assert (simulates (Some (MkGConn (cn_authed c2) None (Some r))) (cn_gateway c2) (cn_log c2)) as Hgr.
    { apply Hev. intros g <-. unfold connection_hello. cbn [set_conn g_bootstrap g_cache g_attempts g_sessions].
      rewrite Hv, Ha. cbn [snd authed]. unfold with_conn, set_conn. cbn. by rewrite list_insert_insert_eq. }
    clearbody c2. pose proof (simulates_passes _ c2 Hgr) as Hs3. pose proof (passes_keeps c2) as [Hk3 _].
    destruct (pass c2) as [m3 c3]. cbn [snd] in *. destruct (open_session _ _) as [id s] eqn:Ho.
    pose proof (sim_granted _ _ c3 _ id s Hs3 Ho eq_refl) as Hs4. cbn [gr_database gr_hello r] in Hs4.
    set (c4 := logged _ (GOpen i) c3) in *. assert (cn_authed c4 = cn_authed c2) as Hk4 by (rewrite <- Hk3; done).
    rewrite Hk4. destruct (cn_authed c2) as [prev|]; [|by intros [= <- <- <-]].
    set (c5 := with_session _ c4). pose proof (simulates_passes _ c5 Hs4) as Hs6. pose proof (passes_keeps c5) as [Hk6 _].
    destruct (pass c5) as [m6 c6]. cbn [snd] in *. intros [= <- <- <-]. unfold sim.
    change (cn_authed (logged _ _ c6)) with (cn_authed c6). rewrite Hk6. by eapply sim_replaced.
  - intros [= <- <- <-]. unfold sim. rewrite Hk2. apply Hev. intros g <-. unfold connection_hello.
    cbn [set_conn g_bootstrap g_cache g_attempts g_sessions]. rewrite Hv, Ha. cbn [snd]. unfold with_conn, set_conn. cbn.
    by rewrite list_insert_insert_eq.
Qed.
Lemma sim_batch now b rel c st c' : sim c → conn_batch cf i moments now b rel c = (st, c') → sim c'.
Proof.
  intros Hc. unfold conn_batch. pose proof (simulates_passes _ c Hc) as Hs. pose proof (passes_keeps c) as [Hk _].
  destruct (pass c) as [m c1]. cbn [snd] in *. rewrite <- Hk in Hs. pose proof (proj2 Hs) as Hi.
  destruct (cn_authed c1) as [session|] eqn:Hau; [|by intros [= <- <-]; unfold sim; rewrite Hau].
  destruct (batch_rows now b rel) as [rows|]; [|by intros [= <- <-]; unfold sim; rewrite Hau]. intros [= <- <-].
  eapply simulates_event; [exact Hs| |done]. cbn [gateway_step]. rewrite lookup_set_conn by done.
  cbn. unfold with_conn, set_conn, with_shared. cbn. by rewrite list_insert_insert_eq.
Qed.
Lemma sim_blob sha c : sim c → sim (conn_blob cf i moments sha c).2.
Proof.
  intros Hc. unfold conn_blob. pose proof (simulates_passes _ c Hc) as Hs. pose proof (passes_keeps c) as [Hk _].
  destruct (pass c) as [m c1]. cbn [snd] in *. rewrite <- Hk in Hs. by destruct (serve_blob _ _ _).
Qed.
Lemma sim_status r c : sim c → sim (conn_status cf i moments r c).
Proof.
  intros Hc. unfold conn_status. pose proof (simulates_passes _ c Hc) as Hs. pose proof (passes_keeps c) as [Hk _].
  destruct (pass c) as [m c1]. cbn [snd] in *. rewrite <- Hk in Hs. destruct (cn_authed c1) eqn:Hau; [|by unfold sim; rewrite Hau].
  case_match; unfold sim; cbn; by rewrite ?Hau.
Qed.

Lemma sim_act now a m c next m' c' : sim c → g_act now a m c = (next, m', c') → sim c'.
Proof.
  intros Hc Ha. destruct a as [bytes|h|st|b rel|seq st|sha|s|[| |reason]]; cbn [g_act] in Ha; try by injection Ha as <- <- <-.
  - destruct (op_hello h c) as [[st l] c1] eqn:Ho. destruct (hello_reply _ _ _ _). injection Ha as <- <- <-. exact (sim_hello _ _ _ _ _ Hc Ho).
  - destruct (hello_reply _ _ _ _). by injection Ha as <- <- <-.
  - destruct (op_batch now b rel c) as [[st|] c1] eqn:Ho; [destruct (g_ack _ _ _ _)|]; injection Ha as <- <- <-; exact (sim_batch _ _ _ _ _ _ Hc Ho).
  - destruct (g_ack _ _ _ _). by injection Ha as <- <- <-.
  - pose proof (sim_blob sha c Hc) as Hb. change (conn_blob cf i moments sha c) with (op_blob sha c) in Hb.
    destruct (op_blob sha c) as [r c1]. destruct (g_answer_catalogue _ _). by injection Ha as <- <- <-.
  - injection Ha as <- <- <-. by apply sim_status.
Qed.
Lemma sim_poll_loop now fuel : ∀ writes c s ws c',
  sim (c_gateway c) → g_poll_loop fuel now writes c = (s, ws, c') → sim (c_gateway c').
Proof.
  induction fuel as [|fuel IH]; intros writes c s ws c' Hc Hp; cbn [g_poll_loop] in Hp;
    destruct (g_poll (c_machine c)) as [[a m]|]; try by injection Hp as <- <- <-.
  destruct (g_act now a m (c_gateway c)) as [[next m1] g1] eqn:Ha. apply sim_act in Ha; [|done].
  destruct next as [bytes| |r|]; try by injection Hp as <- <- <-.
  - destruct writes as [|[e|] writes]; [by apply IH in Hp|by injection Hp as <- <- <-|by apply IH in Hp].
  - by apply IH in Hp.
Qed.
Lemma sim_serve wakes : ∀ writes c s c',
  sim (c_gateway c) → g_serve wakes writes c = (s, c') → sim (c_gateway c').
Proof.
  induction wakes as [|[now x] wakes IH]; intros writes c s c' Hc Hs; cbn [g_serve] in Hs; [by injection Hs as <- <-|].
  destruct (waken x (c_machine c)) as [[m|]|e]; try by injection Hs as <- <-.
  destruct (g_poll_loop _ _ _ _) as [[s1 ws] c1] eqn:Hp. apply sim_poll_loop in Hp; [|done].
  destruct s1; try by injection Hs as <- <-. by eapply IH.
Qed.
Lemma sim_disconnect c : sim c →
  simulates None (cn_gateway (disconnect cf i moments c)) (cn_log (disconnect cf i moments c)).
Proof.
  intros Hc. unfold disconnect. pose proof (simulates_passes _ c Hc) as Hs. pose proof (passes_keeps c) as [Hk _].
  destruct (pass c) as [m c1]. cbn [snd] in *. rewrite <- Hk in Hs. pose proof (proj2 Hs) as Hi.
  eapply simulates_event; [exact Hs| |done]. cbn [gateway_step]. rewrite lookup_set_conn by done.
  cbn. unfold with_conn, set_conn, with_shared. cbn. by rewrite list_insert_insert_eq.
Qed.
End Simulation.

(** A whole connection: the loop, and when it ends the session is closed. *)
Definition handle_client (c : Environment.Config) (wakes : list (Z * Wake)) (writes : list (option string)) (g : Gateway)
    : GStanding * ConnState :=
  match gateway_session_config c with
  | None => (GPanicked, conn_start g)
  | Some scf =>
      match g_serve wakes writes (MkConn (g_new scf) (conn_start g) []) with
      | (GReturned r, k) => (GReturned r, disconnect cf i moments (c_gateway k))
      | (s, k) => (s, c_gateway k)
      end
  end.

(** C12: a served connection is one of the gateway's. Whatever bytes, timeouts
    and reassignments wake it, however its writes go, whatever the databases
    answer and whatever other connections do in between, a connection whose
    keepalive makes a [Duration] neither panics nor spins: each [expect] of the
    loop is met. What it has done, with the others' events in the order they
    happened, is a run of the gateway's specification, from the gateway as it
    was when the client connected to the one it shares now; its entry there is
    the session it holds, and once it has ended, for whatever reason, none. *)
Theorem connection_refines (c : Environment.Config) (wakes : list (Z * Wake)) (writes : list (option string)) (g : Gateway)
    (s : GStanding) (k : ConnState) :
  is_Some (ingest_idle_limit c) →
  g_conns g !! i = Some (Some (MkGConn None None None)) →
  handle_client c wakes writes g = (s, k) →
  (s = GReading ∨ ∃ r, s = GReturned r) ∧
  gateway_steps cf g (cn_log k) =
    Some (set_conn (match s with GReading => Some (MkGConn (cn_authed k) None None) | _ => None end) (cn_gateway k)).
Proof.
  intros [ns Hns] Hg. unfold handle_client, gateway_session_config. rewrite Hns. cbn [fmap option_fmap option_map].
  set (k0 := MkConn _ _ _). destruct (g_serve wakes writes k0) as [s1 k1] eqn:Hs.
  assert (sim g (c_gateway k0)) as Hsim.
  { split; [|by apply lookup_lt_Some in Hg]. cbn. unfold set_conn. rewrite list_insert_id by done. by destruct g. }
  pose proof (sim_serve g wakes writes k0 s1 k1 Hsim Hs) as Hsim1.
  apply (g_serve_ok (λ c, is_Some (cn_authed c))) in Hs as (Hp & Hst & _);
    [|intros Hx; cbn in Hx; by rewrite g_new_greeted in Hx].
  destruct s1 as [|r| |]; intros [= <- <-]; try done.
  - split; [by left|]. apply Hsim1.
  - split; [eauto|]. apply (sim_disconnect g _ Hsim1).
Qed.
End Refines.

(** ** A connection *)

Module Counter.
Import (hints) Wire.Packed CacheFifo.Disk Catalogues.Bench ForwardProofs.Toy SettingsProofs.Site Listener.Door Keys.KeyRing
  Assignments.Registry Rows.Stored.

(** A byte is a message: [0] greets, [100] asks for a blob, [101] reports, [102]
    closes, and another is a batch of as many frames, once greeted. *)
Definition counter_poll (m : bool * list Z) : option (GAction Batch * (bool * list Z)) :=
  match m.2 with
  | [] => None
  | b :: l =>
      Some (if b =? 0 then GHelloIn (FrontDesk.greeting "fleet")
            else if b =? 100 then GCatalogueGet [7]
            else if b =? 101 then GCatalogueStatus []
            else if b =? 102 then GCloseIn CloseReassigned
            else if negb m.1 then GHelloRefused 2
            else GBatchIn (b, Z.to_nat b) false, (m.1, l))
  end.

#[export] Instance counter : GatewaySession := {
  GMachine := bool * list Z;
  g_new c := (false, []);
  g_receive b m := (m.1, m.2 ++ b);
  close_reassigned m := (m.1, m.2 ++ [102]);
  g_poll := counter_poll;
  g_answer_hello st now l m := (Ok (st :: (a_bus <$> l)), (m.1 || (st =? 0), m.2));
  g_ack seq st pct m := ([seq; st; pct], m);
  g_answer_catalogue r m := (match r with Ok b => bytes_of_string b | Err st => [st] end, m)
}.

#[export] Instance counter_laws : GatewaySessionLaws.
Proof.
  assert (∀ m a m', counter_poll m = Some (a, m') → ∃ b l, m.2 = b :: l ∧ m' = (m.1, l)) as Hp.
  { intros [x [|b l]] a m' Hp; [done|]. injection Hp as _ <-. by exists b, l. }
  refine {| g_pending := λ m, length m.2; greeted := fst |}; try done.
  - intros m a m' (b & l & Hm & ->)%Hp. rewrite Hm. cbn. split; [lia|done].
  - intros [x [|b l]] h m' Hh; [done|]. cbn in Hh. repeat case_match; simplify_eq. cbn. lia.
  - intros [x [|b l]] st m' Hh; [done|]. cbn in Hh. repeat case_match; simplify_eq. done.
  - intros [x [|b l]] bt rel m' Hh; [done|]. cbn in Hh. repeat case_match; simplify_eq. by destruct x.
  - intros st now l m _. eexists _, _. split; [done|]. cbn. split; [lia|].
    intros [?|?%Z.eqb_eq]%orb_true_iff; [by left|by right].
Defined.

(** Another client greets while this one does, its second greeting replaces its
    first session, and a batch can not be stored. *)
Definition open_desk : Gateway :=
  MkGateway (MkBootstrap None None) {[hash_key "wt_b" := FrontDesk.van]} attempts_default no_sessions
    [Some (MkGConn None None None); Some (MkGConn None None None)].
Definition happening (n : nat) : Moment :=
  MkMoment (if (n =? 1)%nat then [GHello 1 (V4 2) "192.0.2.2:4000" "wt_b" (FrontDesk.greeting "fleet") FrontDesk.ready; GOpen 1; GBatch 0 9 (Ok tt)] else [])
    FrontDesk.ready (Ok tt) (Err "down") (λ rows, if (length rows <? 3)%nat then Ok tt else Err (WriteCopy (MkCopyError None "full"))) (Ok (Some "x")).
Definition settings : Environment.Config :=
  MkConfig "" "" "" 5432 "" "" "wiretap" None (MkSecretFiles None None) true false (float_ratio false 30 1) 256 "" "" None.
Notation called := (handle_client FrontDesk.cf 0 (V4 1) "192.0.2.1:4000" happening settings
  [(1, WRead [0; 2]); (2, WRead [0; 5; 100; 101]); (3, WReassigned)] [] open_desk).

Lemma connection_refines_witness :
  called.1 = GReturned (Ok tt) ∧
  length (cn_log called.2) = 10%nat ∧ length (cn_reports called.2) = 1%nat ∧
  ∃ g, gateway_steps FrontDesk.cf open_desk (cn_log called.2) = Some g ∧ g_conns g !! 0%nat = Some None ∧
    size (s_live (g_sessions g)) = 1%nat.
Proof.
  split; [vm_compute; reflexivity|]. split; [vm_compute; reflexivity|]. split; [vm_compute; reflexivity|].
  destruct called as [s k] eqn:Hk.
  destruct (connection_refines FrontDesk.cf 0 (V4 1) "192.0.2.1:4000" happening settings _ [] open_desk s k
    ltac:(vm_compute; eauto) ltac:(reflexivity) Hk) as [_ Hg].
  eexists. split; [exact Hg|]. vm_compute in Hk. injection Hk as <- <-. split; vm_compute; reflexivity.
Defined.
End Counter.
