(* ===== verification/Sql.v ===== *)
(** * The gateway's queries ([sql.rs])

    The text and the arguments of every query over a capture database, what the
    clauses select, the work done on the rows that come back, and the cursor that
    pages through frames. A clause is the list of its conditions: [cond_sql] is
    the text the source writes for one, [holds] what PostgreSQL makes of it. The
    rows of a table are in the order a query by [ts] returns them, rows of one
    [ts] always in the same order, as paging relies on. *)

From S2P Require Import Prelude F64 Model Source Wire Catalogues Rows.
From stdpp Require Import sorting.
From Stdlib Require Import Ascii.
Import Sample.
Local Open Scope Z_scope.

(** ** What the queries call *)

(** [base64]'s URL-safe alphabet, [{:?}] of an [f64], the flag bits and the
    length table of [wslib_can], and of PostgreSQL the timestamps it reads off a
    text and off microseconds as [to_timestamp(us / 1000000.0)]. *)
Class SqlLib `{RowLib} := {
  b64_encode : string → string;
  b64_decode : string → option (list Z);
  f64_debug : f64 → string;
  FLAG_EXT : Z; FLAG_FD : Z; FLAG_RTR : Z; FLAG_BRS : Z; FLAG_ESI : Z;
  dlc_to_len : Z → bool → Z;
  timestamptz : string → option Z;
  to_timestamp_us : Z → Z
}.
(** The alphabet reads back; a microsecond survives the division up to 2038. *)
Definition MICROS_2038 : Z := 2 ^ 31 * 1000000.
Class SqlLaws `{SqlLib} : Prop := {
  b64_back : ∀ s, b64_decode (b64_encode s) = Some (bytes_of_string s);
  micros_back : ∀ t, 0 ≤ t < MICROS_2038 → to_timestamp_us t = t
}.

(** ** Errors *)

Inductive QueryError := BadRequest (message : string) | Database (message : string).

(** [refused_for_the_request]; the codes are [QUERY_CANCELED] and
    [INSUFFICIENT_PRIVILEGE]. *)
Definition refused_for_the_request (code : option string) : bool :=
  match code with
  | Some c => str_starts_with "22" c || str_eqb c "57014" || str_eqb c "42501"
  | None => false
  end.
Definition query_error_postgres (message : string) (code : option string) : QueryError :=
  if refused_for_the_request code then BadRequest message else Database message.
(** [From<CopyError>]. *)
Definition query_error_copy (e : CopyError) : QueryError :=
  if refused_the_rows (ce_code e) then BadRequest (ce_message e) else Database (ce_message e).

(** ** [Args] *)

Inductive SqlArg := AInt (z : Z) | AText (s : string) | ABool (b : bool) | AMicros (us : Z) | ANull.
Abbreviation Args := (list SqlArg).
(** The argument's placeholder is its 1-based index. *)
Definition add_arg (v : SqlArg) (args : Args) : nat * Args := (S (length args), args ++ [v]).

(** [x as i32]. *)
Definition as_i32 (z : Z) : Z := (z + 2 ^ 31) mod 2 ^ 32 - 2 ^ 31.

(** ** Clauses *)

Inductive Cond :=
  | CProtocol (n : nat) | CId (n : nat) | CExtended (n : nat) | CSince (n : nat)
  | CStart (n : nat) | CEnd (n : nat) | CNotRemote.

Definition EXTENDED : string := "flags & 8 <> 0".
Definition placeholder (n : nat) : string := "$" +:+ pretty n.
Definition cond_sql (c : Cond) : string :=
  match c with
  | CProtocol n => "WHERE protocol = " +:+ placeholder n +:+ "::text"
  | CId n => " AND id = " +:+ placeholder n +:+ "::int4"
  | CExtended n => " AND (" +:+ EXTENDED +:+ ") = " +:+ placeholder n +:+ "::bool"
  | CSince n => " AND ts >= to_timestamp(" +:+ placeholder n +:+ "::float8 / 1000000.0)"
  | CStart n => " AND ts >= (" +:+ placeholder n +:+ "::text)::timestamptz"
  | CEnd n => " AND ts < (" +:+ placeholder n +:+ "::text)::timestamptz"
  | CNotRemote => " AND flags & 1 = 0"
  end.
Definition clause_sql (cs : list Cond) : string := foldr (λ c s, cond_sql c +:+ s) EmptyString cs.

Record FrameFilter := MkFilter {
  ff_frame_id : Z;
  ff_is_extended : option bool;
  ff_protocol : option Protocol;
  ff_start_time : option string;
  ff_end_time : option string
}.

Section Clauses.
Context `{SqlLib}.

Definition DEFAULT_PROTOCOL : Protocol := ProtoCan.

Definition protocol_clause (protocol : option Protocol) (args : Args) : list Cond * Args :=
  let '(n, args) := add_arg (AText (protocol_str (default DEFAULT_PROTOCOL protocol))) args in ([CProtocol n], args).

Definition extended_clause (is_extended : option bool) (args : Args) : list Cond * Args :=
  match is_extended with
  | Some ext => let '(n, args) := add_arg (ABool ext) args in ([CExtended n], args)
  | None => ([], args)
  end.

Definition time_clause (start end_ : option string) (args : Args) : list Cond * Args :=
  let '(c1, args) :=
    match start with Some s => let '(n, args) := add_arg (AText s) args in ([CStart n], args) | None => ([], args) end in
  let '(c2, args) :=
    match end_ with Some e => let '(n, args) := add_arg (AText e) args in ([CEnd n], args) | None => ([], args) end in
  (c1 ++ c2, args).

Definition where_clause (f : FrameFilter) (args : Args) : list Cond * Args :=
  let '(proto, args) := protocol_clause (ff_protocol f) args in
  let '(n, args) := add_arg (AInt (as_i32 (ff_frame_id f))) args in
  let '(ext, args) := extended_clause (ff_is_extended f) args in
  let '(time, args) := time_clause (ff_start_time f) (ff_end_time f) args in
  (proto ++ [CId n] ++ ext ++ time ++ [CNotRemote], args).

(** What a condition is of a row; [None] where PostgreSQL refuses the argument. *)
Definition holds (args : Args) (row : FrameRow) (c : Cond) : option bool :=
  let arg (n : nat) := args !! pred n in
  match c with
  | CProtocol n => match arg n with Some (AText s) => Some (str_eqb (protocol_str (row_protocol row)) s) | _ => None end
  | CId n => match arg n with Some (AInt z) => Some (row_id row =? z) | _ => None end
  | CExtended n => match arg n with Some (ABool b) => Some (Bool.eqb (negb (Z.land (row_flags row) 8 =? 0)) b) | _ => None end
  | CSince n => match arg n with Some (AMicros us) => Some (to_timestamp_us us <=? row_ts_us row) | _ => None end
  | CStart n => match arg n with Some (AText s) => t ← timestamptz s; Some (t <=? row_ts_us row) | _ => None end
  | CEnd n => match arg n with Some (AText s) => t ← timestamptz s; Some (row_ts_us row <? t) | _ => None end
  | CNotRemote => Some (Z.land (row_flags row) 1 =? 0)
  end.
Fixpoint all_hold (args : Args) (row : FrameRow) (cs : list Cond) : option bool :=
  match cs with
  | [] => Some true
  | c :: cs => b ← holds args row c; b' ← all_hold args row cs; Some (b && b')
  end.
End Clauses.

(** ** Answers

    A row is its columns by name. [row.get] panics on a column that is not there,
    is of another type, or is null where the type asked for is not an [Option]. *)

Inductive PgVal :=
  | VNull | VBool (b : bool) | VInt2 (z : Z) | VInt4 (z : Z) | VInt8 (z : Z) | VFloat8 (x : f64)
  | VText (s : string) | VBytea (b : list Z) | VTime (us : Z).
Definition PgRow : Type := list (string * PgVal).
(** How a query ends without an answer: the handler's panic, or an error. *)
Inductive Stop := Panicked | Failed (e : QueryError).
(** [tokio_postgres::Error]: what it prints, and its code. *)
Record PgError := MkPgError { pe_message : string; pe_code : option string }.

Definition bad_request {A} (message : string) : result Stop A := Err (Failed (BadRequest message)).
(** [failed(what)]. *)
Definition failed (what : string) (e : PgError) : Stop :=
  Failed (query_error_postgres (what +:+ ": " +:+ pe_message e) (pe_code e)).

Fixpoint column (row : PgRow) (name : string) : option PgVal :=
  match row with
  | [] => None
  | (n, v) :: row => if str_eqb n name then Some v else column row name
  end.
Definition get_i16 (row : PgRow) (name : string) : result Stop Z :=
  match column row name with Some (VInt2 z) => Ok z | _ => Err Panicked end.
Definition get_i32 (row : PgRow) (name : string) : result Stop Z :=
  match column row name with Some (VInt4 z) => Ok z | _ => Err Panicked end.
Definition get_i64 (row : PgRow) (name : string) : result Stop Z :=
  match column row name with Some (VInt8 z) => Ok z | _ => Err Panicked end.
Definition get_f64 (row : PgRow) (name : string) : result Stop f64 :=
  match column row name with Some (VFloat8 x) => Ok x | _ => Err Panicked end.
Definition get_bool (row : PgRow) (name : string) : result Stop bool :=
  match column row name with Some (VBool b) => Ok b | _ => Err Panicked end.
Definition get_bytes (row : PgRow) (name : string) : result Stop (list Z) :=
  match column row name with Some (VBytea b) => Ok b | _ => Err Panicked end.
Definition get_text (row : PgRow) (name : string) : result Stop string :=
  match column row name with Some (VText s) => Ok s | _ => Err Panicked end.
(** A [DateTime<Utc>], as its [timestamp_micros]. *)
Definition get_time (row : PgRow) (name : string) : result Stop Z :=
  match column row name with Some (VTime us) => Ok us | _ => Err Panicked end.
(** [row.get::<_, Option<T>>]. *)
Definition get_opt {A} (get : PgRow → string → result Stop A) (row : PgRow) (name : string) : result Stop (option A) :=
  match column row name with Some VNull => Ok None | _ => a <-? get row name ;; Ok (Some a) end.

(** [x as u8], [x as u32], [x as u64]. *)
Definition as_u8 (z : Z) : Z := z mod 2 ^ 8.
Definition as_u32 (z : Z) : Z := z mod 2 ^ 32.
Definition as_u64 (z : Z) : Z := z mod 2 ^ 64.
(** [x as i64] of a float: toward zero, saturating. *)
Definition as_i64 (x : f64) : Z :=
  to_i64 (if 0 <=? expo x then mant x * 2 ^ expo x else Z.quot (mant x) (2 ^ (- expo x))).
Definition get_us (row : PgRow) (name : string) : result Stop Z := x <-? get_f64 row name ;; Ok (as_i64 x).

(** [QueryStats], less the time taken. *)
Record QueryStats := MkStats { rows_scanned : Z; results_count : Z }.
Definition stats {A} (scanned : Z) (results : list A) : QueryStats := MkStats scanned (Z.of_nat (length results)).

(** ** Requests *)

Record ByteChangesParams := MkByteChanges { bc_filter : FrameFilter; bc_byte_index : Z; bc_limit : option Z }.
Record FrameChangesParams := MkFrameChanges { fc_filter : FrameFilter; fc_limit : option Z }.
Record MirrorValidationParams := MkMirror {
  mv_mirror_frame_id : Z; mv_source_frame_id : Z; mv_tolerance_ms : Z; mv_protocol : option Protocol;
  mv_is_extended : option bool; mv_start_time : option string; mv_end_time : option string; mv_limit : option Z
}.
Record MuxStatisticsParams := MkMux {
  mx_filter : FrameFilter; mx_mux_selector_byte : Z; mx_payload_length : Z; mx_include_16bit : bool; mx_limit : option Z
}.
Record FirstLastParams := MkFirstLast { fl_filter : FrameFilter }.
Record FrequencyParams := MkFrequency { fq_filter : FrameFilter; fq_bucket_size_ms : Z; fq_limit : option Z }.
Record DistributionParams := MkDistribution { ds_filter : FrameFilter; ds_byte_index : Z }.
Record GapAnalysisParams := MkGap { ga_filter : FrameFilter; ga_gap_threshold_ms : f64; ga_limit : option Z }.
Record PatternSearchParams := MkPattern {
  ps_pattern : list Z; ps_pattern_mask : list Z; ps_protocol : option Protocol;
  ps_start_time : option string; ps_end_time : option string; ps_limit : option Z
}.
Record PayloadsParams := MkPayloads { pl_filter : FrameFilter; pl_limit : option Z }.

(** ** Texts

    A query is its text and its arguments. *)

Definition Query : Type := string * Args.
Definition num (z : Z) : string := pretty z.

Section Texts.
Context `{SqlLib}.

Definition byte_changes_query (p : ByteChangesParams) : Query :=
  let limit := default 10000 (bc_limit p) in
  let '(byte_idx, args) := add_arg (AInt (as_i32 (bc_byte_index p))) [] in
  let '(w, args) := where_clause (bc_filter p) args in
  ("WITH ordered_frames AS (SELECT ts, public.get_byte_safe(data_bytes, " +:+ placeholder byte_idx +:+
   "::int4) AS curr_byte, LAG(public.get_byte_safe(data_bytes, " +:+ placeholder byte_idx +:+
   "::int4)) OVER (ORDER BY ts) AS prev_byte FROM public.capture_frame " +:+ clause_sql w +:+
   " ORDER BY ts) SELECT (EXTRACT(EPOCH FROM ts) * 1000000)::float8 AS timestamp_us, prev_byte, curr_byte " +:+
   "FROM ordered_frames WHERE prev_byte IS NOT NULL AND curr_byte IS NOT NULL " +:+
   "AND prev_byte IS DISTINCT FROM curr_byte ORDER BY ts LIMIT " +:+ num limit, args).

Definition frame_changes_query (p : FrameChangesParams) : Query :=
  let limit := default 10000 (fc_limit p) in
  let '(w, args) := where_clause (fc_filter p) [] in
  ("WITH ordered_frames AS (SELECT ts, data_bytes, LAG(data_bytes) OVER (ORDER BY ts) AS prev_data " +:+
   "FROM public.capture_frame " +:+ clause_sql w +:+
   " ORDER BY ts) SELECT (EXTRACT(EPOCH FROM ts) * 1000000)::float8 AS timestamp_us, prev_data, data_bytes " +:+
   "FROM ordered_frames WHERE prev_data IS NOT NULL AND prev_data IS DISTINCT FROM data_bytes " +:+
   "ORDER BY ts LIMIT " +:+ num limit, args).

Definition mirror_query (p : MirrorValidationParams) : Query :=
  let limit := default 10000 (mv_limit p) in
  let '(mirror_id, args) := add_arg (AInt (as_i32 (mv_mirror_frame_id p))) [] in
  let '(source_id, args) := add_arg (AInt (as_i32 (mv_source_frame_id p))) args in
  let '(tolerance, args) := add_arg (AInt (as_i32 (mv_tolerance_ms p))) args in
  let '(where_protocol, args) := protocol_clause (mv_protocol p) args in
  let '(ext, args) := extended_clause (mv_is_extended p) args in
  let '(time, args) := time_clause (mv_start_time p) (mv_end_time p) args in
  let frames (id : nat) :=
    "SELECT ts, data_bytes FROM public.capture_frame " +:+
    clause_sql (where_protocol ++ [CId id] ++ ext ++ time ++ [CNotRemote]) in
  ("WITH mirror_frames AS (" +:+ frames mirror_id +:+ "), source_frames AS (" +:+ frames source_id +:+
   ") SELECT (EXTRACT(EPOCH FROM m.ts) * 1000000)::float8 AS mirror_ts, " +:+
   "(EXTRACT(EPOCH FROM s.ts) * 1000000)::float8 AS source_ts, " +:+
   "m.data_bytes AS mirror_payload, s.data_bytes AS source_payload FROM mirror_frames m " +:+
   "JOIN source_frames s ON ABS(EXTRACT(EPOCH FROM (m.ts - s.ts)) * 1000) < " +:+ placeholder tolerance +:+
   "::int4 WHERE m.data_bytes IS DISTINCT FROM s.data_bytes ORDER BY m.ts LIMIT " +:+ num limit, args).

(** [src], the rows [mux_statistics] counts over. *)
Definition mux_source (p : MuxStatisticsParams) : Query :=
  let '(w, args) := where_clause (mx_filter p) [] in
  ("SELECT data_bytes FROM public.capture_frame " +:+ clause_sql w +:+ " AND octet_length(data_bytes) > " +:+
   num (as_i32 (mx_mux_selector_byte p)) +:+ " ORDER BY ts LIMIT " +:+ num (default 500000 (mx_limit p)), args).
Definition mux_count_query (p : MuxStatisticsParams) : Query :=
  let '(src, args) := mux_source p in
  ("SELECT public.get_byte_safe(data_bytes, " +:+ num (as_i32 (mx_mux_selector_byte p)) +:+
   ")::int4 AS mux_value, COUNT(*)::int8 AS frame_count FROM (" +:+ src +:+ ") s GROUP BY 1 ORDER BY 1", args).
Definition mux_byte_query (p : MuxStatisticsParams) : Query :=
  let '(src, args) := mux_source p in
  let mux := as_i32 (mx_mux_selector_byte p) in
  ("SELECT public.get_byte_safe(data_bytes, " +:+ num mux +:+ ")::int4 AS mux_value, b.idx::int4 AS byte_index, " +:+
   "MIN(public.get_byte_safe(data_bytes, b.idx))::int4 AS min, " +:+
   "MAX(public.get_byte_safe(data_bytes, b.idx))::int4 AS max, " +:+
   "AVG(public.get_byte_safe(data_bytes, b.idx))::float8 AS avg, " +:+
   "COUNT(DISTINCT public.get_byte_safe(data_bytes, b.idx))::int8 AS distinct_count, " +:+
   "COUNT(public.get_byte_safe(data_bytes, b.idx))::int8 AS sample_count FROM (" +:+ src +:+
   ") s CROSS JOIN generate_series(" +:+ num (mux + 1) +:+ ", " +:+ num (as_i32 (mx_payload_length p) - 1) +:+
   ") AS b(idx) GROUP BY 1, 2 HAVING COUNT(public.get_byte_safe(data_bytes, b.idx)) > 0 ORDER BY 1, 2", args).
Definition mux_word_query (p : MuxStatisticsParams) : Query :=
  let '(src, args) := mux_source p in
  let mux := as_i32 (mx_mux_selector_byte p) in
  ("SELECT mux_value::int4, start_byte::int4, MIN(le_val)::int4 AS le_min, MAX(le_val)::int4 AS le_max, " +:+
   "AVG(le_val)::float8 AS le_avg, COUNT(DISTINCT le_val)::int8 AS le_distinct, " +:+
   "MIN(be_val)::int4 AS be_min, MAX(be_val)::int4 AS be_max, " +:+
   "AVG(be_val)::float8 AS be_avg, COUNT(DISTINCT be_val)::int8 AS be_distinct " +:+
   "FROM (SELECT public.get_byte_safe(data_bytes, " +:+ num mux +:+ ") AS mux_value, w.idx AS start_byte, " +:+
   "public.get_byte_safe(data_bytes, w.idx) | (public.get_byte_safe(data_bytes, w.idx + 1) << 8) AS le_val, " +:+
   "(public.get_byte_safe(data_bytes, w.idx) << 8) | public.get_byte_safe(data_bytes, w.idx + 1) AS be_val FROM (" +:+
   src +:+ ") s CROSS JOIN generate_series(" +:+ num (mux + 1) +:+ ", " +:+ num (as_i32 (mx_payload_length p) - 2) +:+
   ", 2) AS w(idx)) t GROUP BY 1, 2 HAVING COUNT(le_val) > 0 ORDER BY 1, 2", args).

Definition select_payload : string :=
  "SELECT (EXTRACT(EPOCH FROM ts) * 1000000)::float8 AS timestamp_us, data_bytes FROM public.capture_frame".
Definition first_query (p : FirstLastParams) : Query :=
  let '(w, args) := where_clause (fl_filter p) [] in
  (select_payload +:+ " " +:+ clause_sql w +:+ " ORDER BY ts ASC LIMIT 1", args).
Definition last_query (p : FirstLastParams) : Query :=
  let '(w, args) := where_clause (fl_filter p) [] in
  (select_payload +:+ " " +:+ clause_sql w +:+ " ORDER BY ts DESC LIMIT 1", args).
Definition count_query (p : FirstLastParams) : Query :=
  let '(w, args) := where_clause (fl_filter p) [] in
  ("SELECT COUNT(*) AS count FROM public.capture_frame " +:+ clause_sql w, args).

Definition frequency_query (p : FrequencyParams) : Query :=
  let limit := default 500000 (fq_limit p) in
  let bucket_us := num (fq_bucket_size_ms p * 1000) in
  let '(w, args) := where_clause (fq_filter p) [] in
  ("SELECT (trunc((EXTRACT(EPOCH FROM ts) * 1000000) / " +:+ bucket_us +:+ ") * " +:+ bucket_us +:+
   ")::float8 AS bucket_start_us, COUNT(*)::int8 AS frame_count, MIN(dt_us)::float8 AS min_interval_us, " +:+
   "MAX(dt_us)::float8 AS max_interval_us, AVG(dt_us)::float8 AS avg_interval_us " +:+
   "FROM (SELECT ts, EXTRACT(EPOCH FROM ts - LAG(ts) OVER (ORDER BY ts)) * 1000000 AS dt_us " +:+
   "FROM (SELECT ts FROM public.capture_frame " +:+ clause_sql w +:+ " ORDER BY ts LIMIT " +:+ num limit +:+
   ") f) s WHERE dt_us IS NOT NULL GROUP BY 1 ORDER BY 1", args).

Definition distribution_query (p : DistributionParams) : Query :=
  let '(byte_idx, args) := add_arg (AInt (as_i32 (ds_byte_index p))) [] in
  let '(w, args) := where_clause (ds_filter p) args in
  ("SELECT public.get_byte_safe(data_bytes, " +:+ placeholder byte_idx +:+
   "::int4) AS value, COUNT(*) AS count FROM public.capture_frame " +:+ clause_sql w +:+
   " GROUP BY value ORDER BY count DESC", args).

Definition gap_query (p : GapAnalysisParams) : Query :=
  let limit := default 10000 (ga_limit p) in
  let threshold := f64_debug (ga_gap_threshold_ms p) in
  let '(w, args) := where_clause (ga_filter p) [] in
  ("SELECT (EXTRACT(EPOCH FROM prev_ts) * 1000000)::float8 AS gap_start_us, " +:+
   "(EXTRACT(EPOCH FROM ts) * 1000000)::float8 AS gap_end_us, " +:+
   "(EXTRACT(EPOCH FROM ts - prev_ts) * 1000)::float8 AS duration_ms " +:+
   "FROM (SELECT ts, LAG(ts) OVER (ORDER BY ts) AS prev_ts FROM (SELECT ts FROM public.capture_frame " +:+
   clause_sql w +:+ ") f) s WHERE prev_ts IS NOT NULL AND (EXTRACT(EPOCH FROM ts - prev_ts) * 1000)::float8 > " +:+
   threshold +:+ " ORDER BY duration_ms DESC LIMIT " +:+ num limit, args).

Definition pattern_query (p : PatternSearchParams) : Query :=
  let '(proto, args) := protocol_clause (ps_protocol p) [] in
  let '(w, args) := time_clause (ps_start_time p) (ps_end_time p) args in
  ("SELECT (EXTRACT(EPOCH FROM ts) * 1000000)::float8 AS timestamp_us, id AS frame_id, " +:+ EXTENDED +:+
   " AS extended, data_bytes FROM public.capture_frame " +:+ clause_sql (proto ++ w) +:+ " ORDER BY ts", args).

Definition rollup_probe : Query := ("SELECT to_regclass('public.capture_frame_hourly') IS NOT NULL", []).
Definition inventory_rollup_query (protocol : option Protocol) : Query :=
  let '(proto, args) := protocol_clause protocol [] in
  ("SELECT id, extended, sum(frame_count)::int8 AS cnt, " +:+
   "(EXTRACT(EPOCH FROM min(first_ts)) * 1000000)::float8 AS first_us, " +:+
   "(EXTRACT(EPOCH FROM max(last_ts)) * 1000000)::float8 AS last_us, max(max_dlc)::int4 AS max_dlc " +:+
   "FROM public.capture_frame_hourly " +:+ clause_sql proto +:+ " GROUP BY id, extended ORDER BY id, extended", args).
Definition inventory_query (start_time end_time : option string) (protocol : option Protocol) : Query :=
  let '(proto, args) := protocol_clause protocol [] in
  let '(w, args) := time_clause start_time end_time args in
  ("SELECT id, " +:+ EXTENDED +:+ " AS extended, COUNT(*)::int8 AS cnt, " +:+
   "(EXTRACT(EPOCH FROM MIN(ts)) * 1000000)::float8 AS first_us, " +:+
   "(EXTRACT(EPOCH FROM MAX(ts)) * 1000000)::float8 AS last_us, MAX(dlc)::int4 AS max_dlc " +:+
   "FROM public.capture_frame " +:+ clause_sql (proto ++ w ++ [CNotRemote]) +:+ " GROUP BY 1, 2 ORDER BY 1, 2", args).
Definition time_bounds_query (rollup : bool) (protocol : option Protocol) : Query :=
  let '(min_expr, max_expr, table) :=
    if rollup then ("min(first_ts)", "max(last_ts)", "public.capture_frame_hourly")
    else ("min(ts)", "max(ts)", "public.capture_frame") in
  let '(proto, args) := protocol_clause protocol [] in
  ("SELECT (EXTRACT(EPOCH FROM " +:+ min_expr +:+ ") * 1000000)::float8 AS min_us, (EXTRACT(EPOCH FROM " +:+
   max_expr +:+ ") * 1000000)::float8 AS max_us FROM " +:+ table +:+ " " +:+ clause_sql proto, args).
(** [frames_batch]'s query, by its conditions, arguments and limit, and its text. *)
Definition frames_select (start_time end_time : option string) (cursor : option (Z * Z)) (limit : Z)
    (protocol : option Protocol) : list Cond * Args * Z :=
  let '(proto, args) := protocol_clause protocol [] in
  let '(since, args) :=
    match cursor with
    | Some (ts_us, _) => let '(n, args) := add_arg (AMicros ts_us) args in ([CSince n], args)
    | None => ([], args)
    end in
  let '(w, args) := time_clause start_time end_time args in
  (proto ++ since ++ w, args, limit + default 0 (snd <$> cursor)).
Definition frames_sql (q : list Cond * Args * Z) : Query :=
  let '(cs, args, limit) := q in
  ("SELECT (EXTRACT(EPOCH FROM ts) * 1000000)::float8 AS ts_us, id, flags, dlc, data_bytes, bus, crc_valid " +:+
   "FROM public.capture_frame " +:+ clause_sql cs +:+ " ORDER BY ts ASC LIMIT " +:+ num limit, args).
Definition payloads_query (p : PayloadsParams) : Query :=
  let '(w, args) := where_clause (pl_filter p) [] in
  ("SELECT data_bytes FROM public.capture_frame " +:+ clause_sql w +:+ " ORDER BY ts DESC LIMIT " +:+
   num (default 1000 (pl_limit p)), args).
Definition activity_query (database : string) : Query :=
  ("SELECT pid, datname AS database, usename AS username, application_name, " +:+
   "client_addr::text, state, LEFT(query, 500) AS query, query_start::text, " +:+
   "EXTRACT(EPOCH FROM (now() - query_start))::float8 AS duration_secs FROM pg_stat_activity " +:+
   "WHERE datname = $1 AND pid != pg_backend_pid() " +:+
   "ORDER BY CASE WHEN state = 'active' THEN 0 ELSE 1 END, query_start DESC NULLS LAST", [AText database]).
Definition signal_function (terminate : bool) : string :=
  if terminate then "pg_terminate_backend" else "pg_cancel_backend".
Definition signal_query (pid : Z) (terminate : bool) : Query :=
  ("SELECT " +:+ signal_function terminate +:+ "($1)", [AInt pid]).
End Texts.

(** ** Results *)

Record ByteChangeResult := MkByteChange { bcr_timestamp_us : Z; bcr_old_value : Z; bcr_new_value : Z }.
Record FrameChangeResult := MkFrameChange {
  fcr_timestamp_us : Z; fcr_old_payload : list Z; fcr_new_payload : list Z; fcr_changed_indices : list nat
}.
Record MirrorValidationResult := MkMirrorResult {
  mvr_mirror_timestamp_us : Z; mvr_source_timestamp_us : Z; mvr_mirror_payload : list Z; mvr_source_payload : list Z;
  mvr_mismatch_indices : list nat
}.
Record BytePositionStats := MkByteStats {
  bps_byte_index : Z; bps_min : Z; bps_max : Z; bps_avg : f64; bps_distinct_count : Z; bps_sample_count : Z
}.
Record Word16Stats := MkWordStats {
  ws_start_byte : Z; ws_endianness : string; ws_min : Z; ws_max : Z; ws_avg : f64; ws_distinct_count : Z
}.
Record MuxCaseStats := MkMuxCase {
  mc_mux_value : Z; mc_frame_count : Z; mc_byte_stats : list BytePositionStats; mc_word16_stats : list Word16Stats
}.
Record FirstLastResult := MkFirstLastResult {
  flr_first_timestamp_us : Z; flr_first_payload : list Z; flr_last_timestamp_us : Z; flr_last_payload : list Z;
  flr_total_count : Z
}.
Record FrequencyBucket := MkBucket {
  fb_bucket_start_us : Z; fb_frame_count : Z; fb_min_interval_us : f64; fb_max_interval_us : f64; fb_avg_interval_us : f64
}.
Record DistributionResult := MkDistributionResult { dr_value : Z; dr_count : Z; dr_percentage : f64 }.
Record GapResult := MkGapResult { gr_gap_start_us : Z; gr_gap_end_us : Z; gr_duration_ms : f64 }.
Record PatternSearchResult := MkPatternResult {
  psr_timestamp_us : Z; psr_frame_id : Z; psr_is_extended : bool; psr_payload : list Z; psr_match_positions : list nat
}.
Record InventoryEntry := MkInventory {
  ie_frame_id : Z; ie_is_extended : bool; ie_count : Z; ie_first_us : Z; ie_last_us : Z; ie_max_dlc : Z; ie_max_len : option Z
}.
Record TimeBounds := MkTimeBounds { min_ts_us : option Z; max_ts_us : option Z }.
Record DatabaseActivity := MkActivity {
  da_pid : Z; da_database : option string; da_username : option string; da_application_name : option string;
  da_client_addr : option string; da_state : option string; da_query : option string; da_query_start : option string;
  da_duration_secs : option f64; da_is_cancellable : bool
}.

(** [diff_indices]. *)
Definition diff_indices (a b : list Z) : list nat :=
  filter (λ i, default 0 (a !! i) ≠ default 0 (b !! i)) (seq 0 (length a `max` length b)).

Section Answers.
Context `{SqlLib}.
(** [Client::query]: the rows PostgreSQL answers the query with. *)
Variable client : Query → result PgError (list PgRow).
(** [Client::query_raw]: the rows of the stream, and the error it breaks off with. *)
Variable row_stream : Query → result PgError (list PgRow * option PgError).

Definition ask (what : string) (q : Query) : result Stop (list PgRow) := map_err (failed what) (client q).
(** [Client::query_one]. *)
Definition query_one (q : Query) : result PgError PgRow :=
  rows <-? client q ;;
  match rows with [row] => Ok row | _ => Err (MkPgError "query returned an unexpected number of rows" None) end.

Definition byte_change (row : PgRow) : result Stop ByteChangeResult :=
  ts <-? get_us row "timestamp_us" ;; old <-? get_i32 row "prev_byte" ;; new <-? get_i32 row "curr_byte" ;;
  Ok (MkByteChange ts (as_u8 old) (as_u8 new)).
Definition byte_changes (p : ByteChangesParams) : result Stop (list ByteChangeResult * QueryStats) :=
  rows <-? ask "Query failed" (byte_changes_query p) ;;
  results <-? collect byte_change rows ;;
  Ok (results, stats (Z.of_nat (length results)) results).

Definition frame_change (row : PgRow) : result Stop FrameChangeResult :=
  old <-? get_bytes row "prev_data" ;; new <-? get_bytes row "data_bytes" ;; ts <-? get_us row "timestamp_us" ;;
  Ok (MkFrameChange ts old new (diff_indices old new)).
Definition frame_changes (p : FrameChangesParams) : result Stop (list FrameChangeResult * QueryStats) :=
  rows <-? ask "Query failed" (frame_changes_query p) ;;
  results <-? collect frame_change rows ;;
  Ok (results, stats (Z.of_nat (length results)) results).

Definition mirror_result (row : PgRow) : result Stop MirrorValidationResult :=
  m <-? get_bytes row "mirror_payload" ;; s <-? get_bytes row "source_payload" ;;
  mts <-? get_us row "mirror_ts" ;; sts <-? get_us row "source_ts" ;;
  Ok (MkMirrorResult mts sts m s (diff_indices m s)).
Definition mirror_validation (p : MirrorValidationParams) : result Stop (list MirrorValidationResult * QueryStats) :=
  rows <-? ask "Query failed" (mirror_query p) ;;
  results <-? collect mirror_result rows ;;
  Ok (results, stats (Z.of_nat (length results)) results).

(** The cases by their selector, a [BTreeMap<u16, MuxCaseStats>]. *)
Definition Cases : Type := gmap Z MuxCaseStats.
Definition push_byte (b : BytePositionStats) (c : MuxCaseStats) : MuxCaseStats :=
  MkMuxCase (mc_mux_value c) (mc_frame_count c) (mc_byte_stats c ++ [b]) (mc_word16_stats c).
Definition push_words (ws : list Word16Stats) (c : MuxCaseStats) : MuxCaseStats :=
  MkMuxCase (mc_mux_value c) (mc_frame_count c) (mc_byte_stats c) (mc_word16_stats c ++ ws).

Fixpoint mux_count (rows : list PgRow) (cases : Cases) (total_frames : Z) : result Stop (Cases * Z) :=
  match rows with
  | [] => Ok (cases, total_frames)
  | row :: rows =>
      v <-? get_i32 row "mux_value" ;; n <-? get_i64 row "frame_count" ;;
      let v := as_u16 v in let n := as_u64 n in
      mux_count rows (<[v := MkMuxCase v n [] []]> cases) (total_frames + n)
  end.
Definition byte_stats (row : PgRow) : result Stop BytePositionStats :=
  i <-? get_i32 row "byte_index" ;; lo <-? get_i32 row "min" ;; hi <-? get_i32 row "max" ;; avg <-? get_f64 row "avg" ;;
  d <-? get_i64 row "distinct_count" ;; n <-? get_i64 row "sample_count" ;;
  Ok (MkByteStats (as_u8 i) (as_u8 lo) (as_u8 hi) avg (as_u32 d) (as_u64 n)).
Definition word_stats (row : PgRow) (start_byte : Z) (prefix : string) : result Stop Word16Stats :=
  lo <-? get_i32 row (prefix +:+ "_min") ;; hi <-? get_i32 row (prefix +:+ "_max") ;;
  avg <-? get_f64 row (prefix +:+ "_avg") ;; d <-? get_i64 row (prefix +:+ "_distinct") ;;
  Ok (MkWordStats start_byte prefix (as_u16 lo) (as_u16 hi) avg (as_u32 d)).
(** A row of a selector no case was counted for is left out. *)
Fixpoint mux_bytes (rows : list PgRow) (cases : Cases) : result Stop Cases :=
  match rows with
  | [] => Ok cases
  | row :: rows =>
      v <-? get_i32 row "mux_value" ;;
      match cases !! as_u16 v with
      | Some case => b <-? byte_stats row ;; mux_bytes rows (<[as_u16 v := push_byte b case]> cases)
      | None => mux_bytes rows cases
      end
  end.
Fixpoint mux_words (rows : list PgRow) (cases : Cases) : result Stop Cases :=
  match rows with
  | [] => Ok cases
  | row :: rows =>
      v <-? get_i32 row "mux_value" ;;
      match cases !! as_u16 v with
      | Some case =>
          sb <-? get_i32 row "start_byte" ;;
          le <-? word_stats row (as_u8 sb) "le" ;; be <-? word_stats row (as_u8 sb) "be" ;;
          mux_words rows (<[as_u16 v := push_words [le; be] case]> cases)
      | None => mux_words rows cases
      end
  end.
(** [into_values]: in the order of the selector. *)
Definition in_order (cases : Cases) : list MuxCaseStats :=
  omap (λ v, cases !! v) (seqZ 0 (2 ^ 16)).
Definition mux_statistics (p : MuxStatisticsParams) : result Stop (Z * Z * list MuxCaseStats * QueryStats) :=
  count_rows <-? ask "Query failed" (mux_count_query p) ;;
  byte_rows <-? ask "Byte stats query failed" (mux_byte_query p) ;;
  counted <-? mux_count count_rows ∅ 0 ;;
  let '(cases, total_frames) := counted in
  cases <-? mux_bytes byte_rows cases ;;
  cases <-? (if mx_include_16bit p then
    word_rows <-? ask "Word stats query failed" (mux_word_query p) ;; mux_words word_rows cases
  else Ok cases) ;;
  Ok (mx_mux_selector_byte p, total_frames, in_order cases, MkStats total_frames (Z.of_nat (size cases))).

Definition head_row (rows : list PgRow) : result Stop PgRow := match rows with row :: _ => Ok row | [] => Err Panicked end.
Definition first_last (p : FirstLastParams) : result Stop (FirstLastResult * QueryStats) :=
  first_rows <-? ask "First query failed" (first_query p) ;;
  match first_rows with
  | [] => bad_request "No frames found matching the filter"
  | first :: _ =>
      last_rows <-? ask "Last query failed" (last_query p) ;;
      count_rows <-? ask "Count query failed" (count_query p) ;;
      fts <-? get_us first "timestamp_us" ;; fd <-? get_bytes first "data_bytes" ;;
      last <-? head_row last_rows ;;
      lts <-? get_us last "timestamp_us" ;; ld <-? get_bytes last "data_bytes" ;;
      count <-? head_row count_rows ;; n <-? get_i64 count "count" ;;
      Ok (MkFirstLastResult fts fd lts ld n, MkStats 3 1)
  end.

Definition frequency_bucket (row : PgRow) : result Stop FrequencyBucket :=
  n <-? get_i64 row "frame_count" ;; b <-? get_us row "bucket_start_us" ;;
  lo <-? get_f64 row "min_interval_us" ;; hi <-? get_f64 row "max_interval_us" ;; avg <-? get_f64 row "avg_interval_us" ;;
  Ok (MkBucket b n lo hi avg).
Definition frequency (p : FrequencyParams) : result Stop (list FrequencyBucket * QueryStats) :=
  rows <-? ask "Query failed" (frequency_query p) ;;
  results <-? collect frequency_bucket rows ;;
  Ok (results, stats (foldl (λ n b, n + as_u64 (fb_frame_count b)) 0 results) results).

Definition value_count (row : PgRow) : result Stop (Z * Z) :=
  count <-? get_i64 row "count" ;; value <-? get_i32 row "value" ;; Ok (as_u8 value, count).
Definition percentage (count total : Z) : f64 :=
  if 0 <? total then f64_mul (f64_div (of_Z count) (of_Z total)) (of_Z 100) else of_Z 0.
Definition distribution (p : DistributionParams) : result Stop (list DistributionResult * QueryStats) :=
  rows <-? ask "Query failed" (distribution_query p) ;;
  counts <-? collect value_count rows ;;
  let total := foldl (λ n c, n + c.2) 0 counts in
  let results := (λ c, MkDistributionResult c.1 c.2 (percentage c.2 total)) <$> counts in
  Ok (results, stats (Z.of_nat (length results)) results).

Definition gap_result (row : PgRow) : result Stop GapResult :=
  s <-? get_us row "gap_start_us" ;; e <-? get_us row "gap_end_us" ;; d <-? get_f64 row "duration_ms" ;;
  Ok (MkGapResult s e d).
Definition gap_analysis (p : GapAnalysisParams) : result Stop (list GapResult * QueryStats) :=
  rows <-? ask "Query failed" (gap_query p) ;;
  results <-? collect gap_result rows ;;
  Ok (results, stats (Z.of_nat (length results)) results).

(** [(0..pattern.len()).all(...)] at [start]. *)
Definition matches_at (p : PatternSearchParams) (data : list Z) (start : nat) : bool :=
  forallb (λ j, let mask := default 0 (ps_pattern_mask p !! j) in
    Z.land (default 0 (data !! (start + j)%nat)) mask =? Z.land (default 0 (ps_pattern p !! j)) mask)
    (seq 0 (length (ps_pattern p))).
Definition match_positions (p : PatternSearchParams) (data : list Z) : list nat :=
  filter (λ start, matches_at p data start = true) (seq 0 (S (length data - length (ps_pattern p)))).
(** The loop over the row stream, which ends, or fails, after its rows. *)
Fixpoint search_rows (p : PatternSearchParams) (limit : nat) (fault : option PgError) (rows : list PgRow) (scanned : Z)
    (results : list PatternSearchResult) : result Stop (list PatternSearchResult * Z) :=
  match rows with
  | [] => match fault with Some e => Err (failed "Row fetch failed" e) | None => Ok (results, scanned) end
  | row :: rows =>
      let scanned := scanned + 1 in
      data <-? get_bytes row "data_bytes" ;;
      if (length data <? length (ps_pattern p))%nat then search_rows p limit fault rows scanned results
      else match match_positions p data with
      | [] => search_rows p limit fault rows scanned results
      | ms =>
          ts <-? get_us row "timestamp_us" ;; id <-? get_i32 row "frame_id" ;; ext <-? get_bool row "extended" ;;
          let results := results ++ [MkPatternResult ts (as_u32 id) ext data ms] in
          if (limit <=? length results)%nat then Ok (results, scanned) else search_rows p limit fault rows scanned results
      end
  end.
Definition pattern_search (p : PatternSearchParams) : result Stop (list PatternSearchResult * QueryStats) :=
  if negb (length (ps_pattern p) =? length (ps_pattern_mask p))%nat then
    bad_request "Pattern and mask must have the same length"
  else if (length (ps_pattern p) =? 0)%nat then bad_request "Pattern must not be empty"
  else
    rows <-? map_err (failed "Query failed") (row_stream (pattern_query p)) ;;
    found <-? search_rows p (Z.to_nat (default 10000 (ps_limit p))) rows.2 rows.1 0 [] ;;
    Ok (found.1, stats found.2 found.1).

Definition rollup_available : bool :=
  match query_one rollup_probe with Ok ((_, VBool b) :: _) => b | _ => false end.
Definition payload_len (protocol : Protocol) (dlc : Z) : Z :=
  match protocol with ProtoCan => as_u16 (dlc_to_len (as_u8 dlc) true) | ProtoModbusRtu | ProtoSerial => dlc end.
Definition inventory_entry (protocol : option Protocol) (row : PgRow) : result Stop InventoryEntry :=
  dlc <-? get_i32 row "max_dlc" ;; id <-? get_i32 row "id" ;; ext <-? get_bool row "extended" ;; n <-? get_i64 row "cnt" ;;
  f <-? get_us row "first_us" ;; l <-? get_us row "last_us" ;;
  Ok (MkInventory (as_u32 id) ext n f l (as_u16 dlc) (Some (payload_len (default DEFAULT_PROTOCOL protocol) (as_u16 dlc)))).
Definition inventory (start_time end_time : option string) (protocol : option Protocol) : result Stop (list InventoryEntry) :=
  if bool_decide (start_time = None) && bool_decide (end_time = None) && rollup_available then
    rows <-? ask "Inventory rollup query failed" (inventory_rollup_query protocol) ;;
    collect (inventory_entry protocol) rows
  else
    rows <-? ask "Inventory query failed" (inventory_query start_time end_time protocol) ;;
    collect (inventory_entry protocol) rows.

Definition time_bounds (protocol : option Protocol) : result Stop TimeBounds :=
  row <-? map_err (failed "Time bounds query failed") (query_one (time_bounds_query rollup_available protocol)) ;;
  lo <-? get_opt get_f64 row "min_us" ;; hi <-? get_opt get_f64 row "max_us" ;;
  Ok (MkTimeBounds (as_i64 <$> lo) (as_i64 <$> hi)).

Definition payloads (p : PayloadsParams) : result Stop (list (list Z)) :=
  rows <-? ask "Payload fetch failed" (payloads_query p) ;; collect (λ row, get_bytes row "data_bytes") rows.

Definition activity_entry (row : PgRow) : result Stop DatabaseActivity :=
  state <-? get_opt get_text row "state" ;; pid <-? get_i32 row "pid" ;; db <-? get_opt get_text row "database" ;;
  user <-? get_opt get_text row "username" ;; app <-? get_opt get_text row "application_name" ;;
  addr <-? get_opt get_text row "client_addr" ;; query <-? get_opt get_text row "query" ;;
  start <-? get_opt get_text row "query_start" ;; secs <-? get_opt get_f64 row "duration_secs" ;;
  Ok (MkActivity pid db user app addr state query start secs (bool_decide (state = Some "active"))).
(** The queries and the sessions. *)
Definition activity (database : string) : result Stop (list DatabaseActivity * list DatabaseActivity) :=
  rows <-? ask "Activity query failed" (activity_query database) ;;
  entries <-? collect activity_entry rows ;;
  Ok (filter (λ e, da_is_cancellable e = true) entries, filter (λ e, da_is_cancellable e = false) entries).

Definition signal_backend (pid : Z) (terminate : bool) : result Stop bool :=
  row <-? map_err (failed (signal_function terminate +:+ " failed")) (query_one (signal_query pid terminate)) ;;
  match row with (_, VBool b) :: _ => Ok b | _ => Err Panicked end.
End Answers.

(** ** What the clauses select *)

Lemma lookup_past {A} (l k : list A) n i : n = (length l + i)%nat → (l ++ k) !! n = k !! i.
Proof. intros ->. rewrite lookup_app_r by lia. f_equal. lia. Qed.

Lemma land_bit flags n : 0 ≤ n → (Z.land flags (2 ^ n) =? 0) = negb (Z.testbit flags n).
Proof.
  intros Hn. destruct (Z.testbit flags n) eqn:Hb; cbn.
  - apply Z.eqb_neq. intros H0. apply (f_equal (λ z, Z.testbit z n)) in H0.
    rewrite Z.land_spec, Hb, Z.pow2_bits_true, Z.bits_0 in H0 by lia. done.
  - apply Z.eqb_eq, Z.bits_inj'. intros m Hm. rewrite Z.land_spec, Z.pow2_bits_eqb, Z.bits_0 by lia.
    destruct (Z.eqb_spec n m) as [<-|]; [by rewrite Hb|by rewrite andb_false_r].
Qed.

Section Selects.
Context `{SqlLib, !RowLaws}.

(** The frames a filter is for. *)
Definition matches (f : FrameFilter) (row : FrameRow) : Prop :=
  row_protocol row = default ProtoCan (ff_protocol f) ∧
  row_id row = as_i32 (ff_frame_id f) ∧
  (∀ e, ff_is_extended f = Some e → Z.testbit (row_flags row) 3 = e) ∧
  Z.testbit (row_flags row) 0 = false ∧
  (∀ s, ff_start_time f = Some s → ∃ t, timestamptz s = Some t ∧ t ≤ row_ts_us row) ∧
  (∀ s, ff_end_time f = Some s → ∃ t, timestamptz s = Some t ∧ row_ts_us row < t).

Lemma protocol_str_eqb a b : str_eqb (protocol_str a) (protocol_str b) = bool_decide (a = b).
Proof. destruct protocol_names as (Hc & Hm & Hs). destruct a, b; rewrite ?Hc, ?Hm, ?Hs; reflexivity. Qed.

Lemma all_hold_Forall args row cs : all_hold args row cs = Some true ↔ Forall (λ c, holds args row c = Some true) cs.
Proof.
  induction cs as [|c cs IH]; cbn [all_hold]; [done|]. rewrite Forall_cons, <- IH.
  destruct (holds args row c) as [[]|], (all_hold args row cs) as [[]|]; cbn; naive_solver.
Qed.

Lemma holds_protocol args n p row :
  args !! pred n = Some (AText (protocol_str p)) → holds args row (CProtocol n) = Some true ↔ row_protocol row = p.
Proof.
  intros Hn. cbn [holds]. rewrite Hn, protocol_str_eqb. destruct (bool_decide_reflect (row_protocol row = p)); naive_solver.
Qed.
Lemma holds_id args n z row :
  args !! pred n = Some (AInt z) → holds args row (CId n) = Some true ↔ row_id row = z.
Proof. intros Hn. cbn [holds]. rewrite Hn. destruct (Z.eqb_spec (row_id row) z); naive_solver. Qed.
Lemma holds_extended args n e row :
  args !! pred n = Some (ABool e) → holds args row (CExtended n) = Some true ↔ Z.testbit (row_flags row) 3 = e.
Proof.
  intros Hn. cbn [holds]. rewrite Hn, (land_bit _ 3), negb_involutive by lia.
  destruct (Z.testbit (row_flags row) 3), e; naive_solver.
Qed.
Lemma holds_since args n us row :
  args !! pred n = Some (AMicros us) → holds args row (CSince n) = Some true ↔ to_timestamp_us us ≤ row_ts_us row.
Proof. intros Hn. cbn [holds]. rewrite Hn. destruct (Z.leb_spec (to_timestamp_us us) (row_ts_us row)); split; done || lia. Qed.
Lemma holds_start args n s row :
  args !! pred n = Some (AText s) →
  holds args row (CStart n) = Some true ↔ ∃ t, timestamptz s = Some t ∧ t ≤ row_ts_us row.
Proof.
  intros Hn. cbn [holds]. rewrite Hn. destruct (timestamptz s) as [t|]; cbn; [|naive_solver].
  destruct (Z.leb_spec t (row_ts_us row)); split; [eauto|done|done|]. intros (t' & [= <-] & ?). lia.
Qed.
Lemma holds_end args n s row :
  args !! pred n = Some (AText s) →
  holds args row (CEnd n) = Some true ↔ ∃ t, timestamptz s = Some t ∧ row_ts_us row < t.
Proof.
  intros Hn. cbn [holds]. rewrite Hn. destruct (timestamptz s) as [t|]; cbn; [|naive_solver].
  destruct (Z.ltb_spec (row_ts_us row) t); split; [eauto|done|done|]. intros (t' & [= <-] & ?). lia.
Qed.
Lemma holds_not_remote args row : holds args row CNotRemote = Some true ↔ Z.testbit (row_flags row) 0 = false.
Proof. cbn [holds]. rewrite (land_bit _ 0) by lia. destruct (Z.testbit (row_flags row) 0); naive_solver. Qed.

(** The placeholder of the argument the clause has just added. *)
Ltac placed := rewrite Nat.pred_succ; rewrite <- ?app_assoc; cbn [app]; rewrite ?length_app; cbn [length];
  first [ erewrite (lookup_past _ _ _ 0) by lia | erewrite (lookup_past _ _ _ 1) by lia
        | erewrite (lookup_past _ _ _ 2) by lia | erewrite (lookup_past _ _ _ 3) by lia
        | erewrite (lookup_past _ _ _ 4) by lia ]; reflexivity.

Lemma where_clause_holds (f : FrameFilter) (before : Args) (row : FrameRow) :
  let '(cs, args) := where_clause f before in
  (all_hold args row cs = Some true ↔ matches f row) ∧ take (length before) args = before.
Proof.
  destruct f as [id ext proto start end_]. unfold where_clause, protocol_clause, extended_clause, time_clause, add_arg, matches.
  destruct ext as [e|], start as [s|], end_ as [t|]; cbn [ff_frame_id ff_is_extended ff_protocol ff_start_time ff_end_time app].
  all: split; [|rewrite <- ?app_assoc; apply take_app_length].
  all: rewrite all_hold_Forall, ?Forall_cons, Forall_nil, holds_not_remote.
  all: erewrite holds_protocol by placed; erewrite holds_id by placed.
  all: try erewrite holds_extended by placed.
  all: try erewrite holds_start by placed.
  all: try erewrite holds_end by placed.
  all: change DEFAULT_PROTOCOL with ProtoCan; naive_solver.
Qed.

(** The WHERE clause of a filter, added after any arguments, selects exactly
    the frames the filter is for, by its own arguments, and leaves the earlier
    ones where their placeholders look for them; no condition is refused where
    the times are ones PostgreSQL reads. *)
Theorem where_clause_selects (f : FrameFilter) (before : Args) (row : FrameRow) :
  let '(cs, args) := where_clause f before in
  (all_hold args row cs = Some true ↔ matches f row) ∧ take (length before) args = before.
Proof. exact (where_clause_holds f before row). Qed.
End Selects.

(** ** What reaches the text *)

(** Every query a caller's words go into. *)
Inductive Asked :=
  | AskByteChanges (p : ByteChangesParams) | AskFrameChanges (p : FrameChangesParams)
  | AskMirror (p : MirrorValidationParams) | AskMuxCount (p : MuxStatisticsParams) | AskMuxBytes (p : MuxStatisticsParams)
  | AskMuxWords (p : MuxStatisticsParams) | AskFirst (p : FirstLastParams) | AskLast (p : FirstLastParams)
  | AskCount (p : FirstLastParams) | AskFrequency (p : FrequencyParams) | AskDistribution (p : DistributionParams)
  | AskGaps (p : GapAnalysisParams) | AskPattern (p : PatternSearchParams)
  | AskInventory (start_time end_time : option string) (protocol : option Protocol)
  | AskRollup (protocol : option Protocol) | AskBounds (rollup : bool) (protocol : option Protocol)
  | AskFrames (start_time end_time : option string) (cursor : option (Z * Z)) (limit : Z) (protocol : option Protocol)
  | AskPayloads (p : PayloadsParams) | AskActivity (database : string) | AskSignal (pid : Z) (terminate : bool).

Section Asks.
Context `{SqlLib}.

Definition query_of (q : Asked) : Query :=
  match q with
  | AskByteChanges p => byte_changes_query p | AskFrameChanges p => frame_changes_query p
  | AskMirror p => mirror_query p | AskMuxCount p => mux_count_query p | AskMuxBytes p => mux_byte_query p
  | AskMuxWords p => mux_word_query p | AskFirst p => first_query p | AskLast p => last_query p
  | AskCount p => count_query p | AskFrequency p => frequency_query p | AskDistribution p => distribution_query p
  | AskGaps p => gap_query p | AskPattern p => pattern_query p | AskInventory s e o => inventory_query s e o
  | AskRollup o => inventory_rollup_query o | AskBounds r o => time_bounds_query r o
  | AskFrames s e c l o => frames_sql (frames_select s e c l o) | AskPayloads p => payloads_query p
  | AskActivity d => activity_query d | AskSignal pid t => signal_query pid t
  end.
End Asks.

(** A request with every text, id and byte it names replaced by a blank: what is
    left is which fields are there, the limits and the sizes. *)
Definition blank (o : option string) : option string := (λ _, EmptyString) <$> o.
Definition blank_filter (f : FrameFilter) : FrameFilter :=
  MkFilter 0 ((λ _, false) <$> ff_is_extended f) None (blank (ff_start_time f)) (blank (ff_end_time f)).
Definition blanked (q : Asked) : Asked :=
  match q with
  | AskByteChanges p => AskByteChanges (MkByteChanges (blank_filter (bc_filter p)) 0 (bc_limit p))
  | AskFrameChanges p => AskFrameChanges (MkFrameChanges (blank_filter (fc_filter p)) (fc_limit p))
  | AskMirror p => AskMirror (MkMirror 0 0 0 None ((λ _, false) <$> mv_is_extended p) (blank (mv_start_time p)) (blank (mv_end_time p)) (mv_limit p))
  | AskMuxCount p => AskMuxCount (MkMux (blank_filter (mx_filter p)) (mx_mux_selector_byte p) (mx_payload_length p) false (mx_limit p))
  | AskMuxBytes p => AskMuxBytes (MkMux (blank_filter (mx_filter p)) (mx_mux_selector_byte p) (mx_payload_length p) false (mx_limit p))
  | AskMuxWords p => AskMuxWords (MkMux (blank_filter (mx_filter p)) (mx_mux_selector_byte p) (mx_payload_length p) false (mx_limit p))
  | AskFirst p => AskFirst (MkFirstLast (blank_filter (fl_filter p)))
  | AskLast p => AskLast (MkFirstLast (blank_filter (fl_filter p)))
  | AskCount p => AskCount (MkFirstLast (blank_filter (fl_filter p)))
  | AskFrequency p => AskFrequency (MkFrequency (blank_filter (fq_filter p)) (fq_bucket_size_ms p) (fq_limit p))
  | AskDistribution p => AskDistribution (MkDistribution (blank_filter (ds_filter p)) 0)
  | AskGaps p => AskGaps (MkGap (blank_filter (ga_filter p)) (ga_gap_threshold_ms p) (ga_limit p))
  | AskPattern p => AskPattern (MkPattern [] [] None (blank (ps_start_time p)) (blank (ps_end_time p)) None)
  | AskInventory s e o => AskInventory (blank s) (blank e) None
  | AskRollup o => AskRollup None
  | AskBounds r o => AskBounds r None
  | AskFrames s e c l o => AskFrames (blank s) (blank e) ((λ c, (0, c.2)) <$> c) l None
  | AskPayloads p => AskPayloads (MkPayloads (blank_filter (pl_filter p)) (pl_limit p))
  | AskActivity d => AskActivity EmptyString
  | AskSignal pid t => AskSignal 0 t
  end.

Section Injection.
Context `{SqlLib}.

Lemma where_clause_blank f n args args' :
  length args = n → length args' = n → (where_clause f args).1 = (where_clause (blank_filter f) args').1.
Proof.
  intros Ha Ha'. destruct f as [id ext proto start end_].
  unfold where_clause, protocol_clause, extended_clause, time_clause, add_arg, blank_filter, blank.
  destruct ext, start, end_; cbn; rewrite ?length_app, Ha, Ha'; reflexivity.
Qed.

(** No text, id or byte of a request reaches the text of a query, in any of
    the gateway's queries: blanking them leaves the text as it was, so they reach
    PostgreSQL as arguments only. *)
Theorem query_text_fixed (q : Asked) : (query_of q).1 = (query_of (blanked q)).1.
Proof.
  assert (Hw : ∀ f args args', length args = length args' →
    ∃ w a a', where_clause f args = (w, a) ∧ where_clause (blank_filter f) args' = (w, a')).
  { intros f args args' Hl. pose proof (where_clause_blank f _ args args' eq_refl (eq_sym Hl)) as Hf.
    destruct (where_clause f args), (where_clause (blank_filter f) args'). cbn in Hf. subst. eauto. }
  destruct q; cbn [query_of blanked];
    unfold byte_changes_query, frame_changes_query, mux_count_query, mux_byte_query, mux_word_query, mux_source, first_query,
      last_query, count_query, frequency_query, distribution_query, gap_query, payloads_query, add_arg;
    cbn [app bc_filter fc_filter mx_filter fl_filter fq_filter ds_filter ga_filter pl_filter].
  all: try (match goal with |- context [where_clause ?f ?a] =>
    match goal with |- context [where_clause (blank_filter f) ?b] =>
      destruct (Hw f a b eq_refl) as (w & args & args' & Hq & Hq') end end; rewrite Hq, Hq'; reflexivity).
  - destruct p as [mid sid tol proto ext start end_ limit].
    unfold mirror_query, extended_clause, time_clause. destruct ext, start, end_; reflexivity.
  - destruct p as [pat mask proto start end_ limit]. unfold pattern_query, time_clause. destruct start, end_; reflexivity.
  - unfold inventory_query, time_clause. destruct start_time, end_time; reflexivity.
  - reflexivity.
  - destruct rollup; reflexivity.
  - unfold frames_select, time_clause. destruct cursor as [[ts skip]|], start_time, end_time; reflexivity.
  - reflexivity.
  - reflexivity.
Qed.
End Injection.

(** ** Pattern search *)

Section Search.
Context `{SqlLib}.

(** The row as [pattern_query] returns it. *)
Definition pattern_row (row : FrameRow) : PgRow :=
  [("timestamp_us", VFloat8 (of_Z (row_ts_us row))); ("frame_id", VInt4 (row_id row));
   ("extended", VBool (negb (Z.land (row_flags row) 8 =? 0))); ("data_bytes", VBytea (row_data row))].
(** The answer for a frame, and the frames it is given for. *)
Definition found (p : PatternSearchParams) (row : FrameRow) : PatternSearchResult :=
  MkPatternResult (as_i64 (of_Z (row_ts_us row))) (as_u32 (row_id row)) (negb (Z.land (row_flags row) 8 =? 0)) (row_data row)
    (match_positions p (row_data row)).
Definition occurs_at (p : PatternSearchParams) (data : list Z) (start : nat) : Prop :=
  (start + length (ps_pattern p) ≤ length data)%nat ∧
  ∀ j x m, ps_pattern p !! j = Some x → ps_pattern_mask p !! j = Some m →
    ∃ y, data !! (start + j)%nat = Some y ∧ Z.land y m = Z.land x m.
Definition occurs (p : PatternSearchParams) (row : FrameRow) : bool :=
  (length (ps_pattern p) <=? length (row_data row))%nat && negb (bool_decide (match_positions p (row_data row) = [])).

Lemma match_positions_spec p data start :
  length (ps_pattern p) = length (ps_pattern_mask p) → (length (ps_pattern p) ≤ length data)%nat →
  start ∈ match_positions p data ↔ occurs_at p data start.
Proof.
  intros Hl Hd. unfold match_positions, occurs_at. rewrite list_elem_of_filter, elem_of_seq. split.
  - intros [Hm Hs]. split; [lia|]. intros j x m Hx Hmask. unfold matches_at in Hm. rewrite forallb_forall in Hm.
    pose proof (lookup_lt_Some _ _ _ Hx) as Hj.
    destruct (lookup_lt_is_Some_2 data (start + j)) as [y Hy]; [lia|]. exists y. split; [done|].
    specialize (Hm j). rewrite Hx, Hmask, Hy in Hm. cbn in Hm. apply Z.eqb_eq, Hm, in_seq. lia.
  - intros [Hs Hocc]. split; [|lia]. unfold matches_at. rewrite forallb_forall. intros j Hj. apply in_seq in Hj.
    destruct (lookup_lt_is_Some_2 (ps_pattern p) j) as [x Hx]; [lia|].
    destruct (lookup_lt_is_Some_2 (ps_pattern_mask p) j) as [m Hm]; [lia|].
    destruct (Hocc j x m Hx Hm) as (y & Hy & Heq). rewrite Hx, Hm, Hy. cbn. by apply Z.eqb_eq.
Qed.

Lemma occurs_spec p row :
  length (ps_pattern p) = length (ps_pattern_mask p) → occurs p row = true ↔ ∃ start, occurs_at p (row_data row) start.
Proof.
  intros Hl. unfold occurs. destruct (Nat.leb_spec (length (ps_pattern p)) (length (row_data row))) as [Hd|Hd]; cbn [andb].
  - rewrite negb_true_iff, bool_decide_eq_false. split.
    + intros Hne. destruct (match_positions p (row_data row)) as [|s ms] eqn:Hm; [done|]. exists s.
      apply match_positions_spec; [done|done|]. rewrite Hm. left.
    + intros [s Hs]. apply match_positions_spec in Hs; [|done|done]. intros Hm. rewrite Hm in Hs. by apply not_elem_of_nil in Hs.
  - split; [done|]. intros (s & Hs & _). lia.
Qed.

(** A row at a time: a frame that holds the pattern is one more result. *)
Lemma search_rows_step p limit fault row rows scanned results :
  search_rows p limit fault (pattern_row row :: rows) scanned results =
  if occurs p row then
    if (limit <=? S (length results))%nat then Ok (results ++ [found p row], scanned + 1)
    else search_rows p limit fault rows (scanned + 1) (results ++ [found p row])
  else search_rows p limit fault rows (scanned + 1) results.
Proof.
  cbn [search_rows]. unfold occurs.
  change (get_bytes (pattern_row row) "data_bytes") with (Ok (E := Stop) (row_data row)). cbn iota beta.
  destruct (Nat.ltb_spec (length (row_data row)) (length (ps_pattern p))) as [Hlt|Hge].
  - by destruct (Nat.leb_spec (length (ps_pattern p)) (length (row_data row))); [lia|].
  - destruct (Nat.leb_spec (length (ps_pattern p)) (length (row_data row))); [|lia]. cbn [andb]. unfold found.
    destruct (match_positions p (row_data row)) as [|m ms]; [done|].
    rewrite bool_decide_false by done. cbn [negb].
    change (get_us (pattern_row row) "timestamp_us") with (Ok (E := Stop) (as_i64 (of_Z (row_ts_us row)))).
    change (get_i32 (pattern_row row) "frame_id") with (Ok (E := Stop) (row_id row)).
    change (get_bool (pattern_row row) "extended") with (Ok (E := Stop) (negb (Z.land (row_flags row) 8 =? 0))).
    cbn iota beta zeta. rewrite length_app. cbn [length]. rewrite Nat.add_1_r. done.
Qed.

Lemma search_rows_take p limit rows :
  ∀ scanned results, (length results < limit `max` 1)%nat → ∃ n,
    search_rows p limit None (pattern_row <$> rows) scanned results =
    Ok (results ++ take (limit `max` 1 - length results) (found p <$> filter (λ row, occurs p row = true) rows), n).
Proof.
  induction rows as [|row rows IH]; intros scanned results Hlt.
  { exists scanned. cbn. rewrite take_nil, app_nil_r. done. }
  rewrite fmap_cons, search_rows_step. destruct (occurs p row) eqn:Hocc.
  - rewrite filter_cons_True by done. cbn [fmap list_fmap].
    destruct (Nat.leb_spec limit (S (length results))).
    + eexists. replace (limit `max` 1 - length results)%nat with 1%nat by lia. cbn. rewrite take_0. done.
    + destruct (IH (scanned + 1) (results ++ [found p row])) as [n ->]; [rewrite length_app; cbn; lia|]. exists n.
      rewrite length_app. cbn [length].
      replace (limit `max` 1 - length results)%nat with (S (limit `max` 1 - (length results + 1)))%nat by lia.
      cbn [take]. rewrite <- app_assoc. done.
  - rewrite filter_cons_False by congruence. by apply IH.
Qed.

(** C27: a pattern search over any table answers the first [limit] frames, one
    at least, in which the pattern occurs under its mask, in order, with every
    offset it occurs at; stopping the stream early loses none. *)
Theorem pattern_search_exact (client : Query → result PgError (list PgRow * option PgError)) (p : PatternSearchParams)
    (table : list FrameRow) :
  ps_pattern p ≠ [] → length (ps_pattern p) = length (ps_pattern_mask p) →
  client (pattern_query p) = Ok (pattern_row <$> table, None) →
  (∃ stats, pattern_search client p =
    Ok (take (Z.to_nat (default 10000 (ps_limit p)) `max` 1) (found p <$> filter (λ row, occurs p row = true) table), stats)) ∧
  (∀ row, occurs p row = true ↔ ∃ start, occurs_at p (row_data row) start) ∧
  (∀ row start, occurs p row = true → start ∈ psr_match_positions (found p row) ↔ occurs_at p (row_data row) start).
Proof.
  intros Hne Hl Hc. split_and!.
  - unfold pattern_search. rewrite <- Hl, Nat.eqb_refl. cbn [negb].
    destruct (Nat.eqb_spec (length (ps_pattern p)) 0) as [Hz|_]; [by destruct (ps_pattern p)|].
    rewrite Hc. cbn [map_err fst snd].
    destruct (search_rows_take p (Z.to_nat (default 10000 (ps_limit p))) table 0 []) as [n ->]; [cbn; lia|].
    cbn [length app fst snd]. rewrite Nat.sub_0_r. eauto.
  - intros row. by apply occurs_spec.
  - intros row start Hocc. apply match_positions_spec; [done|].
    unfold occurs in Hocc. apply andb_true_iff in Hocc as [Hle _]. by apply Nat.leb_le.
Qed.
End Search.

(** ** Distribution *)

#[global] Instance f64_eq_dec : EqDecision f64.
Proof. solve_decision. Defined.
#[global] Instance PgVal_eq_dec : EqDecision PgVal.
Proof. solve_decision. Defined.

(** [public.get_byte_safe] of [init_schema.sql], and the rows [distribution_query]
    groups the selected frames into. *)
Definition get_byte_safe (data : list Z) (n : Z) : PgVal :=
  match data !! Z.to_nat n with Some b => VInt4 b | None => VNull end.
Definition value_row (n : Z) (frames : list FrameRow) (v : PgVal) : PgRow :=
  [("value", v); ("count", VInt8 (Z.of_nat (length (filter (λ row, get_byte_safe (row_data row) n = v) frames))))].
Definition byte_groups (n : Z) (frames : list FrameRow) : list PgRow :=
  value_row n frames <$> remove_dups ((λ row, get_byte_safe (row_data row) n) <$> frames).

Section Distribution.
Context `{SqlLib, !RowLaws}.

Definition selected (p : DistributionParams) (table : list FrameRow) : list FrameRow :=
  let '(cs, args) := where_clause (ds_filter p) [AInt (as_i32 (ds_byte_index p))] in
  filter (λ row, all_hold args row cs = Some true) table.

Lemma selected_spec p table row : row ∈ selected p table ↔ matches (ds_filter p) row ∧ row ∈ table.
Proof.
  unfold selected. pose proof (where_clause_holds (ds_filter p) [AInt (as_i32 (ds_byte_index p))] row) as Hw.
  destruct (where_clause (ds_filter p) _) as [cs args]. destruct Hw as [Hw _]. rewrite list_elem_of_filter, Hw. done.
Qed.

Lemma as_i32_small z : 0 ≤ z < 2 ^ 31 → as_i32 z = z.
Proof. intros Hz. unfold as_i32. rewrite Z.mod_small; lia. Qed.

Lemma value_row_null n frames : value_count (value_row n frames VNull) = Err Panicked.
Proof. done. Qed.
Lemma value_row_int n frames b :
  value_count (value_row n frames (VInt4 b)) =
  Ok (as_u8 b, Z.of_nat (length (filter (λ row, get_byte_safe (row_data row) n = VInt4 b) frames))).
Proof. done. Qed.
Lemma value_row_stops n frames v e : value_count (value_row n frames v) = Err e → e = Panicked.
Proof.
  unfold value_count. change (get_i64 (value_row n frames v) "count") with
    (Ok (E := Stop) (Z.of_nat (length (filter (λ row, get_byte_safe (row_data row) n = v) frames)))).
  change (get_i32 (value_row n frames v) "value") with (match Some v with Some (VInt4 z) => Ok z | _ => Err Panicked end).
  destruct v; congruence.
Qed.

Lemma collect_stops {A B} (f : A → result Stop B) l x :
  (∀ y e, y ∈ l → f y = Err e → e = Panicked) → x ∈ l → f x = Err Panicked → collect f l = Err Panicked.
Proof.
  intros Hall Hx Hf. induction l as [|y l IH]; [by apply not_elem_of_nil in Hx|]. cbn [collect].
  destruct (f y) as [b|e] eqn:Hy; [|by rewrite (Hall y e ltac:(left) Hy)].
  apply elem_of_cons in Hx as [<-|Hx]; [congruence|]. rewrite IH; [done| |done]. intros z e Hz. apply Hall. by right.
Qed.

Lemma collect_total {E A B} (f : A → result E B) l : (∀ x, x ∈ l → ∃ y, f x = Ok y) → ∃ ys, collect f l = Ok ys.
Proof.
  induction l as [|x l IH]; intros Hall; [by exists []|]. cbn [collect].
  destruct (Hall x ltac:(left)) as [y ->]. destruct IH as [ys ->]; [|by eexists]. intros z Hz. apply Hall. by right.
Qed.

Lemma group_of n frames rows row :
  rows ≡ₚ byte_groups n frames → row ∈ frames → value_row n frames (get_byte_safe (row_data row) n) ∈ rows.
Proof.
  intros -> Hrow. apply list_elem_of_fmap. eexists. split; [done|]. apply elem_of_remove_dups, list_elem_of_fmap. by eexists.
Qed.
Lemma group_from n frames rows x :
  rows ≡ₚ byte_groups n frames → x ∈ rows → ∃ row, row ∈ frames ∧ x = value_row n frames (get_byte_safe (row_data row) n).
Proof.
  intros -> Hx. apply list_elem_of_fmap in Hx as (v & -> & Hv). apply elem_of_remove_dups, list_elem_of_fmap in Hv as (row & -> & ?).
  by eexists.
Qed.

(** [distribution]'s rows, once each is read. *)
Lemma distribution_reads client p rows counts :
  client (distribution_query p) = Ok rows → collect value_count rows = Ok counts →
  ∃ results stats, distribution client p = Ok (results, stats) ∧
    (λ r, (dr_value r, dr_count r)) <$> results = counts.
Proof.
  intros Hc Hcol. unfold distribution, ask. rewrite Hc. cbn [map_err]. rewrite Hcol. do 2 eexists. split; [done|].
  rewrite <- list_fmap_compose.
  etransitivity; [|apply list_fmap_id]. apply list_fmap_ext. by intros i [v' n'] _.
Qed.

(** [distribution] panics when any frame the filter selects is too short to
    hold the byte asked for, since those frames are a group whose value is null
    and the code reads it as an integer; where every frame is long enough the
    answer counts, for each value, the frames with it. *)
Theorem distribution_by_length (client : Query → result PgError (list PgRow)) (p : DistributionParams)
    (table : list FrameRow) (rows : list PgRow) :
  0 ≤ ds_byte_index p < 256 →
  (∀ row, row ∈ table → Forall (λ b, 0 ≤ b < 256) (row_data row)) →
  client (distribution_query p) = Ok rows → rows ≡ₚ byte_groups (as_i32 (ds_byte_index p)) (selected p table) →
  ((∃ row, row ∈ table ∧ matches (ds_filter p) row ∧ Z.of_nat (length (row_data row)) ≤ ds_byte_index p) →
    distribution client p = Err Panicked) ∧
  ((∀ row, row ∈ table → matches (ds_filter p) row → ds_byte_index p < Z.of_nat (length (row_data row))) →
    ∃ results stats, distribution client p = Ok (results, stats) ∧
      (∀ row, row ∈ selected p table → ∃ r, r ∈ results ∧ row_data row !! Z.to_nat (ds_byte_index p) = Some (dr_value r)) ∧
      ∀ r, r ∈ results → dr_count r = Z.of_nat (length
        (filter (λ row, row_data row !! Z.to_nat (ds_byte_index p) = Some (dr_value r)) (selected p table)))).
Proof.
  intros Hidx Hbytes Hc Hp. rewrite (as_i32_small (ds_byte_index p)) in Hp by lia. split.
  - intros (row & Hrow & Hm & Hshort). unfold distribution, ask. rewrite Hc. cbn [map_err].
    assert (Hnull : get_byte_safe (row_data row) (ds_byte_index p) = VNull).
    { unfold get_byte_safe. by rewrite (lookup_ge_None_2 (row_data row)) by lia. }
    rewrite (collect_stops value_count rows (value_row (ds_byte_index p) (selected p table) VNull)); [done| | |done].
    + intros y e Hy He. destruct (group_from _ _ _ _ Hp Hy) as (? & _ & ->). by eapply value_row_stops.
    + rewrite <- Hnull. apply group_of; [done|]. by apply selected_spec.
  - intros Hlong.
    assert (Hbyte : ∀ row, row ∈ selected p table → ∃ b, row_data row !! Z.to_nat (ds_byte_index p) = Some b ∧ 0 ≤ b < 256 ∧
      get_byte_safe (row_data row) (ds_byte_index p) = VInt4 b).
    { intros row [Hm Hrow]%selected_spec. destruct (lookup_lt_is_Some_2 (row_data row) (Z.to_nat (ds_byte_index p))) as [b Hb].
      { specialize (Hlong row Hrow Hm). lia. }
      pose proof (Forall_lookup_1 _ _ _ _ (Hbytes row Hrow) Hb) as Hr. cbn in Hr.
      exists b. split_and!; [done|lia|lia|]. unfold get_byte_safe. by rewrite Hb. }
    destruct (collect_total value_count rows) as [counts Hcol].
    { intros x Hx. destruct (group_from _ _ _ _ Hp Hx) as (row & Hrow & ->). destruct (Hbyte row Hrow) as (b & _ & _ & ->). by eexists. }
    destruct (distribution_reads client p rows counts Hc Hcol) as (results & st & Hd & Hres). exists results, st.
    apply collect_Ok in Hcol. split_and!; [done| |].
    + intros row Hrow. destruct (Hbyte row Hrow) as (b & Hb & Hr & Hv). pose proof (group_of _ _ _ _ Hp Hrow) as Hx. rewrite Hv in Hx.
      apply list_elem_of_lookup in Hx as [i Hi]. destruct (Forall2_lookup_l _ _ _ _ _ Hcol Hi) as (c & Hci & Hvc).
      rewrite value_row_int in Hvc. injection Hvc as <-. rewrite <- Hres, list_lookup_fmap in Hci.
      destruct (results !! i) as [r|] eqn:Hri; [|done]. injection Hci as Hval Hcnt. exists r.
      split; [by eapply list_elem_of_lookup_2|]. rewrite Hb, Hval. unfold as_u8. by rewrite Z.mod_small.
    + intros r Hr. apply list_elem_of_lookup in Hr as [i Hi].
      assert (Hci : counts !! i = Some (dr_value r, dr_count r)) by (by rewrite <- Hres, list_lookup_fmap, Hi).
      destruct (Forall2_lookup_r _ _ _ _ _ Hcol Hci) as (x & Hxi & Hvc).
      destruct (group_from _ _ _ _ Hp (list_elem_of_lookup_2 _ _ _ Hxi)) as (row & Hrow & ->).
      destruct (Hbyte row Hrow) as (b & Hb & Hbr & Hv). rewrite Hv, value_row_int in Hvc. injection Hvc as Hval Hcnt.
      unfold as_u8 in Hval. rewrite Z.mod_small in Hval by lia. rewrite <- Hcnt, <- Hval. do 2 f_equal.
      apply list_filter_iff. intros row'. unfold get_byte_safe. destruct (row_data row' !! _); naive_solver.
Qed.
End Distribution.
