(* ===== verification/Frames.v ===== *)
(** * Paging through frames ([sql.rs], [frames_batch])

    The cursor a batch of frames hands to the next, how a batch is made from the
    rows PostgreSQL answers with, and what following the cursors from the first
    batch gives. PostgreSQL is a parameter that answers a query with its rows in
    [ts] order and promises nothing of the order of frames of one [ts], which is
    what the count of ties in a cursor relies on. *)

From S2P Require Import Prelude F64 Model Source Wire Catalogues Rows Cidr Sql.
From stdpp Require Import sorting.
From Stdlib Require Import Ascii.
Import Sample.
Local Open Scope Z_scope.

(** ** Integers in text *)

(** [from_str] of an integer of the range: a sign, then digits. *)
Definition decimal (c : ascii) : option Z :=
  if ascii_is_digit c then Some (Z.of_nat (nat_of_ascii c) - 48) else None.
Fixpoint digits_from (n : Z) (s : string) : option Z :=
  match s with
  | EmptyString => Some n
  | String c s => d ← decimal c; digits_from (n * 10 + d) s
  end.
Definition parse_int (lo hi : Z) (s : string) : option Z :=
  let '(negative, ds) :=
    match s with
    | String c ds =>
        if bool_decide (c = "+"%char) then (false, ds)
        else if bool_decide (c = "-"%char) && (lo <? 0) then (true, ds) else (false, s)
    | EmptyString => (false, s)
    end in
  match ds with
  | EmptyString => None
  | _ => n ← digits_from 0 ds;
         let z := if negative then - n else n in if (lo <=? z) && (z <=? hi) then Some z else None
  end.
Definition u32_max : Z := 2 ^ 32 - 1.

(** ** The cursor *)

Section Cursor.
Context `{SqlLib}.

Definition encode_cursor (ts_us skip : Z) : string := b64_encode (pretty ts_us +:+ ":" +:+ pretty skip).

Definition decode_cursor (cursor : string) : result string (Z * Z) :=
  raw <-? ok_or (b64_decode cursor) "bad cursor" ;;
  s <-? ok_or (from_utf8 raw) "bad cursor" ;;
  parts <-? ok_or (split_once ":" s) "bad cursor" ;;
  ts <-? ok_or (parse_int i64_min i64_max parts.1) "bad cursor" ;;
  skip <-? ok_or (parse_int 0 u32_max parts.2) "bad cursor" ;;
  Ok (ts, skip).
End Cursor.

(** ** A batch *)

Record FrameBatchRow := MkBatchRow {
  fbr_ts_us : Z; fbr_id : Z; fbr_extended : bool; fbr_dlc : Z; fbr_len : option Z; fbr_is_fd : bool; fbr_is_rtr : bool;
  fbr_is_brs : bool; fbr_is_esi : bool; fbr_bus : Z; fbr_dir : string; fbr_data_hex : string; fbr_crc_valid : option bool
}.
Record FrameBatch := MkBatch { frames : list FrameBatchRow; next_cursor : option string }.

(** [iter().take_while(..).count()]. *)
Fixpoint count_while {A} (f : A → bool) (l : list A) : Z :=
  match l with [] => 0 | x :: l => if f x then 1 + count_while f l else 0 end.

Section Batch.
Context `{SqlLib}.

(** [CanFlags::contains]. *)
Definition has_flag (flags flag : Z) : bool := Z.land flags flag =? flag.
Definition batch_row (row : PgRow) : result Stop FrameBatchRow :=
  data <-? get_bytes row "data_bytes" ;; flags <-? get_i16 row "flags" ;;
  let flags := as_u8 flags in
  ts <-? get_us row "ts_us" ;; id <-? get_i32 row "id" ;; dlc <-? get_i16 row "dlc" ;; bus <-? get_i32 row "bus" ;;
  crc <-? get_opt get_bool row "crc_valid" ;;
  Ok (MkBatchRow ts (as_u32 id) (has_flag flags FLAG_EXT) (as_u16 dlc) (Some (as_u16 (Z.of_nat (length data))))
    (has_flag flags FLAG_FD) (has_flag flags FLAG_RTR) (has_flag flags FLAG_BRS) (has_flag flags FLAG_ESI) (as_u8 bus)
    (if has_flag flags FLAG_TX then "tx" else "rx") (hex_encode data) crc).

(** The cursor after [frames], which the cursor [cursor] led to. *)
Definition cursor_after (cursor : option (Z * Z)) (fs : list FrameBatchRow) : option (Z * Z) :=
  match last fs with
  | None => None
  | Some f =>
      let last_ts := fbr_ts_us f in
      let ties := as_u32 (count_while (λ f, fbr_ts_us f =? last_ts) (rev fs)) in
      let carried := match cursor with Some (ts, s) => if ts =? last_ts then s else 0 | None => 0 end in
      Some (last_ts, as_u32 (ties + carried))
  end.

Variable run : list Cond * Args * Z → result PgError (list PgRow).

Definition frames_batch (start_time end_time : option string) (after : option string) (limit : Z)
    (protocol : option Protocol) : result Stop FrameBatch :=
  cursor <-? match after with
             | None => Ok None
             | Some c => cur <-? map_err (λ e, Failed (BadRequest e)) (decode_cursor c) ;; Ok (Some cur)
             end ;;
  let skip := Z.to_nat (default 0 (snd <$> cursor)) in
  rows <-? map_err (failed "Frame query failed") (run (frames_select start_time end_time cursor limit protocol)) ;;
  let exhausted := (length rows <? Z.to_nat limit + skip)%nat in
  fs <-? collect batch_row (drop skip rows) ;;
  let next := if exhausted || bool_decide (length fs = 0%nat) then None else cursor_after cursor fs in
  Ok (MkBatch fs ((λ c, encode_cursor c.1 c.2) <$> next)).

(** A client that asks for each batch with the cursor of the one before, to the
    batch that has none; [None] when the fuel is used up first. *)
Fixpoint pages (fuel : nat) (start_time end_time : option string) (after : option string) (limit : Z)
    (protocol : option Protocol) : result Stop (option (list FrameBatchRow)) :=
  match fuel with
  | O => Ok None
  | S fuel =>
      b <-? frames_batch start_time end_time after limit protocol ;;
      match next_cursor b with
      | None => Ok (Some (frames b))
      | Some c =>
          rest <-? pages fuel start_time end_time (Some c) limit protocol ;;
          Ok ((λ fs, frames b ++ fs) <$> rest)
      end
  end.
End Batch.

(** ** PostgreSQL's part *)

Section Table.
Context `{SqlLib}.

Definition frame_columns (row : FrameRow) : PgRow :=
  [("ts_us", VFloat8 (of_Z (row_ts_us row))); ("id", VInt4 (row_id row)); ("flags", VInt2 (row_flags row));
   ("dlc", VInt2 (row_dlc row)); ("data_bytes", VBytea (row_data row)); ("bus", VInt4 (row_bus row));
   ("crc_valid", match row_crc_valid row with Some b => VBool b | None => VNull end)].

(** What a batch says of a stored frame. *)
Definition batch_of (row : FrameRow) : FrameBatchRow :=
  let flags := as_u8 (row_flags row) in
  MkBatchRow (row_ts_us row) (as_u32 (row_id row)) (has_flag flags FLAG_EXT) (as_u16 (row_dlc row))
    (Some (as_u16 (Z.of_nat (length (row_data row))))) (has_flag flags FLAG_FD) (has_flag flags FLAG_RTR)
    (has_flag flags FLAG_BRS) (has_flag flags FLAG_ESI) (as_u8 (row_bus row))
    (if has_flag flags FLAG_TX then "tx" else "rx") (hex_encode (row_data row)) (row_crc_valid row).
End Table.

(** The frames of the range asked for. *)
Section Range.
Context `{SqlLib}.
Definition in_range (start_time end_time : option string) (protocol : option Protocol) (row : FrameRow) : bool :=
  bool_decide (row_protocol row = default ProtoCan protocol) &&
  match start_time with None => true | Some s => match timestamptz s with Some t => t <=? row_ts_us row | None => false end end &&
  match end_time with None => true | Some s => match timestamptz s with Some t => row_ts_us row <? t | None => false end end.
Definition readable (time : option string) : Prop := ∀ s, time = Some s → is_Some (timestamptz s).
End Range.

(** ** The cursor reads back *)

Lemma digits_pretty_N_go x : ∀ s, digits_from 0 (pretty_N_go x s) = digits_from (Z.of_N x) s.
Proof.
  induction (N.lt_wf_0 x) as [x _ IH]. intros s. destruct (decide (x = 0)%N) as [->|Hx]; [by rewrite pretty_N_go_0|].
  rewrite pretty_N_go_step, IH by (try apply N.div_lt; lia). cbn [digits_from].
  assert (Hd : decimal (pretty_N_char (x `mod` 10)) = Some (Z.of_N (x `mod` 10))).
  { pose proof (N.mod_lt x 10 ltac:(lia)). remember (x `mod` 10)%N as d eqn:Hm. clear Hm.
    assert (d = 0 ∨ d = 1 ∨ d = 2 ∨ d = 3 ∨ d = 4 ∨ d = 5 ∨ d = 6 ∨ d = 7 ∨ d = 8 ∨ d = 9)%N as Hcases by lia.
    repeat (destruct Hcases as [->|Hcases]; [reflexivity|]). by subst. }
  rewrite Hd. cbn. f_equal. pose proof (N.div_mod x 10 ltac:(lia)). lia.
Qed.

Lemma digits_pretty (n : N) : digits_from 0 (pretty n) = Some (Z.of_N n).
Proof. unfold pretty, pretty_N. case_decide; [by subst|]. apply digits_pretty_N_go. Qed.

(** A natural number's text starts with a digit. *)
Lemma pretty_N_head (n : N) : ∃ c s, pretty n = String c s ∧ c ≠ "+"%char ∧ c ≠ "-"%char.
Proof.
  pose proof (digits_pretty n) as Hd. destruct (pretty n) as [|c s] eqn:Hp.
  - cbn in Hd. assert (n = 0)%N as -> by (injection Hd; lia). by vm_compute in Hp.
  - exists c, s. split; [done|]. split; intros ->; by cbn in Hd.
Qed.

Lemma parse_int_pretty lo hi z : lo ≤ z ≤ hi → (z < 0 → lo < 0) → parse_int lo hi (pretty z) = Some z.
Proof.
  intros Hz Hneg.
  assert (Hnat : ∀ n : N, (lo ≤ Z.of_N n ≤ hi) → parse_int lo hi (pretty n) = Some (Z.of_N n)).
  { intros n Hn. pose proof (digits_pretty n) as Hd. destruct (pretty_N_head n) as (c & s & Hp & Hplus & Hminus).
    unfold parse_int. rewrite Hp in *. rewrite !bool_decide_false by done. cbn [andb]. rewrite Hd. cbn.
    rewrite !(proj2 (Z.leb_le _ _)) by lia. done. }
  destruct z as [|q|q].
  - apply (Hnat 0%N). cbn. lia.
  - apply (Hnat (Npos q)). cbn. lia.
  - change (pretty (Z.neg q)) with ("-" +:+ pretty (Npos q)). unfold parse_int. cbn [String.append].
    rewrite (proj2 (Z.ltb_lt lo 0)) by (apply Hneg; lia).
    pose proof (digits_pretty (Npos q)) as Hd. destruct (pretty_N_head (Npos q)) as (c & s & Hp & _). rewrite Hp in *.
    change ((n ← digits_from 0 (String c s); if (lo <=? - n) && (- n <=? hi) then Some (- n) else None) = Some (Z.neg q)).
    rewrite Hd. cbn.
    rewrite !(proj2 (Z.leb_le _ _)) by lia. done.
Qed.

Lemma split_once_app c a b : str_all (λ d, negb (bool_decide (d = c))) a = true → split_once c (a +:+ String c b) = Some (a, b).
Proof.
  induction a as [|d a IH]; cbn [split_once String.append str_all].
  - intros _. change (EmptyString +:+ String c b) with (String c b). cbn [split_once]. by rewrite bool_decide_true.
  - rewrite andb_true_iff, negb_true_iff. intros [Hd Ha]. change (String d a +:+ String c b) with (String d (a +:+ String c b)).
    cbn [split_once]. by rewrite Hd, IH.
Qed.

(** ** Rows in order *)

Section Ordered.
Context {A : Type} (f : A → Z).
Implicit Type l : list A.

Definition ordered (l : list A) : Prop := StronglySorted (λ x y, f x ≤ f y) l.
(** How many are before [t]. *)
Definition before (t : Z) (l : list A) : nat := length (filter (λ x, f x < t) l).

Lemma before_cons t x l : before t (x :: l) = Nat.add (if decide (f x < t) then 1 else 0) (before t l).
Proof. unfold before. rewrite filter_cons. case_decide; done. Qed.
Lemma before_app t l k : before t (l ++ k) = (before t l + before t k)%nat.
Proof. unfold before. by rewrite filter_app, length_app. Qed.
Lemma before_none t l : Forall (λ x, t ≤ f x) l → before t l = 0%nat.
Proof. induction 1 as [|x l Hx _ IH]; [done|]. rewrite before_cons, IH, decide_False by lia. done. Qed.
Lemma before_all t l : Forall (λ x, f x < t) l → before t l = length l.
Proof. induction 1 as [|x l Hx _ IH]; [done|]. rewrite before_cons, IH, decide_True by lia. done. Qed.

Lemma ordered_from t x l : ordered (x :: l) → t ≤ f x → Forall (λ y, t ≤ f y) (x :: l).
Proof.
  intros [Hl Hx]%StronglySorted_inv Ht. constructor; [done|]. eapply Forall_impl; [done|]. cbn. lia.
Qed.

Lemma before_take t n l : ordered l → before t (take n l) = (n `min` before t l)%nat.
Proof.
  revert n. induction l as [|x l IH]; intros n Hl; [rewrite take_nil; cbn; lia|]. destruct n as [|n]; [done|].
  destruct (decide (f x < t)) as [Hx|Hx].
  - cbn [take]. rewrite !before_cons, decide_True, IH by (try done; by apply StronglySorted_inv in Hl as [? _]). lia.
  - pose proof (ordered_from t x l Hl ltac:(lia)) as Hall. rewrite !before_none; [lia|done|by apply Forall_take].
Qed.

Lemma before_window t k n l : ordered l →
  before t (take n (drop k l)) = ((k + n) `min` before t l - k `min` before t l)%nat.
Proof.
  intros Hl. rewrite <- !before_take by done. rewrite <- (take_drop k (take (k + n) l)), before_app, take_take, Nat.min_l by lia.
  rewrite <- take_drop_commute. lia.
Qed.

Lemma filter_from t l : ordered l → filter (λ x, t ≤ f x) l = drop (before t l) l.
Proof.
  induction l as [|x l IH]; intros Hl; [done|]. destruct (decide (f x < t)) as [Hx|Hx].
  - rewrite filter_cons_False, before_cons, decide_True by lia. cbn [drop Nat.add]. apply IH.
    by apply StronglySorted_inv in Hl as [? _].
  - pose proof (ordered_from t x l Hl ltac:(lia)) as Hall. rewrite before_none by done.
    clear -Hall. rewrite drop_0. induction Hall as [|y k Hy _ IH]; [done|]. by rewrite filter_cons_True, IH.
Qed.

Lemma ordered_filter (P : A → Prop) `{∀ x, Decision (P x)} l : ordered l → ordered (filter P l).
Proof.
  induction 1 as [|x l Hl IH Hx]; [constructor|]. rewrite filter_cons. case_decide; [|done]. constructor; [done|].
  by apply Forall_filter.
Qed.
Lemma ordered_take n l : ordered l → ordered (take n l).
Proof. intros Hl. rewrite <- (take_drop n l) in Hl. by apply StronglySorted_app in Hl as (_ & ? & _). Qed.
Lemma ordered_drop n l : ordered l → ordered (drop n l).
Proof. intros Hl. rewrite <- (take_drop n l) in Hl. by apply StronglySorted_app in Hl as (_ & _ & ?). Qed.
Lemma ordered_lookup i j x y l : ordered l → l !! i = Some x → l !! j = Some y → (i ≤ j)%nat → f x ≤ f y.
Proof.
  intros Hl. revert i j. induction Hl as [|z l Hl IH Hz]; intros i j; [done|].
  destruct i as [|i], j as [|j]; cbn; intros Hi Hj Hij; simplify_eq; try lia.
  - by eapply (proj1 (Forall_lookup _ _) Hz).
  - eapply IH; [done|done|lia].
Qed.

Lemma before_reached t j y l : ordered l → l !! j = Some y → f y < t → (S j ≤ before t l)%nat.
Proof.
  intros Hl Hy Ht. assert (Hall : before t (take (S j) l) = length (take (S j) l)).
  { apply before_all, Forall_lookup. intros i x Hx. apply lookup_take_Some in Hx as [Hx Hi].
    pose proof (ordered_lookup i j x y l Hl Hx Hy ltac:(lia)). lia. }
  apply lookup_lt_Some in Hy. rewrite before_take, length_take in Hall by done. lia.
Qed.

(** The ties at the end: all that is not before the last. *)
Lemma count_ties x l : ordered (l ++ [x]) →
  count_while (λ y, f y =? f x) (rev (l ++ [x])) = Z.of_nat (length (l ++ [x]) - before (f x) (l ++ [x])).
Proof.
  intros Hl. rewrite rev_app_distr, before_app, length_app. cbn [rev app count_while].
  rewrite Z.eqb_refl, before_cons, decide_False by lia. change (before (f x) []) with 0%nat. cbn [length].
  replace (count_while _ (rev l)) with (Z.of_nat (length l - before (f x) l)).
  { assert (before (f x) l ≤ length l)%nat by apply length_filter. lia. }
  apply StronglySorted_app in Hl as (Hx & Hl & _).
  assert (Hle : Forall (λ y, f y ≤ f x) l).
  { apply Forall_forall. intros y Hy. apply Hx; [done|]. by apply list_elem_of_singleton. }
  clear Hx. induction l as [|y l IH] using rev_ind; [done|].
  rewrite rev_app_distr, before_app, length_app. cbn [rev app count_while length].
  apply Forall_app in Hle as [Hle Hy]. apply Forall_inv in Hy. cbn in Hy.
  pose proof (Hl) as Hl'. apply StronglySorted_app in Hl' as (Hyl & Hl' & _).
  destruct (Z.eqb_spec (f y) (f x)) as [Heq|Hne].
  - rewrite <- IH by done. rewrite before_cons, decide_False by lia. change (before (f x) []) with 0%nat.
    assert (before (f x) l ≤ length l)%nat by apply length_filter. lia.
  - rewrite before_cons, decide_True by lia. change (before (f x) []) with 0%nat. rewrite before_all; [lia|].
    apply Forall_forall. intros z Hz. assert (f z ≤ f y) by (apply Hyl; [done|by apply list_elem_of_singleton]). lia.
Qed.
End Ordered.

Lemma rev_fmap {A B} (f : A → B) (l : list A) : rev (f <$> l) = f <$> rev l.
Proof. induction l as [|x l IH]; [done|]. cbn [rev fmap list_fmap]. rewrite fmap_app. by f_equal. Qed.

(** ** PostgreSQL's answer

    [SELECT ... WHERE cs ORDER BY ts ASC LIMIT n] over a table that stays as it
    is, where its arguments are ones PostgreSQL reads: the rows the conditions
    hold of, in some order by [ts], to the limit. Each query may order the frames
    of one [ts] as it likes. *)
Section Selects.
Context `{SqlLib}.

Definition TableQuery : Type := list Cond * Args * Z → result PgError (list PgRow).
Definition selects (table : list FrameRow) (run : TableQuery) : Prop :=
  ∀ cs args n, Forall (λ row, is_Some (all_hold args row cs)) table →
  ∃ rows, rows ≡ₚ filter (λ row, all_hold args row cs = Some true) table ∧ ordered row_ts_us rows ∧
    run (cs, args, n) = Ok (frame_columns <$> take (Z.to_nat n) rows).

(** The answers of one order of the table: ties are where they were. *)
Definition in_order (table : list FrameRow) (q : list Cond * Args * Z) : result PgError (list PgRow) :=
  let '(cs, args, n) := q in
  Ok (frame_columns <$> take (Z.to_nat n) (filter (λ row, all_hold args row cs = Some true) table)).
End Selects.

Lemma filter_key {A} (f : A → Z) t l : length (filter (λ x, f x = t) l) = length (filter (.= t) (f <$> l)).
Proof. induction l as [|x l IH]; [done|]. cbn [fmap list_fmap]. rewrite !filter_cons. case_decide; cbn; lia. Qed.
Lemma ordered_keys {A} (f : A → Z) l : ordered f l ↔ StronglySorted Z.le (f <$> l).
Proof.
  unfold ordered. induction l as [|x l IH]; cbn [fmap list_fmap]; [split; constructor|].
  by rewrite !StronglySorted_cons, IH, Forall_fmap.
Qed.
Definition le_key {A} (f : A → Z) : relation A := λ x y, f x ≤ f y.
#[export] Instance le_key_dec {A} (f : A → Z) x y : Decision (le_key f x y) := Z.le_dec (f x) (f y).
#[export] Instance le_key_trans {A} (f : A → Z) : Transitive (le_key f).
Proof. intros x y z. unfold le_key. lia. Qed.
#[export] Instance le_key_total {A} (f : A → Z) : Total (le_key f).
Proof. intros x y. unfold le_key. lia. Qed.
Lemma sorted_key {A} (f : A → Z) l : ordered f (merge_sort (le_key f) l).
Proof. exact (StronglySorted_merge_sort (le_key f) l). Qed.
Lemma by_key {A} (f : A → Z) l : ∃ k, k ≡ₚ l ∧ ordered f k.
Proof.
  exists (merge_sort (le_key f) l). split; [apply merge_sort_Permutation|apply sorted_key].
Qed.
Lemma keys_unique {A} (f : A → Z) l k : ordered f l → ordered f k → l ≡ₚ k → f <$> l = f <$> k.
Proof.
  rewrite !ordered_keys. intros Hl Hk Hp. apply (StronglySorted_unique Z.le); [done|done|by apply fmap_Permutation].
Qed.

Section Paging.
Context `{SqlLaws} `{!RowLaws}.

Lemma cursor_back ts skip : is_i64 ts → 0 ≤ skip ≤ u32_max → decode_cursor (encode_cursor ts skip) = Ok (ts, skip).
Proof.
  intros Hts Hskip. unfold decode_cursor, encode_cursor. rewrite b64_back. cbn [ok_or].
  assert (Hascii : ∀ z : Z, str_all (λ c, (nat_of_ascii c <? 128)%nat) (pretty z) = true).
  { intros z. eapply str_all_impl; [|apply pretty_number]. intros c. unfold number_char. intros [Hc|Hc]%orb_true_iff.
    - apply bool_decide_eq_true in Hc as ->. done.
    - apply andb_true_iff in Hc as [_ Hc%Nat.leb_le]. apply Nat.ltb_lt. lia. }
  unfold from_utf8. rewrite ascii_utf8 by (rewrite !str_all_app, !Hascii; done). cbn [ok_or].
  rewrite string_of_bytes_of. change (":" +:+ pretty skip) with (String ":" (pretty skip)). rewrite split_once_app.
  2:{ eapply str_all_impl; [|apply pretty_number]. intros c Hc. apply negb_true_iff, bool_decide_eq_false. by intros ->. }
  cbn [ok_or fst snd]. rewrite !parse_int_pretty by (unfold is_i64, u32_max, i64_min, i64_max in *; lia). done.
Qed.

Lemma as_i64_of_Z z : 0 ≤ z < 2 ^ 53 → as_i64 (of_Z z) = z.
Proof.
  intros Hz. destruct (decide (z = 0)) as [->|]; [done|]. destruct (of_Z_exact z) as (k & Hk & ->); [lia|].
  unfold as_i64. cbn [mant expo]. assert (Hz' : Z.max i64_min (Z.min i64_max z) = z) by (unfold i64_min, i64_max; lia).
  unfold to_i64. destruct (Z.leb_spec 0 (- k)).
  - assert (k = 0) as -> by lia. change (- 0) with 0. rewrite Z.pow_0_r, !Z.mul_1_r. done.
  - rewrite Z.opp_involutive, Z.quot_mul by lia. done.
Qed.

Lemma batch_row_columns row : 0 ≤ row_ts_us row < MICROS_2038 → batch_row (frame_columns row) = Ok (batch_of row).
Proof.
  intros Hts. unfold batch_of. rewrite <- (as_i64_of_Z (row_ts_us row)) at 1 by (unfold MICROS_2038 in Hts; lia).
  destruct row as [ts proto id flags dlc data bus unit func crc]. destruct crc; reflexivity.
Qed.

Lemma frames_select_holds start_time end_time cursor limit protocol row :
  readable start_time → readable end_time →
  let '(cs, args, n) := frames_select start_time end_time cursor limit protocol in
  all_hold args row cs = Some (in_range start_time end_time protocol row &&
    match cursor with Some (t, _) => to_timestamp_us t <=? row_ts_us row | None => true end) ∧
  n = limit + default 0 (snd <$> cursor).
Proof.
  intros Hs He. unfold frames_select, time_clause, in_range. change DEFAULT_PROTOCOL with ProtoCan.
  assert (Hread : ∀ o s, readable o → o = Some s → ∃ t, timestamptz s = Some t) by (intros o s Ho Hos; by apply Ho).
  destruct cursor as [[t skip]|], start_time as [s|], end_time as [e|].
  all: try destruct (Hread _ s Hs eq_refl) as [ts Hts]; try destruct (Hread _ e He eq_refl) as [te Hte].
  all: split; [|done]; cbn -[protocol_str str_eqb]; rewrite protocol_str_eqb, ?Hts, ?Hte; cbn -[Z.leb Z.ltb bool_decide].
  all: destruct (bool_decide _); cbn -[Z.leb Z.ltb]; repeat match goal with |- context [?a <=? ?b] => destruct (a <=? b) end;
    repeat match goal with |- context [?a <? ?b] => destruct (a <? b) end; reflexivity.
Qed.

(** The table, and what is asked of it. *)
Variables (table : list FrameRow) (start_time end_time : option string) (protocol : option Protocol) (limit : Z).
Hypothesis Htimes : Forall (λ row, 0 ≤ row_ts_us row < MICROS_2038) table.
Hypothesis Hsize : Z.of_nat (length table) < 2 ^ 32.
Hypothesis Hstart : readable start_time.
Hypothesis Hend : readable end_time.
Hypothesis Hlimit : 1 ≤ limit.

Definition wanted (rows : list FrameRow) : list FrameRow :=
  filter (λ row, in_range start_time end_time protocol row = true) rows.

Section From.
(** The answers, the frames asked for in an order by [ts] and, where [fixed], the
    table in the order every answer keeps. *)
Variables (run : TableQuery) (A kept : list FrameRow) (fixed : Prop).
Hypothesis Hrun : ∀ cs args n, Forall (λ row, is_Some (all_hold args row cs)) table →
  ∃ rows, rows ≡ₚ filter (λ row, all_hold args row cs = Some true) table ∧ ordered row_ts_us rows ∧
    run (cs, args, n) = Ok (frame_columns <$> take (Z.to_nat n) rows) ∧
    (fixed → rows = filter (λ row, all_hold args row cs = Some true) kept).
Hypothesis HA : A ≡ₚ wanted table.
Hypothesis asked_ordered : ordered row_ts_us A.
Hypothesis Hkept : fixed → kept ≡ₚ table ∧ A = wanted kept.

Lemma asked_times : Forall (λ row, 0 ≤ row_ts_us row < MICROS_2038) A.
Proof. rewrite HA. by apply Forall_filter. Qed.
Lemma asked_length : (length A ≤ length table)%nat.
Proof. rewrite HA. apply length_filter. Qed.
Lemma asked_size : Z.of_nat (length A) < 2 ^ 32.
Proof. pose proof asked_length. lia. Qed.

(** The cursor once [k] frames are read: how many of them are not before the last. *)
Definition cursor_at (k : nat) : option (Z * Z) :=
  r ← (match k with O => None | S i => A !! i end);
  Some (row_ts_us r, Z.of_nat (k - before row_ts_us (row_ts_us r) A)).

Lemma cursor_at_spec k : (k ≤ length A)%nat →
  match cursor_at k with
  | None => k = 0%nat
  | Some (t, s) => ∃ i r, k = S i ∧ A !! i = Some r ∧ t = row_ts_us r ∧ 0 ≤ t < MICROS_2038 ∧
      (before row_ts_us t A ≤ i)%nat ∧ s = Z.of_nat (k - before row_ts_us t A) ∧ 0 ≤ s ≤ u32_max
  end.
Proof.
  intros Hk. unfold cursor_at. destruct k as [|i]; [done|]. destruct (lookup_lt_is_Some_2 A i ltac:(lia)) as [r Hr]. rewrite Hr. cbn.
  exists i, r. pose proof asked_size. pose proof (Forall_lookup_1 _ _ _ _ asked_times Hr) as Ht. cbn in Ht.
  split_and!; try done; try (unfold u32_max; lia).
  destruct (Nat.le_gt_cases (before row_ts_us (row_ts_us r) A) i) as [|Hgt]; [done|exfalso].
  pose proof (before_take row_ts_us (row_ts_us r) (S i) A asked_ordered) as Hall. rewrite Nat.min_l in Hall by lia.
  rewrite (take_S_r _ _ _ Hr), before_app, before_cons, decide_False in Hall by lia.
  change (before row_ts_us (row_ts_us r) []) with 0%nat in Hall.
  assert (before row_ts_us (row_ts_us r) (take i A) ≤ length (take i A))%nat by apply length_filter.
  rewrite length_take in *. lia.
Qed.

(** The rows a cursor's conditions hold of. *)
Lemma cursor_holds c (l : list FrameRow) cs args n :
  frames_select start_time end_time c limit protocol = (cs, args, n) →
  (∀ t s, c = Some (t, s) → 0 ≤ t < MICROS_2038) → Forall (λ row, 0 ≤ row_ts_us row < MICROS_2038) l →
  Forall (λ row, is_Some (all_hold args row cs)) l ∧
  filter (λ row, all_hold args row cs = Some true) l = filter (λ row, from_option fst 0 c ≤ row_ts_us row) (wanted l).
Proof.
  intros Hsel Hc Hl.
  assert (Hh : ∀ row, all_hold args row cs = Some (in_range start_time end_time protocol row &&
    match c with Some (t, _) => to_timestamp_us t <=? row_ts_us row | None => true end)).
  { intros row. pose proof (frames_select_holds start_time end_time c limit protocol row Hstart Hend) as Hf.
    rewrite Hsel in Hf. apply Hf. }
  split; [apply Forall_forall; intros row _; rewrite Hh; by eexists|].
  unfold wanted. rewrite list_filter_filter. apply list_filter_iff'. intros row Hrow.
  rewrite Hh. pose proof (proj1 (Forall_forall _ _) Hl row Hrow) as Ht. cbn in Ht.
  destruct c as [[t s]|]; cbn; [|rewrite andb_true_r; split; [intros [= ->]; lia|by intros [_ ->]]].
  rewrite micros_back by by eapply Hc.
  destruct (in_range _ _ _ _), (Z.leb_spec t (row_ts_us row)); cbn; split; try done; try lia; by intros [? ?].
Qed.

(** What the query of a cursor answers: after the ties that were read, as many
    frames as are left, each at its time. *)
Lemma cursor_rows k : (k ≤ length A)%nat →
  let skip := Z.to_nat (default 0 (snd <$> cursor_at k)) in
  ∃ rows, run (frames_select start_time end_time (cursor_at k) limit protocol) = Ok (frame_columns <$> rows) ∧
    row_ts_us <$> drop skip rows = row_ts_us <$> take (Z.to_nat limit) (drop k A) ∧ (∀ row, row ∈ rows → row ∈ A) ∧
    (length rows <? Z.to_nat limit + skip)%nat = (length A - k <? Z.to_nat limit)%nat ∧
    (fixed → drop skip rows = take (Z.to_nat limit) (drop k A)).
Proof.
  intros Hk. pose proof (cursor_at_spec k Hk) as Hc. set (c := cursor_at k) in *. cbv zeta.
  destruct (frames_select start_time end_time c limit protocol) as [[cs args] n] eqn:Hsel.
  assert (Hct : ∀ t s, c = Some (t, s) → 0 ≤ t < MICROS_2038).
  { intros t s Hcc. rewrite Hcc in Hc. by destruct Hc as (_ & _ & _ & _ & _ & ? & _). }
  destruct (cursor_holds c table cs args n Hsel Hct Htimes) as [Hok Hfil].
  destruct (Hrun cs args n Hok) as (rows & Hp & Ho & -> & Hfix). exists (take (Z.to_nat n) rows). split; [done|].
  set (B := filter (λ row, from_option fst 0 c ≤ row_ts_us row) A).
  assert (rows ≡ₚ B) as HB by (rewrite Hp, Hfil; unfold B; by rewrite HA).
  assert (row_ts_us <$> rows = row_ts_us <$> B) as Hts by (apply keys_unique; [done|by apply ordered_filter|done]).
  assert (Hn : n = limit + default 0 (snd <$> c)).
  { destruct c as [[t s]|] eqn:Hcc; unfold frames_select in Hsel; cbn in Hsel; destruct (time_clause _ _ _); by injection Hsel. }
  assert (drop (Z.to_nat (default 0 (snd <$> c))) (take (Z.to_nat n) B) = take (Z.to_nat limit) (drop k A) ∧
    (length (take (Z.to_nat n) B) <? Z.to_nat limit + Z.to_nat (default 0%Z (snd <$> c)))%nat = (length A - k <? Z.to_nat limit)%nat) as [Hd Hex].
  { unfold B. rewrite (filter_from row_ts_us) by done.
    destruct c as [[t s]|]; cbn [fmap option_fmap option_map snd fst default from_option] in *.
    - destruct Hc as (i & r & -> & Hr & -> & Ht & Hb & -> & Hs). subst n. rewrite skipn_firstn_comm, drop_drop, length_take, length_drop. unfold id.
      split; [f_equal; [lia|f_equal; lia]|]. apply eq_true_iff_eq. rewrite !Nat.ltb_lt. lia.
    - subst k n. rewrite before_none; [|eapply Forall_impl; [apply asked_times|cbn; lia]].
      change (Z.to_nat 0) with 0%nat. rewrite !drop_0, length_take. split; [f_equal; lia|].
      apply eq_true_iff_eq. rewrite !Nat.ltb_lt. lia. }
  split_and!.
  - by rewrite <- Hd, !fmap_drop, !fmap_take, Hts.
  - intros row Hrow%subseteq_take. rewrite HB in Hrow. by apply list_elem_of_filter in Hrow as [_ ?].
  - rewrite <- Hex, !length_take, <- (length_fmap row_ts_us rows), Hts, length_fmap. done.
  - intros Hf. rewrite (Hfix Hf), <- Hd. destruct (Hkept Hf) as [Hpk HAk].
    destruct (cursor_holds c kept cs args n Hsel Hct) as [_ ->]; [by rewrite Hpk|]. unfold B. by rewrite HAk.
Qed.

(** A batch after [k] frames, and the cursor it ends with. *)
Lemma cursor_after_times c fs gs : fbr_ts_us <$> fs = fbr_ts_us <$> gs → cursor_after c fs = cursor_after c gs.
Proof.
  intros He. unfold cursor_after.
  assert (Hcw : ∀ t l, count_while (λ f, fbr_ts_us f =? t) l = count_while (λ u, u =? t) (fbr_ts_us <$> l)).
  { intros t l. induction l as [|x l IH]; [done|]. cbn. by rewrite IH. }
  pose proof (f_equal last He) as Hl. rewrite !fmap_last in Hl.
  destruct (last fs) as [f|], (last gs) as [g|]; cbn in Hl; try done. injection Hl as ->.
  by rewrite !Hcw, <- !rev_fmap, He.
Qed.
Lemma cursor_moves k : (k + Z.to_nat limit ≤ length A)%nat →
  cursor_after (cursor_at k) (batch_of <$> take (Z.to_nat limit) (drop k A)) = cursor_at (k + Z.to_nat limit).
Proof.
  intros Hk. remember (k + Z.to_nat limit)%nat as m eqn:Hmk. pose proof asked_size as Hsz.
  pose proof (cursor_at_spec k ltac:(lia)) as Hc. pose proof (cursor_at_spec m ltac:(lia)) as Hm.
  destruct (cursor_at m) as [[t s]|]; [|lia]. destruct Hm as (i & r & Hmi & Hr & -> & Ht & Hb & -> & Hs).
  assert (HF : take (Z.to_nat limit) (drop k A) = drop k (take i A) ++ [r]).
  { rewrite take_drop_commute, <- Hmk, Hmi, (take_S_r _ _ _ Hr), drop_app_le; [done|]. rewrite length_take. apply Nat.min_glb; lia. }
  assert (Ho : ordered row_ts_us (drop k (take i A) ++ [r])).
  { rewrite <- HF. apply ordered_take, ordered_drop, asked_ordered. }
  assert (Hbf : before row_ts_us (row_ts_us r) (drop k (take i A) ++ [r]) =
    (before row_ts_us (row_ts_us r) A - k `min` before row_ts_us (row_ts_us r) A)%nat).
  { rewrite <- HF, before_window by apply asked_ordered. lia. }
  assert (Hlen : length (drop k (take i A) ++ [r]) = Z.to_nat limit).
  { rewrite <- HF, length_take, length_drop. lia. }
  rewrite HF. unfold cursor_after.
  replace (last (batch_of <$> drop k (take i A) ++ [r])) with (Some (batch_of r)) by (by rewrite fmap_app, last_app).
  change (fbr_ts_us (batch_of r)) with (row_ts_us r).
  assert (Hcw : ∀ l, count_while (λ f, fbr_ts_us f =? row_ts_us r) (batch_of <$> l) = count_while (λ f, row_ts_us f =? row_ts_us r) l).
  { induction l as [|x l IH]; [done|]. cbn. by rewrite IH. }
  rewrite rev_fmap, Hcw, (count_ties row_ts_us), Hbf, Hlen by done. do 2 f_equal.
  unfold as_u32, u32_max in *. rewrite (Z.mod_small (Z.of_nat _)) by lia.
  destruct (cursor_at k) as [[t0 s0]|].
  - destruct Hc as (j & r0 & -> & Hr0 & -> & _ & Hb0 & -> & _).
    destruct (Z.eqb_spec (row_ts_us r0) (row_ts_us r)) as [Heq|Hne].
    + rewrite Heq in *. rewrite Z.mod_small by lia. lia.
    + assert (row_ts_us r0 ≤ row_ts_us r) by (eapply (ordered_lookup row_ts_us j i); [apply asked_ordered|done|done|lia]).
      pose proof (before_reached row_ts_us (row_ts_us r) j r0 A asked_ordered Hr0 ltac:(lia)).
      rewrite Z.add_0_r, Z.mod_small by lia. lia.
  - subst k. rewrite Z.add_0_r, Z.mod_small by lia. lia.
Qed.

Lemma batch_after k : (k ≤ length A)%nat →
  ∃ page, frames_batch run start_time end_time ((λ c, encode_cursor c.1 c.2) <$> cursor_at k) limit protocol =
    Ok (MkBatch (batch_of <$> page)
      ((λ c, encode_cursor c.1 c.2) <$> (if (length A - k <? Z.to_nat limit)%nat then None else cursor_at (k + Z.to_nat limit)))) ∧
    row_ts_us <$> page = row_ts_us <$> take (Z.to_nat limit) (drop k A) ∧ (∀ row, row ∈ page → row ∈ A) ∧
    (fixed → page = take (Z.to_nat limit) (drop k A)).
Proof.
  intros Hk. unfold frames_batch. pose proof (cursor_at_spec k Hk) as Hc.
  assert (Hdec : match (λ c, encode_cursor c.1 c.2) <$> cursor_at k with
    | None => Ok None
    | Some c => cur <-? map_err (λ e, Failed (BadRequest e)) (decode_cursor c) ;; Ok (Some cur)
    end = Ok (E := Stop) (cursor_at k)).
  { destruct (cursor_at k) as [[t s]|]; [|done]. cbn. destruct Hc as (_ & _ & _ & _ & _ & Ht & _ & _ & Hs).
    rewrite cursor_back; [done| |done]. unfold is_i64, i64_min, i64_max, MICROS_2038 in *. lia. }
  rewrite Hdec. clear Hdec. destruct (cursor_rows k Hk) as (rows & -> & Hts & Hin & Hex & Hfix). cbv zeta in *. cbn [map_err].
  set (page := drop (Z.to_nat (default 0 (snd <$> cursor_at k))) rows) in *. exists page.
  assert (∀ row, row ∈ page → row ∈ A) as Hpage by (intros row Hr%subseteq_drop; by apply Hin).
  rewrite length_fmap, Hex, <- fmap_drop. fold page.
  assert (Hcol : collect batch_row (frame_columns <$> page) = Ok (batch_of <$> page)).
  { apply collect_Ok, Forall2_fmap_l, Forall2_fmap_r, Forall_Forall2_diag, Forall_forall.
    intros row Hrow. apply batch_row_columns. by apply (proj1 (Forall_forall _ _) asked_times), Hpage. }
  rewrite Hcol. split; [|done]. destruct (Nat.ltb_spec (length A - k) (Z.to_nat limit)); cbn [orb]; [done|].
  rewrite length_fmap, <- (length_fmap row_ts_us page), Hts, length_fmap, length_take, length_drop, bool_decide_false by lia.
  rewrite (cursor_after_times _ _ (batch_of <$> take (Z.to_nat limit) (drop k A))); [by rewrite cursor_moves by lia|].
  by rewrite <- !list_fmap_compose.
Qed.

Lemma pages_from fuel : ∀ k, (k ≤ length A)%nat → (length A - k < fuel)%nat →
  ∃ out, pages run fuel start_time end_time ((λ c, encode_cursor c.1 c.2) <$> cursor_at k) limit protocol =
    Ok (Some (batch_of <$> out)) ∧ row_ts_us <$> out = row_ts_us <$> drop k A ∧ (∀ row, row ∈ out → row ∈ A) ∧
    (fixed → out = drop k A).
Proof.
  induction fuel as [|fuel IH]; intros k Hk Hf; [lia|]. cbn [pages].
  destruct (batch_after k Hk) as (page & -> & Hts & Hin & Hfix). cbn [next_cursor frames].
  destruct (Nat.ltb_spec (length A - k) (Z.to_nat limit)).
  - cbn [fmap option_fmap option_map]. rewrite take_ge in Hts, Hfix by (rewrite length_drop; lia). by exists page.
  - pose proof (cursor_at_spec (k + Z.to_nat limit) ltac:(lia)) as Hc.
    destruct (IH (k + Z.to_nat limit)%nat ltac:(lia) ltac:(lia)) as (out & Hp & Hts' & Hin' & Hfix').
    destruct (cursor_at (k + Z.to_nat limit)) as [c|]; [|lia]. cbn [fmap option_fmap option_map] in *. rewrite Hp. cbn.
    exists (page ++ out). rewrite <- (take_drop (Z.to_nat limit) (drop k A)), drop_drop, !fmap_app, Hts, Hts'. split_and!; [done|done| |].
    + intros row [?|?]%elem_of_app; auto.
    + intros Hx. by rewrite (Hfix Hx), (Hfix' Hx).
Qed.
End From.

End Paging.

(** ** The queries over a small table *)

Module Archive3.
Import Packed Stored.

(** An alphabet that leaves the text as it is, and three readable times. *)
#[export] Instance sql_lib : SqlLib := {
  b64_encode := λ s, s; b64_decode := λ s, Some (bytes_of_string s);
  f64_debug := λ x, pretty (as_i64 x);
  FLAG_EXT := 8; FLAG_FD := 2; FLAG_RTR := 1; FLAG_BRS := 4; FLAG_ESI := 16;
  dlc_to_len := λ dlc _, dlc;
  timestamptz := λ s, if str_eqb s "now" then Some 100 else None;
  to_timestamp_us := λ t, t
}.
#[export] Instance sql_laws : SqlLaws.
Proof. split; done. Qed.

Definition can_row (ts id : Z) (data : list Z) : FrameRow := MkRow ts ProtoCan id 0 (Z.of_nat (length data)) data 0 None None None.
(** Four frames of one timestamp between two others, and one of another protocol. *)
Definition frames7 : list FrameRow :=
  [can_row 10 1 [1; 2]; can_row 20 2 [3]; can_row 20 3 [1; 2; 1; 2]; MkRow 20 ProtoSerial 0 0 1 [7] 0 None None None;
   can_row 20 4 []; can_row 20 5 [9]; can_row 200 6 [1]].

(** A PostgreSQL that answers a query with an odd limit with the ties reversed. *)
Definition fickle (q : list Cond * Args * Z) : result PgError (list PgRow) :=
  let '(cs, args, n) := q in
  let rows := filter (λ row, all_hold args row cs = Some true) frames7 in
  Ok (frame_columns <$> take (Z.to_nat n)
        (if Z.odd n then merge_sort (le_key row_ts_us) (reverse rows) else rows)).
Lemma fickle_selects : selects frames7 fickle.
Proof.
  intros cs args n _. unfold fickle. set (rows := filter _ frames7).
  assert (ordered row_ts_us rows).
  { apply ordered_filter. repeat (constructor; [|repeat constructor; vm_compute; discriminate]). constructor. }
  destruct (Z.odd n); eexists; (split_and!; [|..|reflexivity]); try done.
  - by rewrite merge_sort_Permutation, reverse_Permutation.
  - apply sorted_key.
Qed.
(** It is one that fits, and a frame of a shared timestamp is read twice, another
    not at all. *)
Lemma ties_can_repeat :
  ∃ fs, pages fickle 8 None (Some "now") None 2 None = Ok (Some fs) ∧ fbr_id <$> fs = [1; 2; 4; 3; 2].
Proof. eexists. split; vm_compute; reflexivity. Qed.


Definition pattern12 : PatternSearchParams := MkPattern [1; 2] [255; 255] None None None (Some 1).
Lemma pattern_search_exact_witness :
  pattern_search (λ _, Ok (pattern_row <$> frames7, None)) pattern12 =
    Ok ([found pattern12 (can_row 10 1 [1; 2])], MkStats 1 1) ∧
  2%nat ∈ psr_match_positions (found pattern12 (can_row 20 3 [1; 2; 1; 2])).
Proof.
  destruct (pattern_search_exact (λ _, Ok (pattern_row <$> frames7, None)) pattern12 frames7) as ((st & Hs) & _ & Hpos);
    [done|done|done|]. split; [vm_compute; reflexivity|].
  apply Hpos; [vm_compute; reflexivity|]. split; [cbn; lia|].
  intros [|[|j]] x m; cbn; intros [= <-] [= <-]; eexists; (split; [reflexivity|reflexivity]).
Defined.

Definition second_byte : DistributionParams := MkDistribution (MkFilter 2 None None None None) 1.
(** The frame 2 has one byte, and its second is asked for. *)
Lemma distribution_by_length_witness :
  distribution (λ _, Ok (byte_groups 1 (selected second_byte frames7))) second_byte = Err Panicked.
Proof.
  apply (distribution_by_length (λ _, Ok (byte_groups 1 (selected second_byte frames7))) second_byte frames7
    (byte_groups 1 (selected second_byte frames7))).
  - done.
  - intros row Hrow. repeat (apply elem_of_cons in Hrow as [->|Hrow]; [repeat constructor; vm_compute; done|]).
    by apply not_elem_of_nil in Hrow.
  - done.
  - done.
  - exists (can_row 20 2 [3]). split_and!; [|repeat split; done|cbn; lia]. right. left.
Defined.

Definition frame_2 : FrameFilter := MkFilter 2 (Some false) None None (Some "now").
Lemma where_clause_selects_witness :
  (let '(cs, args) := where_clause frame_2 [AInt 7] in
   all_hold args (can_row 20 2 [3]) cs = Some true ∧ args !! 0%nat = Some (AInt 7)) ∧
  matches frame_2 (can_row 20 2 [3]).
Proof.
  pose proof (where_clause_selects frame_2 [AInt 7] (can_row 20 2 [3])) as Hw.
  destruct (where_clause frame_2 [AInt 7]) as [cs args] eqn:Hc. destruct Hw as [Hw _]. vm_compute in Hc. injection Hc as <- <-.
  assert (Hm : matches frame_2 (can_row 20 2 [3])).
  { apply Hw. vm_compute. reflexivity. }
  split; [|done]. split; [by apply Hw|reflexivity].
Defined.
End Archive3.
