(* ===== verification/Schema.v ===== *)
(** * The gateway's schema ([schema.rs])

    How a script is split into the statements that are run one at a time, how a
    database's version is found, the migrations that bring it up to date, and
    where its rollup stands. The scripts are data files of the crate, parameters
    here. A string is its bytes: the characters the splitter looks for are ASCII,
    and the only whitespace the scripts hold is. *)

From S2P Require Import Prelude F64 Model Source Wire Catalogues Rows Sql Store.
From Stdlib Require Import Ascii.
Local Open Scope Z_scope.

(** ** [split_statements] *)

Definition newline : ascii := ascii_of_nat 10.
Definition quote : ascii := ascii_of_nat 39.
Definition backslash : ascii := ascii_of_nat 92.
Definition snoc (s : string) (c : ascii) : string := s +:+ String c EmptyString.

(** [is_ascii_alphanumeric], or an underscore. *)
Definition tag_char (c : ascii) : bool :=
  ascii_is_upper c || ascii_is_lower c || ascii_is_digit c || bool_decide (c = "_"%char).

(** Where the loop is: [dollar_tag], [in_single] and [in_comment], one of which
    is set at most; [Meta] is the inner loop that drops a meta-command, [Copy n]
    the inner loops that push the [n] characters left of a tag, before the
    dollar-quoted body or after it. *)
Inductive Mode := Plain | Comment | Single | Dollar (tag : string) | Meta | Copy (n : nat) (after : option string).
Definition after_copy (after : option string) : Mode := match after with Some tag => Dollar tag | None => Plain end.
Definition copy (n : nat) (after : option string) : Mode := match n with O => after_copy after | S _ => Copy n after end.

(** The tag a dollar opens: [rest.find('$')], where what is before it are tag
    characters. *)
Fixpoint opened (rest : string) : option string :=
  match rest with
  | EmptyString => None
  | String c rest =>
      if bool_decide (c = "$"%char) then Some EmptyString
      else if tag_char c then String c <$> opened rest else None
  end.
Definition dollar_tag (body : string) : string := "$" +:+ body +:+ "$".

(** The statement that ends here, unless it is blank. *)
Definition flush (current : string) : list string :=
  let stmt := str_trim current in if is_empty_str stmt then [] else [stmt].

Definition line_start (at_line_start : bool) (c : ascii) : bool :=
  if negb (ascii_is_space c) then false else if bool_decide (c = newline) then true else at_line_start.
Definition head_is (c : ascii) (s : string) : bool :=
  match s with String d _ => bool_decide (d = c) | EmptyString => false end.

Fixpoint split_from (mode : Mode) (at_line_start : bool) (current : string) (sql : string) : list string :=
  match sql with
  | EmptyString => flush current
  | String c rest =>
      match mode with
      | Comment =>
          if bool_decide (c = newline) then split_from Plain true (snoc current c) rest
          else split_from Comment at_line_start current rest
      | Copy n after => split_from (copy (pred n) after) at_line_start (snoc current c) rest
      | Dollar tag =>
          let mode := if bool_decide (c = "$"%char) && str_starts_with tag sql then copy (String.length tag - 1) None
                      else Dollar tag in
          split_from mode at_line_start (snoc current c) rest
      | Single =>
          split_from (if bool_decide (c = quote) then Plain else Single) at_line_start (snoc current c) rest
      | Meta => split_from (if bool_decide (c = newline) then Plain else Meta) at_line_start current rest
      | Plain =>
          if at_line_start && bool_decide (c = backslash) then split_from Meta at_line_start current rest
          else
            let ls := line_start at_line_start c in
            if bool_decide (c = "-"%char) && head_is "-" rest then split_from Comment ls current rest
            else if bool_decide (c = quote) then split_from Single ls (snoc current c) rest
            else if bool_decide (c = "$"%char) then
              match opened rest with
              | Some body =>
                  split_from (copy (String.length (dollar_tag body) - 1) (Some (dollar_tag body))) ls (snoc current c) rest
              | None => split_from Plain ls (snoc current c) rest
              end
            else if bool_decide (c = ";"%char) then flush current ++ split_from Plain ls EmptyString rest
            else split_from Plain ls (snoc current c) rest
      end
  end.
Definition split_statements (sql : string) : list string := split_from Plain true EmptyString sql.

(** ** Versions and migrations *)

(** The scripts of [schema/], embedded in the program. *)
Class Scripts := {
  INIT_SCHEMA : string;
  MIGRATION_PROGRESS : string;
  migration_sql : Z → string
}.

Record Migration := MkMigration { m_version : Z; m_description : string; m_sql : string }.

Section Migrations.
Context `{Scripts}.

Definition MIGRATIONS : list Migration :=
  [MkMigration 1 "capture_frame: one table per protocol, discriminated by protocol" (migration_sql 1);
   MkMigration 2 "events: a user's annotations on the archive" (migration_sql 2);
   MkMigration 3 "capture_frame: per-protocol columns tied to protocol" (migration_sql 3);
   MkMigration 4 "capture_frame: flags packed into one column" (migration_sql 4);
   MkMigration 5 "capture_frame: Modbus RTU stored as modbus_rtu" (migration_sql 5)].

(** What the probe finds: the version table, [can_frame] as a table,
    [capture_frame]; then the version the table holds. *)
Record Probe := MkProbe { tracked : bool; legacy : option bool; renamed : bool }.
Definition detect_version (probe : result string Probe) (recorded : result string Z) : result string (option Z) :=
  p <-? map_err (λ e, "schema version probe failed: " +:+ e) probe ;;
  if tracked p then
    v <-? map_err (λ e, "schema version read failed: " +:+ e) recorded ;; Ok (Some v)
  else Ok (match legacy p, renamed p with Some true, _ => Some 0 | _, true => Some 1 | _, _ => None end).

(** [as_db_error]: what the server said, or how else the call failed. *)
Inductive ExecError := ServerError (severity message : string) | ClientError (text : string).
Definition db_error_detail (e : ExecError) : string :=
  match e with ServerError severity message => severity +:+ ": " +:+ message | ClientError text => text end.
Definition failed_statement (e : ExecError) (stmt : string) : string :=
  db_error_detail e +:+ String newline ("statement: " +:+ stmt).

Context {DB : Type}.
(** [Client::batch_execute], on the database it changes. *)
Variable batch_execute : string → io DB ExecError ().

Fixpoint run_statements (failed : string) (stmts : list string) : io DB string () :=
  match stmts with
  | [] => mret ()
  | stmt :: stmts => λ db,
      match batch_execute stmt db with
      | (Ok _, db) => run_statements failed stmts db
      | (Err e, db) => (Err (failed +:+ failed_statement e stmt), db)
      end
  end.
Definition apply (sql what : string) : io DB string () :=
  run_statements (what +:+ " statement failed: ") (split_statements sql).
Definition apply_capture_schema : io DB string () := apply INIT_SCHEMA "schema".

Definition pending (from : option Z) : list Migration :=
  match from with None => [] | Some v => filter (λ m, v < m_version m) MIGRATIONS end.
Fixpoint run_migrations (ms : list Migration) : io DB string () :=
  match ms with
  | [] => mret ()
  | m :: ms =>
      run_statements ("migration " +:+ pretty (m_version m) +:+ " failed: ") (split_statements (m_sql m)) ≫= λ _,
      run_migrations ms
  end.
Definition migrate (from : option Z) : io DB string () :=
  match pending from with
  | [] => mret ()
  | _ => apply MIGRATION_PROGRESS "migration progress"
  end ≫= λ _, run_migrations (pending from) ≫= λ _, apply_capture_schema.

(** ** The rollup *)

(** [is_concurrent_refresh]. *)
Fixpoint str_contains (p s : string) : bool :=
  str_starts_with p s || match s with EmptyString => false | String _ s => str_contains p s end.
Definition is_concurrent_refresh (e : string) : bool :=
  let e := to_ascii_lowercase e in str_contains "concurrent refresh" e || str_contains "concurrently updated" e.

Definition REFRESH_SQL : string := "CALL refresh_continuous_aggregate('public.capture_frame_hourly', NULL, NULL)".
Definition refresh_once (sql : string) : io DB string () := λ db,
  match batch_execute sql db with
  | (Ok _, db) => (Ok (), db)
  | (Err e, db) => (Err ("rollup refresh failed: " +:+ db_error_detail e), db)
  end.
Definition refresh (sql : string) : io DB string () := λ db,
  match refresh_once sql db with
  | (Err e, db) => if is_concurrent_refresh e then refresh_once sql db else (Err e, db)
  | done => done
  end.
Definition refresh_rollup : io DB string () := refresh REFRESH_SQL.
(** Over the hours from [first] to [last], as RFC 3339 texts. *)
Definition refresh_rollup_span (first last : string) : io DB string () :=
  refresh ("CALL refresh_continuous_aggregate('public.capture_frame_hourly', date_trunc('hour', '" +:+ first +:+
    "'::timestamptz), date_trunc('hour', '" +:+ last +:+ "'::timestamptz) + INTERVAL '1 hour')").
End Migrations.

Inductive RollupState := Empty | Incomplete | Covered (lag_secs : Z).
(** The probe's answers, in microseconds: the first and last frame the rollup
    summarises, the first and last stored bucket, and whether the first frame is
    older than the maintenance policy reaches. *)
Record RollupProbe := MkRollupProbe {
  first_ts : option Z; last_ts : option Z; first_bucket : option Z; last_bucket : option Z; beyond_policy_reach : option bool
}.
Definition rollup_state (p : RollupProbe) : RollupState :=
  match first_ts p, last_ts p with
  | Some first, Some last =>
      match first_bucket p, last_bucket p with
      | Some fb, Some lb => if fb <=? first then Covered (Z.max 0 (last - lb) / 1000000) else Incomplete
      | _, _ => if default false (beyond_policy_reach p) then Incomplete else Covered 0
      end
  | _, _ => Empty
  end.
Definition rollup_status (lookup : result string string) (probe : string → result string RollupProbe) : result string RollupState :=
  mat <-? map_err (λ e, "rollup lookup failed: " +:+ e) lookup ;;
  p <-? map_err (λ e, "rollup probe failed: " +:+ e) (probe mat) ;;
  Ok (rollup_state p).

(** ** Scripts

    What a script is made of, for the splitter to be held to: the pieces, the
    text each is written as, and the SQL it is for. *)

Inductive Piece :=
  | PChar (c : ascii)                  (** a character of SQL *)
  | PString (text : string)            (** ['text'] *)
  | PBody (tag text : string)          (** [$tag$text$tag$] *)
  | PComment (text : string)           (** [-- text], to the end of the line *)
  | PMeta (text : string)              (** [\text], a line of its own *)
  | PEnd.                              (** [;] *)

Definition line_text (s : string) : bool := str_all (λ c, negb (bool_decide (c = newline))) s.
Definition piece_text (p : Piece) : string :=
  match p with
  | PChar c => String c EmptyString
  | PString t => String quote t +:+ String quote EmptyString
  | PBody tag t => dollar_tag tag +:+ t +:+ dollar_tag tag
  | PComment t => "--" +:+ t +:+ String newline EmptyString
  | PMeta t => String backslash t +:+ String newline EmptyString
  | PEnd => ";"
  end.
(** The SQL a piece leaves in its statement: a comment is a line break. *)
Definition piece_sql (p : Piece) : string :=
  match p with
  | PComment _ => String newline EmptyString
  | PMeta _ | PEnd => EmptyString
  | p => piece_text p
  end.
Definition piece_line (ls : bool) (p : Piece) : bool :=
  match p with PChar c => line_start ls c | PComment _ => true | PMeta _ => ls | _ => false end.
Fixpoint script_text (ps : list Piece) : string :=
  match ps with [] => EmptyString | p :: ps => piece_text p +:+ script_text ps end.

(** The body of a dollar quote runs to the first tag. *)
Fixpoint no_tag (tag t : string) : bool :=
  match t with
  | EmptyString => true
  | String _ t' => negb (str_starts_with tag (t +:+ tag)) && no_tag tag t'
  end.
(** A script whose pieces are what they say: a quote in a string is written as
    two strings, a backslash opens a line only as a meta-command, two dashes only
    as a comment. *)
Fixpoint script_ok (ls : bool) (ps : list Piece) : bool :=
  match ps with
  | [] => true
  | p :: ps =>
      match p with
      | PChar c =>
          negb (bool_decide (c = ";"%char)) && negb (bool_decide (c = quote)) && negb (bool_decide (c = "$"%char)) &&
          negb (ls && bool_decide (c = backslash)) && negb (bool_decide (c = "-"%char) && head_is "-" (script_text ps))
      | PString t => str_all (λ c, negb (bool_decide (c = quote))) t
      | PBody tag t => str_all tag_char tag && no_tag (dollar_tag tag) t
      | PComment t => line_text t
      | PMeta t => ls && line_text t
      | PEnd => true
      end && script_ok (piece_line ls p) ps
  end.

(** The statements of a script: the SQL between the ends, less its margins, where
    there is any. *)
Fixpoint statements (current : string) (ps : list Piece) : list string :=
  match ps with
  | [] => flush current
  | PEnd :: ps => flush current ++ statements EmptyString ps
  | p :: ps => statements (current +:+ piece_sql p) ps
  end.

(** ** The splitter reads scripts *)

Lemma snoc_app s c t : snoc s c +:+ t = s +:+ String c t.
Proof. unfold snoc. by rewrite <- str_app_assoc. Qed.
Lemma str_app_cons c s t : String c s +:+ t = String c (s +:+ t).
Proof. done. Qed.

Lemma starts_with_app p a b : (String.length p ≤ String.length a)%nat → str_starts_with p (a +:+ b) = str_starts_with p a.
Proof.
  revert a. induction p as [|c p IH]; intros [|d a] Hlen; cbn [String.length] in Hlen; try done; [lia|].
  rewrite str_app_cons. cbn [str_starts_with]. rewrite IH by lia. done.
Qed.
Lemma starts_with_self p : str_starts_with p p = true.
Proof. induction p as [|c p IH]; [done|]. cbn [str_starts_with]. by rewrite bool_decide_true, IH. Qed.

Lemma split_comment ls cur t rest : line_text t = true →
  split_from Comment ls cur (t +:+ String newline rest) = split_from Plain true (snoc cur newline) rest.
Proof.
  induction t as [|c t IH]; [done|]. unfold line_text. cbn [str_all]. rewrite andb_true_iff, negb_true_iff. intros [Hc Ht].
  rewrite str_app_cons. cbn [split_from]. rewrite Hc. by apply IH.
Qed.
Lemma split_meta ls cur t rest : line_text t = true →
  split_from Meta ls cur (t +:+ String newline rest) = split_from Plain ls cur rest.
Proof.
  induction t as [|c t IH]; [done|]. unfold line_text. cbn [str_all]. rewrite andb_true_iff, negb_true_iff. intros [Hc Ht].
  rewrite str_app_cons. cbn [split_from]. rewrite Hc. by apply IH.
Qed.
Lemma split_single ls cur t rest : str_all (λ c, negb (bool_decide (c = quote))) t = true →
  split_from Single ls cur (t +:+ String quote rest) = split_from Plain ls (cur +:+ t +:+ String quote EmptyString) rest.
Proof.
  revert cur. induction t as [|c t IH]; intros cur.
  - intros _. change (EmptyString +:+ String quote rest) with (String quote rest). cbn [split_from].
    rewrite bool_decide_true by done. done.
  - cbn [str_all]. rewrite andb_true_iff, negb_true_iff. intros [Hc Ht]. rewrite str_app_cons. cbn [split_from].
    rewrite Hc, IH by done. by rewrite snoc_app.
Qed.
Lemma split_copy after t : ∀ ls cur rest,
  split_from (copy (String.length t) after) ls cur (t +:+ rest) = split_from (after_copy after) ls (cur +:+ t) rest.
Proof.
  induction t as [|c t IH]; intros ls cur rest.
  - by rewrite str_app_nil_r.
  - rewrite str_app_cons. cbn [String.length copy split_from pred]. rewrite IH, snoc_app. done.
Qed.
Lemma split_dollar body t : ∀ ls cur rest, no_tag (dollar_tag body) t = true →
  split_from (Dollar (dollar_tag body)) ls cur (t +:+ dollar_tag body +:+ rest) =
  split_from Plain ls (cur +:+ t +:+ dollar_tag body) rest.
Proof.
  induction t as [|c t IH]; intros ls cur rest Ht.
  - change (EmptyString +:+ ?s) with s. unfold dollar_tag at 2 3.
    change (("$" +:+ body +:+ "$") +:+ rest) with (String "$" ((body +:+ "$") +:+ rest)). cbn [split_from].
    change (String "$" ((body +:+ "$") +:+ rest)) with (dollar_tag body +:+ rest).
    rewrite starts_with_app, starts_with_self, bool_decide_true by done. cbn [andb].
    change (String.length (dollar_tag body) - 1)%nat with (String.length (body +:+ "$") - 0)%nat. rewrite Nat.sub_0_r.
    rewrite split_copy, snoc_app. done.
  - cbn [no_tag] in Ht. apply andb_true_iff in Ht as [Hc Ht]. rewrite str_app_cons. cbn [split_from].
    rewrite <- str_app_cons, str_app_assoc, starts_with_app by (rewrite str_length_app; lia).
    rewrite (proj1 (negb_true_iff _) Hc), andb_false_r, IH, snoc_app by done. done.
Qed.
Lemma opened_tag body rest : str_all tag_char body = true → opened (body +:+ String "$" rest) = Some body.
Proof.
  induction body as [|c body IH]; [done|]. cbn [str_all]. rewrite andb_true_iff. intros [Hc Hb].
  rewrite str_app_cons. cbn [opened]. rewrite bool_decide_false by (by intros ->). rewrite Hc, IH by done. done.
Qed.

(** A piece is read off the front of the text. *)
Lemma split_piece ls cur p ps : script_ok ls (p :: ps) = true →
  split_from Plain ls cur (piece_text p +:+ script_text ps) =
  match p with
  | PEnd => flush cur ++ split_from Plain false EmptyString (script_text ps)
  | _ => split_from Plain (piece_line ls p) (cur +:+ piece_sql p) (script_text ps)
  end.
Proof.
  cbn [script_ok]. intros [Hp _]%andb_true_iff.
  destruct p as [c|t|tag t|t|t|]; cbn [piece_text piece_line piece_sql].
  - rewrite !andb_true_iff, !negb_true_iff in Hp. destruct Hp as ((((Hs & Hq) & Hd) & Hb) & Hdash).
    rewrite str_app_cons. change (EmptyString +:+ ?s) with s. cbn [split_from]. by rewrite Hb, Hdash, Hq, Hd, Hs.
  - rewrite str_app_cons, str_app_cons, <- str_app_assoc, str_app_cons. cbn [split_from].
    rewrite !(bool_decide_false (quote = _)), andb_false_r, bool_decide_true by done. cbn [andb].
    change (EmptyString +:+ ?s) with s. rewrite split_single by done. by rewrite snoc_app.
  - apply andb_true_iff in Hp as [Htag Ht]. rewrite <- !str_app_assoc.
    change (dollar_tag tag +:+ ?s) with (String "$" ((tag +:+ "$") +:+ s)). cbn [split_from].
    rewrite <- str_app_assoc. change ("$" +:+ ?s) with (String "$" s). rewrite opened_tag by done.
    rewrite !(bool_decide_false ("$"%char = _)), andb_false_r, bool_decide_true by done. cbn [andb].
    change (String.length (dollar_tag tag) - 1)%nat with (String.length (tag +:+ "$") - 0)%nat. rewrite Nat.sub_0_r.
    change (String "$" (t +:+ ?s)) with ("$" +:+ (t +:+ s)).
    rewrite (str_app_assoc tag "$"), split_copy. cbn [after_copy]. rewrite split_dollar by done.
    rewrite snoc_app, <- str_app_assoc. done.
  - change (("--" +:+ t +:+ ?s) +:+ ?r) with (String "-" (String "-" ((t +:+ s) +:+ r))). cbn [split_from].
    rewrite (bool_decide_false ("-"%char = backslash)), andb_false_r by done. cbn [head_is]. rewrite bool_decide_true by done. cbn [andb].
    cbn [split_from]. rewrite bool_decide_false by done. rewrite <- str_app_assoc. change (String newline EmptyString +:+ ?s) with (String newline s).
    by rewrite split_comment.
  - apply andb_true_iff in Hp as [-> Ht]. rewrite str_app_cons, str_app_cons, <- str_app_assoc. cbn [split_from].
    rewrite bool_decide_true by done. cbn [andb]. change (String newline EmptyString +:+ ?s) with (String newline s).
    by rewrite split_meta, str_app_nil_r.
  - change (";" +:+ ?s) with (String ";" s). cbn [split_from].
    rewrite !(bool_decide_false (";"%char = _)), andb_false_r, bool_decide_true by done. done.
Qed.

Lemma split_script ps : ∀ ls cur, script_ok ls ps = true → split_from Plain ls cur (script_text ps) = statements cur ps.
Proof.
  induction ps as [|p ps IH]; intros ls cur Hok; [done|]. cbn [script_text]. rewrite split_piece by done.
  cbn [script_ok] in Hok. apply andb_true_iff in Hok as [_ Hok]. cbn [statements].
  destruct p; cbn [piece_line] in Hok; rewrite ?(IH _ _ Hok); done.
Qed.

(** C26: a script is split into exactly its statements, each its SQL less the
    margins and nothing else: semicolons, dashes, dollars and backslashes in
    strings and dollar-quoted bodies end no statement and open nothing, comments
    and psql meta-commands leave no text, and no SQL is dropped with them. *)
Theorem split_statements_exact (ps : list Piece) :
  script_ok true ps = true → split_statements (script_text ps) = statements EmptyString ps.
Proof. by apply split_script. Qed.

(** The migrations a database owes, one for each version it is behind, in order. *)
Lemma pending_versions `{Scripts} v : 0 ≤ v ≤ SCHEMA_VERSION → m_version <$> pending (Some v) = seqZ (v + 1) (SCHEMA_VERSION - v).
Proof.
  intros Hv. unfold SCHEMA_VERSION in *. assert (v = 0 ∨ v = 1 ∨ v = 2 ∨ v = 3 ∨ v = 4 ∨ v = 5) as Hcases by lia.
  repeat (destruct Hcases as [->|Hcases]; [reflexivity|]). by subst.
Qed.

(** ** A script *)

Module Script.

(** A file header, a guard in a dollar quote, a string with a quote and a
    semicolon in it, a meta-command, and a last statement without its end. *)
Definition text_of (s : string) : list Piece := PChar <$> String.list_ascii_of_string s.
Definition guard : list Piece :=
  [PMeta "set ON_ERROR_STOP on"; PComment " don't; stop"] ++ text_of "DO " ++ [PBody "g" "BEGIN -- $1; $$ 'x END;"; PEnd] ++
  [PChar newline; PMeta "ir ../init_schema.sql"] ++ text_of "SELECT 3-1, " ++ [PString "it"; PString "s; $$ \ok"; PEnd] ++
  [PEnd; PComment "done"] ++ text_of "COMMIT".

Lemma split_statements_exact_witness :
  split_statements (script_text guard) =
  ["DO $g$BEGIN -- $1; $$ 'x END;$g$"; "SELECT 3-1, 'it''s; $$ \ok'"; "COMMIT"].
Proof. rewrite (split_statements_exact guard); vm_compute; reflexivity. Defined.
End Script.
