(* ===== verification/Migrations.v ===== *)
(** * Migrating capture databases ([db.rs]: [migrate_all], [migrate_from],
      [migrate_holding], [start_migration], [recheck_if_behind],
      [create_database], [delete_database], [refresh_rollup])

    The tasks that bring one database to the current schema, as they interleave:
    the sweep, the runs that requests and an operator start, the checks of a
    database left behind, its creation and deletion. A task stands where the code
    awaits PostgreSQL or a lock; what it does to the gateway's state of the
    database is [Store]'s critical sections.

    What is taken of the scripts of [schema/]: a statement commits on its own;
    [init_schema.sql] creates the version table early and stamps the version
    last, and nothing else stamps one; [0001] makes [can_frame] the table
    [capture_frame]; a script may leave the rollup uncovered. *)

From S2P Require Import Prelude Model Settings Rows Store Gateway Schema.
From stdpp Require Import sorting.
Local Open Scope Z_scope.

(** ** A database's schema *)

(** The rows of [schema_version] if there is the table; whether [can_frame] and
    [capture_frame] are tables; whether the rollup covers the frames. *)
Record Shape := MkShape { sh_versions : option (list Z); sh_legacy : bool; sh_renamed : bool; sh_covered : bool }.
Definition no_schema : Shape := MkShape None false false true.

(** [coalesce(max(version), 0)]. *)
Definition max_version (vs : list Z) : Z := match vs with [] => 0 | v :: vs => foldr Z.max v vs end.

(** [detect_version] of it, where the queries work. *)
Definition probe_of (d : Shape) : Probe :=
  MkProbe (bool_decide (is_Some (sh_versions d))) (Some (sh_legacy d)) (sh_renamed d).
Definition version_of (d : Shape) : option Z :=
  match detect_version (Ok (probe_of d)) (Ok (max_version (default [] (sh_versions d)))) with
  | Ok v => v
  | Err _ => None
  end.

(** What a script does: [0001] renames; any may uncover the rollup. *)
Definition scripted (v : Z) (covered : bool) (d : Shape) : Shape :=
  if v =? 1 then MkShape (sh_versions d) false (sh_legacy d || sh_renamed d) covered
  else MkShape (sh_versions d) (sh_legacy d) (sh_renamed d) covered.
(** [init_schema.sql] up to its version table, and to its end. *)
Definition tracked_by_init (d : Shape) : Shape :=
  MkShape (Some (default [] (sh_versions d))) (sh_legacy d) (sh_renamed d) (sh_covered d).
Definition stamped_by_init (d : Shape) : Shape :=
  MkShape (Some (let vs := default [] (sh_versions d) in if existsb (Z.eqb SCHEMA_VERSION) vs then vs else vs ++ [SCHEMA_VERSION]))
    (sh_legacy d) true (sh_covered d).
Definition set_covered (d : Shape) : Shape := MkShape (sh_versions d) (sh_legacy d) (sh_renamed d) true.

(** The versions of [Schema.pending]. *)
Definition pending_versions (from : option Z) : list Z :=
  match from with None => [] | Some v => filter (λ w, v < w) [1; 2; 3; 4; 5] end.

(** ** Tasks *)

(** [migrate_from] and [migrate_holding]: wait for the lock, probe, mark it
    migrating; the scripts, the schema and its stamp, the drain, the rollup's
    status, its rebuild, the drained span's refresh; forget the rows counted,
    mark it current; or mark it failed. *)
Inductive RunPc :=
  | PLock | PProbe | PBegin | PScripts (todo : list Z) | PInit | PStamp
  | PDrain | PRollup | PRebuild | PRefresh | PNote | PCurrent | PFail (e : string).
(** The lock it has or waits for, the version it was given or found. *)
Record Run := MkRun { q_lock : nat; q_at : option Z; q_pc : RunPc }.

Inductive MTask :=
  | TRun (q : Run)
  (** [recheck_if_behind]: its test, its probe, its drain, the state it found. *)
  | TCheck | TCheckProbe | TCheckDrain | TChecked (probe : result string (option Z)) (drained : result string Z)
  (** [start_migration]: existence, the state, the lock, the probe, the claim. *)
  | TStart | TStartRefuse | TStartTry | TStartProbe (l : nat) | TStartClaim (l : nat) (at_ : Z)
  (** The sweep: its probe, [buffer_left], the state it sets, then its run. *)
  | TSweep | TSweepOwed (v : Z) | TSweepSet (s : DbSchemaState) (at_ : option Z) | TSweepRun (at_ : Z)
  (** [create_database]: the creation, what is made of one there was. *)
  | TCreate | TCreated (fresh : bool) | TCreateProbe | TCreateSet (v : Z)
  (** [delete_database]: what it forgets, one lock after another, and the drop. *)
  | TDelete | TDeleteBuffers | TDeleteState | TDeleteLock | TDrop
  (** [repair_rollup_if_incomplete] and the operator's [refresh_rollup]. *)
  | TRepair | TRepairRefresh
  | TOver (answer : result string unit).

(** The lock a task holds. *)
Definition run_holds (pc : RunPc) : bool := match pc with PLock => false | _ => true end.
Definition holds (t : MTask) : option nat :=
  match t with
  | TRun q => if run_holds (q_pc q) then Some (q_lock q) else None
  | TStartProbe l | TStartClaim l _ => Some l
  | _ => None
  end.

Record Mig := MkMig {
  m_disk : option Shape;
  m_entry : Entry;
  m_buffered : bool;
  (** [migration_locks]' entry, and how many locks there have been. *)
  m_lock : option nat; m_locks : nat;
  m_tasks : list MTask
}.

(** What PostgreSQL answers the next statements: they work, and a script leaves
    the rollup as it says; they fail, before or after they have taken; a drain
    is owed or not. *)
Inductive MReply := MFine (covered : bool) | MFails (e : string) (took : bool) | MOwed (owed : bool).

Inductive MigEvent :=
  | MCall (t : MTask)
  | MStep (i : nat) (now : Z) (r : MReply)
  (** A request's [pool]: [require_current] under the pools' lock. *)
  | MRequest (now : Z)
  (** By hand: a script, or the stamp. *)
  | MByHand (d : Shape).

(** ** Locks *)

(** [migration_lock]: the entry's, made if there is none. *)
Definition migration_lock (m : Mig) : nat * Mig :=
  match m_lock m with
  | Some l => (l, m)
  | None => (m_locks m, MkMig (m_disk m) (m_entry m) (m_buffered m) (Some (m_locks m)) (S (m_locks m)) (m_tasks m))
  end.
Definition lock_free (l : nat) (others : list MTask) : bool := negb (existsb (λ t, bool_decide (holds t = Some l)) others).

Definition set_entry (e : Entry) (m : Mig) : Mig := MkMig (m_disk m) e (m_buffered m) (m_lock m) (m_locks m) (m_tasks m).
Definition set_disk (d : option Shape) (m : Mig) : Mig := MkMig d (m_entry m) (m_buffered m) (m_lock m) (m_locks m) (m_tasks m).
Definition set_buffered (b : bool) (m : Mig) : Mig := MkMig (m_disk m) (m_entry m) b (m_lock m) (m_locks m) (m_tasks m).
Definition forget_lock (m : Mig) : Mig := MkMig (m_disk m) (m_entry m) (m_buffered m) None (m_locks m) (m_tasks m).
Definition set_tasks (ts : list MTask) (m : Mig) : Mig := MkMig (m_disk m) (m_entry m) (m_buffered m) (m_lock m) (m_locks m) ts.
Definition mark (s : DbSchemaState) (m : Mig) : Mig := set_entry (set_state s (m_entry m)) m.

(** [migrate_from]'s call: the lock is looked up, and then waited for. *)
Definition start_run (at_ : option Z) (m : Mig) : MTask * Mig :=
  let '(l, m) := migration_lock m in (TRun (MkRun l at_ PLock), m).

Definition needs_migration (at_ : option Z) : bool := negb (bool_decide (at_ = Some SCHEMA_VERSION)).

(** A statement on the database: nothing works on one that is not there. *)
Definition on_disk {A} (r : MReply) (m : Mig) (fine : bool → Shape → A) (fails : string → bool → option Shape → A) : option A :=
  match r, m_disk m with
  | MFine c, Some d => Some (fine c d)
  | MFails e took, d => Some (fails e took d)
  | _, _ => None
  end.

(** ** Steps *)

Section Steps.
Context (auto_migrate : bool) (name : string).

Definition scripts_from (todo : list Z) : RunPc := match todo with [] => PInit | _ => PScripts todo end.

Definition run_step (now : Z) (r : MReply) (q : Run) (others : list MTask) (m : Mig) : option (MTask * Mig) :=
  let go pc := TRun (MkRun (q_lock q) (q_at q) pc) in
  let statement next (f : bool → Shape → Shape) :=
    on_disk r m (λ c d, (go next, set_disk (Some (f c d)) m))
      (λ e took d, (go (PFail e), set_disk (if took then f false <$> d else d) m)) in
  let asks (next : Shape → RunPc) := on_disk r m (λ _ d, (go (next d), m)) (λ e _ _, (go (PFail e), m)) in
  let failed e := (TOver (Err e), mark (Failed (default 0 (q_at q)) e now) m) in
  match q_pc q with
  | PLock =>
      if lock_free (q_lock q) others then Some (go (if needs_migration (q_at q) then PProbe else PBegin), m) else None
  | PProbe => on_disk r m (λ _ d, (TRun (MkRun (q_lock q) (version_of d) PBegin), m)) (λ e _ _, failed e)
  | PBegin =>
      Some (go (scripts_from (pending_versions (q_at q))), if needs_migration (q_at q) then mark (Migrating now) m else m)
  | PScripts [] => None
  | PScripts (v :: todo) => statement (scripts_from todo) (scripted v)
  | PInit => statement PStamp (λ _, tracked_by_init)
  | PStamp => statement PDrain (λ _, stamped_by_init)
  | PDrain => asks (λ _, if needs_migration (q_at q) then PRollup else PRefresh)
  | PRollup => asks (λ d, if sh_covered d then PRefresh else PRebuild)
  | PRebuild => statement PRefresh (λ _, set_covered)
  | PRefresh => asks (λ _, PNote)
  | PNote => Some (go PCurrent, set_buffered false m)
  | PCurrent => Some (TOver (Ok tt), mark (Current SCHEMA_VERSION) m)
  | PFail e => Some (failed e)
  end.

Definition check_step (now : Z) (r : MReply) (t : MTask) (m : Mig) : option (MTask * Mig) :=
  let over := TOver (Ok tt) in
  match t with
  | TCheck => Some (if behind auto_migrate now (schema_state (m_entry m)) then TCheckProbe else over, m)
  | TCheckProbe =>
      on_disk r m (λ _ d, (match version_of d with
                           | None => over
                           | Some v => if v =? SCHEMA_VERSION then TCheckDrain else TChecked (Ok (Some v)) (Ok 0)
                           end, m)) (λ _ _ _, (over, m))
  | TCheckDrain =>
      on_disk r m (λ _ _, (TChecked (Ok (Some SCHEMA_VERSION)) (Ok 0), set_buffered false m)) (λ _ _ _, (over, m))
  | TChecked probe drained => Some (over, set_entry (entry_step auto_migrate name (m_entry m) (Recheck now probe drained)) m)
  | _ => None
  end.

Definition start_step (now : Z) (r : MReply) (t : MTask) (others : list MTask) (m : Mig) : option (MTask * Mig) :=
  let refuse why := TOver (Err ("database '" +:+ name +:+ "' " +:+ why)) in
  let settled := refuse ("is " +:+ match schema_state (m_entry m) with Some s => state_label s | None => "" end) in
  match t with
  | TStart =>
      match r with
      | MFails e _ => Some (TOver (Err e), m)
      | _ => Some (match m_disk m with Some _ => TStartRefuse | None => refuse "does not exist" end, m)
      end
  | TStartRefuse => Some (if refuse_settled (schema_state (m_entry m)) then settled else TStartTry, m)
  | TStartTry =>
      let '(l, m) := migration_lock m in
      Some (if lock_free l others then TStartProbe l else refuse "is migrating", m)
  | TStartProbe l =>
      on_disk r m (λ _ d, (match version_of d with
                           | None => refuse "holds no capture schema"
                           | Some v => TStartClaim l v
                           end, m)) (λ e _ _, (TOver (Err e), m))
  | TStartClaim l v =>
      Some (if refuse_settled (schema_state (m_entry m)) then settled else TRun (MkRun l (Some v) PBegin),
            set_entry (entry_step auto_migrate name (m_entry m) (Start now)) m)
  | _ => None
  end.

Definition sweep_step (now : Z) (r : MReply) (t : MTask) (m : Mig) : option (MTask * Mig) :=
  match t with
  | TSweep =>
      on_disk r m (λ _ d, (match version_of d with
                           | None => TOver (Ok tt)
                           | Some v => if v =? SCHEMA_VERSION then TSweepOwed v
                                       else TSweepSet (Pending v) (if auto_migrate then Some v else None)
                           end, m))
        (λ e _ _, (TSweepSet (Failed 0 e now) None, m))
  | TSweepOwed v =>
      let owed := match r with MOwed b => b | _ => true end in
      Some (TSweepSet (if owed then Pending v else Current v) (Some v), m)
  | TSweepSet s at_ => Some (match at_ with Some v => TSweepRun v | None => TOver (Ok tt) end, mark s m)
  | TSweepRun v => Some (start_run (Some v) m)
  | _ => None
  end.

Definition create_step (now : Z) (r : MReply) (t : MTask) (m : Mig) : option (MTask * Mig) :=
  match t with
  | TCreate =>
      match r, m_disk m with
      | MFails e took, None => Some (TOver (Err e), if (took : bool) then set_disk (Some no_schema) m else m)
      | MFails e _, Some _ => Some (TOver (Err e), m)
      | _, None => Some (TCreated true, set_disk (Some no_schema) m)
      | _, Some _ => Some (TCreated false, m)
      end
  | TCreated fresh => Some (if fresh || auto_migrate then start_run None m else (TCreateProbe, m))
  | TCreateProbe =>
      on_disk r m (λ _ d, match version_of d with
                          | Some v => if negb (v =? SCHEMA_VERSION) then (TCreateSet v, m) else start_run (Some v) m
                          | None => start_run None m
                          end) (λ e _ _, (TOver (Err e), m))
  | TCreateSet v => Some (TOver (Ok tt), mark (Pending v) m)
  | _ => None
  end.

Definition delete_step (r : MReply) (t : MTask) (m : Mig) : option (MTask * Mig) :=
  let forget x m := set_entry (entry_step auto_migrate name (m_entry m) x) m in
  match t with
  | TDelete => Some (TDeleteBuffers, forget DropPool m)
  | TDeleteBuffers => Some (TDeleteState, set_buffered false (forget DropBufferPool m))
  | TDeleteState => Some (TDeleteLock, forget DropState m)
  | TDeleteLock => Some (TDrop, forget_lock m)
  | TDrop =>
      match r with
      | MFails e took => Some (TOver (Err e), if (took : bool) then set_disk None m else m)
      | _ => Some (TOver (Ok tt), set_disk None m)
      end
  | _ => None
  end.

Definition repair_step (r : MReply) (t : MTask) (m : Mig) : option (MTask * Mig) :=
  match t with
  | TRepair => on_disk r m (λ _ d, (if sh_covered d then TOver (Ok tt) else TRepairRefresh, m)) (λ e _ _, (TOver (Err e), m))
  | TRepairRefresh =>
      on_disk r m (λ _ d, (TOver (Ok tt), set_disk (Some (set_covered d)) m))
        (λ e took d, (TOver (Err e), set_disk (if took then set_covered <$> d else d) m))
  | _ => None
  end.

Definition mig_task_step (now : Z) (r : MReply) (t : MTask) (others : list MTask) (m : Mig) : option (MTask * Mig) :=
  match t with
  | TRun q => run_step now r q others m
  | TCheck | TCheckProbe | TCheckDrain | TChecked _ _ => check_step now r t m
  | TStart | TStartRefuse | TStartTry | TStartProbe _ | TStartClaim _ _ => start_step now r t others m
  | TSweep | TSweepOwed _ | TSweepSet _ _ | TSweepRun _ => sweep_step now r t m
  | TCreate | TCreated _ | TCreateProbe | TCreateSet _ => create_step now r t m
  | TDelete | TDeleteBuffers | TDeleteState | TDeleteLock | TDrop => delete_step r t m
  | TRepair | TRepairRefresh => repair_step r t m
  | TOver _ => None
  end.

(** What a caller starts. *)
Definition callable (t : MTask) : bool :=
  match t with TCheck | TStart | TSweep | TCreate | TDelete | TRepair | TRepairRefresh => true | _ => false end.

Definition mig_step (m : Mig) (e : MigEvent) : option Mig :=
  match e with
  | MCall t => if callable t then Some (set_tasks (m_tasks m ++ [t]) m) else None
  | MStep i now r =>
      t ← m_tasks m !! i;
      '(t', m') ← mig_task_step now r t (delete i (m_tasks m)) m;
      Some (set_tasks (<[i := t']> (m_tasks m)) m')
  | MRequest now =>
      let starts := (require_current auto_migrate now name (schema_state (m_entry m))).2 in
      let m := set_entry (pool_if_current auto_migrate now name (m_entry m)).2 m in
      Some (if (starts : bool) then let '(t, m) := start_run None m in set_tasks (m_tasks m ++ [t]) m else m)
  | MByHand d => Some (set_disk (Some d) m)
  end.
Fixpoint mig_steps (m : Mig) (es : list MigEvent) : option Mig :=
  match es with [] => Some m | e :: es => m' ← mig_step m e; mig_steps m' es end.

(** A gateway that has not looked yet. *)
Definition mig_start (d : option Shape) : Mig := MkMig d unseen false None 0 [].
End Steps.

(** The versions are those of [Schema]'s migrations. *)
Lemma pending_is_schemas `{Scripts} from : m_version <$> pending from = pending_versions from.
Proof.
  destruct from as [v|]; [|done]. unfold pending, pending_versions, MIGRATIONS.
  cbn [filter list_filter m_version]. repeat case_decide; done.
Qed.

(** ** One run at a time, and only what is finished is current *)

(** [init_schema.sql] has run to its end. *)
Definition stamped (m : Mig) : Prop :=
  ∃ d, m_disk m = Some d ∧ SCHEMA_VERSION ∈ default [] (sh_versions d).

Lemma max_version_elem vs : vs ≠ [] → max_version vs ∈ vs.
Proof.
  destruct vs as [|v vs]; [done|]. intros _. cbn. induction vs as [|w vs IH]; cbn; [by left|].
  destruct (Z.max_spec w (foldr Z.max v vs)) as [[_ ->]|[_ ->]]; [|by right; left].
  apply elem_of_cons in IH as [->|Hin]; [by left|by right; right].
Qed.
Lemma version_current d : version_of d = Some SCHEMA_VERSION → SCHEMA_VERSION ∈ default [] (sh_versions d).
Proof.
  unfold version_of, detect_version, probe_of. cbn [map_err tracked]. destruct (sh_versions d) as [vs|]; cbn.
  - intros Hv. assert (max_version vs = SCHEMA_VERSION) as Hm by congruence. rewrite <- Hm. apply max_version_elem.
    intros ->. done.
  - by destruct (sh_legacy d), (sh_renamed d).
Qed.

(** The lock a task has or waits for, and whether it takes the schema for
    finished. *)
Definition task_lock (t : MTask) : option nat :=
  match t with TRun q => Some (q_lock q) | TStartProbe l | TStartClaim l _ => Some l | _ => None end.
Definition claims (t : MTask) : bool :=
  match t with
  | TRun q => bool_decide (q_at q = Some SCHEMA_VERSION) ||
              match q_pc q with PDrain | PRollup | PRebuild | PRefresh | PNote | PCurrent => true | _ => false end
  | TCheckDrain | TSweepOwed _ => true
  | TChecked (Ok (Some v)) _ => v =? SCHEMA_VERSION
  | TSweepSet s at_ => is_current (Some s) || bool_decide (at_ = Some SCHEMA_VERSION)
  | TSweepRun v | TStartClaim _ v => v =? SCHEMA_VERSION
  | _ => false
  end.
Definition deletes (t : MTask) : bool :=
  match t with TDelete | TDeleteBuffers | TDeleteState | TDeleteLock | TDrop => true | _ => false end.

Record mig_ok (m : Mig) : Prop := MkMigOk {
  mo_lock : ∀ t l, t ∈ m_tasks m → task_lock t = Some l → m_lock m = Some l;
  mo_one : ∀ i j t u, m_tasks m !! i = Some t → m_tasks m !! j = Some u → is_Some (holds t) → is_Some (holds u) → i = j;
  mo_claims : ∀ t, t ∈ m_tasks m → claims t = true → stamped m;
  mo_current : is_current (schema_state (m_entry m)) = true → stamped m;
  mo_kept : ∀ t, t ∈ m_tasks m → deletes t = false
}.

Lemma stamped_scripted v c d : SCHEMA_VERSION ∈ default [] (sh_versions d) → SCHEMA_VERSION ∈ default [] (sh_versions (scripted v c d)).
Proof. unfold scripted. by destruct (v =? 1). Qed.
Lemma stamped_by_init_elem d : SCHEMA_VERSION ∈ default [] (sh_versions (stamped_by_init d)).
Proof.
  unfold stamped_by_init. cbn [sh_versions from_option id]. destruct (existsb _ _) eqn:He.
  - apply existsb_elem in He as (x & Hx & He). apply Z.eqb_eq in He as <-. done.
  - rewrite elem_of_app. right. by left.
Qed.
Create HintDb mig.
#[local] Hint Resolve stamped_scripted stamped_by_init_elem version_current : mig.

Lemma holds_task_lock t l : holds t = Some l → task_lock t = Some l.
Proof. destruct t; try done. cbn. by destruct (run_holds _). Qed.
Lemma lock_free_spec l others : lock_free l others = true → ∀ t, t ∈ others → holds t ≠ Some l.
Proof.
  unfold lock_free. rewrite negb_true_iff. intros Hf t Ht Hl.
  assert (existsb (λ t, bool_decide (holds t = Some l)) others = true) as He; [|congruence].
  apply existsb_elem. exists t. by rewrite bool_decide_eq_true.
Qed.

Section Invariant.
Context (auto_migrate : bool) (name : string).

(** What one task's step may do. *)
Record framed (t : MTask) (others : list MTask) (m : Mig) (t' : MTask) (m' : Mig) : Prop := MkFramed {
  fr_tasks : m_tasks m' = m_tasks m;
  fr_lock : ∀ l, m_lock m = Some l → m_lock m' = Some l;
  fr_task : (∀ l, task_lock t = Some l → m_lock m = Some l) → ∀ l, task_lock t' = Some l → m_lock m' = Some l;
  fr_holds : is_Some (holds t') → is_Some (holds t) ∨ ∃ l, holds t' = Some l ∧ lock_free l others = true;
  fr_stamped : stamped m → stamped m';
  fr_claims : (claims t = true → stamped m) → claims t' = true → stamped m';
  fr_current : (is_current (schema_state (m_entry m)) = true → stamped m) → (claims t = true → stamped m) →
    is_current (schema_state (m_entry m')) = true → stamped m';
  fr_kept : deletes t' = false
}.

Lemma start_run_framed at_ t others m t' m' :
  (at_ = Some SCHEMA_VERSION → claims t = true ∨ stamped m) → start_run at_ m = (t', m') → framed t others m t' m'.
Proof.
  unfold start_run, migration_lock. intros Hc.
  assert (∀ l m', m_disk m' = m_disk m → (claims t = true → stamped m) → claims (TRun (MkRun l at_ PLock)) = true → stamped m') as Hcl.
  { intros l m1 Hd Ht. cbn. rewrite orb_false_r, bool_decide_eq_true. intros Hat.
    assert (stamped m) as (d & Hm & ?) by (destruct (Hc Hat); auto). exists d. by rewrite Hd. }
  destruct (m_lock m) as [l|] eqn:Hl; intros [= <- <-]; constructor; eauto; try done; cbn.
  all: try (by intros _ ? [= <-]); try (by intros [? ?]); try congruence.
Qed.

(** The disk changes and stays finished; nothing else does. *)
Lemma disk_framed t others m t' d d' :
  m_disk m = Some d → (SCHEMA_VERSION ∈ default [] (sh_versions d) → SCHEMA_VERSION ∈ default [] (sh_versions d')) →
  (∀ l, task_lock t' = Some l → task_lock t = Some l) → (is_Some (holds t') → is_Some (holds t)) →
  ((claims t = true → SCHEMA_VERSION ∈ default [] (sh_versions d)) → claims t' = true → SCHEMA_VERSION ∈ default [] (sh_versions d')) →
  deletes t' = false → framed t others m t' (set_disk (Some d') m).
Proof.
  intros Hd Hdd Hl Hh Hc Hk.
  assert (stamped m → SCHEMA_VERSION ∈ default [] (sh_versions d)) as Hs by (intros (x & Hx & ?); congruence).
  assert (SCHEMA_VERSION ∈ default [] (sh_versions d') → stamped (set_disk (Some d') m)) as Hs' by (by exists d').
  constructor; cbn; auto 7.
Qed.
(** A task moves on, or marks a state that its database has earned. *)
Lemma same_framed t others m t' :
  (∀ l, task_lock t' = Some l → task_lock t = Some l) →
  (is_Some (holds t') → is_Some (holds t) ∨ ∃ l, holds t' = Some l ∧ lock_free l others = true) →
  ((claims t = true → stamped m) → claims t' = true → stamped m) → deletes t' = false → framed t others m t' m.
Proof. intros Hl Hh Hc Hk. constructor; auto. Qed.
Lemma entry_framed t others m t' e :
  (∀ l, task_lock t' = Some l → task_lock t = Some l) → (is_Some (holds t') → is_Some (holds t)) →
  (claims t' = true → claims t = true) → deletes t' = false →
  (is_current (schema_state e) = true → is_current (schema_state (m_entry m)) = true ∨ claims t = true) →
  framed t others m t' (set_entry e m).
Proof.
  intros Hl Hh Hc Hk He. constructor; cbn; auto 7. intros Hcur Hcl Hx. destruct (He Hx); auto.
Qed.
Lemma marked_current s m :
  is_current (schema_state (m_entry (mark s m))) = true → is_current (Some s) = true.
Proof. cbn. unfold set_state. by destruct (is_current (Some s)). Qed.

(** The steps of a run that ask the disk something. *)
Lemma on_disk_inv {A} r m (fine : bool → Shape → A) fails x :
  on_disk r m fine fails = Some x →
  (∃ c d, m_disk m = Some d ∧ x = fine c d) ∨ (∃ e took, x = fails e took (m_disk m)).
Proof. unfold on_disk. destruct r as [c|e took|owed], (m_disk m) as [d|]; intros [= <-]; eauto 6. Qed.

Lemma set_disk_same m : set_disk (m_disk m) m = m.
Proof. by destruct m. Qed.

Section ARun.
Context (l : nat) (at_ : option Z) (pc : RunPc) (others : list MTask) (m : Mig).
Notation this := (TRun (MkRun l at_ pc)).

Lemma run_mark_framed s t' :
  (∀ x, task_lock t' = Some x → l = x) → (is_Some (holds t') → run_holds pc = true) →
  (claims t' = true → claims this = true) → deletes t' = false → (is_current (Some s) = true → claims this = true) →
  framed this others m t' (mark s m).
Proof.
  intros H1 H2 H3 H4 H5. apply entry_framed; try done.
  - intros x Hx. cbn. f_equal. auto.
  - intros Hx. cbn. rewrite (H2 Hx). eauto.
  - intros Hx%(marked_current s m). auto.
Qed.

Lemma run_fail_framed e : run_holds pc = true → framed this others m (TRun (MkRun l at_ (PFail e))) m.
Proof.
  intros Hh. apply same_framed; try done; cbn; [rewrite Hh; by left; eauto|]. intros Hc Hx. apply Hc.
  rewrite orb_false_r in Hx. by rewrite Hx.
Qed.

Lemma run_statement_framed r next (f : bool → Shape → Shape) t' m' :
  run_holds pc = true → run_holds next = true →
  (∀ c d, SCHEMA_VERSION ∈ default [] (sh_versions d) → SCHEMA_VERSION ∈ default [] (sh_versions (f c d))) →
  (∀ c d, (claims this = true → SCHEMA_VERSION ∈ default [] (sh_versions d)) →
     claims (TRun (MkRun l at_ next)) = true → SCHEMA_VERSION ∈ default [] (sh_versions (f c d))) →
  on_disk r m (λ c d, (TRun (MkRun l at_ next), set_disk (Some (f c d)) m))
    (λ e took d, (TRun (MkRun l at_ (PFail e)), set_disk (if took then f false <$> d else d) m)) = Some (t', m') →
  framed this others m t' m'.
Proof.
  intros Hh Hh' Hf Hn [(c & d & Hd & [= -> ->])|(e & took & [= -> ->])]%on_disk_inv.
  - eapply disk_framed; eauto; try done. cbn. rewrite Hh. eauto.
  - pose proof (run_fail_framed e Hh) as Hsame. destruct took; [|by rewrite set_disk_same].
    destruct (m_disk m) as [d|] eqn:Hd; cbn [fmap option_fmap option_map]; [|rewrite <- Hd; by rewrite set_disk_same].
    eapply disk_framed; eauto; try done; cbn; [rewrite Hh; eauto|]. intros Hc Hx. apply Hf, Hc.
    rewrite orb_false_r in Hx. by rewrite Hx.
Qed.

Lemma run_asks_framed r (next : Shape → RunPc) t' m' :
  run_holds pc = true → (∀ d, claims (TRun (MkRun l at_ (next d))) = true → claims this = true) →
  on_disk r m (λ _ d, (TRun (MkRun l at_ (next d)), m)) (λ e _ _, (TRun (MkRun l at_ (PFail e)), m)) = Some (t', m') →
  framed this others m t' m'.
Proof.
  intros Hh Hn [(c & d & Hd & [= -> ->])|(e & took & [= -> ->])]%on_disk_inv; [|by apply run_fail_framed].
  apply same_framed; try done; [cbn; rewrite Hh; by left; eauto|]. intros Hc Hx. by eapply Hc, Hn.
Qed.
End ARun.

Lemma run_framed now r q others m t' m' :
  run_step now r q others m = Some (t', m') → framed (TRun q) others m t' m'.
Proof.
  destruct q as [l at_ pc]. unfold run_step. cbn [q_lock q_at q_pc].
  destruct pc as [| | |[|v todo]| | | | | | | | |e]; try done.
  - destruct (lock_free l others) eqn:Hf; [|done]. intros [= <- <-]. by destruct (needs_migration at_); apply same_framed; eauto.
  - intros [(c & d & Hd & [= -> ->])|(e & took & [= -> ->])]%on_disk_inv.
    + apply same_framed; try done; cbn; [by left; eauto|]. intros _. rewrite orb_false_r, bool_decide_eq_true.
      intros Hv. exists d. eauto with mig.
    + apply run_mark_framed; done.
  - intros [= <- <-]. assert (∀ p, p = scripts_from (pending_versions at_) →
      claims (TRun (MkRun l at_ p)) = true → claims (TRun (MkRun l at_ PBegin)) = true) as Hc.
    { unfold scripts_from. intros ? ->. by destruct (pending_versions at_). }
    destruct (needs_migration at_); [apply run_mark_framed|apply same_framed]; eauto; try done.
    by intros ? [= <-].
  - intros Hs. eapply run_statement_framed in Hs; eauto with mig; [by destruct todo|].
    intros c d Hc Hx. apply stamped_scripted, Hc. revert Hx. unfold scripts_from. by destruct todo.
  - intros Hs. eapply run_statement_framed in Hs; eauto with mig.
  - intros Hs. eapply run_statement_framed in Hs; eauto with mig.
  - intros Hs. eapply run_asks_framed in Hs; [exact Hs|done|]. cbn. intros d _. apply orb_true_r.
  - intros Hs. eapply run_asks_framed in Hs; [exact Hs|done|]. cbn. intros d _. apply orb_true_r.
  - intros Hs. eapply run_statement_framed in Hs; eauto with mig.
  - intros Hs. eapply run_asks_framed in Hs; [exact Hs|done|]. cbn. intros d _. apply orb_true_r.
  - intros [= <- <-]. constructor; try done; cbn; try (rewrite orb_true_r); eauto.
  - intros [= <- <-]. apply run_mark_framed; try done; cbn; intros _; apply orb_true_r.
  - intros [= <- <-]. by apply run_mark_framed.
Qed.

Ltac moves_on := apply same_framed; cbn; try done; try (by intros [? ?]); eauto 6.

Lemma check_framed now r t others m t' m' :
  check_step auto_migrate name now r t m = Some (t', m') → framed t others m t' m'.
Proof.
  unfold check_step. destruct t; try done.
  - intros [= <- <-]. by destruct (behind _ _ _); moves_on.
  - intros [(c & d & Hd & [= -> ->])|(e & took & [= -> ->])]%on_disk_inv; [|moves_on].
    destruct (version_of d) as [v|] eqn:Hv; [|moves_on]. destruct (Z.eqb_spec v SCHEMA_VERSION) as [->|Hne].
    + moves_on. intros _ _. exists d. eauto with mig.
    + moves_on. cbn. by apply Z.eqb_neq in Hne as ->.
  - intros [(c & d & Hd & [= -> ->])|(e & took & [= -> ->])]%on_disk_inv; [|moves_on].
    constructor; try done; eauto.
  - intros [= <- <-]. apply entry_framed; try done. cbn. unfold rechecked. destruct probe as [[v|]|]; try by left.
    destruct (v =? SCHEMA_VERSION); [|by destruct (behind _ _ _); eauto]. destruct drained; eauto.
Qed.

Lemma start_framed now r t others m t' m' :
  start_step auto_migrate name now r t others m = Some (t', m') → framed t others m t' m'.
Proof.
  unfold start_step. destruct t; try done.
  - destruct r; intros [= <- <-]; try (moves_on; fail); destruct (m_disk m); moves_on.
  - intros [= <- <-]. destruct (refuse_settled _); moves_on.
  - unfold migration_lock. destruct (m_lock m) as [l|] eqn:Hl; intros [= <- <-]; destruct (lock_free _ others) eqn:Hf;
      constructor; try done; cbn; eauto; try congruence.
    all: try (by intros _ ? [= <-]); by intros [? ?].
  - intros [(c & d & Hd & [= -> ->])|(e & took & [= -> ->])]%on_disk_inv; [|moves_on].
    destruct (version_of d) as [v|] eqn:Hv; [|moves_on]. moves_on.
    intros _. cbn. intros ->%Z.eqb_eq. exists d. eauto with mig.
  - intros [= <- <-]. destruct (refuse_settled (schema_state (m_entry m))) eqn:Hr.
    + apply entry_framed; try done. auto.
    + apply entry_framed; try done. cbn. rewrite orb_false_r, bool_decide_eq_true. intros [= ->]. by apply Z.eqb_eq.
Qed.

Lemma sweep_framed now r t others m t' m' :
  sweep_step auto_migrate now r t m = Some (t', m') → framed t others m t' m'.
Proof.
  unfold sweep_step. destruct t; try done.
  - intros [(c & d & Hd & [= -> ->])|(e & took & [= -> ->])]%on_disk_inv; [|moves_on].
    destruct (version_of d) as [v|] eqn:Hv; [|moves_on]. destruct (Z.eqb_spec v SCHEMA_VERSION) as [->|Hne].
    + moves_on. intros _ _. exists d. eauto with mig.
    + moves_on. intros _. cbn. rewrite bool_decide_eq_true. destruct auto_migrate; congruence.
  - intros [= <- <-]. moves_on.
  - intros [= <- <-]. apply entry_framed; try done; try by destruct at_.
    + cbn. destruct at_ as [v|]; [|done]. cbn. intros ->%Z.eqb_eq. rewrite bool_decide_eq_true_2 by done. apply orb_true_r.
    + intros Hx%(marked_current s m). right. cbn [claims]. by rewrite Hx.
  - intros [= Hs]. eapply start_run_framed; [|exact Hs]. intros [= ->]. left. by apply Z.eqb_eq.
Qed.

Lemma create_framed now r t others m t' m' :
  create_step auto_migrate now r t m = Some (t', m') → framed t others m t' m'.
Proof.
  assert (∀ u v, m_disk m = None → task_lock v = None → holds v = None → claims v = false → deletes v = false →
    framed u others m v (set_disk (Some no_schema) m)) as Hnew.
  { intros u v Hd Hl Hh Hc Hk. assert (stamped m → False) as Hns by (intros (d & Hx & _); congruence).
    constructor; try done; cbn; rewrite ?Hl, ?Hh, ?Hc; try done.
    intros H1 _ H3. destruct (Hns (H1 H3)). }
  unfold create_step. destruct t; try done.
  - destruct r as [c|e took|owed], (m_disk m) as [d|] eqn:Hd; intros [= <- <-]; try (moves_on; fail).
    + by apply Hnew.
    + destruct took; [by apply Hnew|moves_on].
    + by apply Hnew.
  - intros [= Hs]. destruct (fresh || auto_migrate); [by eapply start_run_framed; [|exact Hs]|].
    injection Hs as <- <-. moves_on.
  - intros [(c & d & Hd & Hs)|(e & took & [= -> ->])]%on_disk_inv; [|moves_on].
    destruct (version_of d) as [v|] eqn:Hv; [|by eapply start_run_framed; [|symmetry; exact Hs]].
    destruct (Z.eqb_spec v SCHEMA_VERSION) as [->|Hne]; cbn in Hs; [|injection Hs as -> ->; moves_on].
    eapply start_run_framed; [|symmetry; exact Hs]. intros _. right. exists d. eauto with mig.
  - intros [= <- <-]. by apply entry_framed.
Qed.

Lemma repair_framed r t others m t' m' : repair_step r t m = Some (t', m') → framed t others m t' m'.
Proof.
  unfold repair_step. destruct t; try done.
  - intros [(c & d & Hd & [= -> ->])|(e & took & [= -> ->])]%on_disk_inv; [|moves_on].
    destruct (sh_covered d); moves_on.
  - intros [(c & d & Hd & [= -> ->])|(e & took & [= -> ->])]%on_disk_inv.
    + by eapply disk_framed.
    + destruct took; [|rewrite set_disk_same; moves_on].
      destruct (m_disk m) as [d|] eqn:Hd; cbn [fmap option_fmap option_map]; [|rewrite <- Hd, set_disk_same; moves_on].
      by eapply disk_framed.
Qed.

Lemma task_framed now r t others m t' m' :
  deletes t = false → mig_task_step auto_migrate name now r t others m = Some (t', m') → framed t others m t' m'.
Proof.
  intros Hd. destruct t; try done; cbn [mig_task_step];
    first [apply run_framed|apply check_framed|apply start_framed|apply sweep_framed|apply create_framed|apply repair_framed].
Qed.

(** The tasks but one, which has become another. *)
Lemma task_replaced (m m' : Mig) i t t' :
  m_tasks m !! i = Some t → mig_ok m → framed t (delete i (m_tasks m)) m t' m' →
  mig_ok (set_tasks (<[i := t']> (m_tasks m)) m').
Proof.
  intros Hi [Hlock Hone Hclaims Hcur Hkept] [_ Fl Ft Fh Fs Fc Fcur Fk].
  assert (t ∈ m_tasks m) as Hin by (apply list_elem_of_lookup; eauto).
  assert (∀ u, u ∈ <[i := t']> (m_tasks m) → u = t' ∨ u ∈ m_tasks m) as Hof.
  { intros u [j Hj]%list_elem_of_lookup. apply list_lookup_insert_Some in Hj as [(_ & <- & _)|[_ Hj]]; [by left|].
    right. apply list_elem_of_lookup. eauto. }
  assert (∀ j u, i ≠ j → m_tasks m !! j = Some u → is_Some (holds u) → ¬ is_Some (holds t')) as Hother.
  { intros j u Hne Hj Hu Ht'. destruct (Fh Ht') as [Ht|(l & Hl & Hfree)]; [by destruct (Hne (Hone i j t u Hi Hj Ht Hu))|].
    destruct Hu as [l' Hu]. assert (u ∈ delete i (m_tasks m)) as Hud.
    { apply list_elem_of_lookup. destruct (decide (j < i)%nat).
      - exists j. by rewrite list_lookup_delete_lt.
      - exists (j - 1)%nat. rewrite list_lookup_delete_ge by lia. by replace (S (j - 1)) with j by lia. }
    apply (lock_free_spec l _ Hfree u Hud). rewrite Hu. f_equal.
    assert (m_lock m = Some l') as Hl1 by (eapply Hlock; [apply list_elem_of_lookup; eauto|by apply holds_task_lock]).
    assert (m_lock m' = Some l) as Hl2 by (eapply Ft; [by eauto|by apply holds_task_lock]).
    rewrite (Fl l' Hl1) in Hl2. congruence. }
  constructor; cbn [m_tasks m_lock m_entry set_tasks].
  - intros u l [->|Hu]%Hof Hl; [eapply Ft; eauto|]. eapply Fl, Hlock; eauto.
  - intros j k u v Hj Hk Hu Hv. apply list_lookup_insert_Some in Hj as [(<- & <- & _)|[Hnj Hj]];
      apply list_lookup_insert_Some in Hk as [(<- & <- & _)|[Hnk Hk]]; try done.
    + by destruct (Hother k v Hnk Hk Hv).
    + by destruct (Hother j u Hnj Hj Hu).
    + by eapply Hone.
  - intros u [->|Hu]%Hof Hc; [apply Fc; eauto|]. eapply Fs, Hclaims; eauto.
  - apply Fcur; eauto.
  - intros u [->|Hu]%Hof; eauto.
Qed.

(** No one deletes the database, and who changes it by hand finishes. *)
Definition orderly (e : MigEvent) : bool :=
  match e with
  | MCall t => negb (deletes t)
  | MByHand d => existsb (Z.eqb SCHEMA_VERSION) (default [] (sh_versions d))
  | _ => true
  end.

(** A task is added that holds nothing. *)
Lemma task_added m t :
  mig_ok m → (∀ l, task_lock t = Some l → m_lock m = Some l) → holds t = None → claims t = false → deletes t = false →
  mig_ok (set_tasks (m_tasks m ++ [t]) m).
Proof.
  intros [Hlock Hone Hclaims Hcur Hkept] Hl Hh Hc Hk.
  assert (∀ u, u ∈ m_tasks m ++ [t] → u = t ∨ u ∈ m_tasks m) as Hof.
  { intros u [Hu|Hu]%elem_of_app; [by right|]. left. by apply list_elem_of_singleton in Hu. }
  assert (∀ j u, (m_tasks m ++ [t]) !! j = Some u → is_Some (holds u) → m_tasks m !! j = Some u) as Hat.
  { intros j u Hj Hu. apply lookup_app_Some in Hj as [Hj|[_ Hj]]; [done|]. apply list_lookup_singleton_Some in Hj as [_ <-].
    rewrite Hh in Hu. by destruct Hu. }
  constructor; cbn [m_tasks m_lock m_entry set_tasks]; try done.
  - intros u l [->|Hu]%Hof; eauto.
  - intros j k u v Hj Hk' Hu Hv. eapply Hone; eauto.
  - intros u [->|Hu]%Hof; [congruence|eauto].
  - intros u [->|Hu]%Hof; eauto.
Qed.
Lemma mig_ok_entry m e :
  mig_ok m → (is_current (schema_state e) = true → is_current (schema_state (m_entry m)) = true) → mig_ok (set_entry e m).
Proof. intros [Hlock Hone Hclaims Hcur Hkept] He. constructor; cbn; auto. Qed.
Lemma mig_ok_lock m t m' : mig_ok m → start_run None m = (t, m') → mig_ok m' ∧ task_lock t = m_lock m' ∧ holds t = None ∧ claims t = false ∧ deletes t = false.
Proof.
  unfold start_run, migration_lock. destruct (m_lock m) as [l|] eqn:Hl; intros Hok [= <- <-]; [done|].
  destruct Hok as [Hlock Hone Hclaims Hcur Hkept]. split; [|done]. constructor; cbn; auto.
  intros u l Hu Hx. specialize (Hlock u l Hu Hx). congruence.
Qed.

Lemma request_current now e :
  is_current (schema_state (pool_if_current auto_migrate now name e).2) = true → is_current (schema_state e) = true.
Proof.
  unfold pool_if_current, require_current. destruct (schema_state e) as [[v|v|since|v er since]|]; try done.
  - destruct (auto_migrate && _); done.
  - by destruct auto_migrate.
Qed.

Lemma mig_step_ok m e m' : orderly e = true → mig_ok m → mig_step auto_migrate name m e = Some m' → mig_ok m'.
Proof.
  intros He Hok. destruct e as [t|i now r|now|d]; cbn [mig_step].
  - destruct (callable t) eqn:Hc; [|done]. intros [= <-]. apply task_added; try done; destruct t; done.
  - destruct (m_tasks m !! i) as [t|] eqn:Hi; [|done]. cbn [mbind option_bind].
    destruct (mig_task_step _ _ _ _ _ _ _) as [[t' m1]|] eqn:Hs; [|done]. cbn. intros [= <-].
    eapply task_replaced; [done|done|]. eapply task_framed; [|exact Hs]. eapply mo_kept; [done|].
    apply list_elem_of_lookup. eauto.
  - assert (mig_ok (set_entry (pool_if_current auto_migrate now name (m_entry m)).2 m)) as Hok1.
    { apply mig_ok_entry; [done|]. apply request_current. }
    destruct (require_current _ _ _ _).2; [|by intros [= <-]].
    destruct (start_run None _) as [t m1] eqn:Hr. intros [= <-].
    destruct (mig_ok_lock _ _ _ Hok1 Hr) as (Hok2 & Hl & Hh & Hc & Hk). apply task_added; try done. intros l. by rewrite Hl.
  - intros [= <-]. apply existsb_elem in He as (x & Hx & Hxe). apply Z.eqb_eq in Hxe as <-.
    destruct Hok as [Hlock Hone Hclaims Hcur Hkept]. constructor; cbn; auto; intros; by exists d.
Qed.
Lemma mig_steps_ok es : ∀ m m', forallb orderly es = true → mig_ok m → mig_steps auto_migrate name m es = Some m' → mig_ok m'.
Proof.
  induction es as [|e es IH]; intros m m' He Hok; [by intros [= <-]|]. cbn in *. apply andb_true_iff in He as [He Hes].
  destruct (mig_step _ _ m e) as [m1|] eqn:H1; [|done]. cbn. apply IH; [done|]. by eapply mig_step_ok.
Qed.


(** ** A script runs on a database below it *)

Definition vdisk (m : Mig) : option (option Z) := version_of <$> m_disk m.
Definition script_ok (t : MTask) (v : option (option Z)) : Prop :=
  match t with
  | TRun (MkRun _ at_ PBegin) => v = Some at_ ∨ at_ = Some SCHEMA_VERSION
  | TRun (MkRun _ _ (PScripts todo)) => ∃ w, v = Some (Some w) ∧ Forall (Z.lt w) todo ∧ StronglySorted Z.lt todo
  | TStartClaim _ w => v = Some (Some w)
  | _ => True
  end.

Lemma scripted_version v c d w :
  version_of d = Some w → w < v →
  version_of (scripted v c d) = Some w ∨ v = 1 ∧ version_of (scripted v c d) = Some 1.
Proof.
  unfold version_of, detect_version, probe_of, scripted. destruct (Z.eqb_spec v 1) as [->|Hne]; [|by left].
  cbn [map_err tracked sh_versions sh_legacy sh_renamed]. destruct (sh_versions d) as [vs|]; [by left|].
  cbn. destruct (sh_legacy d), (sh_renamed d); cbn; try by auto. all: by intros [= <-].
Qed.
Lemma pending_sorted from : StronglySorted Z.lt (pending_versions from).
Proof.
  destruct from as [v|]; [|constructor]. unfold pending_versions.
  cbn [filter list_filter]. repeat case_decide; repeat constructor; lia.
Qed.
Lemma pending_above v : Forall (Z.lt v) (pending_versions (Some v)).
Proof. apply Forall_forall. intros w [Hw _]%list_elem_of_filter. done. Qed.

(** A task keeps the version, or holds the lock. *)
Definition keeps_version (m m' : Mig) : Prop := m_disk m = None ∨ vdisk m' = vdisk m.

Lemma scripts_begin at_ vd l :
  vd = Some at_ ∨ at_ = Some SCHEMA_VERSION → script_ok (TRun (MkRun l at_ (scripts_from (pending_versions at_)))) vd.
Proof.
  intros Hv. unfold scripts_from. destruct (pending_versions at_) as [|v todo] eqn:Hp; [done|]. cbn.
  destruct at_ as [w|]; [|done]. destruct Hv as [->|[= ->]]; [|done]. exists w. split_and!; [done| |].
  - rewrite <- Hp. apply pending_above.
  - rewrite <- Hp. apply pending_sorted.
Qed.
Lemma scripts_next l at_ v todo d c :
  script_ok (TRun (MkRun l at_ (PScripts (v :: todo)))) (Some (version_of d)) →
  script_ok (TRun (MkRun l at_ (scripts_from todo))) (Some (version_of (scripted v c d))).
Proof.
  intros (w & [= Hw] & Hlt & Hs). unfold scripts_from. destruct todo as [|x todo]; [done|]. cbn.
  inversion_clear Hlt as [|? ? Hv Hrest]. inversion_clear Hs as [|? ? Hs' Hvs].
  destruct (scripted_version v c d w Hw Hv) as [->|[-> ->]]; eauto.
Qed.

Lemma run_script_step now r q others m t' m' :
  script_ok (TRun q) (vdisk m) → run_step now r q others m = Some (t', m') →
  script_ok t' (vdisk m') ∧ (is_Some (holds (TRun q)) ∨ keeps_version m m').
Proof.
  destruct q as [l at_ pc]. unfold run_step. cbn [q_lock q_at q_pc]. intros Hok.
  destruct (run_holds pc) eqn:Hpc; cycle 1.
  { destruct pc; try done. destruct (lock_free l others); [|done]. intros [= <- <-]. split; [|right; by right].
    destruct (needs_migration at_) eqn:Hn; [done|]. right. unfold needs_migration in Hn.
    by apply negb_false_iff, bool_decide_eq_true in Hn. }
  assert (is_Some (holds (TRun (MkRun l at_ pc)))) as Hh by (cbn; rewrite Hpc; eauto).
  intros Hs. split; [|by left]. revert Hs. unfold vdisk in *.
  destruct pc as [| | |[|v todo]| | | | | | | | |e]; try done.
  - intros [(c & d & Hd & [= -> ->])|(e & took & [= -> ->])]%on_disk_inv; [|done]. rewrite Hd. by left.
  - intros [= <- <-]. destruct (needs_migration at_); by apply scripts_begin.
  - intros [(c & d & Hd & [= -> ->])|(e & took & [= -> ->])]%on_disk_inv; [|done]. rewrite Hd in Hok.
    by apply (scripts_next l at_ v todo d c).
  - by intros [(c & d & Hd & [= -> ->])|(e & took & [= -> ->])]%on_disk_inv.
  - by intros [(c & d & Hd & [= -> ->])|(e & took & [= -> ->])]%on_disk_inv.
  - intros [(c & d & Hd & [= -> ->])|(e & took & [= -> ->])]%on_disk_inv; by destruct (needs_migration at_).
  - intros [(c & d & Hd & [= -> ->])|(e & took & [= -> ->])]%on_disk_inv; [by destruct (sh_covered d)|done].
  - by intros [(c & d & Hd & [= -> ->])|(e & took & [= -> ->])]%on_disk_inv.
  - by intros [(c & d & Hd & [= -> ->])|(e & took & [= -> ->])]%on_disk_inv.
  - by intros [= <- <-].
  - by intros [= <- <-].
  - by intros [= <- <-].
Qed.

Lemma start_run_keeps at_ m t m' : start_run at_ m = (t, m') → script_ok t (vdisk m') ∧ vdisk m' = vdisk m.
Proof. unfold start_run, migration_lock. destruct (m_lock m); by intros [= <- <-]. Qed.

Lemma script_step now r t others m t' m' :
  deletes t = false → script_ok t (vdisk m) → mig_task_step auto_migrate name now r t others m = Some (t', m') →
  script_ok t' (vdisk m') ∧ (is_Some (holds t) ∨ keeps_version m m').
Proof.
  intros Hdel Hok. destruct t; try done; cbn [mig_task_step]; [by apply run_script_step|..].
  all: unfold check_step, start_step, sweep_step, create_step, repair_step, keeps_version, set_covered in *.
  - intros [= <- <-]. by destruct (behind _ _ _); auto.
  - intros [(c & d & Hd & [= -> ->])|(e & took & [= -> ->])]%on_disk_inv; [|by auto].
    destruct (version_of d) as [v|]; [destruct (v =? _)|]; auto.
  - intros [(c & d & Hd & [= -> ->])|(e & took & [= -> ->])]%on_disk_inv; auto.
  - intros [= <- <-]. auto.
  - destruct r; intros [= <- <-]; auto; destruct (m_disk m); auto.
  - intros [= <- <-]. destruct (refuse_settled _); auto.
  - unfold migration_lock. destruct (m_lock m); intros [= <- <-]; destruct (lock_free _ _); auto.
  - intros [(c & d & Hd & [= -> ->])|(e & took & [= -> ->])]%on_disk_inv; [|by auto].
    destruct (version_of d) as [v|] eqn:Hv; [|by auto]. unfold vdisk. rewrite Hd. cbn. rewrite Hv. auto.
  - intros [= <- <-]. split; [|by auto]. destruct (refuse_settled _); [done|]. by left.
  - intros [(c & d & Hd & [= -> ->])|(e & took & [= -> ->])]%on_disk_inv; [|by auto].
    destruct (version_of d) as [v|]; [destruct (v =? _)|]; auto.
  - intros [= <- <-]. auto.
  - intros [= <- <-]. destruct at_; auto.
  - intros [= Hs]. apply start_run_keeps in Hs as [? ?]. auto.
  - destruct r as [c|e took|owed], (m_disk m) as [d|]; intros [= <- <-]; auto.
  - intros [= Hs]. destruct (fresh || auto_migrate); [apply start_run_keeps in Hs as [? ?]; auto|]. injection Hs as <- <-. auto.
  - intros [(c & d & Hd & Hs)|(e & took & [= -> ->])]%on_disk_inv; [|by auto]. symmetry in Hs.
    destruct (version_of d) as [v|]; [|apply start_run_keeps in Hs as [? ?]; auto].
    destruct (v =? _); cbn in Hs; [apply start_run_keeps in Hs as [? ?]; auto|]. injection Hs as <- <-. auto.
  - intros [= <- <-]. auto.
  - intros [(c & d & Hd & [= -> ->])|(e & took & [= -> ->])]%on_disk_inv; [|by auto]. destruct (sh_covered d); auto.
  - intros [(c & d & Hd & [= -> ->])|(e & took & [= -> ->])]%on_disk_inv.
    + split; [done|]. do 2 right. unfold vdisk. by rewrite Hd.
    + split; [done|]. do 2 right. unfold vdisk. cbn. destruct took; [|done]. by destruct (m_disk m).
Qed.

Definition scripts_ok (m : Mig) : Prop := ∀ t, t ∈ m_tasks m → script_ok t (vdisk m).
Definition by_hand (e : MigEvent) : bool := match e with MByHand _ => true | _ => false end.

Lemma script_ok_free t v : holds t = None → script_ok t v.
Proof. destruct t as [[l at_ pc]| | | | | | | | | | | | | | | | | | | | | | | | |]; try done. by destruct pc. Qed.
Lemma script_ok_nothing t : script_ok t None → ∀ v, script_ok t v.
Proof.
  destruct t as [[l at_ pc]| | | | | | | | | | | | | | | | | | | | | | | | |]; try done. destruct pc; try done; cbn.
  - intros [?|?] v; [done|by right].
  - by intros (w & ? & _).
Qed.

Lemma mig_step_scripts m e m' :
  orderly e = true → by_hand e = false → mig_ok m → scripts_ok m → mig_step auto_migrate name m e = Some m' → scripts_ok m'.
Proof.
  intros He Hb Hok Hsc. destruct e as [t|i now r|now|d]; cbn [mig_step]; try done.
  - destruct (callable t) eqn:Hc; [|done]. intros [= <-] u. cbn. intros [Hu|Hu]%elem_of_app; [by apply Hsc|].
    apply list_elem_of_singleton in Hu as ->. apply script_ok_free. by destruct t.
  - destruct (m_tasks m !! i) as [t|] eqn:Hi; [|done]. cbn [mbind option_bind].
    destruct (mig_task_step _ _ _ _ _ _ _) as [[t' m1]|] eqn:Hs; [|done]. cbn. intros [= <-].
    assert (t ∈ m_tasks m) as Hin by (apply list_elem_of_lookup; eauto).
    destruct (script_step now r t _ m t' m1 (mo_kept m Hok t Hin) (Hsc t Hin) Hs) as [Ht' Hkeep].
    intros u [j Hj]%list_elem_of_lookup. apply list_lookup_insert_Some in Hj as [(_ & <- & _)|[Hne Hj]]; [done|].
    change (script_ok u (vdisk m1)). assert (script_ok u (vdisk m)) as Hu by (apply Hsc, list_elem_of_lookup; eauto).
    destruct (holds u) as [l|] eqn:Hh; [|by apply script_ok_free]. destruct Hkeep as [Ht|[Hn|Heq]].
    + by destruct (Hne (mo_one m Hok i j t u Hi Hj Ht ltac:(eauto))).
    + unfold vdisk in Hu. rewrite Hn in Hu. by apply script_ok_nothing.
    + by rewrite Heq.
  - destruct (require_current _ _ _ _).2; [|by intros [= <-]]. destruct (start_run None _) as [t m1] eqn:Hr. intros [= <-].
    assert (m_tasks m1 = m_tasks m ∧ holds t = None) as [Htasks Hh].
    { revert Hr. unfold start_run, migration_lock. destruct (m_lock _); by intros [= <- <-]. }
    apply start_run_keeps in Hr as [_ Hv]. intros u. cbn. rewrite Htasks. intros [Hu|Hu]%elem_of_app.
    + change (script_ok u (vdisk m1)). rewrite Hv. by apply Hsc.
    + apply list_elem_of_singleton in Hu as ->. by apply script_ok_free.
Qed.

Lemma mig_steps_scripts es : ∀ m m',
  forallb orderly es = true → forallb (λ e, negb (by_hand e)) es = true → mig_ok m → scripts_ok m →
  mig_steps auto_migrate name m es = Some m' → scripts_ok m'.
Proof.
  induction es as [|e es IH]; intros m m' He Hb Hok Hsc; [by intros [= <-]|]. cbn in *.
  apply andb_true_iff in He as [He Hes], Hb as [Hb Hbs]. apply negb_true_iff in Hb.
  destruct (mig_step _ _ m e) as [m1|] eqn:H1; [|done]. cbn. apply IH; try done; [by eapply mig_step_ok|by eapply mig_step_scripts].
Qed.

Lemma mig_start_ok d : mig_ok (mig_start d) ∧ scripts_ok (mig_start d).
Proof. split; [constructor; cbn; try done|]; try (by intros t l Ht%elem_of_nil); by intros t Ht%elem_of_nil. Qed.

(** C10: However the sweep, the runs that requests and an operator start, the
    checks and creations of a database interleave, and however PostgreSQL
    answers each: as long as no one deletes it, at most one of them is between
    taking its migration lock and its end; the gateway serves it as current only
    where its schema has run to its last statement; and, as long as no one
    changes it by hand, a run that is about to apply a migration finds the
    database still below that migration, so none is applied to a database that
    another run has taken past it. *)
Theorem migrations_exclude (d : option Shape) (es : list MigEvent) (m : Mig)
    (Ho : forallb orderly es = true) (Hs : mig_steps auto_migrate name (mig_start d) es = Some m) :
  (∀ i j t u, m_tasks m !! i = Some t → m_tasks m !! j = Some u → is_Some (holds t) → is_Some (holds u) → i = j) ∧
  (is_current (schema_state (m_entry m)) = true →
     ∃ d, m_disk m = Some d ∧ SCHEMA_VERSION ∈ default [] (sh_versions d)) ∧
  (forallb (λ e, negb (by_hand e)) es = true →
     ∀ i l at_ v todo, m_tasks m !! i = Some (TRun (MkRun l at_ (PScripts (v :: todo)))) →
     ∃ d w, m_disk m = Some d ∧ version_of d = Some w ∧ w < v).
Proof.
  destruct (mig_start_ok d) as [Hok Hsc]. pose proof (mig_steps_ok es _ m Ho Hok Hs) as Hm. split_and!.
  - apply (mo_one m Hm).
  - apply (mo_current m Hm).
  - intros Hb i l at_ v todo Hi. pose proof (mig_steps_scripts es _ m Ho Hb Hok Hsc Hs) as Hscm.
    destruct (Hscm _ ltac:(apply list_elem_of_lookup; eauto)) as (w & Hw & Hlt & _). inversion_clear Hlt.
    unfold vdisk in Hw. destruct (m_disk m) as [d'|]; [|done]. injection Hw as Hw. eauto.
Qed.
End Invariant.

(** ** A first run that stopped partway *)

(** What [init_schema.sql] leaves when it stops past its version table: an empty
    one, which answers as version 0, below every migration. *)
Definition half_made : Shape := tracked_by_init no_schema.

Lemma half_made_version : version_of half_made = Some 0 ∧ pending_versions (Some 0) = [1; 2; 3; 4; 5].
Proof. done. Qed.

(** The third migration alters a column the current schema does not have: on a
    database that [init_schema.sql] began, it fails. *)
Definition third_fails (m : Mig) (e : MigEvent) : bool :=
  match e with
  | MStep i _ r =>
      match m_tasks m !! i, r with
      | Some (TRun (MkRun _ _ (PScripts (v :: _)))), MFine _ => negb (v =? 3)
      | _, _ => true
      end
  | MByHand _ => false
  | MCall t => negb (deletes t)
  | MRequest _ => true
  end.
Fixpoint all_along (p : Mig → MigEvent → bool) (auto : bool) (name : string) (m : Mig) (es : list MigEvent) : bool :=
  match es with
  | [] => true
  | e :: es => p m e && match mig_step auto name m e with Some m' => all_along p auto name m' es | None => true end
  end.

(** What a task of such a database is: nothing it is after takes it for
    finished, and a run has the third migration before it. *)
Definition unfinished (t : MTask) : Prop :=
  claims t = false ∧ deletes t = false ∧
  match t with
  | TRun (MkRun _ at_ PBegin) | TRun (MkRun _ at_ (PFail _)) => at_ = Some 0
  | TRun (MkRun _ at_ (PScripts todo)) => at_ = Some 0 ∧ 3 ∈ todo
  | TRun (MkRun _ at_ (PLock | PProbe)) => at_ ≠ Some SCHEMA_VERSION
  | TRun _ => False
  | TStartClaim _ v | TSweepRun v | TCreateSet v => v = 0
  | TSweepSet s at_ => is_current (Some s) = false ∧ at_ ∈ [None; Some 0]
  | TChecked probe _ => probe = Ok (Some 0)
  | TCreated fresh => fresh = false
  | _ => True
  end.
Record never_made (m : Mig) : Prop := MkNeverMade {
  nm_disk : ∃ d, m_disk m = Some d ∧ sh_versions d = Some [];
  nm_tasks : ∀ t, t ∈ m_tasks m → unfinished t;
  nm_state : is_current (schema_state (m_entry m)) = false
}.

Lemma empty_version d : sh_versions d = Some [] → version_of d = Some 0.
Proof. unfold version_of, detect_version, probe_of. by intros ->. Qed.
Lemma scripted_versions v c d : sh_versions (scripted v c d) = sh_versions d.
Proof. unfold scripted. by destruct (v =? 1). Qed.

Section HalfMade.
Context (auto_migrate : bool) (name : string).

Lemma start_run_unfinished at_ m t m' :
  at_ ≠ Some SCHEMA_VERSION → never_made m → start_run at_ m = (t, m') → never_made m' ∧ unfinished t ∧ m_tasks m' = m_tasks m.
Proof.
  intros Hat [Hd Ht Hs]. unfold start_run, migration_lock.
  assert (∀ l, unfinished (TRun (MkRun l at_ PLock))) as Hu.
  { intros l. split_and!; try done. cbn. by rewrite orb_false_r, bool_decide_eq_false. }
  destruct (m_lock m); intros [= <- <-]; split_and!; try done; constructor; cbn; done.
Qed.
Lemma never_entry m e : never_made m → is_current (schema_state e) = false → never_made (set_entry e m).
Proof. intros [Hd Ht Hs] He. by constructor. Qed.
Lemma never_mark m s : never_made m → is_current (Some s) = false → never_made (mark s m).
Proof. intros Hm Hs. apply never_entry; [done|]. unfold set_state. by rewrite Hs. Qed.
Lemma never_disk m d : never_made m → sh_versions d = Some [] → never_made (set_disk (Some d) m).
Proof. intros [Hd Ht Hs] He. constructor; cbn; eauto. Qed.
Lemma never_disk_none m : never_made m → m_disk m ≠ None.
Proof. intros [(d & -> & _) _ _]. done. Qed.
Lemma never_disk_fmap m f : never_made m → (∀ d, sh_versions (f d) = sh_versions d) → never_made (set_disk (f <$> m_disk m) m).
Proof. intros Hm Hf. destruct (nm_disk m Hm) as (d & Hd & Hv). rewrite Hd. cbn. apply never_disk; [done|]. by rewrite Hf. Qed.

(** A run of it goes on to its third migration, or fails. *)
Lemma run_unfinished now r q others m t' m' :
  never_made m → unfinished (TRun q) →
  match q_pc q, r with PScripts (v :: _), MFine _ => v ≠ 3 | _, _ => True end →
  run_step now r q others m = Some (t', m') → never_made m' ∧ unfinished t' ∧ m_tasks m' = m_tasks m.
Proof.
  intros Hm (Hc & _ & Hq) H3. destruct q as [l at_ pc]. unfold run_step. cbn [q_lock q_at q_pc] in *.
  destruct (nm_disk m Hm) as (d & Hd & Hv). unfold on_disk. rewrite Hd.
  destruct pc as [| | |[|v todo]| | | | | | | | |e]; try done.
  - destruct (lock_free l others); [|done]. intros [= <- <-]. unfold needs_migration.
    by rewrite bool_decide_eq_false_2.
  - destruct r as [c|er took|]; intros [= <- <-].
    + by rewrite (empty_version d Hv).
    + split_and!; try done. by apply never_mark.
  - subst at_. intros [= <- <-]. change (scripts_from (pending_versions (Some 0))) with (PScripts [1; 2; 3; 4; 5]).
    split; [by apply never_mark|]. split; [|done]. split_and!; try done. do 2 right. by left.
  - destruct Hq as [-> Hin]. destruct r as [c|er took|]; intros [= <- <-].
    + split_and!; try done; [by apply never_disk; [|rewrite scripted_versions]|].
      apply elem_of_cons in Hin as [Heq|Hin]; [congruence|]. by destruct todo; [apply elem_of_nil in Hin|].
    + split_and!; try done. destruct took; apply never_disk; try done. cbn. by rewrite scripted_versions.
  - subst at_. intros [= <- <-]. split_and!; try done. by apply never_mark.
Qed.

Lemma check_unfinished now r t m t' m' :
  never_made m → unfinished t → check_step auto_migrate name now r t m = Some (t', m') →
  never_made m' ∧ unfinished t' ∧ m_tasks m' = m_tasks m.
Proof.
  intros Hm (Hc & _ & Ht). destruct (nm_disk m Hm) as (d & Hd & Hv). unfold check_step, on_disk. rewrite Hd.
  destruct t; try done.
  - intros [= <- <-]. by destruct (behind _ _ _).
  - rewrite (empty_version d Hv). destruct r; intros [= <- <-]; done.
  - subst probe. intros [= <- <-]. split_and!; try done. apply never_entry; [done|]. cbn.
    destruct (behind _ _ _); [done|]. apply (nm_state m Hm).
Qed.
Lemma start_unfinished now r t others m t' m' :
  never_made m → unfinished t → start_step auto_migrate name now r t others m = Some (t', m') →
  never_made m' ∧ unfinished t' ∧ m_tasks m' = m_tasks m.
Proof.
  intros Hm (Hc & _ & Ht). destruct (nm_disk m Hm) as (d & Hd & Hv). unfold start_step, on_disk. rewrite Hd.
  destruct t; try done.
  - destruct r; intros [= <- <-]; done.
  - intros [= <- <-]. by destruct (refuse_settled _).
  - unfold migration_lock. destruct (m_lock m); intros [= <- <-]; destruct (lock_free _ _); split_and!; try done;
      destruct Hm; by constructor.
  - rewrite (empty_version d Hv). destruct r; intros [= <- <-]; done.
  - subst at_. intros [= <- <-]. split_and!; try done.
    + apply never_entry; [done|]. cbn. destruct (refuse_settled _); [apply (nm_state m Hm)|done].
    + by destruct (refuse_settled _).
Qed.
Lemma sweep_unfinished now r t m t' m' :
  never_made m → unfinished t → sweep_step auto_migrate now r t m = Some (t', m') →
  never_made m' ∧ unfinished t' ∧ m_tasks m' = m_tasks m.
Proof.
  intros Hm (Hc & _ & Ht). destruct (nm_disk m Hm) as (d & Hd & Hv). unfold sweep_step, on_disk. rewrite Hd.
  destruct t; try done.
  - rewrite (empty_version d Hv). destruct r; intros [= <- <-]; split_and!; try done; destruct auto_migrate; try done;
      cbn; by repeat constructor.
  - destruct Ht as [Hs Hat]. intros [= <- <-]. split_and!; try done; [by apply never_mark|].
    apply elem_of_cons in Hat as [->|Hat]; [done|]. by apply list_elem_of_singleton in Hat as ->.
  - subst at_. intros [= Hs]. by eapply start_run_unfinished in Hs.
Qed.
Lemma create_unfinished now r t m t' m' :
  never_made m → unfinished t → create_step auto_migrate now r t m = Some (t', m') →
  never_made m' ∧ unfinished t' ∧ m_tasks m' = m_tasks m.
Proof.
  intros Hm (Hc & _ & Ht). destruct (nm_disk m Hm) as (d & Hd & Hv). unfold create_step, on_disk. rewrite Hd.
  destruct t; try done.
  - destruct r; intros [= <- <-]; done.
  - subst fresh. intros [= Hs]. destruct auto_migrate; cbn in Hs; [by eapply start_run_unfinished in Hs|].
    by injection Hs as <- <-.
  - rewrite (empty_version d Hv). destruct r; intros [= <- <-]; done.
  - subst v. intros [= <- <-]. split_and!; try done. by apply never_mark.
Qed.
Lemma repair_unfinished r t m t' m' :
  never_made m → unfinished t → repair_step r t m = Some (t', m') → never_made m' ∧ unfinished t' ∧ m_tasks m' = m_tasks m.
Proof.
  intros Hm (Hc & _ & Ht). destruct (nm_disk m Hm) as (d & Hd & Hv). unfold repair_step, on_disk. rewrite Hd.
  destruct t; try done; destruct r as [c|e took|]; intros [= <- <-]; split_and!; try done; try by destruct (sh_covered d).
  - by apply never_disk.
  - destruct took; by apply never_disk.
Qed.

Lemma never_step m e m' :
  never_made m → third_fails m e = true → mig_step auto_migrate name m e = Some m' → never_made m'.
Proof.
  intros Hm He. destruct e as [t|i now r|now|d]; cbn [mig_step]; try done.
  - destruct (callable t) eqn:Hc; [|done]. intros [= <-]. destruct Hm as [Hd Ht Hs]. constructor; try done.
    intros u [Hu|Hu]%elem_of_app; [by apply Ht|]. apply list_elem_of_singleton in Hu as ->. by destruct t.
  - cbn in He. destruct (m_tasks m !! i) as [t|] eqn:Hi; [|done]. cbn [mbind option_bind].
    destruct (mig_task_step _ _ _ _ _ _ _) as [[t' m1]|] eqn:Hs; [|done]. cbn. intros [= <-].
    assert (unfinished t) as Ht by (apply (nm_tasks m Hm), list_elem_of_lookup; eauto).
    assert (never_made m1 ∧ unfinished t' ∧ m_tasks m1 = m_tasks m) as (Hm1 & Ht' & Htasks).
    { destruct t; try done; cbn [mig_task_step] in Hs;
        eauto using check_unfinished, start_unfinished, sweep_unfinished, create_unfinished, repair_unfinished; try (by destruct Ht as (_ & ? & _)).
      eapply run_unfinished in Hs; eauto. destruct q as [l at_ [| | |[|v todo]| | | | | | | | |e]]; try done.
      destruct r; try done. cbn. by intros ->. }
    destruct Hm1 as [Hd1 _ Hs1]. constructor; try done. cbn. intros u [j Hj]%list_elem_of_lookup.
    apply list_lookup_insert_Some in Hj as [(_ & <- & _)|[_ Hj]]; [done|]. apply (nm_tasks m Hm), list_elem_of_lookup. eauto.
  - assert (never_made (set_entry (pool_if_current auto_migrate now name (m_entry m)).2 m)) as Hm1.
    { apply never_entry; [done|]. apply not_true_is_false. intros Hx%request_current. by rewrite (nm_state m Hm) in Hx. }
    destruct (require_current _ _ _ _).2; [|by intros [= <-]]. destruct (start_run None _) as [t m1] eqn:Hr. intros [= <-].
    eapply start_run_unfinished in Hr as (Hm2 & Ht & Htasks); try done. destruct Hm2 as [Hd2 Ht2 Hs2]. constructor; try done.
    intros u [Hu|Hu]%elem_of_app; [by apply Ht2|]. by apply list_elem_of_singleton in Hu as ->.
Qed.

Lemma never_steps es : ∀ m m',
  never_made m → all_along third_fails auto_migrate name m es = true → mig_steps auto_migrate name m es = Some m' → never_made m'.
Proof.
  induction es as [|e es IH]; intros m m' Hm He; [by intros [= <-]|]. cbn in *. apply andb_true_iff in He as [He Hes].
  destruct (mig_step _ _ m e) as [m1|] eqn:H1; [|done]. cbn. apply IH; [|done]. by eapply never_step.
Qed.

(** C39: A new database whose first run stopped between its version table and
    its stamp is not repaired by the runs after it. The empty table makes it
    version 0, so every run, whoever starts it, has all five migrations before
    the schema that would finish it; and since one of them alters a column that
    the schema it was begun with does not have, no sweep, request, check or
    operator's run, however many, makes it current. *)
Theorem half_made_never_served (es : list MigEvent) (m : Mig)
    (Hf : all_along third_fails auto_migrate name (mig_start (Some half_made)) es = true)
    (Hs : mig_steps auto_migrate name (mig_start (Some half_made)) es = Some m) :
  is_current (schema_state (m_entry m)) = false ∧ version_of <$> m_disk m = Some (Some 0) ∧
  ∀ i l at_ pc, m_tasks m !! i = Some (TRun (MkRun l at_ pc)) → pc ≠ PInit ∧ pc ≠ PCurrent.
Proof.
  assert (never_made m) as [(d & Hd & Hv) Ht Hst].
  { eapply never_steps; [|exact Hf|exact Hs]. constructor; try done; [by eexists|]. by intros t Hx%elem_of_nil. }
  split_and!; [done|by rewrite Hd; cbn; rewrite (empty_version d Hv)|].
  intros i l at_ pc Hi. destruct (Ht (TRun (MkRun l at_ pc))) as (_ & _ & Hq); [apply list_elem_of_lookup; eauto|].
  split; by intros ->.
Qed.
End HalfMade.

(** Its creation: the version table is there when a statement after it fails. *)
Definition creation_stops : list MigEvent :=
  [MCall TCreate; MStep 0 0 (MFine true); MStep 0 0 (MFine true); MStep 0 0 (MFine true); MStep 0 0 (MFine true);
   MStep 0 0 (MFine true); MStep 0 0 (MFine true); MStep 0 0 (MFails "create_hypertable" false); MStep 0 0 (MFine true)].
Example creation_stops_runs auto :
  match mig_steps auto "car" (mig_start None) creation_stops with
  | Some m => m_disk m = Some half_made ∧ m_tasks m = [TOver (Err "create_hypertable")] ∧
              schema_state (m_entry m) = Some (Failed 0 "create_hypertable" 0)
  | None => False
  end.
Proof. destruct auto; vm_compute; split_and!; reflexivity. Qed.

(** An operator's run of it. *)
Definition migrate_now : list MigEvent := MCall TStart :: repeat (MStep 0 1 (MFine true)) 6 ++ [MStep 0 1 (MFails "capture_frame" false)].

Lemma half_made_never_served_witness :
  match mig_steps false "car" (mig_start (Some half_made)) migrate_now with
  | Some m => m_tasks m = [TRun (MkRun 0 (Some 0) (PFail "capture_frame"))] ∧ is_current (schema_state (m_entry m)) = false
  | None => False
  end.
Proof.
  destruct (mig_steps false "car" (mig_start (Some half_made)) migrate_now) as [m|] eqn:Hs; [|vm_compute in Hs; discriminate].
  split; [vm_compute in Hs; injection Hs as <-; reflexivity|].
  eapply (half_made_never_served false "car" migrate_now m); [vm_compute; reflexivity|exact Hs].
Defined.

(** ** The sweep and a run that is under way *)

(** A request has its database migrated before the sweep comes to it: the sweep
    has asked for its version, and marks it as waiting while it is migrating.
    The next request's check then finds it at the current version, and has it
    served; its run has yet to find that the rollup is not covered. *)
Definition swept_while_migrating : list MigEvent :=
  [MRequest 0; MStep 0 0 (MFine true); MCall TSweep; MStep 1 0 (MFine true);
   MStep 0 1 (MFine true); MStep 0 1 (MFine true); MStep 1 2 (MFine true);
   MStep 0 3 (MFine false); MStep 0 3 (MFine true); MStep 0 3 (MFine true); MStep 0 3 (MFine true);
   MCall TCheck; MStep 2 4 (MFine true); MStep 2 4 (MFine true); MStep 2 4 (MFine true); MStep 2 4 (MFine true);
   MRequest 5].
Definition at_v4 : Shape := MkShape (Some [4]) false true true.

Lemma sweep_unmarks_a_run :
  match mig_steps true "car" (mig_start (Some at_v4)) swept_while_migrating with
  | Some m => m_tasks m !! 0%nat = Some (TRun (MkRun 0 (Some 4) PRollup)) ∧
              schema_state (m_entry m) = Some (Current SCHEMA_VERSION) ∧ pooled (m_entry m) = true ∧
              sh_covered <$> m_disk m = Some false
  | None => False
  end.
Proof. vm_compute. split_and!; reflexivity. Qed.

Lemma migrations_exclude_witness :
  match mig_steps true "car" (mig_start (Some at_v4)) swept_while_migrating with
  | Some m => ∃ d, m_disk m = Some d ∧ SCHEMA_VERSION ∈ default [] (sh_versions d)
  | None => False
  end.
Proof.
  destruct (mig_steps true "car" (mig_start (Some at_v4)) swept_while_migrating) as [m|] eqn:Hs; [|vm_compute in Hs; discriminate].
  eapply (migrations_exclude true "car" (Some at_v4) swept_while_migrating m); [reflexivity|exact Hs|].
  vm_compute in Hs. injection Hs as <-. reflexivity.
Defined.
