(* ===== verification/Startup.v ===== *)
(** * The gateway's start ([main.rs] [run], [db.rs]: [drop_import_leftovers],
      [create_gateway_database], [list_names], [migrate_all],
      [warn_of_old_captures])

    What a start does, in its order, to a cluster that may hold other gateways'
    databases and ones that are no gateway's: what it drops, creates and
    migrates, and when it listens. Each call of PostgreSQL is answered by a
    [StartWorld]; what has been done is a list. The sweep runs beside the
    listeners; here it is its own effects, one database after another, and
    [Migrations] has what else may happen to each meanwhile. *)

From S2P Require Import Prelude Model Settings SettingsProofs Rows Store Gateway Schema Environment.
Local Open Scope Z_scope.

Definition STAGING_PREFIX : string := "__import_".
Definition REPLACED_PREFIX : string := "__old_".

(** ** What is asked and done *)

(** [st_reach] answers the wait's attempts in turn; [st_leftovers] and
    [st_databases] are the two lists of [pg_database]; [st_unclaimed] is
    [pg_try_advisory_lock] of a suffix; [st_probe] to [st_rollup] are what the
    sweep asks of each database. *)
Record StartWorld := MkStartWorld {
  st_reach : nat → result string unit;
  st_leftovers : result string (list string);
  st_unclaimed : string → result string bool;
  st_drop : string → result string unit;
  st_exists : string → result string bool;
  st_create : string → result string unit;
  st_keys : result string unit;
  st_catalogs : result string unit;
  st_bind : result string unit;
  st_socket : result string unit;
  st_databases : result string (list string);
  st_probe : string → result string (option Z);
  st_owed : string → bool;
  st_rollup : string → result string RollupState;
  st_old_captures : result string Z
}.

Inductive Effect :=
  | EWaited (attempts : nat)
  | EDropped (name : string)
  | ECreated (name : string)
  | EKeys | ECatalogs
  | EIngest | EHttp | ESwept | EAppSocket (path : string) (console_uid : Z)
  | ESet (name : string) (s : DbSchemaState)
  | ERun (name : string) (at_ : Z)
  | ERepair (name : string)
  | EWarn (what : string).

Section Start.
Context `{SettingsLib}.
Variable c : Config.
Variable w : StartWorld.

(** The wait: a failure before the sixtieth is waited out, two seconds, and the
    next ends it. Every turn but the last counts one attempt, so 61 turns are all
    there can be; [wait_run] shows that they are enough. *)
Fixpoint wait_for_postgres (fuel attempts : nat) : io (list Effect) string () :=
  match fuel with
  | O => io_err "out of turns"
  | S fuel =>
      match st_reach w attempts with
      | Ok _ => mret ()
      | Err e =>
          if (attempts <? 60)%nat
          then emit (EWaited (S attempts)) ≫= λ _, wait_for_postgres fuel (S attempts)
          else io_err ("postgres unreachable: " +:+ e)
      end
  end.

(** The suffix an import's databases share. *)
Definition import_suffix (name : string) : string :=
  match strip_prefix STAGING_PREFIX name with
  | Some s => s
  | None => default EmptyString (strip_prefix REPLACED_PREFIX name)
  end.

(** [drop_import_leftovers]; the query selects by prefix. *)
Fixpoint drop_each (names : list string) : io (list Effect) string () :=
  match names with
  | [] => mret ()
  | name :: names =>
      abandoned ← io_lift (st_unclaimed w (import_suffix name));
      _ ← (if (abandoned : bool) then io_lift (st_drop w name) ≫= λ _, emit (EDropped name) else mret ());
      drop_each names
  end.
Definition is_leftover (name : string) : bool :=
  str_starts_with STAGING_PREFIX name || str_starts_with REPLACED_PREFIX name.
Definition drop_import_leftovers : io (list Effect) string () :=
  names ← io_lift (map_err (λ e, "database list failed: " +:+ e) (st_leftovers w));
  drop_each (filter (λ n, is_leftover n = true) names).

Definition create_gateway_database : io (list Effect) string () :=
  let name := cf_default_database c in
  if negb (valid_database_name name) then io_err ("invalid WIRETAP_DEFAULT_DB '" +:+ name +:+ "'")
  else
    exists_ ← io_lift (st_exists w name);
    if (exists_ : bool) then mret ()
    else
      io_lift (map_err (λ e, "CREATE DATABASE " +:+ name +:+ " failed: " +:+ e) (st_create w name)) ≫= λ _,
      emit (ECreated name).

(** ** The sweep *)

Definition gateway_config : GatewayConfig := MkGatewayConfig (cf_default_database c) (cf_auto_create_databases c).

(** [list_names]: the databases of the cluster in name order, less those whose
    name no capture database has, and the gateway's own. *)
Definition list_names : result string (list string) :=
  names <-? map_err (λ e, "database list failed: " +:+ e) (st_databases w) ;;
  Ok (filter (λ n, valid_database_name n && negb (is_gateway_database gateway_config n) = true) names).

(** The first pass: [ours] and [behind], as they are pushed to. *)
Fixpoint sweep_probe (names : list string) (ours behind : list (string * Z)) (effects : list Effect)
    : list (string * Z) * list (string * Z) * list Effect :=
  match names with
  | [] => (ours, behind, effects)
  | name :: names =>
      match st_probe w name with
      | Ok None => sweep_probe names ours behind effects
      | Ok (Some v) =>
          if v =? SCHEMA_VERSION then
            sweep_probe names (ours ++ [(name, v)]) behind
              (effects ++ [ESet name (if st_owed w name then Pending v else Current v)])
          else
            sweep_probe names (ours ++ [(name, v)]) (behind ++ [(name, v)]) (effects ++ [ESet name (Pending v)])
      | Err e => sweep_probe names ours behind (effects ++ [ESet name (Failed 0 e 0)])
      end
  end.

Definition names_of (behind : list (string * Z)) : string := str_join ", " behind.*1.

Definition repairs (name : string) : bool :=
  match st_rollup w name with Ok Incomplete => true | _ => false end.

Definition behind_warning (behind : list (string * Z)) : list Effect :=
  match behind with [] => [] | _ => [EWarn (names_of behind)] end.
(** [warn_of_old_captures]. *)
Definition warn_of_old_captures : list Effect :=
  match st_old_captures w with
  | Ok n => if n =? 0 then [] else [EWarn "the gateway's own database holds frames"]
  | Err e => [EWarn ("could not count old captures: " +:+ e)]
  end.

(** [migrate_all]. *)
Definition migrate_all : list Effect :=
  match list_names with
  | Err e => [EWarn ("schema sweep could not list databases: " +:+ e)]
  | Ok names =>
      let '(ours, behind, effects) := sweep_probe names [] [] [] in
      let waiting := negb (bool_decide (behind = [])) && negb (cf_auto_migrate c) in
      let ours := if waiting then filter (λ '(_, v), v = SCHEMA_VERSION) ours else ours in
      let migrated := behind.*1 in
      effects ++ behind_warning behind ++ ((λ '(n, v), ERun n v) <$> ours) ++
      (ERepair <$> filter (λ n, repairs n = true) (filter (λ n, n ∉ migrated) ours.*1)) ++
      warn_of_old_captures
  end.

(** ** [run] *)

(** Up to what it serves from. *)
Definition prepare : io (list Effect) string () :=
  _ ← wait_for_postgres 61 0;
  _ ← drop_import_leftovers;
  _ ← create_gateway_database;
  _ ← io_lift (st_keys w); _ ← emit EKeys;
  _ ← io_lift (st_catalogs w); emit ECatalogs.
(** Its listeners, and the sweep between them. *)
Definition listen : io (list Effect) string () :=
  _ ← emit EIngest;
  _ ← io_lift (map_err (λ e, "http bind " +:+ cf_http_listen c +:+ ": " +:+ e) (st_bind w));
  _ ← emit EHttp;
  _ ← emit ESwept;
  match cf_app_socket c with
  | None => mret ()
  | Some s =>
      _ ← io_lift (map_err (λ e, "app socket " +:+ as_path s +:+ ": " +:+ e) (st_socket w));
      emit (EAppSocket (as_path s) (as_console_uid s))
  end.
Definition run : io (list Effect) string () := prepare ≫= λ _, listen.
End Start.

(** ** The sweep touches capture databases, and those it may *)

Section Sweep.
Context `{SettingsLib}.
Context (c : Config) (w : StartWorld).

Definition found (names : list string) : list (string * Z) :=
  omap (λ n, match st_probe w n with Ok (Some v) => Some (n, v) | _ => None end) names.
Definition first_state (n : string) : option DbSchemaState :=
  match st_probe w n with
  | Ok None => None
  | Ok (Some v) => Some (if (v =? SCHEMA_VERSION) && negb (st_owed w n) then Current v else Pending v)
  | Err e => Some (Failed 0 e 0)
  end.

Lemma sweep_probe_spec names : ∀ ours behind effects,
  sweep_probe w names ours behind effects =
  (ours ++ found names, behind ++ filter (λ '(_, v), v ≠ SCHEMA_VERSION) (found names),
   effects ++ omap (λ n, ESet n <$> first_state n) names).
Proof.
  induction names as [|n names IH]; intros ours behind effects; cbn; [by rewrite !app_nil_r|].
  unfold first_state at 1. destruct (st_probe w n) as [[v|]|e]; cbn; [|by rewrite IH|by rewrite IH, <- !app_assoc].
  destruct (Z.eqb_spec v SCHEMA_VERSION) as [->|Hne]; rewrite IH, <- !app_assoc; case_decide; try done.
  by destruct (st_owed w n).
Qed.

Lemma found_elem names n v : (n, v) ∈ found names ↔ n ∈ names ∧ st_probe w n = Ok (Some v).
Proof.
  unfold found. rewrite list_elem_of_omap. split.
  - intros (x & Hx & Heq). destruct (st_probe w x) as [[u|]|] eqn:Hp; [|done..]. injection Heq as -> ->. done.
  - intros [Hn Hp]. exists n. by rewrite Hp.
Qed.

(** What is left of [ours] to be run. *)
Definition swept (names : list string) : list (string * Z) :=
  if negb (bool_decide (filter (λ '(_, v), v ≠ SCHEMA_VERSION) (found names) = [])) && negb (cf_auto_migrate c)
  then filter (λ '(_, v), v = SCHEMA_VERSION) (found names) else found names.
Lemma swept_elem names n v :
  (n, v) ∈ swept names ↔ n ∈ names ∧ st_probe w n = Ok (Some v) ∧ (v = SCHEMA_VERSION ∨ cf_auto_migrate c = true).
Proof.
  unfold swept. case_bool_decide as Hb; cbn [negb andb].
  - rewrite found_elem. split; [|tauto]. intros [Hn Hp]. split_and!; try done. left.
    destruct (decide (v = SCHEMA_VERSION)) as [|Hne]; [done|]. exfalso.
    assert ((n, v) ∈ filter (λ '(_, v), v ≠ SCHEMA_VERSION) (found names)) as Hx.
    { apply list_elem_of_filter. by rewrite found_elem. }
    rewrite Hb in Hx. by apply elem_of_nil in Hx.
  - destruct (cf_auto_migrate c); cbn [negb].
    + rewrite found_elem. tauto.
    + rewrite list_elem_of_filter, found_elem. naive_solver.
Qed.
Lemma repaired_elem names n :
  n ∈ filter (λ n, repairs w n = true)
        (filter (λ n, n ∉ (filter (λ '(_, v), v ≠ SCHEMA_VERSION) (found names)).*1) (swept names).*1) ↔
  n ∈ names ∧ st_probe w n = Ok (Some SCHEMA_VERSION) ∧ st_rollup w n = Ok Incomplete.
Proof.
  set (lates := (filter _ (found names)).*1). rewrite !list_elem_of_filter, list_elem_of_fmap.
  assert (repairs w n = true ↔ st_rollup w n = Ok Incomplete) as ->.
  { unfold repairs. destruct (st_rollup w n) as [[]|]; naive_solver. }
  split.
  - intros (Hr & Hnot & [x v] & -> & Hsw). apply swept_elem in Hsw as (Hn & Hp & _). cbn [fst] in *. split_and!; try done.
    destruct (decide (v = SCHEMA_VERSION)) as [->|Hne]; [done|]. destruct Hnot. apply list_elem_of_fmap. exists (x, v).
    split; [done|]. apply list_elem_of_filter. by rewrite found_elem.
  - intros (Hn & Hp & Hr). split_and!; [done| |exists (n, SCHEMA_VERSION); split; [done|]; apply swept_elem; tauto].
    intros ([x v] & -> & [Hv Hf]%list_elem_of_filter)%list_elem_of_fmap. apply found_elem in Hf as [_ Hf]. cbn in *. congruence.
Qed.

(** The sweep sets a state, brings to the schema and repairs exactly these
    of the cluster's databases: with a name a capture database can have, not the
    gateway's own, and with a capture schema on them; of those, the ones at the
    current version or, with automatic migration on, every one is brought to it,
    and a rollup is rebuilt where it is incomplete on one that was current. So a
    database that is not a capture database is never written to, and one behind
    is left as it is unless the gateway was told to migrate. *)
Theorem sweep_exact (names : list string) (Hn : list_names c w = Ok names) (n : string) :
  (∀ v, ERun n v ∈ migrate_all c w ↔
     n ∈ names ∧ st_probe w n = Ok (Some v) ∧ (v = SCHEMA_VERSION ∨ cf_auto_migrate c = true)) ∧
  (ERepair n ∈ migrate_all c w ↔
     n ∈ names ∧ st_probe w n = Ok (Some SCHEMA_VERSION) ∧ st_rollup w n = Ok Incomplete) ∧
  (∀ s, ESet n s ∈ migrate_all c w ↔ n ∈ names ∧ first_state n = Some s) ∧
  (n ∈ names → valid_database_name n = true ∧ n ≠ cf_default_database c).
Proof.
  assert (migrate_all c w = omap (λ n, ESet n <$> first_state n) names ++
    behind_warning (filter (λ '(_, v), v ≠ SCHEMA_VERSION) (found names)) ++
    ((λ '(n, v), ERun n v) <$> swept names) ++
    (ERepair <$> filter (λ n, repairs w n = true)
        (filter (λ n, n ∉ (filter (λ '(_, v), v ≠ SCHEMA_VERSION) (found names)).*1) (swept names).*1)) ++
    warn_of_old_captures w) as ->.
  { unfold migrate_all. by rewrite Hn, sweep_probe_spec. }
  set (told := behind_warning _). set (old := warn_of_old_captures w).
  assert (∀ e, e ∈ told ∨ e ∈ old → ∃ what, e = EWarn what) as Hwarn.
  { subst told old. unfold behind_warning, warn_of_old_captures. intros e. repeat case_match; rewrite ?list_elem_of_singleton; set_solver. }
  split_and!.
  - intros v. rewrite <- swept_elem, !elem_of_app, !list_elem_of_fmap, list_elem_of_omap. split.
    + intros [(x & _ & Hx)|[Ht|[([x u] & Hx & ?)|[(x & ? & _)|Ho]]]]; try done.
      * by destruct (first_state x).
      * destruct (Hwarn _ (or_introl Ht)). done.
      * by injection Hx as -> ->.
      * destruct (Hwarn _ (or_intror Ho)). done.
    + intros Hx. do 2 right. left. by exists (n, v).
  - rewrite <- repaired_elem, !elem_of_app, !list_elem_of_fmap, list_elem_of_omap. split.
    + intros [(x & _ & Hx)|[Ht|[([x u] & Hx & ?)|[(x & Hx & ?)|Ho]]]]; try done.
      * by destruct (first_state x).
      * destruct (Hwarn _ (or_introl Ht)). done.
      * by injection Hx as ->.
      * destruct (Hwarn _ (or_intror Ho)). done.
    + intros Hx. do 3 right. left. by exists n.
  - intros s. rewrite !elem_of_app, !list_elem_of_fmap, list_elem_of_omap. split.
    + intros [(x & Hin & Hx)|[Ht|[([x u] & Hx & ?)|[(x & ? & _)|Ho]]]]; try done.
      * destruct (first_state x) eqn:Hf; [|done]. injection Hx as -> ->. done.
      * destruct (Hwarn _ (or_introl Ht)). done.
      * destruct (Hwarn _ (or_intror Ho)). done.
    + intros [Hin Hf]. left. exists n. by rewrite Hf.
  - revert Hn. unfold list_names. destruct (st_databases w); [|done]. cbn. intros [= <-].
    intros [[Hv Hg]%andb_true_iff _]%list_elem_of_filter. split; [done|]. apply negb_true_iff in Hg.
    by apply str_eqb_neq in Hg.
Qed.
End Sweep.

(** ** The order of a start *)

Create HintDb start.
#[local] Hint Resolve emits_ret emits_pure emits_err emits_emit : start.

Section Order.
Context `{SettingsLib}.
Context (c : Config) (w : StartWorld).

(** What a start may drop, create and open, before it listens. *)
Definition careful (e : Effect) : Prop :=
  match e with
  | EDropped n => is_leftover n = true ∧ st_unclaimed w (import_suffix n) = Ok true
  | ECreated n => n = cf_default_database c ∧ valid_database_name n = true ∧ st_exists w n = Ok false
  | EKeys => st_keys w = Ok tt
  | ECatalogs => st_catalogs w = Ok tt
  | _ => False
  end.
Definition listening (e : Effect) : bool :=
  match e with EIngest | EHttp | ESwept | EAppSocket _ _ => true | _ => false end.

(** [n] attempts failed and were waited out; then one was answered, or the
    sixty-first failed too. *)
Definition waits (n : nat) (r : result string ()) : Prop :=
  (n ≤ 60)%nat ∧ (∀ k, (k < n)%nat → ∃ e, st_reach w k = Err e) ∧
  ((st_reach w n = Ok tt ∧ r = Ok tt) ∨
   (n = 60%nat ∧ ∃ e, st_reach w 60 = Err e ∧ r = Err ("postgres unreachable: " +:+ e))).

Lemma wait_run fuel a s :
  (a ≤ 60)%nat → (a + fuel = 61)%nat → (∀ k, (k < a)%nat → ∃ e, st_reach w k = Err e) →
  ∃ n r, wait_for_postgres w fuel a s = (r, s ++ (EWaited <$> seq (S a) n)) ∧ waits (a + n) r.
Proof.
  revert a s. induction fuel as [|fuel IH]; intros a s Ha Hf Hk; [lia|].
  cbn [wait_for_postgres]. destruct (st_reach w a) as [[]|e] eqn:Hr.
  { exists 0%nat, (Ok tt). cbn. rewrite app_nil_r, Nat.add_0_r. split; [done|]. split_and!; [lia|done|by left]. }
  destruct (Nat.ltb_spec a 60).
  - destruct (IH (S a) (s ++ [EWaited (S a)])) as (n & r & Hn & Hw); [lia|lia| |].
    { intros k Hlt. destruct (decide (k = a)) as [->|]; [eauto|apply Hk; lia]. }
    exists (S n), r. rewrite <- Nat.add_succ_comm. split; [|done].
    unfold mbind, io_bind, emit, io_modify; cbn beta iota zeta. rewrite Hn. cbn [seq fmap list_fmap]. by rewrite <- app_assoc.
  - exists 0%nat, (Err ("postgres unreachable: " +:+ e)). cbn. rewrite app_nil_r, Nat.add_0_r. split; [done|].
    assert (a = 60%nat) as -> by lia. split_and!; [lia|done|eauto].
Qed.
Lemma leftovers_careful : emits careful (drop_import_leftovers w).
Proof.
  unfold drop_import_leftovers. apply emits_bind_run; [eauto with start|]. intros names _.
  assert (Forall (λ n, is_leftover n = true) (filter (λ n, is_leftover n = true) names)) as Hl.
  { apply Forall_forall. by intros n [? _]%list_elem_of_filter. }
  induction Hl as [|n l Hn Hl IH]; cbn [drop_each]; [eauto with start|].
  apply emits_bind_run; [eauto with start|]. intros abandoned Ha%io_lift_ok. apply emits_bind_run; [|auto].
  destruct abandoned; [|eauto with start]. apply emits_bind_run; [eauto with start|]. intros _ _. by apply emits_emit.
Qed.
Lemma create_careful : emits careful (create_gateway_database c w).
Proof.
  unfold create_gateway_database. destruct (valid_database_name _) eqn:Hv; cbn [negb]; [|eauto with start].
  apply emits_bind_run; [eauto with start|]. intros exists_ He%io_lift_ok. destruct exists_; [eauto with start|].
  apply emits_bind_run; [eauto with start|]. intros _ _. by apply emits_emit.
Qed.
(** What [prepare] does once PostgreSQL answers. *)
Definition prepare_rest : io (list Effect) string () :=
  _ ← drop_import_leftovers w;
  _ ← create_gateway_database c w;
  _ ← io_lift (st_keys w);
  _ ← emit EKeys;
  _ ← io_lift (st_catalogs w);
  emit ECatalogs.
Lemma rest_careful : emits careful prepare_rest.
Proof.
  unfold prepare_rest. apply emits_bind_run; [apply leftovers_careful|].
  intros _ _. apply emits_bind_run; [apply create_careful|]. intros _ _. apply emits_bind_run; [eauto with start|].
  intros [] Hk%io_lift_ok. apply emits_bind_run; [by apply emits_emit|]. intros _ _. apply emits_bind_run; [eauto with start|].
  intros [] Hc%io_lift_ok. by apply emits_emit.
Qed.
Lemma listen_listens : emits (λ e, listening e = true) (listen c w).
Proof.
  unfold listen. repeat (apply emits_bind_run; [eauto with start|]; intros _ _).
  destruct (cf_app_socket c); [|eauto with start]. apply emits_bind_run; [eauto with start|]. intros _ _. by apply emits_emit.
Qed.
Lemma rest_done s s' :
  prepare_rest s = (Ok tt, s') → ∃ new, s' = s ++ new ∧ EKeys ∈ new ∧ ECatalogs ∈ new.
Proof.
  intros Hr. destruct (emits_run _ _ _ _ _ rest_careful Hr) as (new & Hs & _). revert Hr. unfold prepare_rest.
  intros [([] & s1 & H1 & Hr)|(? & ? & ?)]%io_bind_inv; [revert Hr|done].
  intros [([] & s2 & H2 & Hr)|(? & ? & ?)]%io_bind_inv; [|done].
  destruct (emits_run _ _ _ _ _ leftovers_careful H1) as (n1 & -> & _), (emits_run _ _ _ _ _ create_careful H2) as (n2 & -> & _).
  revert Hr. intros [([] & s3 & [= _ <-] & Hr)|(? & ? & ?)]%io_bind_inv; [revert Hr|done].
  intros [([] & s3 & [= <-] & Hr)|(? & ? & ?)]%io_bind_inv; [revert Hr|done].
  intros [([] & s3 & [= _ <-] & Hr)|(? & ? & ?)]%io_bind_inv; [|done]. injection Hr as <-.
  exists (n1 ++ n2 ++ [EKeys; ECatalogs]). rewrite <- !app_assoc. split; [done|]. set_solver.
Qed.
Lemma listen_done s s' : listen c w s = (Ok tt, s') → ∃ l, s' = s ++ EIngest :: EHttp :: l.
Proof.
  unfold listen. intros [(? & s2 & [= _ <-] & Hx)|(? & ? & ?)]%io_bind_inv; [revert Hx|done].
  intros [(? & s2 & Hb & Hx)|(? & ? & ?)]%io_bind_inv; [revert Hx|done]. injection Hb as _ <-.
  intros [(? & s2 & [= _ <-] & Hx)|(? & ? & ?)]%io_bind_inv; [|done].
  match type of Hx with ?m _ = _ => assert (emits (λ _, True) m) as He end.
  { apply emits_bind_run; [by apply emits_emit|]. intros _ _. destruct (cf_app_socket c); [|eauto with start].
    apply emits_bind_run; [eauto with start|]. intros _ _. by apply emits_emit. }
  destruct (emits_run _ _ _ _ _ He Hx) as (l & -> & _). exists l. by rewrite <- !app_assoc.
Qed.

(** C36: Whatever the cluster answers, a start makes [n] attempts that fail, at
    most sixty, each waited out once and nothing done meanwhile; it goes on only
    once one is answered, and ends with that error where the sixty-first fails
    too. It has then dropped only databases whose name is an import's and whose
    import no gateway is running, and created only its own database, where there
    was none; and it takes no connection, of a device, a browser or a console,
    and starts no sweep before its keys and its catalogues are in place. *)
Theorem start_order (r : result string ()) (effects : list Effect) (Hr : run c w [] = (r, effects)) :
  ∃ n waited before after, effects = (EWaited <$> seq 1 n) ++ before ++ after ∧ waits n waited ∧
    (∀ e, waited = Err e → r = Err e ∧ before ++ after = []) ∧
    Forall careful before ∧ Forall (λ e, listening e = true) after ∧
    (after ≠ [] → EKeys ∈ before ∧ ECatalogs ∈ before) ∧ (r = Ok tt → EHttp ∈ after).
Proof.
  destruct (wait_run 61 0 []) as (n & waited & Hw & Hn); [lia..|]. cbn [app] in Hw. exists n, waited.
  revert Hr. unfold run. intros [([] & s1 & Hp & Hl)|(e & Hp & ->)]%io_bind_inv.
  - apply io_bind_inv in Hp as [([] & s2 & Hp & Hrest)|(? & ? & ?)]; [|done]. rewrite Hw in Hp. injection Hp as -> <-.
    destruct (emits_run _ _ _ _ _ rest_careful Hrest) as (before & -> & Hb), (emits_run _ _ _ _ _ listen_listens Hl) as (after & -> & Ha).
    exists before, after. rewrite app_assoc. split_and!; try done.
    + intros _. apply rest_done in Hrest as (new & ->%app_inv_head & ?). done.
    + intros ->. apply listen_done in Hl as (l & ->%app_inv_head). right. left.
  - apply io_bind_inv in Hp as [([] & s2 & Hp & Hrest)|(x & Hp & [= <-])]; rewrite Hw in Hp; injection Hp as -> <-.
    + destruct (emits_run _ _ _ _ _ rest_careful Hrest) as (before & -> & Hb). exists before, []. rewrite app_nil_r. by split_and!.
    + exists [], []. rewrite app_nil_r. by split_and!.
Qed.
End Order.

(** ** A start on a shared cluster *)

Import (hints) SettingsProofs.Site.

Definition cluster : StartWorld :=
  MkStartWorld (λ n, if (n <? 2)%nat then Err "refused" else Ok tt)
    (Ok ["car"; "__import_a1"; "__old_a1"; "__import_b2"]) (λ s, Ok (str_eqb s "a1")) (λ _, Ok tt)
    (λ _, Ok false) (λ _, Ok tt) (Ok tt) (Ok tt) (Ok tt) (Ok tt)
    (Ok ["car"; "grafana"; "van"; "wiretap"])
    (λ n, Ok (if str_eqb n "car" then Some 5 else if str_eqb n "van" then Some 4 else if str_eqb n "wiretap" then Some 5 else None))
    (λ _, false) (λ _, Ok Incomplete) (Ok 0).
Definition plain_config : Config :=
  MkConfig "0.0.0.0:8423" "0.0.0.0:9323" "timescaledb" 5432 "postgres" "s" "wiretap" None (MkSecretFiles None None)
    true false (float_ratio false 30 1) 256 "" "/usr/share/wiretap-admin" (Some (MkAppSocket "/run/app" 7 "/apps/wiretap-gateway")).

Lemma start_order_witness :
  ∃ effects, run plain_config cluster [] = (Ok tt, effects) ∧
    effects = [EWaited 1; EWaited 2; EDropped "__import_a1"; EDropped "__old_a1"; ECreated "wiretap"; EKeys; ECatalogs;
               EIngest; EHttp; ESwept; EAppSocket "/run/app" 7] ∧
    ∃ n waited before after, effects = (EWaited <$> seq 1 n) ++ before ++ after ∧ waits cluster n waited ∧
      (∀ e, waited = Err e → Ok (E := string) tt = Err e ∧ before ++ after = []) ∧ Forall (careful plain_config cluster) before ∧
      Forall (λ e, listening e = true) after ∧ (after ≠ [] → EKeys ∈ before ∧ ECatalogs ∈ before) ∧ (Ok (E := string) tt = Ok tt → EHttp ∈ after).
Proof.
  eexists. split; [vm_compute; reflexivity|]. split; [reflexivity|].
  apply (start_order plain_config cluster). vm_compute. reflexivity.
Defined.

Lemma sweep_exact_witness :
  list_names plain_config cluster = Ok ["car"; "grafana"; "van"] ∧
  ERun "car" 5 ∈ migrate_all plain_config cluster ∧ ERepair "car" ∈ migrate_all plain_config cluster.
Proof.
  split; [vm_compute; reflexivity|].
  split; eapply (sweep_exact plain_config cluster ["car"; "grafana"; "van"]); try (vm_compute; reflexivity).
  - split_and!; [left|reflexivity|by left].
  - split_and!; [left|reflexivity..].
Defined.
