(* ===== verification/Events.v ===== *)
(** * Events ([events.rs])

    A user's annotations on a capture database: the checks on what is asked, the
    queries, and the rows they return. *)

From S2P Require Import Prelude F64 Model Source Wire Catalogues Rows Sql.
Local Open Scope Z_scope.

Record Event := MkEvent {
  ev_id : Z; ev_ts_us : Z; ev_duration_us : Z; ev_note : string; ev_created_at_us : Z; ev_updated_at_us : Z
}.
Record NewEvent := MkNewEvent { ne_ts_us : Z; ne_duration_us : Z; ne_note : string }.
Record EventPatch := MkPatch { ep_ts_us : option Z; ep_duration_us : option Z; ep_note : option string }.

Definition COLUMNS : string := "id, ts, duration_us, note, created_at, updated_at".

Definition event_from_row (row : PgRow) : result Stop Event :=
  id <-? get_i64 row "id" ;; ts <-? get_time row "ts" ;; d <-? get_i64 row "duration_us" ;; note <-? get_text row "note" ;;
  created <-? get_time row "created_at" ;; updated <-? get_time row "updated_at" ;;
  Ok (MkEvent id ts d note created updated).

Section Events.
Context `{SqlLib}.

(** [timestamp]: [from_timestamp_micros] takes what a [DateTime] can hold. *)
Definition timestamp (ts_us : Z) : result Stop Z :=
  match format_ts ts_us with
  | Some _ => Ok ts_us
  | None => bad_request ("ts_us " +:+ pretty ts_us +:+ " is out of range")
  end.
Definition duration (duration_us : Z) : result Stop Z :=
  if duration_us <? 0 then bad_request "duration_us must not be negative" else Ok duration_us.

Definition opt_text (o : option string) : SqlArg := match o with Some s => AText s | None => ANull end.
Definition opt_arg (f : Z → SqlArg) (o : option Z) : SqlArg := match o with Some z => f z | None => ANull end.
(** [Option::transpose] of a checked value. *)
Definition checked (f : Z → result Stop Z) (o : option Z) : result Stop (option Z) :=
  match o with Some z => z <-? f z ;; Ok (Some z) | None => Ok None end.

Variable client : Query → result PgError (list PgRow).
(** [Client::execute]: how many rows it touched. *)
Variable execute : Query → result PgError Z.

Definition events_list_query (start end_ : option string) (limit : Z) : Query :=
  ("SELECT " +:+ COLUMNS +:+ " FROM public.events WHERE ($1::text IS NULL OR ts >= ($1::text)::timestamptz) " +:+
   "AND ($2::text IS NULL OR ts <= ($2::text)::timestamptz) ORDER BY ts, id LIMIT $3::int8",
   [opt_text start; opt_text end_; AInt limit]).
Definition list_events (start end_ : option string) (limit : Z) : result Stop (list Event) :=
  rows <-? ask client "event list failed" (events_list_query start end_ limit) ;; collect event_from_row rows.

Definition insert_query (ts duration_us : Z) (note : string) : Query :=
  ("INSERT INTO public.events (ts, duration_us, note) VALUES ($1, $2, $3) RETURNING " +:+ COLUMNS,
   [AMicros ts; AInt duration_us; AText note]).
Definition create (new : NewEvent) : result Stop Event :=
  ts <-? timestamp (ne_ts_us new) ;; d <-? duration (ne_duration_us new) ;;
  row <-? map_err (failed "event insert failed") (query_one client (insert_query ts d (ne_note new))) ;;
  event_from_row row.

Definition update_query (id : Z) (ts duration_us : option Z) (note : option string) : Query :=
  ("UPDATE public.events SET ts = coalesce($2::timestamptz, ts), duration_us = coalesce($3::int8, duration_us), " +:+
   "note = coalesce($4::text, note), updated_at = now() WHERE id = $1 RETURNING " +:+ COLUMNS,
   [AInt id; opt_arg AMicros ts; opt_arg AInt duration_us; opt_text note]).
(** [None] when no event has that id; [query_opt] takes one row at most. *)
Definition update (id : Z) (patch : EventPatch) : result Stop (option Event) :=
  match ep_ts_us patch, ep_duration_us patch, ep_note patch with
  | None, None, None => bad_request "nothing to change: give ts_us, duration_us or note"
  | _, _, _ =>
      ts <-? checked timestamp (ep_ts_us patch) ;; d <-? checked duration (ep_duration_us patch) ;;
      rows <-? ask client "event update failed" (update_query id ts d (ep_note patch)) ;;
      match rows with
      | [] => Ok None
      | [row] => e <-? event_from_row row ;; Ok (Some e)
      | _ => Err (failed "event update failed" (MkPgError "query returned an unexpected number of rows" None))
      end
  end.

Definition delete_query (id : Z) : Query := ("DELETE FROM public.events WHERE id = $1", [AInt id]).
Definition delete_event (id : Z) : result Stop bool :=
  n <-? map_err (failed "event delete failed") (execute (delete_query id)) ;; Ok (n =? 1).
End Events.
