(* ===== verification/Import.v ===== *)
(** * Capture import ([http/mod.rs], [import_capture])

    The body of an import as it streams in: a header, then records, read as far as
    the bytes that have come allow and copied in chunks of rows. What an import
    comes to does not depend on how the body was cut up on its way; a copy that
    fails ends it, with the rows copied before. *)

From S2P Require Import Prelude F64 Model Source Wire Catalogues Rows.
Import Sample.
Local Open Scope Z_scope.

(** [wslib_wiretap_protocol::import]: the header and the records of a body, [None]
    where more bytes are needed; and a CAN record's kind. *)
Record ImportRecord := MkImportRecord { ir_ts_us : Z; ir_id_flags : Z; ir_flags : Z; ir_bus : Z; ir_payload : list Z }.
Class ImportLib := {
  BODY_HEADER : Z;
  KIND_CAN : Z;
  parse_header : list Z → result string (option nat);
  parse_record : list Z → result string (option (ImportRecord * nat))
}.
(** What is read is read alike when more bytes follow, and takes bytes that are
    there; a record takes some. *)
Class ImportLaws `{ImportLib} : Prop := {
  header_more : ∀ a b n, parse_header a = Ok (Some n) → parse_header (a ++ b) = Ok (Some n) ∧ (n ≤ length a)%nat;
  header_err : ∀ a b e, parse_header a = Err e → parse_header (a ++ b) = Err e;
  record_more : ∀ a b r n, parse_record a = Ok (Some (r, n)) →
    parse_record (a ++ b) = Ok (Some (r, n)) ∧ (0 < n ≤ length a)%nat;
  record_err : ∀ a b e, parse_record a = Err e → parse_record (a ++ b) = Err e
}.

(** Why an import ended: the body's fault, the copy's, or a panic. *)
Inductive ImportFault := BadBody (message : string) | CopyFailed (e : CopyError) | ImportPanic.

Section Streaming.
Context `{RowLib} `{ImportLib}.

Definition IMPORT_CHUNK_ROWS : nat := 8192.

(** [import_rows]: the rows of the whole records at the front, and what is left.
    A record takes a byte at least, so the buffer's length is fuel enough. *)
Fixpoint import_rows_from (fuel : nat) (buf : list Z) (rows : list FrameRow) : result ImportFault (list FrameRow * list Z) :=
  match fuel with
  | O => Ok (rows, buf)
  | S fuel =>
      parsed <-? map_err BadBody (parse_record buf) ;;
      match parsed with
      | None => Ok (rows, buf)
      | Some (r, consumed) =>
          row <-? ok_or (frame_row (ir_ts_us r) (MkWireRecord KIND_CAN (ir_id_flags r) (ir_flags r) (ir_bus r) (ir_payload r))) ImportPanic ;;
          import_rows_from fuel (drop consumed buf) (rows ++ [row])
      end
  end.
Definition import_rows (buf : list Z) (rows : list FrameRow) : result ImportFault (list FrameRow * list Z) :=
  import_rows_from (S (length buf)) buf rows.

(** A chunk of the body, or why it could not be read. *)
Definition Body : Type := list (result string (list Z)).
Definition body_read_failed (e : string) : ImportFault := BadBody ("body read failed: " +:+ e).

Fixpoint read_header (pending : list Z) (body : Body) : result ImportFault (list Z * Body) :=
  header <-? map_err BadBody (parse_header pending) ;;
  match header with
  | Some n => Ok (drop n pending, body)
  | None =>
      match body with
      | [] => Err (BadBody ("import body ends before its " +:+ pretty BODY_HEADER +:+ "-byte header"))
      | Err e :: _ => Err (body_read_failed e)
      | Ok bytes :: body => read_header (pending ++ bytes) body
      end
  end.

(** [copy_rows], the [i]th of the import. *)
Variable copy_rows : nat → list FrameRow → result CopyError unit.

(** Copy what is there, once it is a chunk or the body has ended. The state is
    the copies made. *)
Definition copy_due (last : bool) (rows : list FrameRow) : io (list (list FrameRow)) ImportFault (list FrameRow) := λ copied,
  if (IMPORT_CHUNK_ROWS <=? length rows)%nat || (last && negb (bool_decide (rows = []))) then
    match copy_rows (length copied) rows with
    | Ok _ => (Ok [], copied ++ [rows])
    | Err e => (Err (CopyFailed e), copied)
    end
  else (Ok rows, copied).

Fixpoint import_loop (pending : list Z) (rows : list FrameRow) (body : Body) : io (list (list FrameRow)) ImportFault () := λ copied,
  match import_rows pending rows with
  | Err e => (Err e, copied)
  | Ok (rows, pending) =>
      match body with
      | Err e :: _ => (Err (body_read_failed e), copied)
      | Ok bytes :: body =>
          match copy_due false rows copied with
          | (Ok rows, copied) => import_loop (pending ++ bytes) rows body copied
          | (Err e, copied) => (Err e, copied)
          end
      | [] =>
          match copy_due true rows copied with
          | (Ok _, copied) =>
              (if bool_decide (pending = []) then Ok ()
               else Err (BadBody ("truncated record: " +:+ pretty (length pending) +:+ " trailing bytes")), copied)
          | (Err e, copied) => (Err e, copied)
          end
      end
  end.
(** [imported]: the rows of the copies. *)
Definition imported (copied : list (list FrameRow)) : Z := Z.of_nat (length (concat copied)).

(** [import_capture], from the body: how it ended, and the copies. Between the
    header and the rows the database is made ready, [ensure_database] and then
    its pool, either of which may refuse. *)
Inductive ImportEnd := Faulted (e : ImportFault) | NotReady (message : string).
Definition import_body (ensured pooled : result string ()) (body : Body) : result ImportEnd () * list (list FrameRow) :=
  match read_header [] body with
  | Err e => (Err (Faulted e), [])
  | Ok (pending, body) =>
      match ensured, pooled with
      | Err m, _ | Ok _, Err m => (Err (NotReady m), [])
      | Ok _, Ok _ => let '(res, copied) := import_loop pending [] body [] in (map_err Faulted res, copied)
      end
  end.
End Streaming.

(** ** The reference: the body all at once *)

Section Whole.
Context `{RowLib} `{ImportLib}.

(** The rows of the whole records at the front, and what follows them: the bytes
    left, or the fault of the first record that has one. *)
Fixpoint rows_from (fuel : nat) (buf : list Z) : list FrameRow * result ImportFault (list Z) :=
  match fuel with
  | O => ([], Ok buf)
  | S fuel =>
      match parse_record buf with
      | Err e => ([], Err (BadBody e))
      | Ok None => ([], Ok buf)
      | Ok (Some (r, consumed)) =>
          match frame_row (ir_ts_us r) (MkWireRecord KIND_CAN (ir_id_flags r) (ir_flags r) (ir_bus r) (ir_payload r)) with
          | None => ([], Err ImportPanic)
          | Some row => let '(rows, rest) := rows_from fuel (drop consumed buf) in (row :: rows, rest)
          end
      end
  end.
Definition rows_of (buf : list Z) : list FrameRow * result ImportFault (list Z) := rows_from (S (length buf)) buf.

(** A body that came whole, or broke off with [broken]. *)
Definition no_header (broken : option string) : ImportFault :=
  match broken with
  | Some e => body_read_failed e
  | None => BadBody ("import body ends before its " +:+ pretty BODY_HEADER +:+ "-byte header")
  end.
Definition verdict (broken : option string) (rest : list Z) : result ImportFault () :=
  match broken with
  | Some e => Err (body_read_failed e)
  | None => if bool_decide (rest = []) then Ok () else Err (BadBody ("truncated record: " +:+ pretty (length rest) +:+ " trailing bytes"))
  end.
Definition import_whole (ensured pooled : result string ()) (bytes : list Z) (broken : option string) :
    list FrameRow * result ImportEnd () :=
  match parse_header bytes with
  | Err e => ([], Err (Faulted (BadBody e)))
  | Ok None => ([], Err (Faulted (no_header broken)))
  | Ok (Some n) =>
      match ensured, pooled with
      | Err m, _ | Ok _, Err m => ([], Err (NotReady m))
      | Ok _, Ok _ =>
          let '(rows, rest) := rows_of (drop n bytes) in
          (rows, map_err Faulted (rest <-? rest ;; verdict broken rest))
      end
  end.
End Whole.

Section Chunking.
Context `{RowLib} `{ImportLaws}.
Variable copy_rows : nat → list FrameRow → result CopyError unit.

Definition extend (rows : list FrameRow) (r : result ImportFault (list FrameRow * list Z)) : result ImportFault (list FrameRow * list Z) :=
  match r with Ok (rs, rest) => Ok (rows ++ rs, rest) | Err e => Err e end.

Lemma rows_acc fuel : ∀ buf rows, import_rows_from fuel buf rows = extend rows (import_rows_from fuel buf []).
Proof.
  induction fuel as [|fuel IH]; intros buf rows; cbn [import_rows_from]; [by rewrite <- (app_nil_r rows) at 1|].
  destruct (parse_record buf) as [[[r n]|]|e]; cbn [map_err]; [|by cbn; rewrite app_nil_r|done].
  destruct (frame_row _ _) as [row|]; cbn [ok_or]; [|done]. rewrite IH, (IH _ ([] ++ [row])). unfold extend.
  destruct (import_rows_from fuel (drop n buf) []) as [[rs rest]|e]; [|done]. by rewrite <- app_assoc.
Qed.

(** The reference reads alike. *)
Lemma rows_from_spec fuel : ∀ buf rows,
  import_rows_from fuel buf rows = (rest <-? (rows_from fuel buf).2 ;; Ok (rows ++ (rows_from fuel buf).1, rest)).
Proof.
  induction fuel as [|fuel IH]; intros buf rows; cbn [import_rows_from rows_from]; [by cbn; rewrite app_nil_r|].
  destruct (parse_record buf) as [[[r n]|]|e]; cbn [map_err]; [|by cbn; rewrite app_nil_r|done].
  destruct (frame_row _ _) as [row|]; cbn [ok_or]; [|done]. rewrite IH.
  destruct (rows_from fuel (drop n buf)) as [rs [rest|e]]; cbn; [|done]. by rewrite <- app_assoc.
Qed.
Lemma rows_of_then a b :
  match import_rows a [] with
  | Ok (rs, rest) => rows_of (a ++ b) = (rs ++ (rows_of (rest ++ b)).1, (rows_of (rest ++ b)).2)
  | Err e => (rows_of (a ++ b)).2 = Err e
  end.
Proof.
  unfold import_rows, rows_of.
  assert (Hfuel : ∀ g g' buf, (length buf < g)%nat → (length buf < g')%nat → rows_from g buf = rows_from g' buf).
  { induction g as [|g IH]; intros [|g'] buf Hg Hg'; try lia. cbn [rows_from].
    destruct (parse_record buf) as [[[r n]|]|e] eqn:Hp; [|done|done].
    destruct (frame_row _ _) as [row|]; [|done]. destruct (record_more buf [] r n Hp) as [_ Hn].
    rewrite (IH g' (drop n buf)); [done|..]; rewrite length_drop; lia. }
  assert (Hall : ∀ f g a, (length a < f)%nat → (length (a ++ b) < g)%nat →
    match import_rows_from f a [] with
    | Ok (rs, rest) => rows_from g (a ++ b) = (rs ++ (rows_of (rest ++ b)).1, (rows_of (rest ++ b)).2)
    | Err e => (rows_from g (a ++ b)).2 = Err e
    end).
  { clear a. induction f as [|f IH]; intros g a Ha Hg; [lia|]. destruct g as [|g]; [lia|]. cbn [import_rows_from rows_from].
    destruct (parse_record a) as [[[r n]|]|e] eqn:Hp; cbn [map_err].
    - destruct (record_more a b r n Hp) as [-> Hn]. destruct (frame_row _ _) as [row|]; cbn [ok_or]; [|done].
      rewrite rows_acc, drop_app_le by lia. specialize (IH g (drop n a)).
      destruct (import_rows_from f (drop n a) []) as [[rs rest]|e]; cbn [extend].
      all: destruct (rows_from g (drop n a ++ b)) as [rs' end'] eqn:Hr; cbn in *.
      1: assert ((rs', end') = (rs ++ (rows_of (rest ++ b)).1, (rows_of (rest ++ b)).2)) as [= -> ->]; [|done].
      all: apply IH; rewrite ?length_app, ?length_drop in *; lia.
    - change (match parse_record (a ++ b) with
        | Ok (Some (r, consumed)) =>
            match frame_row (ir_ts_us r) (MkWireRecord KIND_CAN (ir_id_flags r) (ir_flags r) (ir_bus r) (ir_payload r)) with
            | Some row => let '(rows, rest) := rows_from g (drop consumed (a ++ b)) in (row :: rows, rest)
            | None => ([], Err ImportPanic) end
        | Ok None => ([], Ok (a ++ b)) | Err e => ([], Err (BadBody e)) end) with (rows_from (S g) (a ++ b)).
      rewrite (Hfuel (S g) (S (length (a ++ b)))) by lia. unfold rows_of. cbn [app]. by destruct (rows_from _ _).
    - by rewrite (record_err a b e Hp). }
  apply Hall; lia.
Qed.

(** How an import ends: with the answer of the whole body, every row copied where
    it was taken, or with a copy that failed; in either case what was copied is
    the front of the body's rows. *)
Definition comes_to (res : result ImportFault ()) (before copied : list (list FrameRow)) (rows : list FrameRow)
    (whole : result ImportFault ()) : Prop :=
  ((res = whole ∧ (whole = Ok () → concat copied = concat before ++ rows)) ∨
   (∃ next e, res = Err (CopyFailed e) ∧ copy_rows (length copied) next = Err e ∧
      concat (copied ++ [next]) `prefix_of` concat before ++ rows)) ∧
  concat copied `prefix_of` concat before ++ rows.

Lemma loop_any_chunking chunks broken : ∀ pending rows copied,
  let '(res, copied') := import_loop copy_rows pending rows ((Ok <$> chunks) ++ option_list (Err <$> broken)) copied in
  let '(rs, rest) := rows_of (pending ++ concat chunks) in
  comes_to res copied copied' (rows ++ rs) (rest <-? rest ;; verdict broken rest).
Proof.
  induction chunks as [|bytes chunks IH]; intros pending rows copied; cbn [import_loop fmap list_fmap concat app].
  - rewrite app_nil_r.
    assert (Hr : import_rows pending rows = (rest <-? (rows_of pending).2 ;; Ok (rows ++ (rows_of pending).1, rest)))
      by apply rows_from_spec.
    destruct broken as [x|]; cbn [option_list option_rect fmap option_fmap option_map import_loop]; rewrite Hr; clear Hr;
      (destruct (rows_of pending) as [rs [rest|e]]; cbn [fst snd]; [|by split; [left|apply prefix_app_r]]).
    { split; [by left|]. by apply prefix_app_r. }
    unfold copy_due. cbn [andb verdict]. destruct (orb _ _) eqn:Hdue.
    + destruct (copy_rows (length copied) (rows ++ rs)) as [[]|e] eqn:Hcopy.
      * split; [left; split; [done|intros _]|]; rewrite concat_app; cbn; by rewrite app_nil_r.
      * split; [right; exists (rows ++ rs), e; split_and!; [done|done|rewrite concat_app; cbn; by rewrite app_nil_r]|by apply prefix_app_r].
    + apply orb_false_iff in Hdue as [_ Hdue]. apply negb_false_iff, bool_decide_eq_true in Hdue as ->. unfold comes_to. rewrite app_nil_r. by split; [left|].
  - pose proof (rows_of_then pending (bytes ++ concat chunks)) as Ht. unfold import_rows in *. rewrite rows_from_spec in *.
    fold (rows_of pending) in *. destruct (rows_of pending) as [rs0 [rest0|e]]; cbn [fst snd] in *.
    2:{ destruct (rows_of (pending ++ bytes ++ concat chunks)) as [rs' end']. cbn in Ht. subst end'. split; [by left|]. by apply prefix_app_r. }
    cbn [app] in Ht. rewrite (app_assoc rest0 bytes) in Ht. rewrite Ht. unfold copy_due. cbn [andb].
    destruct (orb _ _) eqn:Hdue.
    + destruct (copy_rows (length copied) (rows ++ rs0)) as [[]|e] eqn:Hcopy.
      * specialize (IH (rest0 ++ bytes) [] (copied ++ [rows ++ rs0])).
        destruct (import_loop copy_rows (rest0 ++ bytes) [] _ _) as [res copied'].
        destruct (rows_of ((rest0 ++ bytes) ++ concat chunks)) as [rs' end']. cbn [fst snd app] in *. unfold comes_to in *.
        rewrite concat_app in IH. cbn [concat] in IH. rewrite app_nil_r, <- !app_assoc in IH. exact IH.
      * split; [right; exists (rows ++ rs0), e; split_and!; [done|done|]|by apply prefix_app_r].
        rewrite concat_app. cbn. rewrite app_nil_r, !app_assoc. by apply prefix_app_r.
    + specialize (IH (rest0 ++ bytes) (rows ++ rs0) copied).
      destruct (import_loop copy_rows (rest0 ++ bytes) (rows ++ rs0) _ _) as [res copied'].
      destruct (rows_of ((rest0 ++ bytes) ++ concat chunks)) as [rs' end']. cbn [fst snd] in *. by rewrite <- app_assoc in IH.
Qed.

Lemma header_any_chunking chunks broken : ∀ pending,
  let tail := option_list (Err <$> broken) in
  match parse_header (pending ++ concat chunks) with
  | Ok (Some n) => ∃ rest more, read_header pending ((Ok <$> chunks) ++ tail) = Ok (rest, (Ok <$> more) ++ tail) ∧
      rest ++ concat more = drop n (pending ++ concat chunks)
  | Ok None => read_header pending ((Ok <$> chunks) ++ tail) = Err (no_header broken)
  | Err e => read_header pending ((Ok <$> chunks) ++ tail) = Err (BadBody e)
  end.
Proof.
  induction chunks as [|bytes chunks IH]; intros pending; cbn [read_header fmap list_fmap concat app].
  - rewrite app_nil_r. destruct (parse_header pending) as [[n|]|e] eqn:Hp.
    + exists (drop n pending), []. cbn. rewrite app_nil_r. by destruct broken; cbn [read_header option_list option_rect fmap option_fmap option_map]; rewrite Hp.
    + by destruct broken; cbn [read_header option_list option_rect fmap option_fmap option_map]; rewrite Hp.
    + by destruct broken; cbn [read_header option_list option_rect fmap option_fmap option_map]; rewrite Hp.
  - destruct (parse_header pending) as [[n|]|e] eqn:Hp; cbn [map_err].
    + destruct (header_more pending (bytes ++ concat chunks) n Hp) as [-> Hn].
      exists (drop n pending), (bytes :: chunks). split; [done|]. cbn [concat]. by rewrite drop_app_le.
    + rewrite app_assoc. apply IH.
    + by rewrite (header_err pending (bytes ++ concat chunks) e Hp).
Qed.

(** C16: an import depends on the bytes of its body and not on how they were cut
    into chunks. However they were, and whether or not the body breaks off, the
    import ends as reading the bytes at once ends, with every row copied where
    that is success, or else it ends with a copy that PostgreSQL refused; and on
    any end the rows copied are the first rows of the body, in order. A database
    that is not there or not served ends it after the header, with nothing
    copied. *)
Theorem import_any_chunking (ensured pooled : result string ()) (chunks : list (list Z)) (broken : option string) :
  let '(res, copied) := import_body copy_rows ensured pooled ((Ok <$> chunks) ++ option_list (Err <$> broken)) in
  let '(rows, whole) := import_whole ensured pooled (concat chunks) broken in
  ((res = whole ∧ (whole = Ok () → concat copied = rows)) ∨
   (∃ next e, res = Err (Faulted (CopyFailed e)) ∧ copy_rows (length copied) next = Err e ∧
      concat (copied ++ [next]) `prefix_of` rows)) ∧
  concat copied `prefix_of` rows.
Proof.
  unfold import_body, import_whole. pose proof (header_any_chunking chunks broken []) as Hh. cbn [app] in Hh. cbv zeta in Hh.
  destruct (parse_header (concat chunks)) as [[n|]|e]; [|by rewrite Hh; split; [left|]|by rewrite Hh; split; [left|]].
  destruct Hh as (rest & more & -> & <-). destruct ensured as [[]|m]; [|by split; [left|]].
  destruct pooled as [[]|m]; [|by split; [left|]].
  pose proof (loop_any_chunking more broken rest [] []) as Hl.
  destruct (import_loop copy_rows rest [] _ []) as [res copied]. destruct (rows_of (rest ++ concat more)) as [rs end'].
  cbn [app] in Hl. destruct Hl as [[[-> Hok]|(next & e & -> & Hc & Hp)] Hpre]; (split; [|exact Hpre]).
  - left. split; [done|]. intros He. apply Hok. by destruct (rest <-? end' ;; verdict broken rest) as [[]|].
  - right. by exists next, e.
Qed.
End Chunking.

(** ** An import in pieces *)

Module Pieces.
Import Packed Stored.

(** A format of one header byte and records of an id and a byte. *)
#[export] Instance import_lib : ImportLib := {
  BODY_HEADER := 1; KIND_CAN := 0;
  parse_header := λ b, match b with [] => Ok None | 87 :: _ => Ok (Some 1%nat) | _ => Err "not an import body" end;
  parse_record := λ b, match b with id :: x :: _ => Ok (Some (MkImportRecord 5 id 0 0 [x], 2%nat)) | _ => Ok None end
}.
#[export] Instance import_laws : ImportLaws.
Proof.
  split; cbn.
  - intros [|x a] b n; [done|]. cbn. repeat (case_match; try done). intros [= <-]. split; [done|cbn; lia].
  - intros [|x a] b e; [done|]. cbn. repeat (case_match; try done).
  - intros [|x [|y a]] b r n; try done. intros [= <- <-]. split; [done|cbn; lia].
  - intros [|x [|y a]] b e; done.
Qed.

(** The same two records cut apart, a body with a byte too few, and a PostgreSQL
    that refuses. *)
Lemma import_any_chunking_witness :
  (import_body (λ _ _, Ok tt) (Ok tt) (Ok tt) (Ok <$> [[]; [87; 1]; [7; 2]; [8]; []])).1 = Ok () ∧
  imported (import_body (λ _ _, Ok tt) (Ok tt) (Ok tt) (Ok <$> [[]; [87; 1]; [7; 2]; [8]; []])).2 = 2 ∧
  (import_body (λ _ _, Ok tt) (Ok tt) (Ok tt) (Ok <$> [[87; 1; 7]; [2]])).1 =
    Err (Faulted (BadBody "truncated record: 1 trailing bytes")) ∧
  (import_body (λ _ _, Err (MkCopyError None "no")) (Ok tt) (Ok tt) (Ok <$> [[87; 1; 7]])).1 =
    Err (Faulted (CopyFailed (MkCopyError None "no"))).
Proof.
  pose proof (import_any_chunking (λ _ _, Ok tt) (Ok tt) (Ok tt) [[]; [87; 1]; [7; 2]; [8]; []] None) as Hwhole.
  vm_compute in Hwhole. destruct Hwhole as [[[Hwhole _]|(next & e & Hx & _)] _]; [|done].
  split; [exact Hwhole|]. split_and!; vm_compute; reflexivity.
Defined.
End Pieces.
