(* ===== verification/Wtar.v ===== *)
(** * Archives ([archive.rs] of the gateway)

    A capture database as one stream: how an export writes it, how an import reads
    it back from an upload in whatever chunks it comes, and the single-use links an
    export is fetched by. gzip is a parameter, its streams written and read a piece
    at a time. *)

From S2P Require Import Prelude F64 Model Source Wire Catalogues Rows Store Sql Schema.
From Stdlib Require Import Ascii.
Local Open Scope Z_scope.

Definition MAGIC : list Z := [87; 84; 65; 82].
Definition FORMAT_VERSION : Z := 1.
Definition TABLES : list (string * list string) :=
  [("capture_frame", ["ts"; "ingest_ts"; "protocol"; "id"; "dlc"; "data_bytes"; "bus"; "flags"; "unit"; "func"; "crc_valid"]);
   ("events", ["id"; "ts"; "duration_us"; "note"; "created_at"; "updated_at"])].

Definition MAX_CHUNK : Z := 2 ^ 24.
Definition MAX_MANIFEST : Z := 2 ^ 20.
Definition INFLATE_AT : Z := 2 ^ 13.
Definition SEND_AT : Z := 2 ^ 18.
Definition PIECE : Z := 2 ^ 16.
Definition BYTES_PER_FRAME : Z := 16.
Definition BYTES_PER_EVENT : Z := 100.

Record Window := MkWindow { from_us : Z; to_us : Z }.
Record TableManifest := MkTableManifest { tm_name : string; tm_columns : list string; tm_rows : Z }.
Record Manifest := MkManifest {
  mf_schema_version : Z; mf_gateway_version : string; mf_created_at : Z; mf_database : string; mf_window : option Window;
  mf_tables : list TableManifest
}.

(** flate2's encoder and decoder over a [Vec], each write with the bytes it adds;
    serde_json of a manifest. *)
Class WtarLib := {
  Enc : Type; enc_new : Enc; enc_write : Enc → list Z → Enc * list Z; enc_finish : Enc → list Z;
  Dec : Type; dec_new : Dec; dec_write : Dec → list Z → result string (Dec * list Z); dec_finish : Dec → result string (list Z);
  manifest_json : Manifest → list Z; manifest_of : list Z → result string Manifest;
  file_time : Z → string
}.

Inductive ImportError := IBadRequest (m : string) | INotFound (m : string) | IConflict (m : string) | IUnavailable (m : string).
(** [copy_refused]. *)
Definition copy_refused (table : string) (e : CopyError) : ImportError :=
  let detail := table +:+ ": " +:+ ce_message e in
  if refused_the_rows (ce_code e) then IBadRequest detail else IUnavailable detail.

(** ** The window *)

Definition at_us (us : Z) : string := "'epoch'::timestamptz + INTERVAL '" +:+ pretty us +:+ " microseconds'".
Definition window_filter (window : option Window) : string :=
  match window with
  | None => EmptyString
  | Some w => " WHERE ts >= " +:+ at_us (from_us w) +:+ " AND ts < " +:+ at_us (to_us w)
  end.
Definition rollup_filter (window : option Window) : string :=
  match window with
  | None => EmptyString
  | Some w => " WHERE bucket >= date_trunc('hour', " +:+ at_us (from_us w) +:+ ") AND bucket < " +:+ at_us (to_us w)
  end.

Record Estimate := MkEstimate {
  es_min_ts_us : option Z; es_max_ts_us : option Z; es_frames : Z; es_events : Z; es_approx_bytes : Z; es_empty : bool
}.
Definition estimate_query (window : option Window) : Query :=
  let within := window_filter window in
  ("SELECT least((SELECT min(ts) FROM public.capture_frame), (SELECT min(ts) FROM public.events)), " +:+
   "greatest((SELECT max(ts) FROM public.capture_frame), (SELECT max(ts) FROM public.events)), " +:+
   "(SELECT coalesce(sum(frame_count), 0)::int8 FROM public.capture_frame_hourly" +:+ rollup_filter window +:+
   "), (SELECT count(*) FROM public.events" +:+ within +:+ "), NOT EXISTS (SELECT FROM public.capture_frame" +:+ within +:+
   ") AND NOT EXISTS (SELECT FROM public.events" +:+ within +:+ ")", []).
(** The five columns the query answers; [None] is a panic on their types. *)
Definition estimate_of (row : PgRow) : option Estimate :=
  let micros v := match v with VTime us => Some (Some us) | VNull => Some None | _ => None end in
  match row with
  | [(_, lo); (_, hi); (_, VInt8 frames); (_, VInt8 events); (_, VBool empty)] =>
      lo ← micros lo; hi ← micros hi;
      Some (MkEstimate lo hi frames events (frames * BYTES_PER_FRAME + events * BYTES_PER_EVENT) empty)
  | _ => None
  end.
Definition estimate (client : Query → result PgError (list PgRow)) (window : option Window) : result Stop Estimate :=
  row <-? map_err (λ e, Failed (Database (pe_message e))) (query_one client (estimate_query window)) ;;
  ok_or (estimate_of row) Panicked.

Section Files.
Context `{WtarLib}.

Definition file_name (database : string) (window : option Window) : string :=
  match window with
  | None => database +:+ ".wtar"
  | Some w => database +:+ "_" +:+ file_time (from_us w) +:+ "_" +:+ file_time (to_us w) +:+ ".wtar"
  end.

(** ** Writing *)

(** [u32::to_be_bytes] and [from_be_bytes]. *)
Definition to_be32 (n : Z) : list Z := [n / 2 ^ 24 mod 256; n / 2 ^ 16 mod 256; n / 2 ^ 8 mod 256; n mod 256].
Definition from_be32 (l : list Z) : Z := foldl (λ n b, n * 256 + b) 0 l.

(** [Compressed]: the encoder, what it has written and not sent, and what was sent. *)
Record Compressed := MkCompressed { encoder : Enc; inner : list Z; sent : list (list Z) }.
Definition zwrite (bytes : list Z) (c : Compressed) : Compressed :=
  let '(e, out) := enc_write (encoder c) bytes in MkCompressed e (inner c ++ out) (sent c).
(** [section]: a length, then the bytes. *)
Definition write_section (bytes : list Z) (c : Compressed) : result string Compressed :=
  if 2 ^ 32 <=? Z.of_nat (length bytes) then Err "a section past 4 GiB"
  else
    let c := zwrite bytes (zwrite (to_be32 (Z.of_nat (length bytes))) c) in
    Ok (if SEND_AT <=? Z.of_nat (length (inner c)) then MkCompressed (encoder c) [] (sent c ++ [inner c]) else c).
Definition zfinish (c : Compressed) : list (list Z) := sent c ++ [inner c ++ enc_finish (encoder c)].

Fixpoint write_sections (ss : list (list Z)) (c : Compressed) : result string Compressed :=
  match ss with [] => Ok c | s :: ss => c <-? write_section s c ;; write_sections ss c end.

(** The sections of a table: its COPY rows gathered into pieces, then an empty one. *)
Fixpoint pieces (rows : list (list Z)) (piece : list Z) : list (list Z) :=
  match rows with
  | [] => (if bool_decide (piece = []) then [] else [piece]) ++ [[]]
  | row :: rows =>
      let piece := piece ++ row in
      if PIECE <=? Z.of_nat (length piece) then piece :: pieces rows [] else pieces rows piece
  end.

(** [write_archive], from the manifest and the rows PostgreSQL copies out: what is
    sent, in order. *)
Definition write_archive (manifest : Manifest) (tables : list (list (list Z))) : result string (list (list Z)) :=
  c <-? write_sections (manifest_json manifest :: (tables ≫= λ rows, pieces rows [])) (MkCompressed enc_new [] []) ;;
  Ok ((MAGIC ++ [FORMAT_VERSION]) :: zfinish c).

(** ** Reading *)

Record Reader := MkReader {
  body : list (result string (list Z)); header : list Z; received : list Z; decoder : Dec; decoded : list Z; ended : bool
}.
Definition reader_new (body : list (result string (list Z))) : Reader := MkReader body [] [] dec_new [] false.

Definition bad {A} (m : string) : result ImportError A := Err (IBadRequest m).
Definition check_header (h : list Z) : result ImportError unit :=
  let magic := take (length MAGIC) h in
  if negb (bool_decide (magic = take (length magic) MAGIC)) then bad "this is not a WireTAP archive"
  else
    match h !! length MAGIC with
    | Some v => if negb (v =? FORMAT_VERSION) then
        bad ("archive format v" +:+ pretty v +:+ " is not one this gateway reads (v" +:+ pretty FORMAT_VERSION +:+ "); upgrade the gateway")
        else Ok tt
    | None => Ok tt
    end.

(** [receive], with the bytes the decoder adds at the end of the upload. *)
Definition receive : io Reader ImportError (list Z) := λ r,
  match body r with
  | Err e :: rest => (bad ("the upload failed: " +:+ e), MkReader rest (header r) (received r) (decoder r) (decoded r) (ended r))
  | [] =>
      let r := MkReader [] (header r) (received r) (decoder r) (decoded r) true in
      if (length (header r) <? length MAGIC + 1)%nat then (bad "this is not a WireTAP archive: it is too short", r)
      else match dec_finish (decoder r) with
           | Ok out => (Ok out, r)
           | Err e => (bad ("the archive is truncated or corrupt: " +:+ e), r)
           end
  | Ok bytes :: rest =>
      let wanted := (length MAGIC + 1 - length (header r))%nat in
      let h := header r ++ take wanted bytes in
      match (if (0 <? wanted)%nat then check_header h else Ok tt) with
      | Ok _ => (Ok [], MkReader rest h (drop wanted bytes) (decoder r) (decoded r) (ended r))
      | Err e => (Err e, MkReader rest h (received r) (decoder r) (decoded r) (ended r))
      end
  end.
Definition inflate : io Reader ImportError (list Z) := λ r,
  let n := Z.to_nat INFLATE_AT in
  let rest := MkReader (body r) (header r) (drop n (received r)) in
  match dec_write (decoder r) (take n (received r)) with
  | Ok (d, out) => (Ok out, rest d (decoded r) (ended r))
  | Err e => (bad ("the archive is corrupt: " +:+ e), rest (decoder r) (decoded r) (ended r))
  end.
(** [take_decoded]. *)
Definition take_decoded (out : list Z) (r : Reader) : Reader :=
  MkReader (body r) (header r) (received r) (decoder r) (decoded r ++ out) (ended r).

(** Each turn takes a chunk of the body, the end, or a byte received, at least. *)
Definition fill_fuel (r : Reader) : nat :=
  (2 + length (received r) + sum_list ((λ c, match c with Ok bytes => 1 + length bytes | Err _ => 1 end) <$> body r))%nat.
Fixpoint fill_from (fuel : nat) : io Reader ImportError bool := λ r,
  match fuel with
  | O => (Ok false, r)
  | S fuel =>
      if ended r then (Ok false, r)
      else
        match (if bool_decide (received r = []) then receive r else inflate r) with
        | (Err e, r) => (Err e, r)
        | (Ok out, r) => if bool_decide (out = []) then fill_from fuel r else (Ok true, take_decoded out r)
        end
  end.
Definition fill : io Reader ImportError bool := λ r, fill_from (fill_fuel r) r.

(** [take]: each turn adds a byte, at least. *)
Fixpoint take_from (fuel : nat) (n : nat) : io Reader ImportError (list Z) := λ r,
  if (length (decoded r) <? n)%nat then
    match fuel with
    | O => (bad "the archive is truncated", r)
    | S fuel =>
        match fill r with
        | (Err e, r) => (Err e, r)
        | (Ok false, r) => (bad "the archive is truncated", r)
        | (Ok true, r) => take_from fuel n r
        end
    end
  else (Ok (take n (decoded r)), MkReader (body r) (header r) (received r) (decoder r) (drop n (decoded r)) (ended r)).
Definition take_bytes (n : nat) : io Reader ImportError (list Z) := take_from n n.

Definition read_section (max : Z) : io Reader ImportError (list Z) :=
  len ← take_bytes 4;
  let len := from_be32 len in
  if max <? len then io_err (IBadRequest "the archive is corrupt: a section is too long") else take_bytes (Z.to_nat len).

Definition table_matches (t : TableManifest) (expected : string * list string) : bool :=
  str_eqb (tm_name t) expected.1 && bool_decide (tm_columns t = expected.2).
Definition check_manifest (m : Manifest) : result ImportError Manifest :=
  let at_ := mf_schema_version m in
  let ours := SCHEMA_VERSION in
  if ours <? at_ then
    bad ("the archive is at capture schema v" +:+ pretty at_ +:+ ", newer than this gateway's v" +:+ pretty ours +:+ "; upgrade the gateway")
  else if at_ <? ours then
    bad ("the archive is at capture schema v" +:+ pretty at_ +:+ ", and this gateway loads only v" +:+ pretty ours +:+
         ": its migrator takes a database forward, and there is no v" +:+ pretty at_ +:+ " database to load the archive into")
  else if negb ((length (mf_tables m) =? length TABLES)%nat && forallb (λ te, table_matches te.1 te.2) (zip (mf_tables m) TABLES)) then
    bad ("the archive's tables are not the ones a v" +:+ pretty ours +:+ " archive carries")
  else Ok m.
Definition read_manifest : io Reader ImportError Manifest :=
  raw ← read_section MAX_MANIFEST;
  io_lift (m <-? map_err (λ e, IBadRequest ("the archive's manifest is corrupt: " +:+ e)) (manifest_of raw) ;; check_manifest m).

(** [COPY ... FROM STDIN] of a table: opening it, each chunk sent after those
    before, and the rows it counts at the end. *)
Record Sink := MkSink {
  copy_open : string → result CopyError unit;
  copy_send : string → list (list Z) → list Z → result CopyError unit;
  copy_finish : string → list (list Z) → result CopyError Z
}.
Variable sink : Sink.

(** A table's sections into its COPY; a turn is a section. *)
Fixpoint load_chunks (fuel : nat) (name : string) (chunks : list (list Z)) : io Reader ImportError (option (list (list Z))) :=
  match fuel with
  | O => mret None
  | S fuel =>
      chunk ← read_section MAX_CHUNK;
      if bool_decide (chunk = []) then mret (Some chunks)
      else io_lift (map_err (copy_refused name) (copy_send sink name chunks chunk)) ≫= λ _,
           load_chunks fuel name (chunks ++ [chunk])
  end.
Definition carried_rows (name : string) (rows says : Z) : string :=
  name +:+ " carried " +:+ pretty rows +:+ " rows, and the archive's manifest says " +:+ pretty says.
(** The chunks each table was sent; [None] where the fuel ran out. *)
Fixpoint load_tables (fuel : nat) (ts : list (TableManifest * (string * list string))) : io Reader ImportError (option (list (list (list Z)))) :=
  match ts with
  | [] => mret (Some [])
  | (t, (name, _)) :: ts =>
      io_lift (map_err (copy_refused name) (copy_open sink name)) ≫= λ _,
      chunks ← load_chunks fuel name [];
      match chunks with
      | None => mret None
      | Some chunks =>
          rows ← io_lift (map_err (copy_refused name) (copy_finish sink name chunks));
          if negb (rows =? tm_rows t) then io_err (IBadRequest (carried_rows name rows (tm_rows t)))
          else rest ← load_tables fuel ts; mret ((λ r, chunks :: r) <$> rest)
      end
  end.
(** Nothing may follow the last table. *)
Definition at_end : io Reader ImportError () := λ r,
  let after := "the archive has data after its last table" in
  if negb (bool_decide (decoded r = [])) then (bad after, r)
  else match fill r with
       | (Ok true, r) => (bad after, r)
       | (Ok false, r) => (Ok (), r)
       | (Err e, r) => (Err e, r)
       end.
Definition load (fuel : nat) (m : Manifest) : io Reader ImportError (option (list (list (list Z)))) :=
  loaded ← load_tables fuel (zip (mf_tables m) TABLES);
  at_end ≫= λ _, mret loaded.
End Files.

(** ** [Links] *)

Record Link := MkLink { ln_database : string; ln_window : option Window; ln_issued : Z }.
Definition LINK_LIFE : Z := 60 * 1000000.
Definition Links : Type := gmap string Link.
Definition live_link (now : Z) (l : Link) : bool := now - ln_issued l <? LINK_LIFE.
(** [issue], under the random token it makes, at [now]. *)
Definition issue (now : Z) (token database : string) (window : option Window) (links : Links) : Links :=
  <[token := MkLink database window now]> (filter (λ kv, live_link now kv.2 = true) links).
Definition redeem (now : Z) (token : string) (links : Links) : option Link * Links :=
  match links !! token with
  | None => (None, links)
  | Some l => (if live_link now l then Some l else None, delete token links)
  end.

(** ** An archive reads back *)

Section Gzip.
Context `{WtarLib}.
Fixpoint encode_from (e : Enc) (ws : list (list Z)) : list Z :=
  match ws with [] => enc_finish e | w :: ws => let '(e, out) := enc_write e w in out ++ encode_from e ws end.
Fixpoint decode (d : Dec) (ps : list (list Z)) : result string (list Z) :=
  match ps with
  | [] => dec_finish d
  | p :: ps => dout <-? dec_write d p ;; rest <-? decode dout.1 ps ;; Ok (dout.2 ++ rest)
  end.
End Gzip.
(** A stream decodes to what was encoded, in whatever pieces it is fed; a
    manifest's JSON reads back. *)
Class WtarLaws `{WtarLib} : Prop := {
  gz_back : ∀ ws ps, concat ps = encode_from enc_new ws → decode dec_new ps = Ok (concat ws);
  json_back : ∀ m, manifest_of (manifest_json m) = Ok m
}.

Definition section_bytes (s : list Z) : list Z := to_be32 (Z.of_nat (length s)) ++ s.
Lemma be32_back n : 0 ≤ n < 2 ^ 32 → from_be32 (to_be32 n) = n.
Proof.
  intros Hn. unfold from_be32, to_be32. cbn [foldl].
  change (2 ^ 24) with (256 * (256 * 256)). change (2 ^ 16) with (256 * 256). change (2 ^ 8) with 256.
  rewrite <- !Z.div_div by lia. pose proof (Z.div_mod n 256 ltac:(lia)). pose proof (Z.div_mod (n / 256) 256 ltac:(lia)).
  pose proof (Z.div_mod (n / 256 / 256) 256 ltac:(lia)).
  rewrite (Z.mod_small (n / 256 / 256 / 256)); [lia|]. split; [repeat apply Z.div_pos; lia|].
  rewrite !Z.div_div by lia. apply Z.div_lt_upper_bound; lia.
Qed.

Section ReadBack.
Context `{WtarLaws}.

Lemma write_sections_bytes ss : ∀ c c', write_sections ss c = Ok c' →
  concat (zfinish c') = concat (sent c) ++ inner c ++ encode_from (encoder c) (ss ≫= λ s, [to_be32 (Z.of_nat (length s)); s]).
Proof.
  induction ss as [|s ss IH]; intros [e inn snt] c' Hw; cbn [write_sections] in Hw.
  - injection Hw as <-. unfold zfinish. rewrite concat_app. cbn. by rewrite app_nil_r.
  - destruct (write_section s _) as [c|] eqn:Hs; [|done]. rewrite (IH c c' Hw). clear IH Hw. unfold write_section in Hs.
    destruct (2 ^ 32 <=? _); [done|]. injection Hs as <-. unfold zwrite. cbn [encoder inner sent mbind list_bind app encode_from].
    destruct (enc_write e _) as [e1 o1]. cbn [encoder inner sent]. destruct (enc_write e1 s) as [e2 o2]. cbn [encoder inner sent].
    destruct (_ <=? _); cbn [encoder inner sent]; rewrite ?concat_app; cbn [concat]; rewrite ?app_nil_r; by rewrite <- !app_assoc.
Qed.

(** Fed in whatever pieces, [z] decodes to [out]. *)
Definition good (d : Dec) (z out : list Z) : Prop := ∀ ps, concat ps = z → decode d ps = Ok out.
Lemma good_step d p z out : good d (p ++ z) out →
  ∃ d' o out', dec_write d p = Ok (d', o) ∧ out = o ++ out' ∧ good d' z out'.
Proof.
  intros Hg. pose proof (Hg [p; z] ltac:(cbn; by rewrite app_nil_r)) as Hpz. cbn in Hpz.
  destruct (dec_write d p) as [[d' o]|e] eqn:Hw; [|done]. cbn in Hpz.
  destruct (dec_write d' z) as [[d2 o2]|e]; [|done]. cbn in Hpz. destruct (dec_finish d2) as [o3|e]; [|done].
  injection Hpz as Hout. exists d', o, (o2 ++ o3). split_and!; [done|by rewrite <- Hout|].
  intros ps Hps. pose proof (Hg (p :: ps) ltac:(cbn; by rewrite Hps)) as Hp. cbn in Hp. rewrite Hw in Hp. cbn in Hp.
  destruct (decode d' ps) as [rest|e]; [|done]. injection Hp as Hrest. f_equal. apply (app_inv_head o). by rewrite Hrest, Hout.
Qed.
Lemma good_end d out : good d [] out → dec_finish d = Ok out.
Proof. intros Hg. exact (Hg [] eq_refl). Qed.

(** The plain bytes a reader has still to give. *)
Definition yields (r : Reader) (plain : list Z) : Prop :=
  (ended r = true ∧ decoded r = plain) ∨
  (ended r = false ∧ ∃ chunks h z out, body r = Ok <$> chunks ∧ header r ++ h = MAGIC ++ [FORMAT_VERSION] ∧
    received r ++ concat chunks = h ++ z ∧ (h ≠ [] → received r = []) ∧ good (decoder r) z out ∧ plain = decoded r ++ out).

Lemma header_ok h h' : h ++ h' = MAGIC ++ [FORMAT_VERSION] → check_header h = Ok tt.
Proof.
  intros Hh. assert (Hlen : (length h ≤ 5)%nat).
  { apply (f_equal length) in Hh. rewrite length_app in Hh. cbn in Hh. lia. }
  do 6 (destruct h as [|? h]; [cbn in Hh; simplify_eq; vm_compute; reflexivity|]). cbn in Hlen. lia.
Qed.

Lemma receive_yields r plain : yields r plain → ended r = false → received r = [] →
  ∃ out r', receive r = (Ok out, r') ∧ yields (take_decoded out r') plain ∧ decoded r' = decoded r ∧
    (ended r' = true ∨ (fill_fuel r' < fill_fuel r)%nat).
Proof.
  intros [[? ?]|(_ & chunks & h & z & out & Hb & Hh & Hz & Hr & Hg & Hp)] He Hrec; [congruence|].
  unfold receive. rewrite Hb. rewrite Hrec in Hz. cbn [app] in Hz.
  assert (Hlen : (length (header r) + length h = 5)%nat) by (apply (f_equal length) in Hh; by rewrite length_app in Hh).
  destruct chunks as [|bytes chunks]; cbn [fmap list_fmap].
  - cbn [concat] in Hz. symmetry in Hz. apply app_eq_nil in Hz as [-> ->]. cbn [header decoder decoded received].
    cbn [length] in Hlen. rewrite (proj2 (Nat.ltb_ge _ _)) by (cbn; lia). rewrite (good_end _ _ Hg).
    do 2 eexists. split; [done|]. split; [|split; [done|by left]]. left. split; [done|]. by rewrite Hp.
  - cbn [concat] in Hz. replace (length MAGIC + 1 - length (header r))%nat with (length h) by (cbn; lia).
    assert (Hpre : take (length h) bytes ++ drop (length bytes) h = h ∧ drop (length h) bytes ++ concat chunks = drop (length bytes) h ++ z ∧
      (drop (length bytes) h ≠ [] → drop (length h) bytes = [])).
    { destruct (Nat.le_ge_cases (length bytes) (length h)) as [Hle|Hge].
      - rewrite take_ge, (drop_ge bytes) by lia. apply (f_equal (λ l, (take (length bytes) l, drop (length bytes) l))) in Hz.
        rewrite take_app_length, drop_app_length, take_app_le, drop_app_le in Hz by lia. injection Hz as Hz1 Hz2.
        split_and!; [by rewrite Hz1 at 1; rewrite take_drop|done|done].
      - rewrite (drop_ge h) by lia. apply (f_equal (λ l, (take (length h) l, drop (length h) l))) in Hz.
        rewrite take_app_length, drop_app_length, take_app_le, drop_app_le in Hz by lia. injection Hz as Hz1 Hz2.
        rewrite app_nil_r. by split_and!. }
    destruct Hpre as (Hh1 & Hz1 & Hr1).
    assert (Hh2 : (header r ++ take (length h) bytes) ++ drop (length bytes) h = MAGIC ++ [FORMAT_VERSION]).
    { by rewrite <- app_assoc, Hh1. }
    destruct (0 <? length h)%nat; rewrite ?(header_ok _ _ Hh2).
    all: do 2 eexists; split; [done|]; split; [|split; [done|right; unfold fill_fuel; rewrite Hrec, Hb; cbn; rewrite length_drop; lia]].
    all: right; cbn; split; [done|]; exists chunks, (drop (length bytes) h), z, out; rewrite app_nil_r; by split_and!.
Qed.

Lemma inflate_yields r plain : yields r plain → ended r = false → received r ≠ [] →
  ∃ out r', inflate r = (Ok out, r') ∧ yields (take_decoded out r') plain ∧ decoded r' = decoded r ∧ (fill_fuel r' < fill_fuel r)%nat.
Proof.
  intros [[? ?]|(_ & chunks & h & z & out & Hb & Hh & Hz & Hr & Hg & Hp)] He Hrec; [congruence|].
  destruct h as [|x h]; [|by rewrite Hr in Hrec]. cbn [app] in Hz. unfold inflate. set (n := Z.to_nat INFLATE_AT).
  rewrite <- (take_drop n (received r)), <- app_assoc in Hz. rewrite <- Hz in Hg.
  destruct (good_step _ _ _ _ Hg) as (d' & o & out' & -> & -> & Hg'). do 2 eexists. split; [done|]. split; [|split; [done|]].
  - right. cbn. split; [done|]. exists chunks, [], (drop n (received r) ++ concat chunks), out'. rewrite <- app_assoc. by split_and!.
  - unfold fill_fuel. cbn. rewrite length_drop. assert (0 < n)%nat by (unfold n, INFLATE_AT; lia).
    assert (0 < length (received r))%nat by (destruct (received r); [done|cbn; lia]). lia.
Qed.

Lemma ended_yields r plain : yields r plain → ended r = true → decoded r = plain.
Proof. intros [[_ Hd]|[He _]] Hr; [done|congruence]. Qed.
Lemma no_out r : take_decoded [] r = r.
Proof. destruct r. unfold take_decoded. cbn. by rewrite app_nil_r. Qed.

(** A fill gives more bytes, or there are none left. *)
Definition filled (r : Reader) (plain : list Z) (b : bool) (r' : Reader) : Prop :=
  yields r' plain ∧ (if b then (length (decoded r) < length (decoded r'))%nat else decoded r' = plain ∧ decoded r' = decoded r).
Lemma fill_from_yields fuel : ∀ r plain, yields r plain → (fill_fuel r ≤ fuel)%nat ∨ ended r = true →
  ∃ b r', fill_from fuel r = (Ok b, r') ∧ filled r plain b r'.
Proof.
  unfold filled. induction fuel as [|fuel IH]; intros r plain Hy Hf; cbn [fill_from].
  { destruct Hf as [Hf|He]; [unfold fill_fuel in Hf; lia|]. exists false, r. pose proof (ended_yields r plain Hy He). done. }
  destruct (ended r) eqn:He; [exists false, r; pose proof (ended_yields r plain Hy He); done|].
  destruct Hf as [Hf|]; [|done].
  assert (Hstep : ∃ out r', (if bool_decide (received r = []) then receive r else inflate r) = (Ok out, r') ∧
    yields (take_decoded out r') plain ∧ decoded r' = decoded r ∧ (ended r' = true ∨ (fill_fuel r' < fill_fuel r)%nat)).
  { case_bool_decide as Hr; [by apply receive_yields|].
    destruct (inflate_yields r plain Hy He Hr) as (out & r' & ? & ? & ? & ?). exists out, r'. auto. }
  destruct Hstep as (out & r' & -> & Hy' & Hd & Hlt). case_bool_decide as Hout.
  - subst out. rewrite no_out in Hy'. destruct (IH r' plain Hy') as (b & r2 & -> & Hy2 & Hb); [destruct Hlt; [by right|left; lia]|].
    exists b, r2. rewrite <- Hd. done.
  - exists true, (take_decoded out r'). split; [done|]. split; [done|]. cbn. rewrite Hd, length_app.
    destruct out; [done|cbn; lia].
Qed.
Lemma fill_yields r plain : yields r plain → ∃ b r', fill r = (Ok b, r') ∧ filled r plain b r'.
Proof. intros Hy. apply fill_from_yields; [done|by left]. Qed.

Lemma yields_split r a b : yields r (a ++ b) → (length a ≤ length (decoded r))%nat →
  take (length a) (decoded r) = a ∧
  yields (MkReader (body r) (header r) (received r) (decoder r) (drop (length a) (decoded r)) (ended r)) b.
Proof.
  intros Hy Hle.
  assert (Hcut : ∀ out, a ++ b = decoded r ++ out → take (length a) (decoded r) = a ∧ b = drop (length a) (decoded r) ++ out).
  { intros out Ho. apply (f_equal (λ l, (take (length a) l, drop (length a) l))) in Ho.
    rewrite take_app_length, drop_app_length, take_app_le, drop_app_le in Ho by lia. by injection Ho. }
  destruct Hy as [[He Hd]|(He & chunks & h & z & out & Hb & Hh & Hz & Hr & Hg & Hp)].
  - destruct (Hcut [] ltac:(by rewrite app_nil_r)) as [Ht Hb]. rewrite app_nil_r in Hb. split; [done|]. left. by cbn.
  - destruct (Hcut out Hp) as [Ht Hb']. split; [done|]. right. cbn. split; [done|]. by exists chunks, h, z, out.
Qed.

Lemma take_yields a b : ∀ fuel r, (length a ≤ length (decoded r) + fuel)%nat → yields r (a ++ b) →
  ∃ r', take_from fuel (length a) r = (Ok a, r') ∧ yields r' b.
Proof.
  induction fuel as [|fuel IH]; intros r Hf Hy; cbn [take_from]; destruct (Nat.ltb_spec (length (decoded r)) (length a)) as [Hlt|Hge].
  1: lia.
  2: { destruct (fill_yields r _ Hy) as (c & r' & -> & Hy' & Hc). destruct c; [apply IH; [lia|done]|].
       destruct Hc as [Hd Hd']. rewrite <- Hd', Hd, length_app in Hlt. lia. }
  all: destruct (yields_split r a b Hy Hge) as [-> Hy']; by eexists.
Qed.
Lemma take_bytes_yields a b r : yields r (a ++ b) → ∃ r', take_bytes (length a) r = (Ok a, r') ∧ yields r' b.
Proof. intros Hy. apply take_yields; [lia|done]. Qed.

Lemma section_yields s b r max : yields r (section_bytes s ++ b) → Z.of_nat (length s) ≤ max → max < 2 ^ 32 →
  ∃ r', read_section max r = (Ok s, r') ∧ yields r' b.
Proof.
  intros Hy Hs Hm. unfold section_bytes in Hy. rewrite <- app_assoc in Hy.
  destruct (take_bytes_yields (to_be32 (Z.of_nat (length s))) _ r Hy) as (r1 & Ht & Hy1).
  destruct (take_bytes_yields s b r1 Hy1) as (r2 & Ht2 & Hy2). exists r2. split; [|done].
  unfold read_section, mbind, io_bind. change (length (to_be32 _)) with 4%nat in Ht. rewrite Ht.
  rewrite be32_back by lia. rewrite (proj2 (Z.ltb_ge _ _)) by lia. by rewrite Nat2Z.id.
Qed.

Definition piece_ok (s : list Z) : Prop := s ≠ [] ∧ Z.of_nat (length s) ≤ MAX_CHUNK.
Lemma chunks_yield sink name cs b : (∀ sofar c, copy_send sink name sofar c = Ok tt) → Forall piece_ok cs →
  ∀ fuel acc r, (length cs < fuel)%nat → yields r (concat (section_bytes <$> cs) ++ section_bytes [] ++ b) →
  ∃ r', load_chunks sink fuel name acc r = (Ok (Some (acc ++ cs)), r') ∧ yields r' b.
Proof.
  intros Hsend Hcs. induction Hcs as [|c cs [Hc Hl] _ IH]; intros [|fuel] acc r Hf Hy; cbn [length] in Hf; try lia; cbn [load_chunks].
  - cbn [fmap list_fmap concat app] in Hy.
    destruct (section_yields [] b r MAX_CHUNK Hy ltac:(unfold MAX_CHUNK; cbn; lia) ltac:(unfold MAX_CHUNK; lia)) as (r' & Hr & Hy').
    exists r'. unfold mbind, io_bind. rewrite Hr, app_nil_r. done.
  - cbn [fmap list_fmap concat] in Hy. rewrite <- app_assoc in Hy.
    destruct (section_yields c _ r MAX_CHUNK Hy Hl ltac:(unfold MAX_CHUNK; lia)) as (r1 & Hr & Hy1).
    destruct (IH fuel (acc ++ [c]) r1 ltac:(lia) Hy1) as (r2 & Hr2 & Hy2). exists r2. split; [|done].
    unfold mbind, io_bind at 1. rewrite Hr, bool_decide_false by done. unfold io_lift, io_bind. rewrite Hsend. cbn [map_err].
    rewrite Hr2. by rewrite <- app_assoc.
Qed.

(** What a table's rows are sent as. *)
Lemma pieces_spec rows : ∀ piece,
  Forall (λ row, Z.of_nat (length row) ≤ MAX_CHUNK - PIECE) rows → Z.of_nat (length piece) < PIECE →
  ∃ cs, pieces rows piece = cs ++ [[]] ∧ Forall piece_ok cs ∧ concat cs = piece ++ concat rows ∧ (length cs ≤ S (length rows))%nat.
Proof.
  assert (Hbig : PIECE < MAX_CHUNK) by done.
  induction rows as [|row rows IH]; intros piece Hrows Hp; cbn [pieces].
  - case_bool_decide as Hn.
    + exists []. subst piece. split_and!; [done|by constructor|done|cbn; lia].
    + exists [piece]. cbn. rewrite !app_nil_r. split_and!; [done| |done|lia]. constructor; [|done]. split; [done|lia].
  - apply Forall_cons in Hrows as [Hrow Hrows]. rewrite length_app. destruct (Z.leb_spec PIECE (Z.of_nat (length piece + length row))) as [Hge|Hlt].
    + destruct (IH [] Hrows ltac:(done)) as (cs & -> & Hcs & Hcat & Hlen). exists ((piece ++ row) :: cs). cbn [length concat].
      split_and!; [done| |rewrite Hcat; cbn; by rewrite <- app_assoc|lia]. constructor; [|done]. split; [|rewrite length_app; lia].
      intros Hnil. apply (f_equal length) in Hnil. rewrite length_app in Hnil. cbn in Hnil. unfold PIECE in Hge. lia.
    + destruct (IH (piece ++ row) Hrows ltac:(rewrite length_app; lia)) as (cs & -> & Hcs & Hcat & Hlen). exists cs. cbn [length concat].
      rewrite Hcat. split_and!; [done|done|by rewrite <- app_assoc|lia].
Qed.

(** Each table's bytes. *)
Definition joined (tables : list (list (list Z))) : list (list Z) := (λ cs, concat cs) <$> tables.

(** What a sink that takes the rows says of each table. *)
Definition takes (sink : Sink) (te : TableManifest * (string * list string)) (rows : list (list Z)) : Prop :=
  copy_open sink te.2.1 = Ok tt ∧ (∀ sofar c, copy_send sink te.2.1 sofar c = Ok tt) ∧
  (∀ cs, concat cs = concat rows → copy_finish sink te.2.1 cs = Ok (tm_rows te.1)).
Definition rows_ok (fuel : nat) (rows : list (list Z)) : Prop :=
  Forall (λ row, Z.of_nat (length row) ≤ MAX_CHUNK - PIECE) rows ∧ (S (length rows) < fuel)%nat.

Lemma tables_yield sink fuel b ts tables : Forall2 (takes sink) ts tables → Forall (rows_ok fuel) tables →
  ∀ r, yields r (concat (section_bytes <$> (tables ≫= λ rows, pieces rows [])) ++ b) →
  ∃ r' loaded, load_tables sink fuel ts r = (Ok (Some loaded), r') ∧ yields r' b ∧ joined loaded = joined tables.
Proof.
  induction 1 as [|[t [name cols]] rows ts tables (Hopen & Hsend & Hfin) _ IH]; intros Hok r Hy; cbn [load_tables].
  { exists r, []. done. }
  apply Forall_cons in Hok as [[Hrows Hfuel] Hok]. cbn [fst snd] in *.
  destruct (pieces_spec rows [] Hrows ltac:(done)) as (cs & Hcs & Hgood & Hcat & Hlen).
  cbn [mbind list_bind] in Hy. rewrite Hcs, <- app_assoc, !fmap_app, !concat_app, <- !app_assoc in Hy.
  destruct (chunks_yield sink name cs (concat (section_bytes <$> (tables ≫= λ rows, pieces rows [])) ++ b) Hsend Hgood fuel [] r ltac:(lia))
    as (r1 & Hr1 & Hy1).
  { cbn [fmap list_fmap concat] in Hy. rewrite app_nil_r in Hy. exact Hy. }
  destruct (IH Hok r1 Hy1) as (r2 & loaded & Hr2 & Hy2 & Hl). exists r2, (cs :: loaded).
  split_and!; [|done|unfold joined in *; by rewrite !fmap_cons, Hl, Hcat].
  unfold mbind, io_bind, io_lift. rewrite Hopen. cbn [map_err]. rewrite Hr1. cbn [app]. rewrite (Hfin cs Hcat). cbn [map_err].
  rewrite Z.eqb_refl. cbn [negb]. by rewrite Hr2.
Qed.

Lemma at_end_yields r : yields r [] → ∃ r', at_end r = (Ok tt, r').
Proof.
  intros Hy. unfold at_end. assert (Hd : decoded r = []).
  { destruct Hy as [[_ Hd]|(_ & ? & ? & ? & out & _ & _ & _ & _ & _ & Hd)]; [done|]. symmetry in Hd. by apply app_eq_nil in Hd as [-> _]. }
  rewrite bool_decide_true by done. cbn [negb]. destruct (fill_yields r [] Hy) as (c & r' & -> & Hy' & Hc). destruct c; [|by eexists].
  exfalso. assert (decoded r' = []) as Hd'; [|rewrite Hd' in Hc; cbn in Hc; lia].
  destruct Hy' as [[_ Hd']|(_ & ? & ? & ? & out & _ & _ & _ & _ & _ & Hd')]; [done|]. symmetry in Hd'. by apply app_eq_nil in Hd' as [-> _].
Qed.

Lemma archive_bytes m tables out : write_archive m tables = Ok out →
  ∃ z, concat out = MAGIC ++ [FORMAT_VERSION] ++ z ∧
    good dec_new z (concat (section_bytes <$> (manifest_json m :: (tables ≫= λ rows, pieces rows [])))).
Proof.
  unfold write_archive. destruct (write_sections _ _) as [c|] eqn:Hw; [|done]. intros [= <-].
  pose proof (write_sections_bytes _ _ _ Hw) as Hb. cbn [sent inner encoder concat app] in Hb.
  eexists. split; [rewrite concat_cons, Hb; apply (eq_sym (app_assoc MAGIC [FORMAT_VERSION] _))|].
  intros ps Hps. rewrite (gz_back _ _ Hps). f_equal. generalize (manifest_json m :: (tables ≫= λ rows, pieces rows [])).
  intros ss. induction ss as [|s ss IH]; [done|]. cbn [mbind list_bind app concat fmap list_fmap]. rewrite <- IH.
  unfold section_bytes. by rewrite <- !app_assoc.
Qed.

(** C15: an archive, uploaded in whatever chunks, is read back as it was written:
    the manifest it was given, and for each table exactly the bytes PostgreSQL
    copied out, in order, with nothing left over, wherever the import's COPY takes
    those bytes as the rows the manifest counts. *)
Theorem archive_reads_back (sink : Sink) (fuel : nat) (m : Manifest) (tables : list (list (list Z))) (out chunks : list (list Z)) :
  write_archive m tables = Ok out → concat chunks = concat out →
  check_manifest m = Ok m → Z.of_nat (length (manifest_json m)) ≤ MAX_MANIFEST →
  Forall2 (takes sink) (zip (mf_tables m) TABLES) tables → Forall (rows_ok fuel) tables →
  ∃ r r' loaded, read_manifest (reader_new (Ok <$> chunks)) = (Ok m, r) ∧ load sink fuel m r = (Ok (Some loaded), r') ∧
    joined loaded = joined tables.
Proof.
  intros Hw Hch Hm Hsize Htakes Hrows. destruct (archive_bytes m tables out Hw) as (z & Hz & Hg).
  assert (Hy : yields (reader_new (Ok <$> chunks)) (section_bytes (manifest_json m) ++ concat (section_bytes <$> (tables ≫= λ rows, pieces rows [])))).
  { right. split; [done|]. exists chunks, (MAGIC ++ [FORMAT_VERSION]), z. eexists. cbn [reader_new body header received decoder decoded app].
    split_and!; [done|done|by rewrite Hch, Hz, <- app_assoc|done|exact Hg|done]. }
  destruct (section_yields _ _ _ MAX_MANIFEST Hy Hsize ltac:(done)) as (r & Hr & Hyr).
  rewrite <- (app_nil_r (concat _)) in Hyr.
  destruct (tables_yield sink fuel [] _ _ Htakes Hrows r Hyr) as (r1 & loaded & Hl & Hy1 & Hcat).
  destruct (at_end_yields r1 Hy1) as (r2 & He). exists r, r2, loaded. split_and!; [| |done].
  - unfold read_manifest, mbind, io_bind, io_lift. rewrite Hr, json_back. cbn [map_err]. by rewrite Hm.
  - unfold load, mbind, io_bind. by rewrite Hl, He.
Qed.
End ReadBack.

(** ** An archive in pieces *)

Module Tape.

(** gzip that stores its bytes as they are; a manifest's text is its number. *)
#[export] Instance Window_eq_dec : EqDecision Window.
Proof. solve_decision. Defined.
#[export] Instance TableManifest_eq_dec : EqDecision TableManifest.
Proof. solve_decision. Defined.
#[export] Instance Manifest_eq_dec : EqDecision Manifest.
Proof. solve_decision. Defined.
#[export] Instance Window_countable : Countable Window.
Proof. unshelve refine (inj_countable' (λ w, (from_us w, to_us w)) (λ t, MkWindow t.1 t.2) _). by intros []. Defined.
#[export] Instance TableManifest_countable : Countable TableManifest.
Proof.
  unshelve refine (inj_countable' (λ t, (tm_name t, tm_columns t, tm_rows t)) (λ t, MkTableManifest t.1.1 t.1.2 t.2) _). by intros [].
Defined.
#[export] Instance Manifest_countable : Countable Manifest.
Proof.
  unshelve refine (inj_countable' (λ m, (mf_schema_version m, mf_gateway_version m, mf_created_at m, mf_database m, mf_window m, mf_tables m))
    (λ t, MkManifest t.1.1.1.1.1 t.1.1.1.1.2 t.1.1.1.2 t.1.1.2 t.1.2 t.2) _). by intros [].
Defined.
#[export] Instance wtar_lib : WtarLib := {
  Enc := unit; enc_new := tt; enc_write := λ e w, (e, w); enc_finish := λ _, [];
  Dec := unit; dec_new := tt; dec_write := λ d p, Ok (d, p); dec_finish := λ _, Ok [];
  manifest_json := λ m, [Zpos (countable.encode m)];
  manifest_of := λ b, match b with [Zpos p] => ok_or (countable.decode p) "not a manifest" | _ => Err "not a manifest" end;
  file_time := pretty
}.
#[export] Instance wtar_laws : WtarLaws.
Proof.
  split.
  - intros ws ps Hps.
    assert (Henc : ∀ ws, encode_from enc_new ws = concat ws).
    { intros ws'. induction ws' as [|w ws' IH]; [done|]. cbn [encode_from enc_write wtar_lib concat]. f_equal. exact IH. }
    rewrite Henc in Hps. rewrite <- Hps. clear. induction ps as [|p ps IH]; [done|]. cbn [decode].
    change (dec_write dec_new p) with (Ok (E := string) (dec_new, p)). cbn [fst snd concat]. by rewrite IH.
  - intros m. cbn. by rewrite decode_encode.
Qed.

Definition tiny : Manifest :=
  MkManifest SCHEMA_VERSION "0.1" 7 "bench" None (zip_with (λ t n, MkTableManifest t.1 t.2 n) TABLES [3; 0]).
Definition three_rows : list (list Z) := [[1; 2]; [3]; [4; 5]].
(** A sink that counts the bytes of a frame's rows as it was told to. *)
Definition counting : Sink :=
  MkSink (λ _, Ok tt) (λ _ _ _, Ok tt)
    (λ name cs, if str_eqb name "events" then Ok 0
                else if bool_decide (concat cs = [1; 2; 3; 4; 5]) then Ok 3 else Err (MkCopyError (Some "22P04") "bad copy data")).
Definition tape : list (list Z) := match write_archive tiny [three_rows; []] with Ok out => out | Err _ => [] end.

(** A byte at a time. *)
Lemma archive_reads_back_witness :
  ∃ r r' loaded, read_manifest (reader_new (Ok <$> ((λ b, [b]) <$> concat tape))) = (Ok tiny, r) ∧
    load counting 9 tiny r = (Ok (Some loaded), r') ∧ joined loaded = [[1; 2; 3; 4; 5]; []].
Proof.
  apply (archive_reads_back counting 9 tiny [three_rows; []] tape ((λ b, [b]) <$> concat tape)).
  - reflexivity.
  - generalize (concat tape). intros l. induction l as [|b l IH]; [done|]. cbn. by rewrite IH.
  - reflexivity.
  - vm_compute. done.
  - constructor; [|constructor; [|constructor]]; (split; [done|split; [done|]]); intros cs Hcs; cbn in *; [|done].
    by rewrite Hcs.
  - repeat constructor; vm_compute; done || lia.
Defined.
End Tape.
