(* ===== verification/Swap.v ===== *)
(** * Replacing a database by an archive ([db.rs]: [begin_import], [finish_import],
      [swap_in], [abandon_import], [rename], and the writes held meanwhile)

    An import loads a staging database, then puts it in its target's place. Ingest
    for the target is held in the target's buffer meanwhile, behind a gate; the
    buffer is moved across under the gate, and the two databases renamed. Here is
    one target, the imports of it and the batches written to it, each a task that
    stands where the code awaits. A transaction is one step: what happens within a
    buffered write and a drain is [Store]'s. *)

From S2P Require Import Prelude Model Settings Rows Store Gateway Wtar.
Import Sample.
Local Open Scope Z_scope.

(** ** Claiming a target *)

Section Claim.
Context `{SettingsLib}.

(** [begin_import]'s refusals, in their order. *)
Definition begin_check (target : string) (replace exists_ importing : bool) (state : option DbSchemaState) : result ImportError unit :=
  if negb (valid_database_name target) then Err (IBadRequest ("invalid database name '" +:+ target +:+ "'"))
  else if negb replace && exists_ then
    Err (IConflict ("database '" +:+ target +:+ "' already exists; import under a new name, or replace it"))
  else if replace && negb exists_ then Err (INotFound ("database '" +:+ target +:+ "' does not exist"))
  else if replace && negb (is_current state) then
    Err (IConflict ("database '" +:+ target +:+ "' is not at the current schema; migrate it first"))
  else if importing then Err (IConflict (being_imported target))
  else Ok tt.
End Claim.

(** ** Tasks *)

(** [write_rows]: routed to the gate, holding it, routed to a pool of the database
    that had the name then, done. *)
Inductive Writer :=
  | WGate (gate : nat) (rows : list FrameRow)
  | WHolding (gate : nat) (rows : list FrameRow)
  | WLive (generation : nat) (rows : list FrameRow)
  | WBuffer (generation : nat) (rows : list FrameRow)
  | WDone (stored : bool).

(** [import]: create and load the staging database; [swap_in] up to the gate, the
    move and the rename, then the target served and the old one dropped; or
    [abandon_import]. *)
Inductive ImportAt :=
  | ICreate | ILoad | IGate | IMove | IRename | IUnlist | IServe | IDropOld
  | AGate | AUnlist | ADrain | ADrop
  | IEnd (swapped : bool).
(** Its gate, for a replace; the staging database, and the replaced one. *)
Record Importer := MkImporter { im_held : option nat; im_at : ImportAt; im_staging : option Tables; im_old : option Tables }.
Definition to_at (a : ImportAt) (t : Importer) : Importer := MkImporter (im_held t) a (im_staging t) (im_old t).

Record Swap := MkSwap {
  (** The database of the name, and how often it has been another. *)
  sw_target : option Tables; sw_generation : nat;
  sw_state : option DbSchemaState;
  (** [imports]: its gate, where it holds. *)
  sw_listed : option (option nat);
  sw_gates : list bool;
  sw_writers : list Writer;
  sw_importers : list Importer;
  (** Read by no step: the rows acknowledged while held, since the last import
      began, and whether a drain ran while one held. *)
  sw_acked : list FrameRow;
  sw_stray : bool
}.

Inductive SwapEvent :=
  | EWrite (rows : list FrameRow)
  | EWriter (i : nat) (r : Reply)
  | EBegin (replace : bool)
  | EImporter (i : nat) (r : Reply) (archive : list FrameRow)
  (** The drain of a migration, of the sweep or of a recheck, and the state it
      leaves. *)
  | EDrain (r : Reply) (after : DbSchemaState).

(** [drain_pending], whole. *)
Definition drained_tables (d : Tables) : Tables :=
  match t_pending d with
  | Some rows => MkTables (t_version d) (t_live d ++ rows) None (Some (default [] (t_drained d) ++ option_list (span_of rows)))
  | None => d
  end.
(** [move_pending]: the buffer of the first into the second's. *)
Definition move_pending (from to : Tables) : Tables :=
  match t_pending from with
  | None => to
  | Some rows => add_pending rows to
  end.
Definition empty_staging : Tables := MkTables (Some SCHEMA_VERSION) [] None None.

Definition holds_gate (g : nat) (x : Writer) : bool := match x with WHolding g' _ => (g =? g')%nat | _ => false end.

Section Steps.
Context `{SettingsLib}.
Variable target : string.

Definition set_writers (ws : list Writer) (s : Swap) : Swap :=
  MkSwap (sw_target s) (sw_generation s) (sw_state s) (sw_listed s) (sw_gates s) ws (sw_importers s) (sw_acked s) (sw_stray s).
Definition put_importer (i : nat) (t : Importer) (s : Swap) : Swap :=
  MkSwap (sw_target s) (sw_generation s) (sw_state s) (sw_listed s) (sw_gates s) (sw_writers s) (<[i := t]> (sw_importers s))
    (sw_acked s) (sw_stray s).
Definition set_target (t : option Tables) (s : Swap) : Swap :=
  MkSwap t (sw_generation s) (sw_state s) (sw_listed s) (sw_gates s) (sw_writers s) (sw_importers s) (sw_acked s) (sw_stray s).
Definition put_state (st : DbSchemaState) (s : Swap) : Swap :=
  MkSwap (sw_target s) (sw_generation s) (Some st) (sw_listed s) (sw_gates s) (sw_writers s) (sw_importers s) (sw_acked s) (sw_stray s).
Definition set_listed (l : option (option nat)) (s : Swap) : Swap :=
  MkSwap (sw_target s) (sw_generation s) (sw_state s) l (sw_gates s) (sw_writers s) (sw_importers s) (sw_acked s) (sw_stray s).
Definition shut (g : nat) (s : Swap) : Swap :=
  MkSwap (sw_target s) (sw_generation s) (sw_state s) (sw_listed s) (<[g := true]> (sw_gates s)) (sw_writers s) (sw_importers s)
    (sw_acked s) (sw_stray s).
Definition acknowledge (rows : list FrameRow) (s : Swap) : Swap :=
  MkSwap (sw_target s) (sw_generation s) (sw_state s) (sw_listed s) (sw_gates s) (sw_writers s) (sw_importers s)
    (sw_acked s ++ rows) (sw_stray s).

(** An import holds the target's ingest. *)
Definition holding_import (s : Swap) : bool := match sw_listed s with Some (Some _) => true | _ => false end.
(** A drain of the database that has the name. *)
Definition drain_target (s : Swap) : Swap :=
  MkSwap (drained_tables <$> sw_target s) (sw_generation s) (sw_state s) (sw_listed s) (sw_gates s) (sw_writers s) (sw_importers s)
    (sw_acked s) (sw_stray s || holding_import s).

(** [route]. *)
Definition routed (rows : list FrameRow) (s : Swap) : Writer :=
  match sw_listed s with
  | Some (Some g) => WGate g rows
  | Some None => WDone false
  | None =>
      match sw_target s with
      | None => WDone false
      | Some _ => if is_current (sw_state s) then WLive (sw_generation s) rows else WBuffer (sw_generation s) rows
      end
  end.

(** A transaction over a connection to the database that had the name at
    [generation]: the rename terminates it. *)
Definition stores (generation : nat) (add : Tables → Tables) (r : Reply) (s : Swap) : Swap * bool :=
  match sw_target s, r with
  | Some d, (Fine | Lost _) =>
      if (generation =? sw_generation s)%nat then
        (set_target (Some (add d)) s, match r with Fine => true | _ => false end)
      else (s, false)
  | _, _ => (s, false)
  end.

Definition writer_step (i : nat) (x : Writer) (r : Reply) (s : Swap) : option Swap :=
  let put x s := set_writers (<[i := x]> (sw_writers s)) s in
  match x with
  | WGate g rows => Some (put (if default true (sw_gates s !! g) then WDone false else WHolding g rows) s)
  | WHolding g rows =>
      let '(s, ok) := stores (sw_generation s) (add_pending rows) r s in
      Some (put (WDone ok) (if ok then acknowledge rows s else s))
  | WLive n rows => let '(s, ok) := stores n (add_live rows) r s in Some (put (WDone ok) s)
  | WBuffer n rows => let '(s, ok) := stores n (add_pending rows) r s in Some (put (WDone ok) s)
  | WDone _ => None
  end.

(** [gate.write()], which waits for the writers that hold it. *)
Definition shut_gate (held : option nat) (s : Swap) : option Swap :=
  match held with
  | None => Some s
  | Some g => if existsb (holds_gate g) (sw_writers s) then None else Some (shut g s)
  end.
(** The rename, whole: the staging database has the name, and for a replace the
    target has the old one's. It is refused where the name is taken. *)
Definition renamed (i : nat) (t : Importer) (after : ImportAt) (s : Swap) : Swap :=
  let replaced := match im_held t with Some _ => sw_target s | None => None end in
  put_importer i (MkImporter (im_held t) after None replaced)
    (MkSwap (im_staging t) (S (sw_generation s)) (sw_state s) (sw_listed s) (sw_gates s) (sw_writers s) (sw_importers s)
       (sw_acked s) (sw_stray s)).
Definition name_taken (t : Importer) (s : Swap) : bool :=
  match im_held t, sw_target s with None, Some _ => true | _, _ => false end.
(** A handler that goes on where the step took, and abandons where it did not. *)
Definition importer_step (i : nat) (t : Importer) (r : Reply) (archive : list FrameRow) (s : Swap) : option Swap :=
  let put t s := put_importer i t s in
  let abandon s := Some (put (to_at AGate t) s) in
  let stage d a := Some (put (MkImporter (im_held t) a (Some d) (im_old t)) s) in
  match im_at t with
  | ICreate => match r with Fine => stage empty_staging ILoad | Fails _ => abandon s | Lost _ =>
                 Some (put (MkImporter (im_held t) AGate (Some empty_staging) None) s) end
  | ILoad => match r, im_staging t with Fine, Some d => stage (add_live archive d) IGate | _, _ => abandon s end
  | IGate =>
      s ← shut_gate (im_held t) s;
      Some (put (to_at (match im_held t with Some _ => IMove | None => IRename end) t) s)
  | IMove =>
      match r, sw_target s, im_staging t with
      | Fine, Some from, Some d => stage (move_pending from d) IRename
      | _, _, _ => abandon s
      end
  | IRename =>
      if name_taken t s then abandon s
      else match r with
           | Fine => Some (renamed i t IUnlist s)
           | Fails _ => abandon s
           | Lost _ => Some (renamed i t AGate s)
           end
  (** [set_state], for a replace, and the import is over. *)
  | IUnlist =>
      let s := match im_held t with Some _ => put_state (Migrating 0) s | None => s end in
      Some (put (to_at IServe t) (set_listed None s))
  (** [migrate_one]. *)
  | IServe =>
      Some (put (to_at IDropOld t)
        (match r with
         | Fine => put_state (Current SCHEMA_VERSION) (drain_target s)
         | Fails e => put_state (Store.Failed 0 (ce_message e) 0) s
         | Lost e => put_state (Store.Failed 0 (ce_message e) 0) (drain_target s)
         end))
  | IDropOld => Some (put (MkImporter (im_held t) (IEnd true) (im_staging t) None) s)
  | AGate => s ← shut_gate (im_held t) s; Some (put (to_at AUnlist t) s)
  | AUnlist => Some (put (to_at ADrain t) (set_listed None s))
  | ADrain =>
      Some (put (to_at ADrop t)
        (match im_held t, r with
         | None, _ => s
         | Some _, Fine => drain_target s
         | Some _, Fails _ => put_state (Pending SCHEMA_VERSION) s
         | Some _, Lost _ => put_state (Pending SCHEMA_VERSION) (drain_target s)
         end))
  | ADrop => Some (put (MkImporter (im_held t) (IEnd false) None (im_old t)) s)
  | IEnd _ => None
  end.

Definition begun (replace : bool) (s : Swap) : Swap :=
  let held := if replace then Some (length (sw_gates s)) else None in
  MkSwap (sw_target s) (sw_generation s) (sw_state s) (Some held) (if replace then sw_gates s ++ [false] else sw_gates s)
    (sw_writers s) (sw_importers s ++ [MkImporter held ICreate None None]) [] (sw_stray s).

Definition swap_step (s : Swap) (e : SwapEvent) : option Swap :=
  match e with
  | EWrite rows => Some (set_writers (sw_writers s ++ [routed rows s]) s)
  | EWriter i r => x ← sw_writers s !! i; writer_step i x r s
  | EBegin replace =>
      match begin_check target replace (bool_decide (is_Some (sw_target s))) (bool_decide (is_Some (sw_listed s))) (sw_state s) with
      | Ok _ => Some (begun replace s)
      | Err _ => Some s
      end
  | EImporter i r archive => t ← sw_importers s !! i; importer_step i t r archive s
  | EDrain r after => Some (put_state after (match r with Fails _ => s | _ => drain_target s end))
  end.
Fixpoint swap_steps (s : Swap) (es : list SwapEvent) : option Swap :=
  match es with [] => Some s | e :: es => s' ← swap_step s e; swap_steps s' es end.
Definition swap_start (d : option Tables) (st : option DbSchemaState) : Swap := MkSwap d 0 st None [] [] [] [] false.
End Steps.

(** ** Held rows are kept *)

Definition pend_of (d : option Tables) : list FrameRow := match d with Some d => default [] (t_pending d) | None => [] end.
Definition stored_of (d : option Tables) : list FrameRow := match d with Some d => stored d | None => [] end.

(** Between the claim and its release. *)
Definition active (a : ImportAt) : bool :=
  match a with ICreate | ILoad | IGate | IMove | IRename | IUnlist | AGate | AUnlist => true | _ => false end.
(** The gate has been shut. *)
Definition past_gate (a : ImportAt) : bool := match a with IMove | IRename | IUnlist | AUnlist => true | _ => false end.

Definition imp_ok (s : Swap) (t : Importer) : Prop :=
  active (im_at t) = true →
  sw_listed s = Some (im_held t) ∧
  (past_gate (im_at t) = true → ∀ g, im_held t = Some g → sw_gates s !! g = Some true) ∧
  (im_at t = IRename → is_Some (im_held t) → sw_stray s = false → sw_acked s ⊆+ pend_of (im_staging t)).

Record kept (s : Swap) : Prop := MkKept {
  kp_false : ∀ g, sw_gates s !! g = Some false → sw_listed s = Some (Some g);
  kp_listed : ∀ g, sw_listed s = Some (Some g) → is_Some (sw_gates s !! g);
  kp_writers : ∀ i g rows, sw_writers s !! i = Some (WHolding g rows) → sw_gates s !! g = Some false;
  kp_importers : ∀ i t, sw_importers s !! i = Some t → imp_ok s t;
  kp_one : ∀ i j t u, sw_importers s !! i = Some t → sw_importers s !! j = Some u → active (im_at t) = true → active (im_at u) = true → i = j;
  kp_fresh : sw_listed s = Some None → sw_acked s = [];
  kp_rows : sw_stray s = false → sw_acked s ⊆+ if holding_import s then pend_of (sw_target s) else stored_of (sw_target s)
}.

Lemma pend_stored d : pend_of d ⊆+ stored_of d.
Proof. destruct d as [d|]; [|done]. cbn. unfold stored. apply submseteq_inserts_l. done. Qed.
Lemma drained_stored d : stored (drained_tables d) ≡ₚ stored d.
Proof. unfold stored, drained_tables. destruct (t_pending d) as [rows|] eqn:Hp; cbn; rewrite ?Hp; cbn; by rewrite ?app_nil_r. Qed.

(** The writers change, none of them to hold a gate that is shut. *)
Lemma kept_writers s ws :
  kept s → (∀ i g rows, ws !! i = Some (WHolding g rows) → sw_gates s !! g = Some false) → kept (set_writers ws s).
Proof. intros [] Hws. by constructor. Qed.
(** The database takes rows. *)
Lemma kept_target s d : kept s → pend_of (sw_target s) ⊆+ pend_of d → stored_of (sw_target s) ⊆+ stored_of d → kept (set_target d s).
Proof.
  intros [Hf Hl Hw Hi Ho Hfr Hk] Hp Hs. constructor; try done. cbn. intros Hst. specialize (Hk Hst).
  change (holding_import (set_target d s)) with (holding_import s). destruct (holding_import s); by etrans.
Qed.
Lemma kept_state s st : kept s → kept (put_state st s).
Proof. intros []. by constructor. Qed.

(** An import's task moves, where what it says of itself still holds. *)
Lemma kept_importer s i t t' :
  kept s → sw_importers s !! i = Some t → imp_ok s t' → (active (im_at t') = true → active (im_at t) = true) → kept (put_importer i t' s).
Proof.
  intros [Hf Hl Hw Hi Ho Hfr Hk] Ht Hok Hact. constructor; try done; cbn.
  - intros j u Hj. destruct (decide (i = j)) as [<-|Hne].
    + rewrite list_lookup_insert_eq in Hj by by eapply lookup_lt_Some. by injection Hj as <-.
    + rewrite list_lookup_insert_ne in Hj by done. by apply (Hi j u).
  - assert (Hat : ∀ j u, <[i := t']> (sw_importers s) !! j = Some u → active (im_at u) = true →
      ∃ u', sw_importers s !! j = Some u' ∧ active (im_at u') = true).
    { intros j u Hj Hau. destruct (decide (i = j)) as [<-|Hne].
      - rewrite list_lookup_insert_eq in Hj by by eapply lookup_lt_Some. injection Hj as <-. eauto.
      - rewrite list_lookup_insert_ne in Hj by done. eauto. }
    intros j k u v Hj Hk' Hau Hav. destruct (Hat j u Hj Hau) as (u' & Hu & Hau'), (Hat k v Hk' Hav) as (v' & Hv & Hav'). by eapply Ho.
Qed.
Lemma imp_ok_idle s t : active (im_at t) = false → imp_ok s t.
Proof. unfold imp_ok. congruence. Qed.

(** The gate is shut once nobody holds it. *)
Lemma kept_shut s g : kept s → existsb (holds_gate g) (sw_writers s) = false → kept (shut g s).
Proof.
  intros [Hf Hl Hw Hi Ho Hfr Hk] Hno. constructor; try done; cbn.
  - intros g' Hg'. apply Hf. destruct (decide (g = g')) as [<-|Hne]; [|by rewrite list_lookup_insert_ne in Hg'].
    apply list_lookup_insert_Some in Hg' as [(_ & ? & _)|[Hn _]]; done.
  - intros g' Hg'. destruct (Hl g' Hg') as [b Hb]. destruct (decide (g = g')) as [<-|Hne].
    + rewrite list_lookup_insert_eq by (by eapply lookup_lt_Some). eauto.
    + rewrite list_lookup_insert_ne by done. eauto.
  - intros i g' rows Hi'. specialize (Hw i g' rows Hi'). rewrite list_lookup_insert_ne; [done|]. intros ->.
    rewrite (proj2 (existsb_exists _ _)) in Hno; [done|]. exists (WHolding g' rows). split; [apply list_elem_of_In, list_elem_of_lookup; eauto|].
    cbn. apply Nat.eqb_refl.
  - intros i t Ht Ha. destruct (Hi i t Ht Ha) as (Hli & Hg & Hr). split_and!; [done| |done].
    intros Hp g' Hg'. cbn. specialize (Hg Hp g' Hg'). destruct (decide (g = g')) as [<-|Hne].
    + rewrite list_lookup_insert_eq by (by eapply lookup_lt_Some). done.
    + by rewrite list_lookup_insert_ne.
Qed.
Lemma kept_gate s t s' : kept s → active (im_at t) = true → imp_ok s t → shut_gate (im_held t) s = Some s' →
  kept s' ∧ sw_importers s' = sw_importers s ∧ sw_listed s' = sw_listed s ∧ (∀ g, im_held t = Some g → sw_gates s' !! g = Some true).
Proof.
  intros Hk Ha Ht. unfold shut_gate. destruct (im_held t) as [g|] eqn:Hh; [|by intros [= <-]].
  destruct (existsb _ _) eqn:Hno; [done|]. intros [= <-]. split_and!; [by apply kept_shut|done|done|].
  intros g' [= <-]. cbn. destruct (Ht Ha) as [Hl _]. rewrite Hh in Hl. destruct (kp_listed s Hk g Hl) as [b Hb].
  apply list_lookup_insert_eq. by eapply lookup_lt_Some.
Qed.

(** The claim is released, its gate shut. *)
Lemma kept_release s i t :
  kept s → sw_importers s !! i = Some t → active (im_at t) = true → past_gate (im_at t) = true →
  ∀ a, active a = false → kept (put_importer i (to_at a t) (set_listed None s)).
Proof.
  intros Hk Ht Ha Hp a Hia. pose proof Hk as [Hf Hl Hw Hi Ho Hfr Hr]. destruct (Hi i t Ht Ha) as (Hli & Hg & _).
  assert (Hnone : ∀ g, sw_gates s !! g ≠ Some false).
  { intros g Hfg. specialize (Hf g Hfg). rewrite Hli in Hf. injection Hf as Hh. specialize (Hg Hp g Hh). congruence. }
  constructor; try done; cbn.
  - intros g Hfg. by destruct (Hnone g).
  - intros j u Hj. destruct (decide (i = j)) as [<-|Hne].
    + rewrite list_lookup_insert_eq in Hj by by eapply lookup_lt_Some. injection Hj as <-. by apply imp_ok_idle.
    + rewrite list_lookup_insert_ne in Hj by done. intros Hau. exfalso. apply Hne. by eapply Ho.
  - intros j k u v Hj Hk' Hau Hav. destruct (decide (i = j)) as [<-|Hj'].
    + rewrite list_lookup_insert_eq in Hj by by eapply lookup_lt_Some. injection Hj as <-. cbn in Hau. congruence.
    + rewrite list_lookup_insert_ne in Hj by done. exfalso. apply Hj'. by eapply Ho.
  - intros Hst. specialize (Hr Hst). destruct (holding_import s); [|done]. etrans; [exact Hr|apply pend_stored].
Qed.

Lemma kept_drain s : kept s → kept (drain_target s).
Proof.
  intros [Hf Hl Hw Hi Ho Hfr Hk]. constructor; try done; cbn.
  - intros i t Ht Ha. destruct (Hi i t Ht Ha) as (Hli & Hg & Hr). split_and!; [done|done|]. cbn.
    intros Hat Hh Hs. apply orb_false_iff in Hs as [Hs _]. by apply Hr.
  - intros [Hs Hn]%orb_false_iff. specialize (Hk Hs). change (holding_import (drain_target s)) with (holding_import s).
    rewrite Hn in Hk |- *. destruct (sw_target s) as [d|]; [|done]. cbn in *. by rewrite drained_stored.
Qed.

(** A write over a connection of its database. *)
Lemma kept_stores n add r s s' ok :
  kept s → stores n add r s = (s', ok) →
  (∀ d, pend_of (Some d) ⊆+ pend_of (Some (add d)) ∧ stored_of (Some d) ⊆+ stored_of (Some (add d))) →
  kept s' ∧ sw_writers s' = sw_writers s ∧ sw_gates s' = sw_gates s ∧ sw_listed s' = sw_listed s ∧ sw_acked s' = sw_acked s ∧
  sw_importers s' = sw_importers s ∧ sw_stray s' = sw_stray s ∧
  (ok = true → ∃ d, sw_target s = Some d ∧ sw_target s' = Some (add d)).
Proof.
  intros Hk Hs Hadd. unfold stores in Hs. destruct (sw_target s) as [d|] eqn:Hd; [|by injection Hs as <- <-].
  assert (Hgrow : kept (set_target (Some (add d)) s)) by (apply kept_target; [done|rewrite Hd; apply Hadd..]).
  destruct r; [|by injection Hs as <- <-|]; (destruct (_ =? _)%nat; injection Hs as <- <-; split_and!; try done; intros _; by exists d).
Qed.
Lemma add_pending_grows rows d : pend_of (Some d) ⊆+ pend_of (Some (add_pending rows d)) ∧ stored_of (Some d) ⊆+ stored_of (Some (add_pending rows d)).
Proof. cbn. unfold stored, add_pending. cbn. rewrite app_assoc. split; by apply submseteq_inserts_r. Qed.
Lemma add_live_grows rows d : pend_of (Some d) ⊆+ pend_of (Some (add_live rows d)) ∧ stored_of (Some d) ⊆+ stored_of (Some (add_live rows d)).
Proof. cbn. unfold stored, add_live. cbn. split; [done|]. apply submseteq_app; [by apply submseteq_inserts_r|done]. Qed.

(** A held write is acknowledged: nobody is past the gate. *)
Lemma kept_ack s g rows d :
  kept s → sw_gates s !! g = Some false →
  sw_target s = Some (add_pending rows d) → (sw_stray s = false → sw_acked s ⊆+ pend_of (Some d)) → kept (acknowledge rows s).
Proof.
  intros [Hf Hl Hw Hi Ho Hfr Hk] Hg Ht Ha. specialize (Hf g Hg) as Hli.
  constructor; try done; cbn.
  - intros i t Hit Hact. destruct (Hi i t Hit Hact) as (Hlt & Hp & Hr). split_and!; [done|done|]. cbn.
    intros Hat Hh Hs. exfalso. rewrite Hli in Hlt. injection Hlt as Hlt. symmetry in Hlt.
    assert (past_gate (im_at t) = true) as Hpg by by rewrite Hat. specialize (Hp Hpg g Hlt). congruence.
  - by rewrite Hli.
  - intros Hs. unfold holding_import in *. cbn in *. rewrite Hli, Ht. cbn. apply submseteq_app; [by apply Ha|done].
Qed.

Lemma writer_step_kept s i x r s' : kept s → sw_writers s !! i = Some x → writer_step i x r s = Some s' → kept s'.
Proof.
  intros Hk Hx Hs. assert (Hput : ∀ s1 y, kept s1 → sw_writers s1 = sw_writers s → sw_gates s1 = sw_gates s →
    (∀ g rows, y = WHolding g rows → sw_gates s !! g = Some false) → kept (set_writers (<[i := y]> (sw_writers s1)) s1)).
  { intros s1 y Hk1 Hws Hgs Hy. apply kept_writers; [done|]. rewrite Hws, Hgs. intros j g rows Hj. destruct (decide (i = j)) as [<-|Hne].
    - rewrite list_lookup_insert_eq in Hj by by eapply lookup_lt_Some. injection Hj as Hj. by eapply Hy.
    - rewrite list_lookup_insert_ne in Hj by done. by eapply (kp_writers s Hk). }
  destruct x as [g rows|g rows|n rows|n rows|b]; cbn in Hs; try done.
  - injection Hs as <-. apply Hput; try done. intros g' rows'. destruct (sw_gates s !! g) as [[]|] eqn:Hg; cbn; try done. by intros [= <- _].
  - destruct (stores _ _ r s) as [s1 ok] eqn:Hst.
    destruct (kept_stores _ _ _ _ _ _ Hk Hst (add_pending_grows rows)) as (Hk1 & Hws & Hgs & Hls & Hac & _ & Hsy & Hok).
    pose proof (kp_writers s Hk i g rows Hx) as Hg. injection Hs as <-. destruct ok; [|by apply Hput].
    destruct Hok as (d & Hd & Hd'); [done|]. apply Hput; try done. apply (kept_ack s1 g rows d); try done.
    + by rewrite Hgs.
    + rewrite Hac, Hsy. intros Hfs. pose proof (kp_rows s Hk Hfs) as Hr. unfold holding_import in Hr.
      rewrite (kp_false s Hk g Hg), Hd in Hr. exact Hr.
  - destruct (stores _ _ r s) as [s1 ok] eqn:Hst. injection Hs as <-.
    destruct (kept_stores _ _ _ _ _ _ Hk Hst (add_live_grows rows)) as (Hk1 & Hws & Hgs & _). by apply Hput.
  - destruct (stores _ _ r s) as [s1 ok] eqn:Hst. injection Hs as <-.
    destruct (kept_stores _ _ _ _ _ _ Hk Hst (add_pending_grows rows)) as (Hk1 & Hws & Hgs & _). by apply Hput.
Qed.

Lemma kept_renamed s i t a : kept s → sw_importers s !! i = Some t → im_at t = IRename → a = IUnlist ∨ a = AGate → kept (renamed i t a s).
Proof.
  intros Hk Ht Hat Ha. pose proof Hk as [Hf Hl Hw Hi Ho Hfr Hr].
  destruct (Hi i t Ht) as (Hli & Hg & Hst); [by rewrite Hat|]. rewrite Hat in Hg.
  set (s1 := MkSwap (im_staging t) (S (sw_generation s)) (sw_state s) (sw_listed s) (sw_gates s) (sw_writers s) (sw_importers s) (sw_acked s) (sw_stray s)).
  assert (Hk1 : kept s1).
  { constructor; try done. cbn. intros Hs. unfold holding_import. cbn. rewrite Hli. destruct (im_held t) as [g|] eqn:Hh; cbn.
    - by apply Hst.
    - rewrite (Hfr Hli). apply submseteq_nil_l. }
  unfold renamed. fold s1. apply (kept_importer s1 i t); [done|done| |by rewrite Hat].
  intros _. cbn. split_and!; [done|by destruct Ha as [->| ->]; auto|by destruct Ha as [->| ->]].
Qed.

Lemma importer_step_kept s i t r archive s' : kept s → sw_importers s !! i = Some t → importer_step i t r archive s = Some s' → kept s'.
Proof.
  intros Hk Ht Hs. pose proof (kp_importers s Hk i t Ht) as Hok.
  assert (Hmove : ∀ a st old, active (im_at t) = true → active a = true → (past_gate a = true → past_gate (im_at t) = true) → a ≠ IRename →
    kept (put_importer i (MkImporter (im_held t) a st old) s)).
  { intros a st old Hat Ha Hp Hne. destruct (Hok Hat) as (Hli & Hg & _). apply (kept_importer s i t); try done.
    intros _. cbn. split_and!; [done|auto|done]. }
  assert (Habandon : active (im_at t) = true → kept (put_importer i (to_at AGate t) s)) by (intros Hat; by apply Hmove).
  assert (Hidle : ∀ s1 a st old, kept s1 → sw_importers s1 = sw_importers s → active a = false →
    kept (put_importer i (MkImporter (im_held t) a st old) s1)).
  { intros s1 a st old Hk1 Him Ha. apply (kept_importer s1 i t); [done|by rewrite Him|by apply imp_ok_idle|cbn; congruence]. }
  unfold importer_step in Hs. destruct (im_at t) eqn:Hat; cbn [active past_gate] in *.
  - destruct r; injection Hs as <-; by first [apply Hmove|apply Habandon].
  - destruct r, (im_staging t); injection Hs as <-; by first [apply Hmove|apply Habandon].
  - destruct (shut_gate (im_held t) s) as [s1|] eqn:Hg; [|done]. injection Hs as <-.
    destruct (kept_gate s t s1 Hk) as (Hk1 & Him & Hl1 & Hg1); [by rewrite Hat|done|done|]. destruct (Hok (f_equal active Hat)) as (Hli & _).
    apply (kept_importer s1 i t); [done|by rewrite Him| |by rewrite Hat]. intros _. cbn. rewrite Hl1.
    split_and!; [done| |]; destruct (im_held t) as [g|] eqn:Hh; try done.
  - destruct r, (sw_target s) as [from|] eqn:Htg, (im_staging t) as [d|]; try (injection Hs as <-; by apply Habandon).
    injection Hs as <-. destruct (Hok (f_equal active Hat)) as (Hli & Hg & _). apply (kept_importer s i t); [done|done| |by rewrite Hat].
    intros _. cbn. split_and!; [done|rewrite Hat in Hg; by auto|]. intros _ [g Hh] Hst. pose proof (kp_rows s Hk Hst) as Hr.
    unfold holding_import in Hr. rewrite Hli, Hh, Htg in Hr. etrans; [exact Hr|]. unfold move_pending. cbn.
    destruct (t_pending from) as [rows|]; cbn; [by apply submseteq_inserts_l|apply submseteq_nil_l].
  - destruct (name_taken t s); [injection Hs as <-; by apply Habandon|].
    destruct r; injection Hs as <-; [by apply kept_renamed; auto|by apply Habandon|by apply kept_renamed; auto].
  - injection Hs as <-. destruct (im_held t) eqn:Hh.
    + apply (kept_release (put_state (Migrating 0) s) i t); [by apply kept_state|done|by rewrite Hat..|done].
    + apply (kept_release s i t); [done|done|by rewrite Hat..|done].
  - injection Hs as <-. apply Hidle; [|by destruct r|done]. destruct r; apply kept_state; try done; by apply kept_drain.
  - injection Hs as <-. by apply Hidle.
  - destruct (shut_gate (im_held t) s) as [s1|] eqn:Hg; [|done]. injection Hs as <-.
    destruct (kept_gate s t s1 Hk) as (Hk1 & Him & Hl1 & Hg1); [by rewrite Hat|done|done|]. destruct (Hok (f_equal active Hat)) as (Hli & _).
    apply (kept_importer s1 i t); [done|by rewrite Him| |by rewrite Hat]. intros _. cbn. rewrite Hl1. by split_and!.
  - injection Hs as <-. apply (kept_release s i t); [done|done|by rewrite Hat..|done].
  - injection Hs as <-. apply Hidle; [|by destruct (im_held t), r|done]. destruct (im_held t) as [g|]; [|done].
    destruct r; [|apply kept_state|apply kept_state]; try done; by apply kept_drain.
  - injection Hs as <-. by apply Hidle.
  - done.
Qed.

Section Kept.
Context `{SettingsLib}.
Variable target : string.

Lemma swap_step_kept s e s' : kept s → swap_step target s e = Some s' → kept s'.
Proof.
  intros Hk. destruct e as [rows|i r|replace|i r archive|r after]; cbn [swap_step].
  - intros [= <-]. apply kept_writers; [done|]. intros i g rows' [Hi|[_ Hi]]%lookup_app_Some; [by eapply (kp_writers s Hk)|].
    apply list_lookup_singleton_Some in Hi as [_ Hi]. exfalso. unfold routed in Hi. by repeat (case_match; try done).
  - destruct (sw_writers s !! i) as [x|] eqn:Hx; [|done]. by apply writer_step_kept.
  - destruct (begin_check _ _ _ _ _) as [[]|] eqn:Hb; intros [= <-]; [|done].
    assert (Hnone : sw_listed s = None).
    { unfold begin_check in Hb. repeat (case_match; try done). case_bool_decide as Hl; [done|]. by apply eq_None_not_Some. }
    pose proof Hk as [Hf Hl Hw Hi Ho Hfr Hr].
    assert (Hshut : ∀ g, sw_gates s !! g ≠ Some false) by (intros g Hg; specialize (Hf g Hg); congruence).
    assert (Hquiet : ∀ i t, sw_importers s !! i = Some t → active (im_at t) = false).
    { intros i t Ht. destruct (active (im_at t)) eqn:Ha; [|done]. destruct (Hi i t Ht Ha) as [Hli _]. congruence. }
    constructor; cbn.
    + intros g. destruct replace; [|intros Hg; by destruct (Hshut g)].
      intros [Hg|[Hlen Hg]]%lookup_app_Some; [by destruct (Hshut g)|]. apply list_lookup_singleton_Some in Hg as [Hg _].
      by replace g with (length (sw_gates s)) by lia.
    + destruct replace; [|done]. intros g [= <-]. rewrite lookup_app_r, Nat.sub_diag by lia. by eexists.
    + intros i g rows Hi'. exfalso. apply (Hshut g). by eapply Hw.
    + intros i t [Ht|[_ Ht]]%lookup_app_Some; [apply imp_ok_idle; by eapply Hquiet|].
      apply list_lookup_singleton_Some in Ht as [_ <-]. intros _. by split_and!.
    + intros i j t u [Ht|[Hli Ht]]%lookup_app_Some; [intros _ Ha; by rewrite (Hquiet i t Ht) in Ha|].
      intros [Hu|[Hlj Hu]]%lookup_app_Some; [intros _ Ha; by rewrite (Hquiet j u Hu) in Ha|].
      apply list_lookup_singleton_Some in Ht as [Ht _], Hu as [Hu _]. lia.
    + done.
    + intros _. apply submseteq_nil_l.
  - destruct (sw_importers s !! i) as [t|] eqn:Ht; [|done]. by apply importer_step_kept.
  - intros [= <-]. apply kept_state. destruct r; [by apply kept_drain|done|by apply kept_drain].
Qed.
Lemma swap_steps_kept es s s' : kept s → swap_steps target s es = Some s' → kept s'.
Proof.
  revert s. induction es as [|e es IH]; intros s Hk; cbn; [by intros [= <-]|].
  destruct (swap_step target s e) as [s1|] eqn:He; [|done]. cbn. apply IH. by eapply swap_step_kept.
Qed.
Lemma start_kept d st : kept (swap_start d st).
Proof. constructor; cbn; try done. intros _. apply submseteq_nil_l. Qed.

(** C8: ingest held while an archive replaces a database is not lost. Whatever
    the imports, writes and faults and however they interleave, the swap's lost
    reply included, every row acknowledged from behind the gate since the last
    import began is in the database that has the name, buffered or stored, as
    often as it was acknowledged, unless the target's buffer was drained while an
    import held it. *)
Theorem held_rows_kept (d : option Tables) (st : option DbSchemaState) (es : list SwapEvent) (s : Swap) :
  swap_steps target (swap_start d st) es = Some s → sw_stray s = false → sw_acked s ⊆+ stored_of (sw_target s).
Proof.
  intros Hs Hst. pose proof (kp_rows s (swap_steps_kept es _ _ (start_kept d st) Hs) Hst) as Hr.
  destruct (holding_import s); [|done]. etrans; [exact Hr|apply pend_stored].
Qed.
End Kept.

(** ** Two replaces *)

Module Exchange.
Import (hints) SettingsProofs.Site.

Definition row (ts : Z) : FrameRow := MkRow ts ProtoCan 1 0 1 [7] 0 None None None.
Definition bench : option Tables := Some (MkTables (Some SCHEMA_VERSION) [row 1] None None).
Definition fine (i : nat) : SwapEvent := EWriter i Fine.
(** A replace up to its load, a row held and acknowledged meanwhile, and one that
    finds the gate shut. *)
Definition loading : list SwapEvent := [EBegin true; EWrite [row 2]; EImporter 0 Fine []; fine 0; fine 0; EImporter 0 Fine [row 9]].
Definition swapping (reply : Reply) : list SwapEvent :=
  [EWrite [row 3]; EImporter 0 Fine []; fine 1; EImporter 0 Fine []; EImporter 0 reply []; EImporter 0 Fine []; EImporter 0 Fine [];
   EImporter 0 Fine []].

Lemma held_rows_kept_witness :
  ∃ s, swap_steps "bench" (swap_start bench (Some (Current SCHEMA_VERSION))) (loading ++ swapping (Lost (MkCopyError None "closed"))) = Some s ∧
    sw_acked s = [row 2] ∧ [row 2] ⊆+ stored_of (sw_target s) ∧ sw_writers s !! 1%nat = Some (WDone false) ∧ row 9 ∈ stored_of (sw_target s).
Proof.
  destruct (swap_steps "bench" _ _) as [s|] eqn:Hs; [|by vm_compute in Hs]. exists s. split; [done|].
  assert (sw_acked s = [row 2]) as Ha by (vm_compute in Hs; by injection Hs as <-).
  assert (sw_stray s = false) as Hst by (vm_compute in Hs; by injection Hs as <-).
  pose proof (held_rows_kept "bench" _ _ _ s Hs Hst) as Hk. rewrite Ha in Hk. split_and!; [done|done|..]; vm_compute in Hs; injection Hs as <-;
    [done|]. vm_compute. set_solver.
Defined.

(** The start's sweep reaches the database, which it found current, once an import
    of it has begun: the drain puts what was held and acknowledged in the table
    that is about to be replaced. *)
Lemma sweep_loses_held_rows :
  ∃ s, swap_steps "bench" (swap_start bench (Some (Current SCHEMA_VERSION)))
         (loading ++ [EDrain Fine (Current SCHEMA_VERSION)] ++ swapping Fine) = Some s ∧
    sw_acked s = [row 2] ∧ stored_of (sw_target s) = [row 9] ∧ sw_importers s = [MkImporter (Some 0%nat) (IEnd true) None None].
Proof. eexists. split; [vm_compute; reflexivity|]. vm_compute. done. Qed.
(** So does the drain of an import that was abandoned, once another has begun. *)
Lemma abandoned_drain_loses_held_rows :
  ∃ s, swap_steps "bench" (swap_start bench (Some (Current SCHEMA_VERSION)))
         [EBegin true; EImporter 0 (Fails (MkCopyError None "closed")) []; EImporter 0 Fine []; EImporter 0 Fine [];
          EBegin true; EWrite [row 2]; fine 0; fine 0; EImporter 0 Fine [];
          EImporter 1 Fine []; EImporter 1 Fine [row 9]; EImporter 1 Fine []; EImporter 1 Fine []; EImporter 1 Fine []] = Some s ∧
    sw_acked s = [row 2] ∧ stored_of (sw_target s) = [row 9].
Proof. eexists. split; [vm_compute; reflexivity|]. vm_compute. done. Qed.
End Exchange.
