(* ===== verification/Running.v ===== *)
(** * Running queries ([running.rs], and [query_handler!] of [http/mod.rs])

    The registry a query is cancelled through, as queries start and end on pooled
    connections, the unregistering a guard's drop leaves to a task of its own, and
    cancellations. A cancel token names a connection, not a query: PostgreSQL
    interrupts whatever runs there. *)

From S2P Require Import Prelude.

(** The token of each registered query, by its id; the queries running, each with
    its id and its connection; the [unregister] tasks not yet run; and the queries a
    cancel has interrupted. *)
Record Running := MkRunning {
  registry : gmap string nat; active : list (nat * string * nat); dropping : list string; interrupted : list nat
}.
Definition none_running : Running := MkRunning ∅ [] [] [].

Inductive RunEvent :=
  | QStart (query : nat) (id : string) (conn : nat)   (** the handler takes an idle connection and registers *)
  | QEnd (query : nat)                                (** it answers: the guard and the connection are dropped *)
  | QUnregister (i : nat)                             (** a task the drop spawned runs *)
  | QCancel (id : string).                            (** [DELETE /v1/queries/{id}] *)

Definition on_conn (conn : nat) (q : nat * string * nat) : bool := (q.2 =? conn)%nat.
Definition is_query (query : nat) (q : nat * string * nat) : bool := (q.1.1 =? query)%nat.
Definition without (query : nat) (qs : list (nat * string * nat)) : list (nat * string * nat) :=
  filter (λ q, is_query query q = false) qs.

(** [register]. *)
Definition register (id : string) (conn : nat) (r : Running) : Running :=
  MkRunning (<[id := conn]> (registry r)) (active r) (dropping r) (interrupted r).
(** [unregister]. *)
Definition unregister (id : string) (r : Running) : Running :=
  MkRunning (delete id (registry r)) (active r) (dropping r) (interrupted r).
(** [cancel]: whether the id was known; what runs on its connection is interrupted. *)
Definition cancel (id : string) (r : Running) : bool * Running :=
  match registry r !! id with
  | None => (false, r)
  | Some conn =>
      (true, MkRunning (delete id (registry r)) (active r) (dropping r)
               (interrupted r ++ ((λ q, q.1.1) <$> filter (λ q, on_conn conn q = true) (active r))))
  end.

(** One event; [None] where it can not happen. *)
Definition run_step (r : Running) (e : RunEvent) : option Running :=
  match e with
  | QStart query id conn =>
      if existsb (on_conn conn) (active r) || existsb (is_query query) (active r) then None
      else let r := register id conn r in
           Some (MkRunning (registry r) (active r ++ [(query, id, conn)]) (dropping r) (interrupted r))
  | QEnd query =>
      q ← find (is_query query) (active r);
      Some (MkRunning (registry r) (without query (active r)) (dropping r ++ [q.1.2]) (interrupted r))
  | QUnregister i =>
      id ← dropping r !! i;
      let r := unregister id r in Some (MkRunning (registry r) (active r) (delete i (dropping r)) (interrupted r))
  | QCancel id => Some (cancel id r).2
  end.
Fixpoint run_steps (r : Running) (es : list RunEvent) : option Running :=
  match es with [] => Some r | e :: es => r' ← run_step r e; run_steps r' es end.

(** ** What a cancel reaches *)

(** A query that has ended leaves its token behind until its task runs. Another
    takes the connection, and a late cancel of the first interrupts it. *)
Definition late_cancel : list RunEvent :=
  [QStart 1 "mine" 0; QEnd 1; QStart 2 "yours" 0; QCancel "mine"].
(** Two queries under one id: the first to end takes the other's token away, and
    the one still running can not be cancelled. *)
Definition shared_id : list RunEvent :=
  [QStart 1 "poll" 0; QStart 2 "poll" 1; QEnd 1; QUnregister 0].

(** A cancel can interrupt a query it does not name, and miss one it does: a
    run where cancelling a query that has ended interrupts another caller's, and a
    run after which a query is running under an id that cancel does not know. *)
Theorem cancel_hits_another :
  (∃ r, run_steps none_running late_cancel = Some r ∧ interrupted r = [2%nat] ∧ active r = [(2%nat, "yours", 0%nat)]) ∧
  (∃ r, run_steps none_running shared_id = Some r ∧ active r = [(2%nat, "poll", 1%nat)] ∧ (cancel "poll" r).1 = false).
Proof. split; eexists; split_and!; vm_compute; reflexivity. Qed.
