(* ===== verification/Http.v ===== *)
(** * The gateway's HTTP API ([http/mod.rs], [http/console.rs], [running.rs])

    Who a request is from, the gateway's own database kept out of reach, and every
    handler: its guards, what it does, and what it answers. A handler does what it
    does through the databases, the keys, the sessions and the catalogues, which
    are the [World] it runs in; what it does to them is recorded as its effects, in
    order, and what they answer is the world's. *)

From S2P Require Import Prelude F64 Model Source Wire Cidr Catalogues Settings Rows Forward Listener Store Keys Gateway Assignments Sql Frames Schema Events Import Wtar.
Import Sample.
Local Open Scope Z_scope.

(** ** Answers *)

(** [ApiError]: a status and its message; [Broken] is a handler's panic, whose
    connection is closed with no answer. *)
Inductive ApiError := Api (status : Z) (message : string) | Broken.
Definition bad_request_status (msg : string) : ApiError := Api 400 msg.
Definition forbidden (msg : string) : ApiError := Api 403 msg.
Definition not_found (msg : string) : ApiError := Api 404 msg.
Definition conflict (msg : string) : ApiError := Api 409 msg.
Definition internal (msg : string) : ApiError := Api 500 msg.
Definition unavailable (msg : string) : ApiError := Api 503 msg.
(** [From<QueryError>]. *)
Definition api_of_query (e : QueryError) : ApiError :=
  match e with BadRequest msg => Api 400 msg | Database msg => Api 503 msg end.
Definition api_of_stop (s : Stop) : ApiError := match s with Panicked => Broken | Failed e => api_of_query e end.
(** [DbError] as the string it is for [not_found], and by its kind. *)
Definition db_error_text (e : DbError) : string := match e with Refused m | Unavailable m => m end.
Definition api_of_db (e : DbError) : ApiError := match e with Refused m => not_found m | Unavailable m => unavailable m end.

(** ** Callers *)

Inductive ConsoleRole := Viewer | Operator | ConsoleAdmin | HostAdmin.
(** [gateway_role]. *)
Definition gateway_role (console : ConsoleRole) : Role :=
  match console with ConsoleAdmin | HostAdmin => Admin | Viewer | Operator => Read end.

(** The console's types: its identity as a header gives it, and whether its
    password was confirmed within the window. *)
Class HttpLib `{KeyLib} := {
  identity_role : ConsoleIdentity → ConsoleRole;
  username : ConsoleIdentity → string;
  reauthenticated : ConsoleIdentity → Z → bool;
  parse_identity : string → result string ConsoleIdentity;
  reauthentication_minutes : Z;
  (** [LogLevel::LADDER], by name. *)
  log_ladder : list (string * Z)
}.

(** The headers a request is authenticated by: [authorization] where it is
    visible ASCII, and each [Appliance-Identity], [None] where it is not. *)
Record Headers := MkHeaders { authorization : option string; identities : list (option string) }.
(** Where a request came in: a TCP peer, where its address is known, or the app
    socket, from the console's uid or not. *)
Inductive Via := OnTcp (peer : option IpAddr) | OnAppSocket (from_console : bool).
(** [app_socket_router]'s layer. *)
Definition on_app_socket (console_uid : Z) (uid : option Z) : Via := OnAppSocket (bool_decide (uid = Some console_uid)).

Section Callers.
Context `{SettingsLib} `{IngestLib} `{SessionLib} `{HttpLib}.

(** [console::asserted]. *)
Definition asserted (h : Headers) : result string (option ConsoleIdentity) :=
  let malformed why := "the Appliance-Identity header is malformed: " +:+ why in
  match identities h with
  | [] => Ok None
  | _ :: _ :: _ => Err (malformed "sent more than once")
  | [None] => Err (malformed "not visible ASCII")
  | [Some value] => id <-? parse_identity value ;; Ok (Some id)
  end.

Definition console_caller (from_console : bool) (h : Headers) : result ApiError KeyInfo :=
  if negb from_console then Err (Api 401 "only the console may call this on the app socket")
  else
    identity <-? map_err bad_request_status (asserted h) ;;
    match identity with
    | None => Err (Api 401 "missing Appliance-Identity")
    | Some identity =>
        Ok (MkKeyInfo 0 ("console:" +:+ username identity) (gateway_role (identity_role identity)) None (Some identity))
    end.

Definition key_caller (b : Bootstrap) (cache : gmap string KeyInfo) (peer : IpAddr) (h : Headers) (a : Attempts)
    : result ApiError KeyInfo * Attempts :=
  match authorization h ≫= strip_prefix "Bearer " with
  | None => (Err (Api 401 "missing bearer token"), a)
  | Some key =>
      match validate_from b cache peer key a with
      | (Err why, a) => (Err (Api 429 why), a)
      | (Ok None, a) => (Err (Api 401 "invalid API key"), a)
      | (Ok (Some info), a) => (Ok info, a)
      end
  end.

(** [auth_mw]: a request with no known peer is the unspecified address's. *)
Definition UNSPECIFIED : IpAddr := V6 0.
Definition authenticate (b : Bootstrap) (cache : gmap string KeyInfo) (via : Via) (h : Headers) (a : Attempts)
    : result ApiError KeyInfo * Attempts :=
  match via with
  | OnAppSocket from_console => (console_caller from_console h, a)
  | OnTcp peer => key_caller b cache (default UNSPECIFIED peer) h a
  end.

(** ** Guards *)

Definition check_pin (key : KeyInfo) (db : string) : result ApiError unit :=
  match ki_database_pin key with
  | Some pin => if negb (str_eqb pin db) then Err (forbidden "key is pinned to another database") else Ok tt
  | None => Ok tt
  end.
Definition check_role_reads (key : KeyInfo) : result ApiError unit :=
  if negb (allows_read (ki_role key)) then Err (forbidden "key role does not allow reads") else Ok tt.
Definition check_read (key : KeyInfo) (db : string) : result ApiError unit :=
  check check_role_reads key ;; check_pin key db.
Definition check_admin (key : KeyInfo) : result ApiError unit :=
  if negb (allows_admin (ki_role key)) then Err (forbidden "admin role required") else Ok tt.
Definition STALE_PROOF : string := "this needs the password confirmed".
Definition check_admin_reauthenticated (now : Z) (key : KeyInfo) : result ApiError unit :=
  check check_admin key ;;
  match ki_console key with
  | Some user =>
      if negb (reauthenticated user now) then
        Err (forbidden (STALE_PROOF +:+ " in the last " +:+ pretty reauthentication_minutes +:+ " minutes"))
      else Ok tt
  | None => Ok tt
  end.
(** [import_capture]'s. *)
Definition check_import (key : KeyInfo) (db : string) : result ApiError unit :=
  if negb (allows_ingest (ki_role key) || allows_admin (ki_role key)) then Err (forbidden "ingest or admin role required")
  else check_pin key db.
End Callers.

(** ** The world *)

(** A capture database, as a handler finds it: its pool, a connection from it, what
    its queries answer; a connection of its own, what the rollup and the migration's
    progress say over one. *)
Record DbView := MkDbView {
  v_pool : result DbError unit;
  v_get : result string unit;
  v_query : Query → result PgError (list PgRow);
  v_stream : Query → result PgError (list PgRow * option PgError);
  v_frames : list Cond * Args * Z → result PgError (list PgRow);
  v_execute : Query → result PgError Z;
  v_raw : result string unit;
  v_rollup : result string RollupState;
  v_progress : result string (option string);
  v_copy : nat → list FrameRow → result CopyError unit
}.
Inductive MigrateRefusal := MrNotFound (m : string) | MrConflict (m : string) | MrUnavailable (m : string).
Record LogRecord := MkLog { lg_level : Z; lg_text : string }.

Section World.
Context `{SettingsLib} `{IngestLib} `{SessionLib} `{HttpLib}.

Record World := MkWorld {
  w_config : GatewayConfig;
  w_now : Z; w_nanos : Z;
  w_bootstrap : Bootstrap; w_cache : gmap string KeyInfo; w_attempts : Attempts;
  w_db : string → DbView;
  (** A connection to [postgres]; [pg_database], its names and sizes; the schema states; rollups being rebuilt,
      rows buffered, imports running, by database. *)
  w_postgres : result string unit;
  w_listing : result string (list (string * option Z));
  w_states : gmap string DbSchemaState;
  w_rebuilding : gmap string Z; w_buffered : gmap string Z; w_importing : gmap string Z;
  w_sessions : list SessionInfo;
  w_auto_migrate : bool;
  w_links : Links;
  w_token : string;
  w_logs : list LogRecord;
  w_secrets : bool * bool;
  (** What the rest answers a call: the databases, the keys, the queries running,
      the catalogues. *)
  w_create : string → result string unit; w_delete : string → result string unit;
  w_migrate : string → result MigrateRefusal unit; w_ensure : string → bool → result DbError unit;
  (** The import's own task: [Err] is its panic. *)
  w_archive : string → bool → result string (result ImportError unit);
  w_change : Change → result string Answer; w_keys : result string (list KeyRow);
  w_rotate_password : result string string; w_rotate_admin : result string (option string);
  w_cancel : string → result string bool;
  w_daemons : result string (list (string * list DaemonDevice));
  w_assign : Assign → string → result AssignError AssignmentInfo; w_clear : Unassign → string → result AssignError unit; w_stored : list Z → result string (option StoredCatalogue)
}.

(** What a handler does. *)
Inductive Effect :=
  | Connects (db : string)              (** a pooled connection *)
  | Annotates (db : string)             (** a change of its events *)
  | Ensures (db : string) (create : bool) (** [ensure_database] *)
  | Imports (db : string)               (** rows copied into it *)
  | Runs (db id : string)               (** a query registered under an id, and run *)
  | Creates (db : string)
  | Deletes (db : string)
  | Migrates (db : string)
  | Refreshes (db : string)
  | Signals (db : string) (pid : Z) (terminate : bool)
  | Links_ (db : string)                (** an export link issued *)
  | Redeems (token : string)            (** an export link removed *)
  | Downloads (db : string)             (** an export *)
  | LoadsArchive (db : string) (replace : bool)
  | Cancels (id : string)
  | ChangesKeys (c : Change)
  | RotatesPassword
  | RotatesAdminKey
  | Assigns (daemon : string).

(** [DatabaseRow], over [DatabaseInfo]. *)
Record DatabaseRow := MkDatabaseRow {
  dr_name : string; dr_size_bytes : Z; dr_schema_state : string; dr_schema_version : option Z; dr_busy_secs : option Z;
  dr_schema_error : option string; dr_rollup_state : option RollupState; dr_rollup_busy_secs : option Z;
  dr_migration : option string; dr_buffered_rows : option Z; dr_import_busy_secs : option Z
}.
(** A body of an answer. *)
Inductive Shown :=
  | SNothing | SText (s : string) | SWho (via name : string) (role : Role)
  | SHealth (status : string) (db_ok : bool) (schema : string)
  | SDatabases (rows : list DatabaseRow) (schema_version : Z) (auto_migrate : bool)
  | SBounds (b : TimeBounds) | SInventory (l : list InventoryEntry) | SFrames (b : FrameBatch) | SPayloads (l : list (list Z))
  | SEvents (l : list Event) | SEvent (e : Event)
  | SByteChanges (r : list ByteChangeResult * QueryStats) | SFrameChanges (r : list FrameChangeResult * QueryStats)
  | SMirror (r : list MirrorValidationResult * QueryStats) | SMux (r : Z * Z * list MuxCaseStats * QueryStats)
  | SFirstLast (r : FirstLastResult * QueryStats) | SFrequency (r : list FrequencyBucket * QueryStats)
  | SDistribution (r : list DistributionResult * QueryStats) | SGaps (r : list GapResult * QueryStats)
  | SPattern (r : list PatternSearchResult * QueryStats)
  | SActivity (r : list DatabaseActivity * list DatabaseActivity) | SSignalled (ok : bool)
  | SEstimate (e : Estimate) | SArchive (name : string) | SImported (n : Z)
  | SKeys (l : list KeyRow) | SAnswer (a : Answer) | SSecret (s : string) (persisted : bool) (note : string)
  | SSecrets (password_saved admin_configured admin_saved stale_config : bool)
  | SAssigned (daemon_id interface : string) (assignment : AssignmentInfo) | SRejected (error : string) (findings : list (string * string))
  | SConflicting (error : string) (current : option string)
  | SDaemons (l : list (string * list DaemonDevice)) | SStored (c : StoredCatalogue)
  | SSessions (l : list SessionInfo) | SLogs (l : list LogRecord).
(** A status and a body. *)
Definition Response : Type := Z * Shown.
Definition ok_response (b : Shown) : Response := (200, b).

(** A handler: the effects so far are its state. *)
Definition handler : Type := io (list Effect) ApiError Response.
Definition does (e : Effect) : io (list Effect) ApiError () := emit e.
Definition guarded (g : result ApiError unit) (k : handler) : handler := io_lift g ≫= λ _, k.
Definition answers (r : result ApiError Shown) : handler := io_lift (b <-? r ;; Ok (ok_response b)).
Definition of_sql {A} (show : A → Shown) (r : result Stop A) : handler :=
  answers (a <-? map_err api_of_stop r ;; Ok (show a)).

Variable w : World.

(** [client_for]. *)
Definition client_for (db : string) : io (list Effect) ApiError DbView :=
  let v := w_db w db in
  io_lift (map_err (λ e, not_found (db_error_text e)) (v_pool v)) ≫= λ _,
  io_lift (map_err (λ e, unavailable ("pool: " +:+ e)) (v_get v)) ≫= λ _,
  does (Connects db) ≫= λ _, mret v.

(** ** Databases *)

Definition state_values : list DbSchemaState := snd <$> map_to_list (w_states w).
Definition is_failed (s : DbSchemaState) : bool := match s with Store.Failed _ _ _ => true | _ => false end.
Definition is_migrating (s : DbSchemaState) : bool := match s with Migrating _ => true | _ => false end.
Definition is_pending (s : DbSchemaState) : bool := match s with Pending _ => true | _ => false end.
Definition schema_consensus : string :=
  let states := state_values in
  if (length states =? 0)%nat then "unknown"
  else if existsb is_failed states then "failed"
  else if existsb is_migrating states then "migrating"
  else if existsb is_pending states then "behind"
  else match remove_dups (omap state_version states) with [v] => "v" +:+ pretty v | _ => "mixed" end.

Definition db_ok : bool := match w_postgres w with Ok _ => true | Err _ => false end.
Definition health : handler := mret (ok_response (SHealth (if db_ok then "ok" else "degraded") db_ok schema_consensus)).
Definition healthz : handler := mret (if db_ok then 200 else 503, SNothing).

Definition whoami (key : KeyInfo) : handler :=
  mret (ok_response (match ki_console key with
                     | Some user => SWho "console" (username user) (ki_role key)
                     | None => SWho "key" (ki_name key) (ki_role key)
                     end)).

(** [rollup_state] and [migration_progress], over a connection of their own. *)
Definition rollup_of (v : DbView) : option RollupState :=
  match v_raw v, v_rollup v with Ok _, Ok st => Some st | _, _ => None end.
Definition progress_of (v : DbView) : option string :=
  match v_raw v, v_progress v with Ok _, Ok p => p | _, _ => None end.
(** A row of the list; [None] for a database not to be shown. *)
Definition database_row (key : KeyInfo) (entry : string * option Z) : option DatabaseRow :=
  let '(name, size) := entry in
  match size with
  | None => None
  | Some size =>
      if negb (valid_database_name name) || is_gateway_database (w_config w) name then None
      else if match ki_database_pin key with Some pin => negb (str_eqb pin name) | None => false end then None
      else
        let st := w_states w !! name in
        let '(rollup, migration) :=
          match st with
          | Some (Current _) => (rollup_of (w_db w name), None)
          | Some _ => (None, progress_of (w_db w name))
          | None => (None, None)
          end in
        Some (MkDatabaseRow name size (default "unknown" (state_label <$> st)) (st ≫= state_version) (st ≫= busy_secs (w_now w))
                (match st with Some (Store.Failed _ error _) => Some error | _ => None end) rollup (w_rebuilding w !! name)
                migration (w_buffered w !! name) (w_importing w !! name))
  end.
Definition list_databases (key : KeyInfo) : handler :=
  guarded (check_role_reads key) (answers (
    check map_err bad_request_status (w_postgres w) ;;
    listing <-? map_err (λ e, bad_request_status ("database list failed: " +:+ e)) (w_listing w) ;;
    Ok (SDatabases (omap (database_row key) listing) SCHEMA_VERSION (w_auto_migrate w)))).

Definition create_database (key : KeyInfo) (name : string) : handler :=
  guarded (check_admin key) (
    if is_gateway_database (w_config w) name then io_err (forbidden (protected name))
    else does (Creates name) ≫= λ _, answers (check map_err bad_request_status (w_create w name) ;; Ok (SText name))).

Definition delete_database (key : KeyInfo) (db : string) : handler :=
  guarded (check_admin_reauthenticated (w_now w) key) (
    if existsb (λ s, str_eqb (si_database s) db) (w_sessions w) then
      io_err (conflict ("database '" +:+ db +:+ "' is being ingested — stop the device first"))
    else if match w_states w !! db with Some (Migrating _) => true | _ => false end then
      io_err (conflict ("database '" +:+ db +:+ "' is migrating"))
    else if bool_decide (is_Some (w_importing w !! db)) then
      io_err (conflict ("database '" +:+ db +:+ "' is being imported from an archive"))
    else does (Deletes db) ≫= λ _, answers (check map_err bad_request_status (w_delete w db) ;; Ok (SText db))).

Definition refresh_rollup (key : KeyInfo) (db : string) : handler :=
  guarded (check_admin key) (
    if is_current (w_states w !! db) then does (Refreshes db) ≫= λ _, mret (ok_response (SText db))
    else io_err (conflict ("database '" +:+ db +:+ "' is not at the current schema"))).
Definition api_of_migrate (e : MigrateRefusal) : ApiError :=
  match e with MrNotFound m => not_found m | MrConflict m => conflict m | MrUnavailable m => unavailable m end.
Definition migrate_database (key : KeyInfo) (db : string) : handler :=
  guarded (check_admin key) (
    does (Migrates db) ≫= λ _, answers (check map_err api_of_migrate (w_migrate w db) ;; Ok (SText "started"))).

(** ** Reads *)

(** A read: the guard, a connection, and what is asked over it. *)
Definition reading (key : KeyInfo) (db : string) (k : DbView → handler) : handler :=
  guarded (check_read key db) (client_for db ≫= k).

Context `{!RowLib} `{!SqlLib}.

Definition time_bounds_h (key : KeyInfo) (db : string) (protocol : option Protocol) : handler :=
  reading key db (λ v, of_sql SBounds (time_bounds (v_query v) protocol)).
Definition inventory_h (key : KeyInfo) (db : string) (start end_ : option string) (protocol : option Protocol) : handler :=
  reading key db (λ v, of_sql SInventory (inventory (v_query v) start end_ protocol)).
Definition frames_h (key : KeyInfo) (db : string) (start end_ after : option string) (limit : option Z) (protocol : option Protocol) : handler :=
  reading key db (λ v, of_sql SFrames (frames_batch (v_frames v) start end_ after (Z.min (default 1000 limit) 5000) protocol)).
Definition payloads_h (key : KeyInfo) (db : string) (p : PayloadsParams) : handler :=
  reading key db (λ v, of_sql SPayloads (payloads (v_query v) p)).

Definition events_list (key : KeyInfo) (db : string) (start end_ : option string) (limit : option Z) : handler :=
  reading key db (λ v, of_sql SEvents (list_events (v_query v) start end_ (default 1000 limit))).
Definition events_create (key : KeyInfo) (db : string) (new : NewEvent) : handler :=
  reading key db (λ v, does (Annotates db) ≫= λ _,
    io_lift (e <-? map_err api_of_stop (create (v_query v) new) ;; Ok (201, SEvent e))).
Definition events_update (key : KeyInfo) (db : string) (id : Z) (patch : EventPatch) : handler :=
  reading key db (λ v, does (Annotates db) ≫= λ _, answers (
    e <-? map_err api_of_stop (update (v_query v) id patch) ;;
    match e with Some e => Ok (SEvent e) | None => Err (not_found "event not found") end)).
Definition events_delete (key : KeyInfo) (db : string) (id : Z) : handler :=
  reading key db (λ v, does (Annotates db) ≫= λ _,
    io_lift (there <-? map_err api_of_stop (delete_event (v_execute v) id) ;;
             if there then Ok (204, SNothing) else Err (not_found "event not found"))).

(** The analytical queries, a [query_handler!] each. *)
Inductive Analysis :=
  | ByteChanges (p : ByteChangesParams) | FrameChanges (p : FrameChangesParams) | MirrorValidation (p : MirrorValidationParams)
  | MuxStatistics (p : MuxStatisticsParams) | FirstLast (p : FirstLastParams) | Frequency (p : FrequencyParams)
  | Distribution (p : DistributionParams) | GapAnalysis (p : GapAnalysisParams) | PatternSearch (p : PatternSearchParams).
Definition analyse (q : Analysis) (v : DbView) : handler :=
  match q with
  | ByteChanges p => of_sql SByteChanges (byte_changes (v_query v) p)
  | FrameChanges p => of_sql SFrameChanges (frame_changes (v_query v) p)
  | MirrorValidation p => of_sql SMirror (mirror_validation (v_query v) p)
  | MuxStatistics p => of_sql SMux (mux_statistics (v_query v) p)
  | FirstLast p => of_sql SFirstLast (first_last (v_query v) p)
  | Frequency p => of_sql SFrequency (frequency (v_query v) p)
  | Distribution p => of_sql SDistribution (distribution (v_query v) p)
  | GapAnalysis p => of_sql SGaps (gap_analysis (v_query v) p)
  | PatternSearch p => of_sql SPattern (pattern_search (v_stream v) p)
  end.
Definition analysis_name (q : Analysis) : string :=
  match q with
  | ByteChanges _ => "q_byte_changes" | FrameChanges _ => "q_frame_changes" | MirrorValidation _ => "q_mirror_validation"
  | MuxStatistics _ => "q_mux_statistics" | FirstLast _ => "q_first_last" | Frequency _ => "q_frequency"
  | Distribution _ => "q_distribution" | GapAnalysis _ => "q_gap_analysis" | PatternSearch _ => "q_pattern_search"
  end.
(** Registered under the request's [query_id], or one made of the time. *)
Definition query_handler (key : KeyInfo) (db : string) (query_id : option string) (q : Analysis) : handler :=
  reading key db (λ v,
    does (Runs db (default (analysis_name q +:+ "_" +:+ pretty (w_nanos w)) query_id)) ≫= λ _, analyse q v).

Definition cancel_query (key : KeyInfo) (id : string) : handler :=
  guarded (check_role_reads key) (does (Cancels id) ≫= λ _, answers (
    cancelled <-? map_err bad_request_status (w_cancel w id) ;;
    if cancelled then Ok (SText id) else Err (not_found ("query not found: " +:+ id)))).

Definition activity_h (key : KeyInfo) (db : string) : handler :=
  guarded (check_admin key) (client_for db ≫= λ v, of_sql SActivity (activity (v_query v) db)).
Definition activity_signal (key : KeyInfo) (db : string) (pid : Z) (terminate : bool) : handler :=
  guarded (check_admin key) (client_for db ≫= λ v, does (Signals db pid terminate) ≫= λ _,
    of_sql SSignalled (signal_backend (v_query v) pid terminate)).

(** ** Imports and exports *)

Context `{!ImportLib} `{!WtarLib}.

Definition refused_import (db : string) (e : DbError) : ApiError :=
  match w_states w !! db with
  | Some (Migrating _) => conflict ("database '" +:+ db +:+ "' is migrating")
  | Some (Pending _) | Some (Store.Failed _ _ _) => conflict ("database '" +:+ db +:+ "' is waiting for migration; migrate it first")
  | _ => api_of_db e
  end.
Definition api_of_fault (e : ImportFault) : ApiError :=
  match e with
  | BadBody m => bad_request_status m
  | CopyFailed e => api_of_query (query_error_copy e)
  | ImportPanic => Broken
  end.
(** The database is made ready once the header is read. *)
Definition import_capture (key : KeyInfo) (db : string) (create : bool) (body : Body) : handler :=
  guarded (check_import key db) (
    match read_header [] body with
    | Err e => io_err (api_of_fault e)
    | Ok (pending, body) =>
        does (Ensures db create) ≫= λ _,
        io_lift (map_err (λ e, not_found (db_error_text e)) (w_ensure w db create)) ≫= λ _,
        io_lift (map_err (refused_import db) (v_pool (w_db w db))) ≫= λ _,
        does (Imports db) ≫= λ _,
        let '(res, copied) := import_loop (v_copy (w_db w db)) pending [] body [] in
        answers (check map_err api_of_fault res ;; Ok (SImported (imported copied)))
    end).

(** [WindowQuery::window]. *)
Definition window (from_us to_us : option Z) : result ApiError (option Window) :=
  match from_us, to_us with
  | None, None => Ok None
  | Some f, Some t => if f <? t then Ok (Some (MkWindow f t)) else Err (bad_request_status "the window's from_us must be before its to_us")
  | _, _ => Err (bad_request_status "a window needs both from_us and to_us")
  end.
Definition stop_unavailable (s : Stop) : ApiError :=
  match s with Panicked => Broken | Sql.Failed (BadRequest m) | Sql.Failed (Database m) => unavailable m end.
Definition export_estimate (key : KeyInfo) (db : string) (from_us to_us : option Z) : handler :=
  guarded (check_admin key) (
    io_lift (window from_us to_us) ≫= λ win, client_for db ≫= λ v,
    answers (e <-? map_err stop_unavailable (estimate (v_query v) win) ;; Ok (SEstimate e))).
Definition export_start (key : KeyInfo) (db : string) (from_us to_us : option Z) : handler :=
  guarded (check_admin key) (
    io_lift (window from_us to_us) ≫= λ win, client_for db ≫= λ v,
    io_lift (map_err stop_unavailable (estimate (v_query v) win)) ≫= λ e,
    if es_empty e then io_err (bad_request_status ("database '" +:+ db +:+ "' holds nothing in that window to export"))
    else does (Links_ db) ≫= λ _, mret (ok_response (SText ("/v1/exports/" +:+ w_token w)))).
(** The link is the credential. [connect_current] is [pool] and a connection. *)
Definition export_download (token : string) : handler :=
  does (Redeems token) ≫= λ _,
  match (redeem (w_now w) token (w_links w)).1 with
  | None => io_err (not_found "this export link is unknown, used or expired")
  | Some link =>
      let v := w_db w (ln_database link) in
      io_lift (map_err api_of_db (v_pool v)) ≫= λ _, io_lift (map_err unavailable (v_raw v)) ≫= λ _,
      does (Downloads (ln_database link)) ≫= λ _, mret (ok_response (SArchive (file_name (ln_database link) (ln_window link))))
  end.
Definition api_of_import (e : ImportError) : ApiError :=
  match e with IBadRequest m => bad_request_status m | INotFound m => not_found m | IConflict m => conflict m | IUnavailable m => unavailable m end.
Definition import_archive (key : KeyInfo) (db : string) (replace : bool) : handler :=
  guarded (check_admin key) (
    guarded (if replace then check_admin_reauthenticated (w_now w) key else Ok tt) (
      does (LoadsArchive db replace) ≫= λ _, answers (
        imported <-? map_err internal (w_archive w db replace) ;; check map_err api_of_import imported ;; Ok (SText db)))).

(** ** Keys, secrets and the rest of the admin's *)

Definition change (c : Change) (k : Answer → result ApiError Shown) : handler :=
  does (ChangesKeys c) ≫= λ _, answers (a <-? map_err bad_request_status (w_change w c) ;; k a).
Definition changed (missing : string) (a : Answer) : result ApiError Shown :=
  match a with Changed false => Err (not_found missing) | a => Ok (SAnswer a) end.

Definition keys_list (key : KeyInfo) : handler :=
  guarded (check_admin key) (answers (l <-? map_err bad_request_status (w_keys w) ;; Ok (SKeys l))).
Definition keys_create (key : KeyInfo) (name role : string) (pin : option string) : handler :=
  guarded (check_admin_reauthenticated (w_now w) key) (
    match role_parse role with
    | None => io_err (bad_request_status ("unknown role '" +:+ role +:+ "'"))
    | Some role => change (CCreate name role pin (w_token w)) (λ a, Ok (SAnswer a))
    end).
Definition keys_disable (key : KeyInfo) (id : Z) : handler :=
  guarded (check_admin key) (change (CSetDisabled id true) (changed ("key not found or already disabled: " +:+ pretty id))).
Definition keys_enable (key : KeyInfo) (id : Z) : handler :=
  guarded (check_admin key) (change (CSetDisabled id false) (changed ("key not found or not disabled: " +:+ pretty id))).
Definition keys_rotate (key : KeyInfo) (id : Z) : handler :=
  guarded (check_admin_reauthenticated (w_now w) key) (change (CRotate id (w_token w)) (λ a,
    match a with
    | Rotation NotFound => Err (not_found ("key not found: " +:+ pretty id))
    | Rotation RotateDisabled => Err (conflict ("key " +:+ pretty id +:+ " is disabled; enable it before rotating it"))
    | a => Ok (SAnswer a)
    end)).
Definition keys_edit (key : KeyInfo) (id : Z) (name : option string) (pin : option (option string)) : handler :=
  guarded (check_admin key) (change (CEdit id name pin) (changed ("key not found: " +:+ pretty id))).
Definition keys_delete (key : KeyInfo) (id : Z) : handler :=
  guarded (check_admin_reauthenticated (w_now w) key) (change (CDelete id) (changed ("key not found: " +:+ pretty id))).

Definition secrets_list (key : KeyInfo) : handler :=
  guarded (check_admin key) (mret (ok_response
    (SSecrets (w_secrets w).1 (bootstrap_configured (w_bootstrap w)) (w_secrets w).2 (stale_config (w_bootstrap w))))).
(** The notes of a rotation. *)
Definition password_note (persisted : bool) : string :=
  if persisted then "Saved in the gateway's password file. Nothing more to do."
  else "Not saved: put it in the deployment's env as POSTGRES_PASSWORD, for both the " +:+
       "backend and the timescaledb services, before the gateway next restarts. Until " +:+
       "then a restarted gateway cannot reach the database. Anything else that logs in " +:+
       "as this role, such as a backup job or a migration DSN, needs it too.".
Definition admin_key_note (persisted : bool) : string :=
  if persisted then "Saved in the gateway's admin key file. The old key no longer works."
  else "Kept across restarts, and the old key stays dead even if the gateway restarts " +:+
       "with it. Put the new one in the deployment's env as WIRETAP_ADMIN_KEY too, so " +:+
       "the env matches.".
Definition rotate_db_password (key : KeyInfo) : handler :=
  guarded (check_admin_reauthenticated (w_now w) key) (does RotatesPassword ≫= λ _, answers (
    s <-? map_err internal (w_rotate_password w) ;; Ok (SSecret s (w_secrets w).1 (password_note (w_secrets w).1)))).
Definition rotate_admin_key (key : KeyInfo) : handler :=
  guarded (check_admin_reauthenticated (w_now w) key) (does RotatesAdminKey ≫= λ _, answers (
    rotated <-? map_err internal (w_rotate_admin w) ;;
    s <-? ok_or rotated (conflict
      "no admin key is configured (WIRETAP_ADMIN_KEY or WIRETAP_ADMIN_KEY_FILE) for a new one to replace") ;;
    Ok (SSecret s (w_secrets w).2 (admin_key_note (w_secrets w).2)))).

Definition ingest_sessions (key : KeyInfo) : handler := guarded (check_admin key) (mret (ok_response (SSessions (w_sessions w)))).
Definition daemons (key : KeyInfo) : handler :=
  guarded (check_admin key) (answers (l <-? map_err unavailable (w_daemons w) ;; Ok (SDaemons l))).
(** [AssignError::into_response]. *)
Definition assign_refused (e : AssignError) : handler :=
  match e with
  | ARejected findings =>
      mret (400, SRejected (String.concat "; " ((λ f, f.1 +:+ ": " +:+ f.2) <$> findings)) findings)
  | AConflict current => mret (409, SConflicting "the assignment changed since it was read" current)
  | ADatabase e => io_err (unavailable e)
  end.
Definition assignments_put (key : KeyInfo) (body : Assign) : handler :=
  guarded (check_admin key) (does (Assigns (as_daemon_id body)) ≫= λ _,
    match w_assign w body (ki_name key) with
    | Ok assignment => mret (ok_response (SAssigned (as_daemon_id body) (as_interface body) assignment))
    | Err e => assign_refused e
    end).
Definition assignments_delete (key : KeyInfo) (params : Unassign) : handler :=
  guarded (check_admin key) (does (Assigns (un_daemon_id params)) ≫= λ _,
    match w_clear w params (ki_name key) with
    | Ok _ => mret (204, SNothing)
    | Err e => assign_refused e
    end).

(** [hex::decode]. *)
Definition hex_value (c : Ascii.ascii) : option Z := Cidr.to_digit 16 c.
Fixpoint hex_decode (s : string) : option (list Z) :=
  match s with
  | EmptyString => Some []
  | String a (String b s) => x ← hex_value a; y ← hex_value b; l ← hex_decode s; Some (x * 16 + y :: l)
  | String _ EmptyString => None
  end.
Definition catalog_get (key : KeyInfo) (sha : string) : handler :=
  guarded (check_admin key) (
    match hex_decode sha with
    | Some b =>
        if (length b =? 20)%nat then answers (
          stored <-? map_err unavailable (w_stored w b) ;;
          match stored with Some c => Ok (SStored c) | None => Err (not_found ("no catalogue " +:+ sha)) end)
        else io_err (bad_request_status (debug_str sha +:+ " is not a SHA-1"))
    | None => io_err (bad_request_status (debug_str sha +:+ " is not a SHA-1"))
    end).

Definition log_level (name : string) : result ApiError Z :=
  match find (λ l, eq_ignore_ascii_case l.1 name) log_ladder with
  | Some l => Ok l.2
  | None => Err (bad_request_status ("unknown level '" +:+ name +:+ "'"))
  end.
(** The limit applies after the filter. *)
Definition keep_newest (records : list LogRecord) (min : option Z) (limit : nat) : list LogRecord :=
  let kept := filter (λ r, default true ((λ m, m <=? lg_level r) <$> min) = true) records in
  drop (length kept - limit) kept.
Definition logs (key : KeyInfo) (level : option string) (limit : option nat) : handler :=
  guarded (check_admin key) (
    io_lift (match level with Some l => v <-? log_level l ;; Ok (Some v) | None => Ok None end) ≫= λ min,
    mret (ok_response (SLogs (keep_newest (w_logs w) min (default 200%nat limit))))).

(** ** The routes *)

Inductive Endpoint :=
  | Healthz | Health | ExportDownload (token : string)
  | Whoami | ListDatabases | CreateDatabase (name : string) | DeleteDatabase (db : string)
  | ExportStart (db : string) (from_us to_us : option Z) | ExportEstimate (db : string) (from_us to_us : option Z)
  | ImportArchive (db : string) (replace : bool) | MigrateDatabase (db : string) | RefreshRollup (db : string)
  | TimeBoundsOf (db : string) (protocol : option Protocol)
  | InventoryOf (db : string) (start end_ : option string) (protocol : option Protocol)
  | FramesOf (db : string) (start end_ after : option string) (limit : option Z) (protocol : option Protocol)
  | PayloadsOf (db : string) (p : PayloadsParams)
  | EventsList (db : string) (start end_ : option string) (limit : option Z) | EventsCreate (db : string) (new : NewEvent)
  | EventsUpdate (db : string) (id : Z) (patch : EventPatch) | EventsDelete (db : string) (id : Z)
  | Analyse (db : string) (query_id : option string) (q : Analysis) | CancelQuery (id : string)
  | ActivityOf (db : string) | ActivitySignal (db : string) (pid : Z) (terminate : bool)
  | ImportCapture (db : string) (create : bool) (body : Body)
  | KeysList | KeysCreate (name role : string) (pin : option string) | KeysDelete (id : Z)
  | KeysEdit (id : Z) (name : option string) (pin : option (option string)) | KeysDisable (id : Z) | KeysEnable (id : Z) | KeysRotate (id : Z)
  | SecretsList | RotateDbPassword | RotateAdminKey | IngestSessions | Daemons
  | AssignmentsPut (body : Assign) | AssignmentsDelete (params : Unassign) | CatalogGet (sha : string)
  | LogsOf (level : option string) (limit : option nat).

(** The routes with a [{db}]. *)
Definition path_db (e : Endpoint) : option string :=
  match e with
  | DeleteDatabase db | ExportStart db _ _ | ExportEstimate db _ _ | ImportArchive db _ | MigrateDatabase db | RefreshRollup db
  | TimeBoundsOf db _ | InventoryOf db _ _ _ | FramesOf db _ _ _ _ _ | PayloadsOf db _ | EventsList db _ _ _ | EventsCreate db _
  | EventsUpdate db _ _ | EventsDelete db _ | Analyse db _ _ | ActivityOf db | ActivitySignal db _ _ | ImportCapture db _ _ => Some db
  | _ => None
  end.

Definition handle (key : KeyInfo) (e : Endpoint) : handler :=
  match e with
  | Healthz => healthz | Health => health | ExportDownload token => export_download token
  | Whoami => whoami key | ListDatabases => list_databases key | CreateDatabase name => create_database key name
  | DeleteDatabase db => delete_database key db | ExportStart db f t => export_start key db f t
  | ExportEstimate db f t => export_estimate key db f t | ImportArchive db r => import_archive key db r
  | MigrateDatabase db => migrate_database key db | RefreshRollup db => refresh_rollup key db
  | TimeBoundsOf db p => time_bounds_h key db p | InventoryOf db s e p => inventory_h key db s e p
  | FramesOf db s e a l p => frames_h key db s e a l p | PayloadsOf db p => payloads_h key db p
  | EventsList db s e l => events_list key db s e l | EventsCreate db n => events_create key db n
  | EventsUpdate db id p => events_update key db id p | EventsDelete db id => events_delete key db id
  | Analyse db id q => query_handler key db id q | CancelQuery id => cancel_query key id
  | ActivityOf db => activity_h key db | ActivitySignal db pid t => activity_signal key db pid t
  | ImportCapture db c b => import_capture key db c b
  | KeysList => keys_list key | KeysCreate n r p => keys_create key n r p | KeysDelete id => keys_delete key id
  | KeysEdit id n p => keys_edit key id n p | KeysDisable id => keys_disable key id | KeysEnable id => keys_enable key id
  | KeysRotate id => keys_rotate key id | SecretsList => secrets_list key | RotateDbPassword => rotate_db_password key
  | RotateAdminKey => rotate_admin_key key | IngestSessions => ingest_sessions key | Daemons => daemons key
  | AssignmentsPut b => assignments_put key b | AssignmentsDelete p => assignments_delete key p
  | CatalogGet sha => catalog_get key sha | LogsOf l n => logs key l n
  end.

(** [refuse_gateway_database_mw]. *)
Definition refuse_gateway_database (e : Endpoint) (k : handler) : handler :=
  match path_db e with
  | Some db => if is_gateway_database (w_config w) db then io_err (forbidden (protected db)) else k
  | None => k
  end.

(** The routes outside [auth_mw]. *)
Definition is_open (e : Endpoint) : bool := match e with Healthz | Health | ExportDownload _ => true | _ => false end.
Definition nobody : KeyInfo := MkKeyInfo 0 EmptyString Read None None.

(** A request, and what it is answered and does; the attempts are the peers' wrong
    keys, counted. *)
Record Request := MkRequest { rq_via : Via; rq_headers : Headers; rq_endpoint : Endpoint }.
Definition caller (rq : Request) : result ApiError KeyInfo * Attempts :=
  authenticate (w_bootstrap w) (w_cache w) (rq_via rq) (rq_headers rq) (w_attempts w).
Definition serve (rq : Request) : result ApiError Response * list Effect :=
  let e := rq_endpoint rq in
  if is_open e then handle nobody e []
  else
    match (caller rq).1 with
    | Err err => (Err err, [])
    | Ok key => refuse_gateway_database e (handle key e) []
    end.
End World.

(** ** Who may do what *)

Definition effect_db (e : Effect) : option string :=
  match e with
  | Connects db | Annotates db | Ensures db _ | Imports db | Runs db _ | Creates db | Deletes db | Migrates db | Refreshes db | Signals db _ _
  | Links_ db | Downloads db | LoadsArchive db _ => Some db
  | _ => None
  end.

Section Rights.
Context `{SettingsLib} `{IngestLib} `{SessionLib} `{HttpLib} `{!RowLib} `{!SqlLib} `{!ImportLib} `{!WtarLib}.
Variable w : World.

(** The rights an effect takes: the role, the database the key is pinned to, and
    for what issues or destroys a credential or a database behind a console, the
    password confirmed. *)
Definition unpinned (key : KeyInfo) (db : string) : bool :=
  match ki_database_pin key with Some pin => str_eqb pin db | None => true end.
Definition proved (key : KeyInfo) : bool :=
  match ki_console key with Some user => reauthenticated user (w_now w) | None => true end.
Definition permitted (key : KeyInfo) (e : Effect) : bool :=
  let role := ki_role key in
  match e with
  | Connects db => allows_read role && unpinned key db || allows_admin role
  | Annotates db | Runs db _ => allows_read role && unpinned key db
  | Ensures db _ | Imports db => (allows_ingest role || allows_admin role) && unpinned key db
  | Creates _ | Migrates _ | Refreshes _ | Signals _ _ _ | Links_ _ | Assigns _ => allows_admin role
  | Deletes _ | RotatesPassword | RotatesAdminKey => allows_admin role && proved key
  | LoadsArchive _ replace => allows_admin role && (negb replace || proved key)
  | ChangesKeys (CSetDisabled _ _) | ChangesKeys (CEdit _ _ _) => allows_admin role
  | ChangesKeys _ => allows_admin role && proved key
  | Cancels _ => allows_read role
  | Redeems _ | Downloads _ => false
  end.

Lemma emits_does (P : Effect → Prop) e : P e → emits P (does e).
Proof. apply emits_emit. Qed.
Lemma emits_guarded (P : Effect → Prop) g k : (g = Ok tt → emits P k) → emits P (guarded g k).
Proof.
  intros Hk es. unfold guarded, mbind, io_bind, io_lift. destruct g as [[]|e]; [by apply Hk|]. exists []. by rewrite app_nil_r.
Qed.
Lemma emits_client (P : Effect → Prop) db : P (Connects db) → emits P (client_for w db).
Proof. intros HP. repeat (apply emits_bind; [by first [apply emits_pure|apply emits_does]|intros ?]). apply emits_ret. Qed.
Create HintDb http.
Hint Resolve emits_pure emits_ret emits_err emits_does emits_bind emits_client : http.

(** The guards, as rights. *)
Lemma check_admin_ok key : check_admin key = Ok tt → allows_admin (ki_role key) = true.
Proof. unfold check_admin. by destruct (allows_admin (ki_role key)). Qed.
Lemma check_proved_ok key : check_admin_reauthenticated (w_now w) key = Ok tt → allows_admin (ki_role key) = true ∧ proved key = true.
Proof.
  unfold check_admin_reauthenticated, proved. destruct (check_admin key) as [[]|] eqn:Ha; [|done].
  apply check_admin_ok in Ha. destruct (ki_console key) as [u|]; [|done]. by destruct (reauthenticated u (w_now w)).
Qed.
Lemma check_pin_ok key db : check_pin key db = Ok tt → unpinned key db = true.
Proof. unfold check_pin, unpinned. destruct (ki_database_pin key) as [pin|]; [|done]. by destruct (str_eqb pin db). Qed.
Lemma check_role_ok key : check_role_reads key = Ok tt → allows_read (ki_role key) = true.
Proof. unfold check_role_reads. by destruct (allows_read (ki_role key)). Qed.
Lemma check_read_ok key db : check_read key db = Ok tt → allows_read (ki_role key) = true ∧ unpinned key db = true.
Proof.
  unfold check_read, check_role_reads. destruct (allows_read (ki_role key)); [|done]. cbn. intros Hp. by apply check_pin_ok in Hp.
Qed.
Lemma check_import_ok key db :
  check_import key db = Ok tt → allows_ingest (ki_role key) || allows_admin (ki_role key) = true ∧ unpinned key db = true.
Proof.
  unfold check_import. destruct (_ || _); [|done]. cbn. intros Hp. by apply check_pin_ok in Hp.
Qed.

(** What an endpoint may do for a key: what the key permits, on the database its
    path names, or the one it asks to create. *)
Definition allowed (key : KeyInfo) (ep : Endpoint) (e : Effect) : Prop :=
  permitted key e = true ∧
  (∀ db, effect_db e = Some db → path_db ep = Some db ∨ (ep = CreateDatabase db ∧ is_gateway_database (w_config w) db = false)).

Ltac rights :=
  repeat match goal with
  | Hg : check_role_reads _ = Ok tt |- _ => apply check_role_ok in Hg
  | Hg : check_admin _ = Ok tt |- _ => apply check_admin_ok in Hg
  | Hg : check_admin_reauthenticated _ _ = Ok tt |- _ => apply check_proved_ok in Hg as [? ?]
  | Hg : check_read _ _ = Ok tt |- _ => apply check_read_ok in Hg as [? ?]
  | Hg : check_import _ _ = Ok tt |- _ => apply check_import_ok in Hg as [? ?]
  end;
  split; [cbn; repeat match goal with Hb : _ = true |- _ => rewrite Hb; clear Hb end; rewrite ?orb_true_r; done
         |intros ? Hdb; cbn in Hdb; simplify_eq; by auto].
Ltac emitted :=
  repeat match goal with
  | |- emits _ (guarded _ _) => apply emits_guarded; intros ?
  | |- emits _ (mbind _ _) => apply emits_bind; [|intros ?]
  | |- emits _ (client_for _ _) => apply emits_client; rights
  | |- emits _ (does _) => apply emits_does; rights
  | |- emits _ (if _ then _ else _) => apply emits_if; intros ?
  | |- emits _ (answers _) => apply emits_pure
  | |- emits _ (of_sql _ _) => apply emits_pure
  | |- emits _ (match ?x with _ => _ end) => destruct x
  | |- _ => first [apply emits_pure|apply emits_ret|apply emits_err]
  end.

Lemma handle_allowed key ep : is_open ep = false → emits (allowed key ep) (handle w key ep).
Proof.
  intros Ho. destruct ep; try done; cbn [handle].
  all: unfold whoami, list_databases, create_database, delete_database, export_start, export_estimate, import_archive,
    migrate_database, refresh_rollup, time_bounds_h, inventory_h, frames_h, payloads_h, events_list, events_create, events_update,
    events_delete, query_handler, cancel_query, activity_h, activity_signal, import_capture, keys_list, keys_create, keys_delete,
    keys_edit, keys_disable, keys_enable, keys_rotate, secrets_list, rotate_db_password, rotate_admin_key, ingest_sessions, daemons,
    assignments_put, assignments_delete, catalog_get, logs, change, assign_refused, reading, analyse.
  all: try (destruct replace).
  all: emitted.
Qed.

(** C7: whatever the request, everything it does is done for a caller its key or
    the console vouches for, whose role and pin permit it, never to the gateway's
    own database, and, for a credential, a rotation or a database's end behind a
    console, with the password confirmed; the one thing done for nobody is an
    export, on a link issued for it and still good. *)
Theorem requests_are_authorised (rq : Request) (e : Effect) :
  e ∈ (serve w rq).2 →
  if is_open (rq_endpoint rq) then
    ∃ token, rq_endpoint rq = ExportDownload token ∧
      (e = Redeems token ∨
       ∃ link, w_links w !! token = Some link ∧ w_now w - ln_issued link < LINK_LIFE ∧ e = Downloads (ln_database link))
  else
    ∃ key, (caller w rq).1 = Ok key ∧ permitted key e = true ∧
      ∀ db, effect_db e = Some db → is_gateway_database (w_config w) db = false.
Proof.
  unfold serve. destruct (is_open (rq_endpoint rq)) eqn:Ho.
  - destruct (rq_endpoint rq) as [| |token| | | | | | | | | | | | | | | | | | | | | | | | | | | | | | | | | | | | | |]; try done;
      cbn [handle]; intros He; try by apply not_elem_of_nil in He.
    exists token. split; [done|]. unfold export_download, redeem, mbind, io_bind, does, io_modify in He. cbn [app] in He.
    destruct (w_links w !! token) as [link|] eqn:Hl; [|left; by apply list_elem_of_singleton in He].
    cbn [fst] in He. destruct (live_link (w_now w) link) eqn:Hlive; [|left; by apply list_elem_of_singleton in He].
    unfold io_lift in He. destruct (v_pool _) as [[]|]; cbn in He; [|left; by apply list_elem_of_singleton in He].
    destruct (v_raw _) as [[]|]; cbn in He; [|left; by apply list_elem_of_singleton in He].
    apply elem_of_cons in He as [->|He]; [by left|]. apply list_elem_of_singleton in He as ->.
    right. exists link. split; [done|]. by apply Z.ltb_lt in Hlive.
  - destruct (caller w rq).1 as [key|err]; [|intros He; by apply not_elem_of_nil in He].
    unfold refuse_gateway_database. intros He. exists key. split; [done|].
    assert (Hin : e ∈ (handle w key (rq_endpoint rq) []).2 ∧
      ∀ db, path_db (rq_endpoint rq) = Some db → is_gateway_database (w_config w) db = false).
    { destruct (path_db (rq_endpoint rq)) as [db|]; [|done]. destruct (is_gateway_database (w_config w) db) eqn:Hdb.
      - by apply not_elem_of_nil in He.
      - split; [done|]. by intros db' [= <-]. }
    destruct Hin as [Hin Hpath]. destruct (handle_allowed key _ Ho []) as (new & Hes & Hall). cbn [app] in Hes. rewrite Hes in Hin.
    pose proof (proj1 (Forall_forall _ _) Hall e Hin) as [Hp Hdb]. split; [done|]. intros db Hd. destruct (Hdb db Hd) as [Hpd|[_ Hg]]; [|done].
    by apply Hpath.
Qed.
End Rights.

(** ** What a pinned reader sees *)

Section Pinned.
Context `{SettingsLib} `{IngestLib} `{SessionLib} `{HttpLib} `{!RowLib} `{!SqlLib} `{!ImportLib} `{!WtarLib}.

(** Two worlds that differ at most in databases other than [pin], in the queries
    running and in what an admin asks after. *)
Record same_for (pin : string) (w w' : World) : Prop := MkSame {
  same_config : w_config w = w_config w'; same_now : w_now w = w_now w'; same_nanos : w_nanos w = w_nanos w';
  same_postgres : w_postgres w = w_postgres w'; same_auto : w_auto_migrate w = w_auto_migrate w';
  same_rebuilding : w_rebuilding w !! pin = w_rebuilding w' !! pin;
  same_bootstrap : w_bootstrap w = w_bootstrap w'; same_cache : w_cache w = w_cache w'; same_attempts : w_attempts w = w_attempts w';
  same_db : w_db w pin = w_db w' pin;
  same_states : w_states w !! pin = w_states w' !! pin;
  same_buffered : w_buffered w !! pin = w_buffered w' !! pin; same_importing : w_importing w !! pin = w_importing w' !! pin;
  same_listing : (∃ e, w_listing w = Err e ∧ w_listing w' = Err e) ∨
    ∃ l l', w_listing w = Ok l ∧ w_listing w' = Ok l' ∧ filter (λ x, x.1 = pin) l = filter (λ x, x.1 = pin) l'
}.

Lemma guarded_ext g (k k' : handler) es : (g = Ok tt → k es = k' es) → guarded g k es = guarded g k' es.
Proof. unfold guarded, mbind, io_bind, io_lift. destruct g as [[]|e]; auto. Qed.
Lemma guarded_refused g (k k' : handler) es : g ≠ Ok tt → guarded g k es = guarded g k' es.
Proof. intros Hg. by apply guarded_ext. Qed.

Lemma reading_ext w w' pin key db k es : same_for pin w w' → ki_database_pin key = Some pin →
  reading w key db k es = reading w' key db k es.
Proof.
  intros Hs Hp. apply guarded_ext. intros Hr. apply check_read_ok in Hr as [_ Hr]. unfold unpinned in Hr. rewrite Hp in Hr.
  apply str_eqb_eq in Hr as <-. unfold client_for. by rewrite (same_db pin w w' Hs).
Qed.

Lemma database_row_pinned w key pin x : ki_database_pin key = Some pin → x.1 ≠ pin → database_row w key x = None.
Proof.
  intros Hp Hx. destruct x as [name [size|]]; [|done]. cbn in *. rewrite Hp. destruct (_ || _); [done|].
  assert (str_eqb pin name = false) as -> by (apply str_eqb_neq; congruence). done.
Qed.
Lemma database_row_same w w' key pin size : same_for pin w w' → database_row w key (pin, size) = database_row w' key (pin, size).
Proof.
  intros []. cbn. destruct size as [size|]; [|done].
  rewrite same_config0, same_states0, same_buffered0, same_importing0, same_rebuilding0, same_now0, same_db0. done.
Qed.
Lemma rows_pinned w w' key pin : same_for pin w w' → ki_database_pin key = Some pin →
  ∀ l l' : list (string * option Z), filter (λ x, x.1 = pin) l = filter (λ x, x.1 = pin) l' → omap (database_row w key) l = omap (database_row w' key) l'.
Proof.
  intros Hs Hp.
  assert (Hfil : ∀ w (l : list (string * option Z)), omap (database_row w key) l = omap (database_row w key) (filter (λ x, x.1 = pin) l)).
  { intros w0 l. induction l as [|x l IH]; [done|]. rewrite filter_cons. case_decide as Hx; cbn.
    - by rewrite IH.
    - by rewrite (database_row_pinned w0 key pin x Hp Hx), IH. }
  intros l l' Hl. rewrite (Hfil w l), (Hfil w' l'), Hl. clear Hl l. induction l' as [|[name size] l IH]; [done|].
  rewrite filter_cons. case_decide as Hx; [|done]. cbn in Hx. subst name. cbn [omap list_omap].
  by rewrite (database_row_same w w' key pin size Hs), IH.
Qed.

(** A key that only reads is refused what is an admin's or a device's. *)
Lemma reader_not_admin key now : ki_role key = Read →
  check_admin key ≠ Ok tt ∧ check_admin_reauthenticated now key ≠ Ok tt ∧ ∀ db, check_import key db ≠ Ok tt.
Proof. intros Hr. unfold check_admin_reauthenticated, check_admin, check_import. rewrite Hr. done. Qed.

(** C17: a key that reads one database learns nothing of the others but by
    cancelling. Any request it makes of the authenticated API, the cancelling of
    a query apart, is answered the same, and does the same, in two deployments
    that agree on that database, whatever else they hold. A cancel is not kept to
    the key's database: it does the same in both, and its answer tells of the other
    databases no more than what became of the query of that id. *)
Theorem pinned_reader_sees_one (pin : string) (w w' : World) (rq : Request) (key : KeyInfo) :
  same_for pin w w' → (caller w rq).1 = Ok key → ki_role key = Read → ki_database_pin key = Some pin →
  is_open (rq_endpoint rq) = false →
  ((∀ id, rq_endpoint rq ≠ CancelQuery id) → serve w rq = serve w' rq) ∧
  (∀ id, rq_endpoint rq = CancelQuery id → (serve w rq).2 = (serve w' rq).2 ∧
     (w_cancel w id = w_cancel w' id → serve w rq = serve w' rq)).
Proof.
  intros Hs Hk Hrole Hpin Ho. pose proof Hs as [Hcf Hnow Hnan Hpg Hau _ Hb Hc Ha _ _ _ _ Hl].
  assert (Hcaller : caller w' rq = caller w rq) by (unfold caller; by rewrite Hb, Hc, Ha). split.
  2:{ intros id He. unfold serve. rewrite Ho, Hcaller, Hk, He. unfold refuse_gateway_database. cbn [path_db handle].
      unfold cancel_query, guarded, mbind, io_bind, does, io_modify, answers, io_lift. destruct (check_role_reads key) as [[]|]; [|done].
      split; [done|]. by intros ->. }
  intros Hno. unfold serve. rewrite Ho, Hcaller, Hk.
  destruct (reader_not_admin key (w_now w) Hrole) as (Hadmin & Hproved & Himport).
  assert (Hh : ∀ es, handle w key (rq_endpoint rq) es = handle w' key (rq_endpoint rq) es).
  { intros es. destruct (rq_endpoint rq); try done; cbn [handle].
    all: try (by apply guarded_refused).
    all: try (unfold delete_database, keys_create, keys_delete, keys_rotate, rotate_db_password, rotate_admin_key; rewrite <- Hnow; by apply guarded_refused).
    all: try (unfold query_handler; rewrite Hnan; by eapply reading_ext).
    all: try (by eapply reading_ext).
    - apply guarded_ext. intros _. unfold answers, io_lift. rewrite Hpg, Hau. destruct (w_postgres w') as [[]|]; [|done]. destruct Hl as [(e & -> & ->)|(l & l' & -> & -> & Hf)]; [done|]. cbn.
      by rewrite (rows_pinned w w' key pin Hs Hpin l l' Hf).
    - by destruct (Hno id). }
  unfold refuse_gateway_database. rewrite Hcf. destruct (path_db (rq_endpoint rq)) as [db|]; [|apply Hh].
  destruct (is_gateway_database (w_config w') db); [done|apply Hh].
Qed.
End Pinned.

(** ** Two deployments *)

Module Counter.
Import (hints) Wire.Packed ForwardProofs.Toy SettingsProofs.Site Listener.Door Keys.KeyRing Rows.Stored Frames.Archive3 Import.Pieces Wtar.Tape.

#[export] Instance http_lib : HttpLib := {
  identity_role := λ _, ConsoleAdmin; username := λ _, "jo"; reauthenticated := λ _ now, now <? 100;
  parse_identity := λ s, if str_eqb s "jo" then Ok tt else Err "not an identity";
  reauthentication_minutes := 10;
  log_ladder := [("error", 4); ("warn", 3); ("info", 2)]
}.

Definition reader : KeyInfo := MkKeyInfo 2 "lab" Read (Some "fleet") None.
(** A database whose queries answer its earliest and latest times, and rows of
    nothing else. *)
Definition answering (from until : Z) : DbView :=
  MkDbView (Ok tt) (Ok tt) (λ _, Ok [[("min_us", VFloat8 (of_Z from)); ("max_us", VFloat8 (of_Z until))]]) (λ _, Ok ([], None)) (λ _, Ok [])
    (λ _, Ok 1) (Ok tt) (Ok Empty) (Ok None) (λ _ _, Ok tt).
(** [bench] is another's: its size, its state and what it answers vary. *)
Definition site (now size : Z) (state : DbSchemaState) (bench : DbView) : World :=
  MkWorld (MkGatewayConfig "wiretap" true) now (now * 1000) (MkBootstrap None None) {[hash_key "wt_a" := reader]} 0%nat
    (λ db, if str_eqb db "fleet" then answering 10 20 else bench)
    (Ok tt) (Ok [("bench", Some size); ("fleet", Some 8); ("wiretap", Some 9)])
    (<["bench" := state]> {["fleet" := Current 7]}) ∅ ∅ ∅ [] false {["t" := MkLink "fleet" None 0]} "t" [] (true, true)
    (λ _, Ok tt) (λ _, Ok tt) (λ _, Ok tt) (λ _ _, Ok tt) (λ _ _, Ok (Ok tt))
    (λ _, Ok (Changed true)) (Ok []) (Ok "s") (Ok None) (λ _, Ok false) (Ok []) (λ _ _, Ok (MkInfo "00" "vendor" 5 "jo" no_provenance)) (λ _ _, Ok tt) (λ _, Ok None).
Notation one := (site 50 5 (Current 7) (answering 1 2)).
Notation other := (site 50 6 (Pending 1) (MkDbView (Err (Refused "gone")) (Ok tt) (λ _, Ok []) (λ _, Ok ([], None)) (λ _, Ok [])
    (λ _, Ok 1) (Ok tt) (Ok Empty) (Ok None) (λ _ _, Ok tt))).
Definition asked (e : Endpoint) : Request := MkRequest (OnTcp (Some (V4 1))) (MkHeaders (Some "Bearer wt_a") []) e.
Definition by_console (e : Endpoint) : Request := MkRequest (OnAppSocket true) (MkHeaders None [Some "jo"]) e.

(** The reader is answered its own database, and nothing of the other; the console
    rotates the password while its proof is fresh, and not after. *)
Lemma serve_examples :
  serve one (asked (TimeBoundsOf "fleet" None)) = (Ok (200, SBounds (MkTimeBounds (Some 10) (Some 20))), [Connects "fleet"]) ∧
  serve one (asked (TimeBoundsOf "bench" None)) = (Err (Api 403 "key is pinned to another database"), []) ∧
  serve one (by_console RotateDbPassword) = (Ok (200, SSecret "s" true (password_note true)), [RotatesPassword]) ∧
  (serve (site 200 5 (Current 7) (answering 1 2)) (by_console RotateDbPassword)).2 = [].
Proof. vm_compute. done. Qed.

Lemma pinned_reader_sees_one_witness :
  serve one (asked ListDatabases) = serve other (asked ListDatabases) ∧ (serve one (asked ListDatabases)).1 ≠ Ok (200, SDatabases [] SCHEMA_VERSION false).
Proof.
  split; [|vm_compute; discriminate].
  apply (pinned_reader_sees_one "fleet" one other (asked ListDatabases) reader); [|vm_compute; reflexivity..|by intros id].
  split; try (vm_compute; reflexivity). right. eexists _, _. split; [reflexivity|]. split; [reflexivity|]. vm_compute. reflexivity.
Defined.

Lemma requests_are_authorised_witness :
  (∃ key, (caller one (by_console (DeleteDatabase "bench"))).1 = Ok key ∧ permitted one key (Deletes "bench") = true ∧
    ∀ db, effect_db (Deletes "bench") = Some db → is_gateway_database (w_config one) db = false) ∧
  ∃ token, ExportDownload "t" = ExportDownload token ∧
    (Downloads "fleet" = Redeems token ∨
     ∃ link, w_links one !! token = Some link ∧ w_now one - ln_issued link < LINK_LIFE ∧ Downloads "fleet" = Downloads (ln_database link)).
Proof.
  split.
  - apply (requests_are_authorised one (by_console (DeleteDatabase "bench")) (Deletes "bench")).
    apply list_elem_of_singleton. vm_compute. reflexivity.
  - apply (requests_are_authorised one (asked (ExportDownload "t")) (Downloads "fleet")).
    apply list_elem_of_further, list_elem_of_singleton. vm_compute. reflexivity.
Defined.
End Counter.
