(* ===== verification/System.v ===== *)
(** * The worker and its sink ([archive.rs] [BatchSink])

    [BatchSink] is the trait the batcher writes to. Here the worker's events are
    answered by a sink instead of arbitrarily: a run of the two together is a run
    of the worker, and what the worker counts as stored is what the sink answered
    for. [ForwardSink] is the instance. *)

From S2P Require Import Prelude F64 Model Source Wire Cache CacheFifo Catalogues Forward ForwardProofs Archive Batcher BatcherProofs.
Import Sample.
Local Open Scope Z_scope.

(** ** [trait BatchSink] *)

Class BatchSink (K : Type) := {
  sink_connect : K → SinkResult * K;
  sink_write : list Sample → K → result WriteError () * K;
  sink_keep_alive : K → SinkResult * K;
  sink_close : K → K
}.

(** A write answers for a prefix of its batch, and nothing else does. *)
Class BatchSinkLaws (K : Type) `{BatchSink K} := {
  answers : K → list Sample;
  connect_answers : ∀ k r k', sink_connect k = (r, k') → answers k' = answers k;
  write_answers : ∀ b k r k', sink_write b k = (r, k') →
    (delivered_of (length b) r ≤ length b)%nat ∧ answers k' = answers k ++ take (delivered_of (length b) r) b;
  keep_alive_answers : ∀ k r k', sink_keep_alive k = (r, k') → answers k' = answers k;
  close_answers : ∀ k, answers (sink_close k) = answers k
}.

Section System.
Context {C : Type} `{FrameCacheLaws C} {K : Type} `{BatchSinkLaws K}.

(** What happens outside the worker, the worker running, and its call to the sink
    completing. *)
Inductive sys_event :=
  | SFrame (now : Z) (x : Sample)
  | SStop
  | SStopDropped
  | SWork
  | SSink (now : Z)
  | STimeout
  | SBackoff.

(** The sink's answer to what the worker awaits, as an event of the worker. *)
Definition sink_answer (now : Z) (p : Pc) (k : K) : option (event * K) :=
  match p with
  | Connecting => let '(r, k') := sink_connect k in Some (Connected r, k')
  | DrainWriting frames => let '(r, k') := sink_write (sample <$> frames) k in Some (Wrote now r, k')
  | Writing batch => let '(r, k') := sink_write batch k in Some (Wrote now r, k')
  | FlushWriting batch => let '(r, k') := sink_write batch k in Some (Wrote now r, k')
  | KeepingAlive => let '(r, k') := sink_keep_alive k in Some (KeptAlive r, k')
  | Closing _ _ | FlushClosing => Some (SinkClosed, sink_close k)
  | _ => None
  end.

Definition sys_step (cf : Conf) (ev : sys_event) (x : State C * K) : option (State C * K) :=
  let '(s, k) := x in
  let worker e := match step cf e s with Some s' => Some (s', k) | None => None end in
  match ev with
  | SFrame now x => worker (Frame now x)
  | SStop => worker StopSignal
  | SStopDropped => worker StopDropped
  | SWork => worker Work
  | STimeout => worker Timeout
  | SBackoff => worker Backoff
  | SSink now =>
      match sink_answer now (pc s) k with
      | None => None
      | Some (e, k') => match step cf e s with Some s' => Some (s', k') | None => None end
      end
  end.

Fixpoint sys_steps (cf : Conf) (evs : list sys_event) (x : State C * K) : option (State C * K) :=
  match evs with
  | [] => Some x
  | ev :: evs => match sys_step cf ev x with Some x' => sys_steps cf evs x' | None => None end
  end.

Definition sys_event_ok (e : sys_event) : bool :=
  match e with SFrame _ x => storable x | _ => true end.

(** ** A run of both is a run of the worker *)

(** What the worker counted as stored is what the sink answered for. *)
Definition agreed (x : State C * K) : Prop := stored (ghost x.1) = answers x.2.

(** The batch a write event answers. *)
Definition written_batch (p : Pc) : list Sample :=
  match p with
  | DrainWriting frames => sample <$> frames
  | Writing b | FlushWriting b => b
  | _ => []
  end.

Lemma written_frames_ghost now n (s : State C) : ghost (written_frames now n s) = ghost s.
Proof. unfold written_frames. by destruct (0 <? n)%nat. Qed.

Lemma write_stored cf now r (s s' : State C) :
  step cf (Wrote now r) s = Some s' →
  stored (ghost s') = stored (ghost s) ++ take (delivered_of (length (written_batch (pc s))) r) (written_batch (pc s)).
Proof.
  unfold step. destruct (pc s) as [| | |fs| |b| |b|e b|t why| |b| |]; try done; cbn [written_batch].
  - destruct (write_fits _ _); [|done]. intros [= <-]. rewrite length_fmap. unfold drained. cbv zeta.
    destruct (remove _ (cache s)) as [[u|e] c]; destruct r as [u'|e']; cbn; by rewrite fmap_take.
  - destruct (write_fits _ _); [|done]. intros [= <-]. unfold wrote. by destruct r.
  - destruct (write_fits _ _); [|done]. intros [= <-]. unfold flushed. cbv zeta.
    match goal with |- context [flush_unsent ?l ?x] => pose proof (flush_unsent_tally l x) as (_ & _ & Hst & _) end.
    rewrite Hst. by destruct (_ <? _)%nat.
Qed.

Lemma other_stored cf ev (s s' : State C) :
  step cf ev s = Some s' → match ev with Wrote _ _ => False | _ => True end → stored (ghost s') = stored (ghost s).
Proof.
  intros Hs Hev. destruct ev as [now x| | | |r|now r|r| | |].
  - injection Hs as <-. by destruct (try_send _ _).
  - unfold step in Hs. destruct (stop s); [|done..]. by injection Hs as <-.
  - by injection Hs as <-.
  - by apply work_tally in Hs as (_ & _ & ? & _).
  - unfold step in Hs. destruct r, (pc s); try done; by injection Hs as <-.
  - done.
  - unfold step in Hs. destruct r, (pc s); try done; by injection Hs as <-.
  - unfold step in Hs. destruct (pc s) as [| | |fs| |b| |b|e b|t why| |b| |]; try done; injection Hs as <-; [|done].
    unfold failed. cbv zeta. set (s1 := set_link _ _ s). change (stored (ghost s)) with (stored (ghost s1)).
    destruct b as [|x b]; [done|]. by pose proof (cache_batch_tally (x :: b) s1) as (_ & _ & ? & _).
  - unfold step in Hs. destruct (pc s); try done. destruct (_ || _); [done|].
    destruct (items _); [|done]. by injection Hs as <-.
  - unfold step in Hs. destruct (pc s); try done. destruct (stop_ready _); [done|]. by injection Hs as <-.
Qed.

(** The worker's events of a step of both. *)
Lemma sys_step_sim cf ev s k s' k' :
  sys_step cf ev (s, k) = Some (s', k') →
  ∃ e, step cf e s = Some s' ∧ (sys_event_ok ev = true → event_ok e = true) ∧ (agreed (s, k) → agreed (s', k')).
Proof.
  assert (Hworker : ∀ e, match e with Wrote _ _ => False | _ => True end →
    (match step cf e s with Some s1 => Some (s1, k) | None => None end) = Some (s', k') →
    (sys_event_ok ev = true → event_ok e = true) →
    ∃ e, step cf e s = Some s' ∧ (sys_event_ok ev = true → event_ok e = true) ∧ (agreed (s, k) → agreed (s', k'))).
  { intros e He Hs Hok. destruct (step cf e s) as [s1|] eqn:Hst; [|done]. injection Hs as <- <-.
    exists e. split_and!; [done..|]. unfold agreed. cbn. by rewrite (other_stored _ _ _ _ Hst He). }
  destruct ev as [now x| | | |now| |]; cbn [sys_step]; intros Hs;
    [by apply (Hworker (Frame now x))|by apply (Hworker StopSignal)|by apply (Hworker StopDropped)|
     by apply (Hworker Work)| |by apply (Hworker Timeout)|by apply (Hworker Backoff)].
  assert (Hwrite : ∀ r k1, sink_write (written_batch (pc s)) k = (r, k1) →
    (match step cf (Wrote now r) s with Some s1 => Some (s1, k1) | None => None end) = Some (s', k') →
    ∃ e, step cf e s = Some s' ∧ (sys_event_ok (SSink now) = true → event_ok e = true) ∧ (agreed (s, k) → agreed (s', k'))).
  { intros r k1 Hw Hst. destruct (step cf (Wrote now r) s) as [s1|] eqn:H1'; [|done]. injection Hst as <- <-.
    exists (Wrote now r). split_and!; [done..|]. unfold agreed. cbn. intros Hag.
    rewrite (write_stored _ _ _ _ _ H1'), Hag. by destruct (write_answers _ _ _ _ Hw) as [_ ->]. }
  assert (Hother : ∀ e k1, answers k1 = answers k → match e with Wrote _ _ | Frame _ _ => False | _ => True end →
    (match step cf e s with Some s1 => Some (s1, k1) | None => None end) = Some (s', k') →
    ∃ e, step cf e s = Some s' ∧ (sys_event_ok (SSink now) = true → event_ok e = true) ∧ (agreed (s, k) → agreed (s', k'))).
  { intros e k1 Hk He Hst. destruct (step cf e s) as [s1|] eqn:H1'; [|done]. injection Hst as <- <-.
    exists e. split_and!; [done|by destruct e|]. unfold agreed. cbn. intros Hag.
    rewrite (other_stored _ _ _ _ H1'), Hk; [done|]. by destruct e. }
  destruct (pc s) as [| | |fs| |b| |b|e b|t why| |b| |] eqn:Hpc; cbn [sink_answer] in Hs; try done.
  - destruct (sink_connect k) as [r k1] eqn:Hc. eapply (Hother (Connected r)); [by eapply connect_answers|done|exact Hs].
  - destruct (sink_write (sample <$> fs) k) as [r k1] eqn:Hc. by eapply Hwrite.
  - destruct (sink_keep_alive k) as [r k1] eqn:Hc. eapply (Hother (KeptAlive r)); [by eapply keep_alive_answers|done|exact Hs].
  - destruct (sink_write b k) as [r k1] eqn:Hc. by eapply Hwrite.
  - eapply (Hother SinkClosed); [apply close_answers|done|exact Hs].
  - destruct (sink_write b k) as [r k1] eqn:Hc. by eapply Hwrite.
  - eapply (Hother SinkClosed); [apply close_answers|done|exact Hs].
Qed.

(** A sink's answer never leaves the worker stuck. *)
Lemma sink_answer_taken cf now s k e k' :
  sink_answer now (pc s) k = Some (e, k') → is_Some (step cf e s).
Proof.
  unfold sink_answer, step. destruct (pc s) as [| | |fs| |b| |b|e0 b|t why| |b| |]; try done.
  - destruct (sink_connect k) as [[u|er] k1]; intros [= <- <-]; by eexists.
  - destruct (sink_write (sample <$> fs) k) as [r k1] eqn:Hw. intros [= <- <-].
    apply write_answers in Hw as [Hl _]. rewrite length_fmap in Hl. unfold write_fits.
    rewrite (proj2 (Nat.leb_le _ _) Hl). by eexists.
  - destruct (sink_keep_alive k) as [[u|er] k1]; intros [= <- <-]; by eexists.
  - destruct (sink_write b k) as [r k1] eqn:Hw. intros [= <- <-]. apply write_answers in Hw as [Hl _].
    unfold write_fits. rewrite (proj2 (Nat.leb_le _ _) Hl). by eexists.
  - intros [= <- <-]. by eexists.
  - destruct (sink_write b k) as [r k1] eqn:Hw. intros [= <- <-]. apply write_answers in Hw as [Hl _].
    unfold write_fits. rewrite (proj2 (Nat.leb_le _ _) Hl). by eexists.
  - intros [= <- <-]. by eexists.
Qed.

Lemma sys_steps_sim cf evs : ∀ s k s' k',
  forallb sys_event_ok evs = true → sys_steps cf evs (s, k) = Some (s', k') →
  ∃ es, forallb event_ok es = true ∧ steps cf es s = Some s' ∧ (agreed (s, k) → agreed (s', k')).
Proof.
  induction evs as [|ev evs IH]; intros s k s' k' Hok Hs; cbn [sys_steps forallb] in *.
  { injection Hs as <- <-. by exists []. }
  apply andb_true_iff in Hok as [Hev Hok].
  destruct (sys_step cf ev (s, k)) as [[s1 k1]|] eqn:H1'; [|done].
  destruct (sys_step_sim _ _ _ _ _ _ H1') as (e & He & Heok & Hag).
  destruct (IH _ _ _ _ Hok Hs) as (es & Hes & Hst & Hag'). exists (e :: es). cbn [forallb steps].
  rewrite He, (Heok Hev), Hes. split_and!; [done|done|auto].
Qed.
End System.

(** ** [ForwardSink] is a [BatchSink] *)

Section Instance.
Context `{IngestLaws} `{CatalogueLib} `{CacheLib} `{Sqlite}.

#[global] Instance forward_batch_sink : BatchSink Session := {
  sink_connect := connect;
  sink_write := write_batch;
  sink_keep_alive := keep_alive;
  sink_close := close
}.

(** The frames the gateway acknowledged, or refused and the dead-letter cache
    holds, in the order they were answered. *)
Definition answered_frames (s : Session) : list Sample := concat (answered s).*1.

Lemma negotiate_answered s r s' : negotiate s = (r, s') → answered s' = answered s.
Proof.
  unfold negotiate. intros Hs. io_step Hs as first s1 Hh; apply handshake_inv in Hh as [l1 ->]; [|done].
  io_step Hs as s1' s2 Hg; [|done]. injection Hg as <- <-.
  destruct (may_fall_back _ first.2); [|by injection Hs as _ <-].
  io_step Hs as u s3 Hv; [|done]. injection Hv as _ <-. by apply handshake_inv in Hs as [l2 ->].
Qed.

Lemma take_assignments_answered ack conn s r s' :
  take_assignments ack conn s = (r, s') → answered s' = answered s.
Proof.
  unfold take_assignments. intros Hs.
  io_step Hs as c1 s5 Hc; destruct (pull _ _ _ _) as [c' sh]; [|done]. injection Hc as _ <-.
  io_step Hs as m s6 Hm; [|done]. injection Hm as _ <-. by destruct m as [m|]; injection Hs as _ <-.
Qed.

Lemma connect_answered s r s' : connect s = (r, s') → answered s' = answered s.
Proof.
  unfold connect. intros Hs. io_step Hs as session s1 Hn; apply negotiate_answered in Hn as Ha; [|done].
  destruct session as [conn ack]. io_step Hs as s1' s2 Hg; [|done]. injection Hg as <- <-.
  destruct (negb _); [by injection Hs as _ <-|].
  io_step Hs as conn' s4 Ht; (destruct (version (sink s1) =? 3);
    [apply take_assignments_answered in Ht|]); try injection Ht as _ <-; try injection Hs as _ <-; cbn; congruence.
Qed.

Lemma keep_alive_answered s r s' : keep_alive s = (r, s') → answered s' = answered s.
Proof.
  unfold keep_alive. intros Hs.
  io_step Hs as u s1 Hm1; apply status_same in Hm1 as (_ & Ha1 & _); [|done].
  io_step Hs as u1 s2 Hm2; apply on_conn_inv in Hm2 as (_ & Ha2 & _); [|congruence].
  io_step Hs as f s3 Hm3; apply on_conn_inv in Hm3 as (_ & Ha3 & _); [|congruence].
  destruct (negb _); injection Hs as _ <-; congruence.
Qed.

#[global] Instance forward_sink_laws : BatchSinkLaws Session.
Proof.
  refine {| answers := answered_frames |}; unfold answered_frames.
  - by intros k r k' ->%connect_answered.
  - intros b k r k'. apply write_batch_answers.
  - by intros k r k' ->%keep_alive_answered.
  - done.
Defined.
End Instance.

(** ** From the capture to the gateway *)

Section EndToEnd.
Context {C : Type} `{FrameCacheLaws C} `{IngestLaws} `{CatalogueLib} `{CacheLib} `{Sqlite}.

(** C1: from the capture to the gateway nothing goes missing. However frames
    arrive, the stop signal comes and the network answers, every frame the queue
    accepted or the cache held is in a chunk the gateway acknowledged or the
    dead-letter file took, was counted dropped, or is still on disk, in hand or
    queued; while the cache can be read and emptied the gateway sees them in the
    order they were captured; and the worker can always take the sink's next
    answer. *)
Theorem capture_to_gateway size pct qsize evs (c : C) (k : Session) s k' :
  cache_ok c → answered k = [] → forallb sys_event_ok evs = true →
  sys_steps (conf_of size pct) evs (channel c qsize, k) = Some (s, k') →
  answered_frames k' ++ lost (ghost s) ++ samples_of (cache s) ++ in_hand (pc s) ++ waiting s
    ≡ₚ samples_of c ++ accepted (ghost s) ++ resent (ghost s) ∧
  (unread (ghost s) = false → resent (ghost s) = [] →
   sublist (answered_frames k' ++ samples_of (cache s) ++ in_hand (pc s) ++ waiting s)
     (samples_of c ++ accepted (ghost s))) ∧
  ∀ now, is_Some (sink_answer now (pc s) k') → is_Some (sys_step (conf_of size pct) (SSink now) (s, k')).
Proof.
  intros Hc Hk Hev Hs. destruct (sys_steps_sim _ _ _ _ _ _ Hev Hs) as (es & Hes & Hst & Hag).
  assert (Ha : stored (ghost s) = answered_frames k').
  { apply Hag. unfold agreed. cbn. unfold answered_frames. by rewrite Hk. }
  pose proof (reachable_inv _ _ _ _ _ _ Hc Hes Hst) as Hi. rewrite <-Ha. split_and!.
  - apply (inv_balance _ _ _ Hi).
  - apply (inv_order _ _ _ Hi).
  - intros now [[e k2] He]. cbn [sys_step]. rewrite He.
    destruct (sink_answer_taken (conf_of size pct) _ _ _ _ _ He) as [s2 ->]. by eexists.
Qed.
End EndToEnd.

(** *** A run *)

Import (hints) Wire.Packed CacheFifo.Disk Catalogues.Bench ForwardProofs.Toy.

(** A gateway that is away when the first frame comes, and back for the second:
    the handshake, and an acknowledgement for each batch of one. *)
Definition gateway : Session :=
  Toy.session_of Toy.link
    [None; Some (Toy.stream_of [Toy.message 2 [0; 3]; Toy.message 1 [1; 0]; Toy.message 1 [2; 0]])].

Definition outage : list sys_event :=
  [SFrame 0 sample_frame; SWork; SSink 0; SSink 0; SWork; SWork;
   SFrame 1 modbus_frame; SBackoff; SWork; SSink 1; SWork; SSink 2; SWork; SWork; SWork; SWork; SSink 3].

Notation outage_end := (sys_steps (conf_of 1 50) outage (channel fresh 10, gateway)).

Lemma outage_answered :
  match outage_end with Some (_, k') => bool_decide (answered_frames k' = [sample_frame; modbus_frame]) | None => false end = true.
Proof. vm_compute. reflexivity. Qed.

Lemma capture_to_gateway_witness :
  ∃ (s : State CacheState) k', outage_end = Some (s, k') ∧
    answered_frames k' = [sample_frame; modbus_frame] ∧
    answered_frames k' ++ lost (ghost s) ++ samples_of (cache s) ++ in_hand (pc s) ++ waiting s
      ≡ₚ samples_of fresh ++ accepted (ghost s) ++ resent (ghost s).
Proof.
  pose proof outage_answered as Ho.
  destruct outage_end as [[s k']|] eqn:He; [|discriminate Ho]. exists s, k'.
  split; [reflexivity|]. split; [by apply bool_decide_eq_true in Ho|].
  apply (capture_to_gateway 1 50 10 outage fresh gateway); [exact fresh_ok|reflexivity|vm_compute; reflexivity|exact He].
Defined.
